(** * UK capital gains tax engine: a shallow embedding of [src/lib/cgt-engine.js]

    The development follows the engine file top to bottom: numbers and
    rounding, dates, the tax-year table, the transaction normalizer, the
    disposal matcher with its Section 104 pool, and the report.

    Conventions of the embedding.
    - A JavaScript number is an exact rational ([Q]): sums, products and
      [round2dp] are exact, where the engine computes them in binary
      floating point.  [NaN] and the infinities are not represented.  The
      only raw field that the engine reads without a [|| default] guard is
      [totalAmount], which is therefore typed as "null or a number".
      Where the sign of a rounding residue decides a statement (the cost
      of a pool), the matcher is taken again with every operation rounded
      to the nearest double ([Rounded], [Binary64]).
    - A text is a sequence of ASCII characters.
    - A [Date] is its millisecond timestamp; the invalid date is not
      represented.  The local time zone is taken to be UTC, so local
      calendar fields are the UTC ones and no day is shorter or longer than
      24 hours.
    - The text produced by [formatDateLocal] is kept as its three numbers
      ([DateStr]); reading it back is the ISO branch of [parseDate].
      ([dateText] writes the text out, and [parseDate_dateText] shows that
      [parseDate] reads it back so.)
    - Mutable objects shared by reference (the acquisitions whose
      [remainingQty] is decremented, the pool of a symbol) are a store that
      is threaded through the functions; an acquisition is addressed by its
      position in the [buys] array.
    - The wall clock ([Date.now()], [new Date()]) is an explicit argument.
    - Host functions whose result the language leaves to the implementation
      ([new Date(text)] on free text, [parseFloat] on text,
      [localeCompare]) are the fields of the class [Host]. *)

From Stdlib Require Import ZArith QArith Qround Qabs List String Ascii Bool.
From Stdlib Require Import Lia Lqa DecimalString Morphisms Setoid Permutation Sorted.
From Stdlib Require Import Qpower.
From Stdlib Require Floats.
Import ListNotations.

Open Scope Q_scope.

(** ** Numbers *)

Definition Qltb (x y : Q) : bool := negb (Qle_bool y x).

Definition mathMin (x y : Q) : Q := if Qle_bool x y then x else y.
Definition mathMax (x y : Q) : Q := if Qle_bool x y then y else x.

(** [Math.round]: nearest integer, a tie goes up. *)
Definition mathRound (x : Q) : Z := Qfloor (x + (1 # 2)).

Definition round2dp (num : Q) : Q := inject_Z (mathRound (num * 100)) / 100.

(** [x || d] on numbers: zero is falsy. *)
Definition orNum (x d : Q) : Q := if Qeq_bool x 0 then d else x.

(** [x || d] where [x] may be absent ([undefined], or [NaN]). *)
Definition orDefault (x : option Q) (d : Q) : Q :=
  match x with
  | Some v => orNum v d
  | None => d
  end.

Definition sumQ (l : list Q) : Q := fold_left Qplus l 0.

(** A value with at most two decimals. *)
Definition is2dp (x : Q) : Prop := exists z : Z, x == inject_Z z / 100.

(** ** Dates *)

Record Date := mkDate { getTime : Z }.

Definition msPerDay : Z := (24 * 60 * 60 * 1000)%Z.

(** Days since 1970-01-01 of a proleptic Gregorian date, [m] in 1..12. *)
Definition daysFromCivil (y m d : Z) : Z :=
  let y' := if (m <=? 2)%Z then (y - 1)%Z else y in
  let era := (y' / 400)%Z in
  let yoe := (y' - era * 400)%Z in
  let mp := if (2 <? m)%Z then (m - 3)%Z else (m + 9)%Z in
  let doy := ((153 * mp + 2) / 5 + d - 1)%Z in
  let doe := (yoe * 365 + yoe / 4 - yoe / 100 + doy)%Z in
  (era * 146097 + doe - 719468)%Z.

(** The inverse: year, month (1..12) and day of a day number. *)
Definition civilFromDays (z0 : Z) : Z * Z * Z :=
  let z := (z0 + 719468)%Z in
  let era := (z / 146097)%Z in
  let doe := (z - era * 146097)%Z in
  let yoe := ((doe - doe / 1460 + doe / 36524 - doe / 146096) / 365)%Z in
  let y := (yoe + era * 400)%Z in
  let doy := (doe - (365 * yoe + yoe / 4 - yoe / 100))%Z in
  let mp := ((5 * doy + 2) / 153)%Z in
  let d := (doy - (153 * mp + 2) / 5 + 1)%Z in
  let m := if (mp <? 10)%Z then (mp + 3)%Z else (mp - 9)%Z in
  (if (m <=? 2)%Z then (y + 1)%Z else y, m, d).

Definition dayNumber (date : Date) : Z := (getTime date / msPerDay)%Z.

Definition getFullYear (date : Date) : Z :=
  let '(y, _, _) := civilFromDays (dayNumber date) in y.

(** Zero-based, as in JavaScript. *)
Definition getMonth (date : Date) : Z :=
  let '(_, m, _) := civilFromDays (dayNumber date) in (m - 1)%Z.

Definition getDate (date : Date) : Z :=
  let '(_, _, d) := civilFromDays (dayNumber date) in d.

(** [new Date(year, monthIndex, day)]: midnight of that day; a month index
    or a day out of range carries over, and a year in 0..99 means 19xx.
    The midnight is the one of UTC, as local time is taken to be: on a host
    ahead of UTC the engine's date is earlier than [isoDate] of the same
    day, which is not represented. *)
Definition newDate (year monthIndex day : Z) : Date :=
  let year' := if ((0 <=? year) && (year <=? 99))%Z then (1900 + year)%Z else year in
  let ym := (year' + monthIndex / 12)%Z in
  let mn := (monthIndex mod 12)%Z in
  mkDate ((daysFromCivil ym (mn + 1) 1 + day - 1) * msPerDay)%Z.

(** [new Date("YYYY-MM-DD")] as written in the tax-year table. *)
Definition isoDate (y m d : Z) : Date :=
  mkDate (daysFromCivil y m d * msPerDay)%Z.

Definition dateLt (a b : Date) : bool := (getTime a <? getTime b)%Z.
Definition dateLe (a b : Date) : bool := (getTime a <=? getTime b)%Z.

(** The text [YYYY-MM-DD], kept as its numbers (month 1..12). *)
Record DateStr := mkDateStr { ds_year : Z; ds_month : Z; ds_day : Z }.

Definition formatDateLocal (date : Date) : DateStr :=
  mkDateStr (getFullYear date) (getMonth date + 1) (getDate date).

(** [parseDate] on a text written by [formatDateLocal]. *)
Definition parseDateStr (s : DateStr) : Date :=
  newDate (ds_year s) (ds_month s - 1) (ds_day s).

Definition isSameDay (date1 date2 : Date) : bool :=
  ((getFullYear date1 =? getFullYear date2) &&
   (getMonth date1 =? getMonth date2) &&
   (getDate date1 =? getDate date2))%Z.

Definition getDaysDifference (date1 date2 : Date) : Z :=
  let oneDay := msPerDay in
  mathRound (inject_Z (getTime date2 - getTime date1) / inject_Z oneDay).

(** ** Host functions *)

Class Host := {
  (** [new Date(text)] for a text none of the engine's patterns matches;
      [None] is the invalid date. *)
  dateParseFallback : string -> option Date;
  (** [parseFloat] on a text; [None] is [NaN]. *)
  parseFloatText : string -> option Q;
  (** [a.localeCompare(b)]. *)
  localeCompare : string -> string -> comparison
}.

(** ** Text helpers *)

Definition isDigit (c : ascii) : bool :=
  let n := nat_of_ascii c in (48 <=? n)%nat && (n <=? 57)%nat.

(** The white space that [trim] strips, among the ASCII characters: the
    space and the controls from TAB to CR. *)
Definition isSpace (c : ascii) : bool :=
  let n := nat_of_ascii c in
  (n =? 32)%nat || ((9 <=? n)%nat && (n <=? 13)%nat).

Definition upperChar (c : ascii) : ascii :=
  let n := nat_of_ascii c in
  if (97 <=? n)%nat && (n <=? 122)%nat then ascii_of_nat (n - 32) else c.

Fixpoint dropSpaces (s : list ascii) : list ascii :=
  match s with
  | c :: s' => if isSpace c then dropSpaces s' else s
  | [] => []
  end.

Definition trimChars (s : list ascii) : list ascii :=
  rev (dropSpaces (rev (dropSpaces s))).

Definition trim (s : string) : string :=
  string_of_list_ascii (trimChars (list_ascii_of_string s)).

Definition toUpperCase (s : string) : string :=
  string_of_list_ascii (map upperChar (list_ascii_of_string s)).

(** [parseInt] on a run of decimal digits. *)
Definition parseInt (ds : list ascii) : Z :=
  fold_left (fun acc c => (acc * 10 + Z.of_nat (nat_of_ascii c - 48))%Z) ds 0%Z.

(** [\d{lo,hi}], greedy: the digits taken and the rest. *)
Fixpoint takeDigits (hi : nat) (s : list ascii) : list ascii * list ascii :=
  match hi, s with
  | S hi', c :: s' =>
      if isDigit c
      then let '(ds, rest) := takeDigits hi' s' in (c :: ds, rest)
      else ([], s)
  | _, _ => ([], s)
  end.

Definition digits (lo hi : nat) (s : list ascii) : option (list ascii * list ascii) :=
  let '(ds, rest) := takeDigits hi s in
  if (lo <=? List.length ds)%nat then Some (ds, rest) else None.

Definition expect (c : ascii) (s : list ascii) : option (list ascii) :=
  match s with
  | c' :: s' => if Ascii.eqb c c' then Some s' else None
  | [] => None
  end.

Definition atEnd (s : list ascii) : bool :=
  match s with [] => true | _ => false end.

(** [bind] of the option monad, for the pattern matchers. *)
Definition obind {A B} (x : option A) (f : A -> option B) : option B :=
  match x with Some a => f a | None => None end.

Notation "x <- e ;; k" := (obind e (fun x => k))
  (at level 61, e at next level, right associativity).
Notation "' p <- e ;; k" := (obind e (fun x => let 'p := x in k))
  (at level 61, p pattern, e at next level, right associativity).

(** [/^(\d{4})-(\d{2})-(\d{2})/]: a prefix, whatever follows. *)
Definition matchIso (s : list ascii) : option (list ascii * list ascii * list ascii) :=
  '(y, s1) <- digits 4 4 s ;;
  s2 <- expect "-" s1 ;;
  '(m, s3) <- digits 2 2 s2 ;;
  s4 <- expect "-" s3 ;;
  '(d, _) <- digits 2 2 s4 ;;
  Some (y, m, d).

(** [/^(\d{1,2})\/(\d{1,2})\/(\d{4})$/]. *)
Definition matchSlash (s : list ascii) : option (list ascii * list ascii * list ascii) :=
  '(a, s1) <- digits 1 2 s ;;
  s2 <- expect "/" s1 ;;
  '(b, s3) <- digits 1 2 s2 ;;
  s4 <- expect "/" s3 ;;
  '(y, s5) <- digits 4 4 s4 ;;
  if atEnd s5 then Some (a, b, y) else None.

(** [/^(\d{2})-(\d{2})-(\d{4})$/]. *)
Definition matchDash (s : list ascii) : option (list ascii * list ascii * list ascii) :=
  '(d, s1) <- digits 2 2 s ;;
  s2 <- expect "-" s1 ;;
  '(m, s3) <- digits 2 2 s2 ;;
  s4 <- expect "-" s3 ;;
  '(y, s5) <- digits 4 4 s4 ;;
  if atEnd s5 then Some (d, m, y) else None.

Fixpoint untilSpace (s : list ascii) : list ascii :=
  match s with
  | c :: s' => if Ascii.eqb c " " then [] else c :: untilSpace s'
  | [] => []
  end.

Definition includesSpace (s : list ascii) : bool :=
  existsb (fun c => Ascii.eqb c " ") s.

(** ** The console *)

Inductive ConsoleMsg :=
| WarnNullDate
| WarnEmptyDate
| WarnUnparseable (text : string)
| WarnSkipping
| WarnOutsideTaxYears (date : DateStr) (label : string).

(** ** parseDate *)

Inductive RawDate :=
| RawDateObject (d : Date)
| RawAbsent
| RawText (s : string).

Section WithHost.
Context {host : Host}.

Definition parseDate (dateStr : RawDate) : option Date * list ConsoleMsg :=
  match dateStr with
  | RawDateObject d => (Some d, [])
  | RawAbsent => (None, [WarnNullDate])
  | RawText text =>
      if String.eqb text "" then (None, [WarnNullDate]) else
      let str := trimChars (list_ascii_of_string text) in
      if atEnd str then (None, [WarnEmptyDate]) else
      match matchIso str with
      | Some (year, month, day) =>
          (Some (newDate (parseInt year) (parseInt month - 1) (parseInt day)), [])
      | None =>
      match matchSlash str with
      | Some (first, second, year) =>
          let firstNum := parseInt first in
          let secondNum := parseInt second in
          let yearNum := parseInt year in
          if (12 <? firstNum)%Z then
            (Some (newDate yearNum (secondNum - 1) firstNum), [])
          else if (12 <? secondNum)%Z then
            (Some (newDate yearNum (firstNum - 1) secondNum), [])
          else
            (Some (newDate yearNum (firstNum - 1) secondNum), [])
      | None =>
      match matchDash str with
      | Some (day, month, year) =>
          (Some (newDate (parseInt year) (parseInt month - 1) (parseInt day)), [])
      | None =>
      match (if includesSpace str
             then obind (matchIso str) (fun _ => matchIso (untilSpace str))
             else None) with
      | Some (year, month, day) =>
          (Some (newDate (parseInt year) (parseInt month - 1) (parseInt day)), [])
      | None =>
      match dateParseFallback (string_of_list_ascii str) with
      | Some parsed => (Some parsed, [])
      | None => (None, [WarnUnparseable text])
      end end end end end
  end.

End WithHost.

(** ** The tax-year table *)

Record TaxYearConfig := mkConfig {
  cfg_start : Date;
  cfg_end : Date;
  cfg_annualExemption : Q;
  cfg_rateChangeDate : option Date;
  cfg_basicRateSharesPre : option Q;
  cfg_higherRateSharesPre : option Q;
  cfg_basicRateSharesPost : option Q;
  cfg_higherRateSharesPost : option Q;
  cfg_basicRateShares : Q;
  cfg_higherRateShares : Q;
  cfg_basicRateProperty : Q;
  cfg_higherRateProperty : Q
}.

(** An entry without a rate change. *)
Definition plainYear (y : Z) (exemption higherProperty : Q) : TaxYearConfig :=
  mkConfig (isoDate y 4 6) (isoDate (y + 1) 4 5) exemption
           None None None None None 0.10 0.20 0.18 higherProperty.

Definition TAX_YEARS : list (string * TaxYearConfig) :=
  [ ("2025/26"%string, plainYear 2025 3000 0.24);
    ("2024/25"%string,
     mkConfig (isoDate 2024 4 6) (isoDate 2025 4 5) 3000
              (Some (isoDate 2024 10 30))
              (Some 0.10) (Some 0.20) (Some 0.18) (Some 0.24)
              0.18 0.24 0.18 0.24);
    ("2023/24"%string, plainYear 2023 6000 0.28);
    ("2022/23"%string, plainYear 2022 12300 0.28);
    ("2021/22"%string, plainYear 2021 12300 0.28);
    ("2020/21"%string, plainYear 2020 12300 0.28);
    ("2019/20"%string, plainYear 2019 12000 0.28);
    ("2018/19"%string, plainYear 2018 11700 0.28);
    ("2017/18"%string, plainYear 2017 11300 0.28) ].

(** [TAX_YEARS[label]]. *)
Definition taxYearConfig (label : string) : option TaxYearConfig :=
  option_map snd (find (fun e => String.eqb (fst e) label) TAX_YEARS).

Definition numberToString (z : Z) : string :=
  NilZero.string_of_int (Z.to_int z).

(** [s.slice(-2)]. *)
Definition sliceLast2 (s : string) : string :=
  let cs := list_ascii_of_string s in
  string_of_list_ascii (skipn (List.length cs - 2) cs).

Definition taxYearLabel (taxYearStart : Z) : string :=
  (numberToString taxYearStart ++ "/" ++
   sliceLast2 (numberToString (taxYearStart + 1)))%string.

(** The tax year that starts on 6 April: the branch of [getTaxYear] for a
    date outside the table. *)
Definition dynamicTaxYearStart (date : Date) : Z :=
  let year := getFullYear date in
  let month := getMonth date in
  let day := getDate date in
  if ((month <? 3) || ((month =? 3) && (day <? 6)))%Z
  then (year - 1)%Z
  else year.

Definition getTaxYear (date : Date) : (string * TaxYearConfig) * list ConsoleMsg :=
  match find (fun e => dateLe (cfg_start (snd e)) date && dateLe date (cfg_end (snd e)))
             TAX_YEARS with
  | Some (year, config) => ((year, config), [])
  | None =>
      let taxYearStart := dynamicTaxYearStart date in
      let taxYearLabel := taxYearLabel taxYearStart in
      ((taxYearLabel,
        mkConfig (isoDate taxYearStart 4 6) (isoDate (taxYearStart + 1) 4 5)
                 11300 None None None None None 0.10 0.20 0.18 0.28),
       [WarnOutsideTaxYears (formatDateLocal date) taxYearLabel])
  end.

(** ** Objects used as maps

    Property order is the language's: keys that are array indices first, in
    ascending numeric order, then the other keys in insertion order. *)

Definition JsObject (V : Type) : Type := list (string * V).

Definition arrayIndex (key : string) : option Z :=
  let cs := list_ascii_of_string key in
  match cs with
  | [] => None
  | c :: rest =>
      if forallb isDigit cs
         && (negb (Ascii.eqb c "0") || atEnd rest)
         && (parseInt cs <? 4294967295)%Z
      then Some (parseInt cs)
      else None
  end.

Definition objGet {V} (o : JsObject V) (key : string) : option V :=
  option_map snd (find (fun e => String.eqb (fst e) key) o).

Definition objHas {V} (o : JsObject V) (key : string) : bool :=
  existsb (fun e => String.eqb (fst e) key) o.

Fixpoint objReplace {V} (o : JsObject V) (key : string) (v : V) : JsObject V :=
  match o with
  | [] => []
  | (k, w) :: o' =>
      if String.eqb k key then (k, v) :: o' else (k, w) :: objReplace o' key v
  end.

Fixpoint objInsertIndex {V} (o : JsObject V) (n : Z) (key : string) (v : V) : JsObject V :=
  match o with
  | [] => [(key, v)]
  | (k, w) :: o' =>
      match arrayIndex k with
      | Some m => if (m <? n)%Z then (k, w) :: objInsertIndex o' n key v
                  else (key, v) :: o
      | None => (key, v) :: o
      end
  end.

Definition objSet {V} (o : JsObject V) (key : string) (v : V) : JsObject V :=
  if objHas o key then objReplace o key v
  else match arrayIndex key with
       | Some n => objInsertIndex o n key v
       | None => o ++ [(key, v)]
       end.

(** ** Arrays *)

(** [arr.sort(cmp)] for a comparator that orders by a key: the sort is
    stable, so equal keys keep their order. *)
Fixpoint insertSorted {A} (le : A -> A -> bool) (x : A) (l : list A) : list A :=
  match l with
  | [] => [x]
  | y :: l' => if le x y then x :: l else y :: insertSorted le x l'
  end.

Definition stableSort {A} (le : A -> A -> bool) (l : list A) : list A :=
  fold_right (insertSorted le) [] l.

(** [arr.map((x, index) => ...)]. *)
Fixpoint mapi_from {A B} (f : A -> nat -> B) (i : nat) (l : list A) : list B :=
  match l with
  | [] => []
  | x :: l' => f x i :: mapi_from f (S i) l'
  end.

Definition mapi {A B} (f : A -> nat -> B) (l : list A) : list B := mapi_from f 0 l.

(** [arr[i] = v] for an index in range. *)
Fixpoint setNth {A} (l : list A) (i : nat) (v : A) : list A :=
  match l, i with
  | [], _ => []
  | _ :: l', O => v :: l'
  | x :: l', S i' => x :: setNth l' i' v
  end.

(** The positions of the elements that pass a test: [arr.filter] when the
    elements are objects that stay shared with [arr]. *)
Definition filterIndices {A} (f : A -> bool) (l : list A) : list nat :=
  map fst (filter (fun p => f (snd p)) (combine (seq 0 (List.length l)) l)).

(** ** Transactions *)

(** A raw field that the normalizer passes to [parseFloat]. *)
Inductive JsVal :=
| JsUndefined
| JsNull
| JsNumber (q : Q)
| JsText (s : string).

Record RawTransaction := mkRaw {
  raw_date : RawDate;
  raw_type : string;
  raw_symbol : string;
  raw_assetName : option string;
  raw_quantity : JsVal;
  raw_pricePerUnit : JsVal;
  raw_totalAmount : option Q;   (* [None] is [null] *)
  raw_fees : JsVal;
  raw_currency : option string;
  raw_exchangeRate : JsVal;
  raw_broker : option string
}.

(** The identifier [txn-<index>-<Date.now()>]. *)
Record TxnId := mkTxnId { id_index : nat; id_stamp : Z }.

Record Transaction := mkTxn {
  t_id : TxnId;
  t_date : Date;
  t_type : string;
  t_symbol : string;
  t_assetName : string;
  t_quantity : Q;
  t_pricePerUnit : Q;
  t_totalAmount : option Q;
  t_fees : Q;
  t_currency : string;
  t_exchangeRate : Q;
  t_broker : string;
  t_used : bool;
  t_remainingQty : Q
}.

Definition withRemainingQty (t : Transaction) (q : Q) : Transaction :=
  mkTxn (t_id t) (t_date t) (t_type t) (t_symbol t) (t_assetName t)
        (t_quantity t) (t_pricePerUnit t) (t_totalAmount t) (t_fees t)
        (t_currency t) (t_exchangeRate t) (t_broker t) (t_used t) q.

(** [s || d] on texts: the empty text and a missing field are falsy. *)
Definition orText (s : option string) (d : string) : string :=
  match s with
  | Some v => if String.eqb v "" then d else v
  | None => d
  end.

(** The readings of the wall clock during one run: [nowAt i] while the
    record at position [i] is normalized, [reportNow] when the report is
    assembled. *)
Record Clock := mkClock { nowAt : nat -> Z; reportNow : Z }.

Section Normalizer.
Context {host : Host}.

Definition parseFloat (v : JsVal) : option Q :=
  match v with
  | JsNumber q => Some q
  | JsText s => parseFloatText s
  | JsUndefined | JsNull => None
  end.

(** The callback of [map] in [normalizeTransactions]: [None] is [null]. *)
Definition normalizeOne (clock : Clock) (t : RawTransaction) (index : nat)
  : option Transaction * list ConsoleMsg :=
  let '(parsedDate, msgs) := parseDate (raw_date t) in
  match parsedDate with
  | None => (None, msgs ++ [WarnSkipping])
  | Some parsedDate =>
      (Some {|
         t_id := mkTxnId index (nowAt clock index);
         t_date := parsedDate;
         t_type := toUpperCase (raw_type t);
         t_symbol := trim (toUpperCase (raw_symbol t));
         t_assetName := orText (raw_assetName t) (raw_symbol t);
         t_quantity := Qabs (orDefault (parseFloat (raw_quantity t)) 0);
         t_pricePerUnit := orDefault (parseFloat (raw_pricePerUnit t)) 0;
         t_totalAmount := raw_totalAmount t;
         t_fees := orDefault (parseFloat (raw_fees t)) 0;
         t_currency := orText (raw_currency t) "GBP";
         t_exchangeRate := orDefault (parseFloat (raw_exchangeRate t)) 1;
         t_broker := orText (raw_broker t) "Unknown";
         t_used := false;
         t_remainingQty := Qabs (orDefault (parseFloat (raw_quantity t)) 0)
       |}, msgs)
  end.

Definition keepTransaction (t : option Transaction) : bool :=
  match t with
  | Some t => Qltb 0 (t_quantity t)
  | None => false
  end.

Fixpoint somes {A} (l : list (option A)) : list A :=
  match l with
  | [] => []
  | Some x :: l' => x :: somes l'
  | None :: l' => somes l'
  end.

Definition byDate (a b : Transaction) : bool := dateLe (t_date a) (t_date b).

Definition normalizeTransactions (clock : Clock) (transactions : list RawTransaction)
  : list Transaction * list ConsoleMsg :=
  let mapped := mapi (normalizeOne clock) transactions in
  (stableSort byDate (somes (filter keepTransaction (map fst mapped))),
   List.concat (map snd mapped)).

End Normalizer.

(** ** Cost and proceeds of a tranche *)

Definition calculateCost (transaction : Transaction) (quantity : Q) : Q :=
  let proportion := quantity / t_quantity transaction in
  let baseCost := match t_totalAmount transaction with
                  | Some totalAmount => totalAmount * proportion
                  | None => quantity * t_pricePerUnit transaction
                  end in
  let fees := t_fees transaction * proportion in
  round2dp ((baseCost + fees) / t_exchangeRate transaction).

Definition calculateProceeds (transaction : Transaction) (quantity : Q) : Q :=
  let proportion := quantity / t_quantity transaction in
  let baseProceeds := match t_totalAmount transaction with
                      | Some totalAmount => totalAmount * proportion
                      | None => quantity * t_pricePerUnit transaction
                      end in
  let fees := t_fees transaction * proportion in
  round2dp ((baseProceeds - fees) / t_exchangeRate transaction).

(** ** The calculator's data *)

Record Pool := mkPool { p_quantity : Q; p_cost : Q }.

Inductive Rule := SAME_DAY | BED_AND_BREAKFAST | SECTION_104.

(** [bnbImpact]; the explanation text is kept as the side it reports
    ([true]: the cost basis increased) and the amount it prints. *)
Record BnbImpact := mkImpact {
  s104CostPerShareWouldBe : Q;
  actualCostPerShare : Q;
  costDifference : Q;
  explanationIncreased : bool;
  explanationAmount : Q
}.

(** What only the bed-and-breakfast details carry. *)
Record BnbInfo := mkBnbInfo {
  daysDifference : Z;
  originalCurrency : string;
  originalCostPerShare : Q;
  exchangeRate : Q;
  bnbImpact : BnbImpact
}.

(** What only the pool details carry. *)
Record PoolInfo := mkPoolInfo {
  averageCost : Q;
  poolQuantityBefore : Q;
  poolQuantityAfter : Q
}.

(** What the details of the two acquisition rules carry. *)
Record AcqInfo := mkAcqInfo {
  acquisitionDate : DateStr;
  broker : string;
  isRSU : bool
}.

Record MatchDetail := mkDetail {
  md_rule : Rule;
  md_quantity : Q;
  md_cost : Q;
  md_costPerShare : Q;
  md_proceedsPerShare : Q;
  md_gainPerShare : Q;
  md_acq : option AcqInfo;
  md_bnb : option BnbInfo;
  md_pool : option PoolInfo
}.

Record Disposal := mkDisposal {
  d_id : TxnId;
  d_symbol : string;
  d_assetName : string;
  d_date : DateStr;
  d_quantity : Q;
  d_proceeds : Q;
  d_proceedsPerShare : Q;
  d_cost : Q;
  d_costPerShare : Q;
  d_gain : Q;
  d_gainPerShare : Q;
  d_taxYear : string;
  d_matchDetails : list MatchDetail;
  d_broker : string
}.

Record Acquisition := mkAcquisition {
  a_symbol : string;
  a_date : DateStr;
  a_quantity : Q;
  a_totalCost : Q;
  a_costPerShare : Q;
  a_broker : string;
  a_isRSU : bool;
  a_priceSource : string
}.

Inductive ErrorType := UNMATCHED_DISPOSAL.

(** An entry of [errors]; its [message] repeats the other fields in a
    sentence and is left out. *)
Record EngineError := mkError {
  err_type : ErrorType;
  err_symbol : string;
  err_date : DateStr;
  err_unmatchedQuantity : Q
}.

Record PoolView := mkPoolView { pv_quantity : Q; pv_cost : Q; pv_avgCost : Q }.

Record HistoryEntry := mkHistory {
  h_date : DateStr;
  h_quantity : Q;
  h_cost : Q;
  h_costPerShare : Q;
  h_poolBefore : PoolView;
  h_poolAfter : PoolView;
  h_isRSU : bool;
  h_broker : string
}.

Record Calculator := mkCalculator {
  section104Pools : JsObject Pool;
  section104History : JsObject (list HistoryEntry);
  disposals : list Disposal;
  acquisitions : list Acquisition;
  errors : list EngineError;
  console : list ConsoleMsg
}.

(** [new CGTCalculator()]. *)
Definition newCalculator : Calculator := mkCalculator [] [] [] [] [] [].

(** ** The disposal matcher *)

(** The local variables of [processDisposal] that its loops update,
    together with the [buys] array whose elements they mutate. *)
Record MatchAcc := mkAcc {
  acc_remainingQty : Q;
  acc_totalCost : Q;
  acc_matchDetails : list MatchDetail;
  acc_buys : list Transaction
}.

(** [for (const buy of candidates) { if (remainingQty <= 0) break; ... }]:
    the candidates are positions in [buys]. *)
Fixpoint forEachUntilMatched (body : nat -> MatchAcc -> MatchAcc)
         (candidates : list nat) (acc : MatchAcc) : MatchAcc :=
  match candidates with
  | [] => acc
  | i :: rest =>
      if Qle_bool (acc_remainingQty acc) 0 then acc
      else forEachUntilMatched body rest (body i acc)
  end.

Definition isSchwab (b : string) : bool := String.eqb b "Charles Schwab".

(** Body of the same-day loop. *)
Definition sameDayBody (proceedsPerShare : Q) (i : nat) (acc : MatchAcc) : MatchAcc :=
  match nth_error (acc_buys acc) i with
  | None => acc
  | Some buy =>
      let matchQty := mathMin (acc_remainingQty acc) (t_remainingQty buy) in
      let matchCost := calculateCost buy matchQty in
      let costPerShare := round2dp (matchCost / matchQty) in
      mkAcc (acc_remainingQty acc - matchQty)
            (acc_totalCost acc + matchCost)
            (acc_matchDetails acc ++
             [mkDetail SAME_DAY matchQty matchCost costPerShare proceedsPerShare
                       (round2dp (proceedsPerShare - costPerShare))
                       (Some (mkAcqInfo (formatDateLocal (t_date buy)) (t_broker buy)
                                        (isSchwab (t_broker buy))))
                       None None])
            (setNth (acc_buys acc) i
                    (withRemainingQty buy (t_remainingQty buy - matchQty)))
  end.

(** Body of the bed-and-breakfast loop; the pool is only read. *)
Definition bnbBody (pool : Pool) (disposal : Transaction) (proceedsPerShare : Q)
           (i : nat) (acc : MatchAcc) : MatchAcc :=
  match nth_error (acc_buys acc) i with
  | None => acc
  | Some buy =>
      let matchQty := mathMin (acc_remainingQty acc) (t_remainingQty buy) in
      let matchCost := calculateCost buy matchQty in
      let costPerShare := round2dp (matchCost / matchQty) in
      let daysDiff := getDaysDifference (t_date disposal) (t_date buy) in
      let s104AvgCost := if Qltb 0 (p_quantity pool)
                         then round2dp (p_cost pool / p_quantity pool) else 0 in
      let originalCurrency := orText (Some (t_currency buy)) "GBP" in
      let originalCostPerShare := round2dp (t_pricePerUnit buy) in
      let exchangeRate := orNum (t_exchangeRate buy) 1 in
      let increased := Qltb s104AvgCost costPerShare in
      mkAcc (acc_remainingQty acc - matchQty)
            (acc_totalCost acc + matchCost)
            (acc_matchDetails acc ++
             [mkDetail BED_AND_BREAKFAST matchQty matchCost costPerShare proceedsPerShare
                       (round2dp (proceedsPerShare - costPerShare))
                       (Some (mkAcqInfo (formatDateLocal (t_date buy)) (t_broker buy)
                                        (isSchwab (t_broker buy))))
                       (Some (mkBnbInfo daysDiff originalCurrency originalCostPerShare
                                exchangeRate
                                (mkImpact s104AvgCost costPerShare
                                   (round2dp (costPerShare - s104AvgCost))
                                   increased
                                   (if increased
                                    then round2dp (costPerShare - s104AvgCost)
                                    else round2dp (s104AvgCost - costPerShare)))))
                       None])
            (setNth (acc_buys acc) i
                    (withRemainingQty buy (t_remainingQty buy - matchQty)))
  end.

Definition isSameDayCandidate (disposal b : Transaction) : bool :=
  isSameDay (t_date b) (t_date disposal) && Qltb 0 (t_remainingQty b).

Definition isBnbCandidate (disposal b : Transaction) : bool :=
  let daysDiff := getDaysDifference (t_date disposal) (t_date b) in
  (0 <? daysDiff)%Z && (daysDiff <=? 30)%Z && Qltb 0 (t_remainingQty b).

Definition isEarlierBuy (disposal b : Transaction) : bool :=
  dateLt (t_date b) (t_date disposal) && Qltb 0 (t_remainingQty b).

(** The timestamp of the acquisition at a position. *)
Definition timeAt (buys : list Transaction) (i : nat) : Z :=
  match nth_error buys i with
  | Some b => getTime (t_date b)
  | None => 0%Z
  end.

Definition byTimeAt (buys : list Transaction) (i j : nat) : bool :=
  (timeAt buys i <=? timeAt buys j)%Z.

(** Body of the loop that rolls the earlier acquisitions into the pool. *)
Definition rollInBody (st : Pool * list Transaction) (i : nat) : Pool * list Transaction :=
  let '(pool, buys) := st in
  match nth_error buys i with
  | None => st
  | Some buy =>
      let cost := calculateCost buy (t_remainingQty buy) in
      (mkPool (p_quantity pool + t_remainingQty buy) (p_cost pool + cost),
       setNth buys i (withRemainingQty buy 0))
  end.

(** The draw from the pool, once the earlier acquisitions are in it. *)
Definition drawFromPool (proceedsPerShare : Q) (pool : Pool) (acc : MatchAcc)
  : Pool * MatchAcc :=
  if Qltb 0 (p_quantity pool) then
    let matchQty := mathMin (acc_remainingQty acc) (p_quantity pool) in
    let avgCost := p_cost pool / p_quantity pool in
    let matchCost := round2dp (matchQty * avgCost) in
    let costPerShare := round2dp avgCost in
    let pool' := mkPool (p_quantity pool - matchQty) (p_cost pool - matchCost) in
    (pool',
     mkAcc (acc_remainingQty acc - matchQty)
           (acc_totalCost acc + matchCost)
           (acc_matchDetails acc ++
            [mkDetail SECTION_104 matchQty matchCost costPerShare proceedsPerShare
                      (round2dp (proceedsPerShare - costPerShare))
                      None None
                      (Some (mkPoolInfo (round2dp avgCost)
                                        (round2dp (p_quantity pool' + matchQty))
                                        (round2dp (p_quantity pool'))))])
           (acc_buys acc))
  else (pool, acc).

(** Rule 1. *)
Definition sameDayStage (disposal : Transaction) (proceedsPerShare : Q)
           (buys : list Transaction) : MatchAcc :=
  let sameDayBuys := filterIndices (isSameDayCandidate disposal) buys in
  forEachUntilMatched (sameDayBody proceedsPerShare) sameDayBuys
                      (mkAcc (t_quantity disposal) 0 [] buys).

(** Rule 2. *)
Definition bnbStage (pool : Pool) (disposal : Transaction) (proceedsPerShare : Q)
           (acc : MatchAcc) : MatchAcc :=
  if Qltb 0 (acc_remainingQty acc) then
    let bnbBuys := stableSort (byTimeAt (acc_buys acc))
                     (filterIndices (isBnbCandidate disposal) (acc_buys acc)) in
    forEachUntilMatched (bnbBody pool disposal proceedsPerShare) bnbBuys acc
  else acc.

(** Rule 3. *)
Definition poolStage (pool : Pool) (disposal : Transaction) (proceedsPerShare : Q)
           (acc : MatchAcc) : Pool * MatchAcc :=
  if Qltb 0 (acc_remainingQty acc) then
    let earlierBuys := filterIndices (isEarlierBuy disposal) (acc_buys acc) in
    let '(pool1, buys1) := fold_left rollInBody earlierBuys (pool, acc_buys acc) in
    drawFromPool proceedsPerShare pool1
      (mkAcc (acc_remainingQty acc) (acc_totalCost acc) (acc_matchDetails acc) buys1)
  else (pool, acc).

(** What one call of [processDisposal] leaves behind: the symbol's pool and
    the [buys] array after their updates, the entry pushed on [errors] if
    any, the entry pushed on [disposals], and the console output. *)
Record DisposalOutcome := mkOutcome {
  out_pool : Pool;
  out_buys : list Transaction;
  out_error : option EngineError;
  out_disposal : Disposal;
  out_console : list ConsoleMsg
}.

(** [pool] is [this.section104Pools[symbol]], which [processSymbol] has
    created before the first call. *)
Definition processDisposal (symbol : string) (disposal : Transaction)
           (buys : list Transaction) (pool : Pool) : DisposalOutcome :=
  let proceeds := calculateProceeds disposal (t_quantity disposal) in
  let proceedsPerShare := round2dp (proceeds / t_quantity disposal) in
  let acc1 := sameDayStage disposal proceedsPerShare buys in
  let acc2 := bnbStage pool disposal proceedsPerShare acc1 in
  let '(pool3, acc3) := poolStage pool disposal proceedsPerShare acc2 in
  let remainingQty := acc_remainingQty acc3 in
  let totalCost := acc_totalCost acc3 in
  let error := if Qltb 0 remainingQty
               then Some (mkError UNMATCHED_DISPOSAL symbol
                                  (formatDateLocal (t_date disposal)) remainingQty)
               else None in
  let gain := round2dp (proceeds - totalCost) in
  let '(taxYear, msgs) := getTaxYear (t_date disposal) in
  let costPerShare := if Qltb 0 (t_quantity disposal)
                      then round2dp (totalCost / t_quantity disposal) else 0 in
  mkOutcome pool3 (acc_buys acc3) error
    (mkDisposal (t_id disposal) symbol (t_assetName disposal)
                (formatDateLocal (t_date disposal)) (t_quantity disposal)
                (round2dp proceeds) proceedsPerShare (round2dp totalCost)
                costPerShare gain (round2dp (gain / t_quantity disposal))
                (fst taxYear) (acc_matchDetails acc3) (t_broker disposal))
    msgs.

(** ** Processing one symbol *)

Definition acquisitionOf (symbol : string) (buy : Transaction) : Acquisition :=
  let cost := calculateCost buy (t_quantity buy) in
  let costPerShare := round2dp (cost / t_quantity buy) in
  mkAcquisition symbol (formatDateLocal (t_date buy)) (t_quantity buy)
                (round2dp cost) costPerShare (t_broker buy)
                (isSchwab (t_broker buy) && Qltb 0 (t_pricePerUnit buy))
                "csv".

Definition poolView (pool : Pool) : PoolView :=
  mkPoolView (p_quantity pool) (p_cost pool)
             (if Qltb 0 (p_quantity pool)
              then round2dp (p_cost pool / p_quantity pool) else 0).

(** The state the loop over the sells threads: the symbol's pool, the
    [buys] array, and the three lists of the calculator it pushes on. *)
Record SymbolState := mkSymbolState {
  ss_pool : Pool;
  ss_buys : list Transaction;
  ss_errors : list EngineError;
  ss_disposals : list Disposal;
  ss_console : list ConsoleMsg
}.

Definition optionToList {A} (x : option A) : list A :=
  match x with Some a => [a] | None => [] end.

Definition sellBody (symbol : string) (st : SymbolState) (disposal : Transaction)
  : SymbolState :=
  let out := processDisposal symbol disposal (ss_buys st) (ss_pool st) in
  mkSymbolState (out_pool out) (out_buys out)
                (ss_errors st ++ optionToList (out_error out))
                (ss_disposals st ++ [out_disposal out])
                (ss_console st ++ out_console out).

(** Body of the last loop of [processSymbol]: what is left of an
    acquisition joins the pool; its [remainingQty] is not reset. *)
Definition finalRollInBody (st : Pool * list HistoryEntry) (buy : Transaction)
  : Pool * list HistoryEntry :=
  let '(pool, history) := st in
  if Qltb 0 (t_remainingQty buy) then
    let cost := calculateCost buy (t_remainingQty buy) in
    let poolBefore := poolView pool in
    let pool' := mkPool (p_quantity pool + t_remainingQty buy) (p_cost pool + cost) in
    let poolAfter := mkPoolView (p_quantity pool') (p_cost pool')
                                (round2dp (p_cost pool' / p_quantity pool')) in
    (pool',
     history ++ [mkHistory (formatDateLocal (t_date buy)) (t_remainingQty buy)
                           (round2dp cost) (round2dp (cost / t_remainingQty buy))
                           poolBefore poolAfter (isSchwab (t_broker buy))
                           (t_broker buy)])
  else st.

Definition isBuy (t : Transaction) : bool := String.eqb (t_type t) "BUY".
Definition isSell (t : Transaction) : bool := String.eqb (t_type t) "SELL".

(** The pool of a symbol, created empty when it is missing. *)
Definition poolOf (calc : Calculator) (symbol : string) : Pool :=
  match objGet (section104Pools calc) symbol with
  | Some p => p
  | None => mkPool 0 0
  end.

Definition historyOf (calc : Calculator) (symbol : string) : list HistoryEntry :=
  match objGet (section104History calc) symbol with
  | Some h => h
  | None => []
  end.

Definition processSymbol (symbol : string) (transactions : list Transaction)
           (calc : Calculator) : Calculator :=
  let buys := filter isBuy transactions in
  let sells := filter isSell transactions in
  let acquisitions' := acquisitions calc ++ map (acquisitionOf symbol) buys in
  let st := fold_left (sellBody symbol) sells
              (mkSymbolState (poolOf calc symbol) buys (errors calc)
                             (disposals calc) (console calc)) in
  let '(pool, history) :=
    fold_left finalRollInBody (ss_buys st) (ss_pool st, historyOf calc symbol) in
  mkCalculator (objSet (section104Pools calc) symbol pool)
               (objSet (section104History calc) symbol history)
               (ss_disposals st) acquisitions' (ss_errors st) (ss_console st).

(** ** Year-boundary snapshots of the pools *)

Inductive EventType := ACQ | DISP.

Record PoolEvent := mkEvent {
  ev_date : Date;
  ev_type : EventType;
  ev_symbol : string;
  ev_quantity : Q;
  ev_cost : Q
}.

Record PoolSummary := mkPoolSummary {
  ps_symbol : string;
  ps_quantity : Q;
  ps_totalCost : Q;
  ps_averageCost : Q
}.

Record YearSnapshots := mkSnapshots {
  snap_start : list PoolSummary;
  snap_end : list PoolSummary
}.

Definition acquisitionEvent (acq : Acquisition) : PoolEvent :=
  mkEvent (parseDateStr (a_date acq)) ACQ (a_symbol acq) (a_quantity acq) (a_totalCost acq).

Definition disposalEvent (disp : Disposal) : PoolEvent :=
  mkEvent (parseDateStr (d_date disp)) DISP (d_symbol disp) (d_quantity disp) (d_cost disp).

Definition byEventDate (a b : PoolEvent) : bool := dateLe (ev_date a) (ev_date b).

Definition applyEvent (s104 : JsObject Pool) (event : PoolEvent) : JsObject Pool :=
  let pool := match objGet s104 (ev_symbol event) with
              | Some p => p
              | None => mkPool 0 0
              end in
  objSet s104 (ev_symbol event)
    (match ev_type event with
     | ACQ => mkPool (p_quantity pool + ev_quantity event) (p_cost pool + ev_cost event)
     | DISP => mkPool (p_quantity pool - ev_quantity event) (p_cost pool - ev_cost event)
     end).

(** [for (const event of allEvents) { if (stop) break; ... }]. *)
Fixpoint replayUntil (stop : PoolEvent -> bool) (allEvents : list PoolEvent)
         (s104 : JsObject Pool) : JsObject Pool :=
  match allEvents with
  | [] => s104
  | event :: rest =>
      if stop event then s104 else replayUntil stop rest (applyEvent s104 event)
  end.

(** [[...new Set(arr)]]: the first occurrence of each text, in order. *)
Fixpoint uniqueTexts (seen l : list string) : list string :=
  match l with
  | [] => []
  | x :: l' =>
      if existsb (String.eqb x) seen then uniqueTexts seen l'
      else x :: uniqueTexts (x :: seen) l'
  end.

Section Reporting.
Context {host : Host}.

Definition localeLe (a b : string) : bool :=
  match localeCompare a b with Gt => false | _ => true end.

Definition snapshotArray (s104 : JsObject Pool) : list PoolSummary :=
  stableSort (fun a b => localeLe (ps_symbol a) (ps_symbol b))
    (map (fun e => let '(symbol, pool) := e in
                   mkPoolSummary symbol (round2dp (p_quantity pool))
                                 (round2dp (p_cost pool))
                                 (if Qltb 0 (p_quantity pool)
                                  then round2dp (p_cost pool / p_quantity pool) else 0))
         (filter (fun e => Qltb 0.001 (p_quantity (snd e))) s104)).

Definition snapshotYearBody (allEvents : list PoolEvent)
           (snapshots : JsObject YearSnapshots) (taxYear : string)
  : JsObject YearSnapshots :=
  match taxYearConfig taxYear with
  | None => snapshots
  | Some config =>
      let yearStart := cfg_start config in
      let yearEnd := cfg_end config in
      let s104AtStart :=
        replayUntil (fun event => dateLe yearStart (ev_date event)) allEvents [] in
      let s104AtEnd :=
        replayUntil (fun event => dateLt yearEnd (ev_date event)) allEvents [] in
      objSet snapshots taxYear
             (mkSnapshots (snapshotArray s104AtStart) (snapshotArray s104AtEnd))
  end.

Definition calculateSection104Snapshots (calc : Calculator) : JsObject YearSnapshots :=
  let allEvents :=
    stableSort byEventDate
      (map acquisitionEvent (acquisitions calc) ++ map disposalEvent (disposals calc)) in
  let taxYears :=
    stableSort String.leb (uniqueTexts [] (map d_taxYear (disposals calc))) in
  fold_left (snapshotYearBody allEvents) taxYears [].

End Reporting.

(** ** The report *)

Record YearData := mkYearData {
  yd_year : string;
  yd_config : option TaxYearConfig;
  yd_disposals : list Disposal;
  yd_totalGains : Q;
  yd_totalLosses : Q
}.

Record RateSide := mkRateSide {
  rs_gains : Q;
  rs_losses : Q;
  rs_netGain : Q;
  rs_basicRate : Q;
  rs_higherRate : Q;
  rs_disposalCount : nat
}.

Record RateChange := mkRateChange {
  rc_date : DateStr;
  rc_preOctober : RateSide;
  rc_postOctober : RateSide
}.

Record TaxYearSummary := mkSummary {
  ty_taxYear : string;
  ty_numberOfDisposals : nat;
  ty_totalProceeds : Q;
  ty_totalCost : Q;
  ty_totalGains : Q;
  ty_totalLosses : Q;
  ty_netGain : Q;
  ty_annualExemption : Q;
  ty_taxableGain : Q;
  ty_estimatedTaxBasicRate : Q;
  ty_estimatedTaxHigherRate : Q;
  ty_disposals : list Disposal;
  ty_section104Start : list PoolSummary;
  ty_section104End : list PoolSummary;
  ty_rateChange : option RateChange
}.

Record Totals := mkTotals {
  totalDisposals : nat;
  totalSymbolsTraded : nat;
  overallGain : Q
}.

Record Report := mkReport {
  generatedAt : Z;
  taxYears : list TaxYearSummary;
  rep_section104Pools : list PoolSummary;
  allDisposals : list Disposal;
  rep_acquisitions : list Acquisition;
  rep_errors : list EngineError;
  summary : Totals
}.

(** Body of the loop that groups the disposals by tax year. *)
Definition groupBody (byTaxYear : JsObject YearData) (disposal : Disposal)
  : JsObject YearData :=
  let yearData := match objGet byTaxYear (d_taxYear disposal) with
                  | Some yd => yd
                  | None => mkYearData (d_taxYear disposal)
                                       (taxYearConfig (d_taxYear disposal)) [] 0 0
                  end in
  objSet byTaxYear (d_taxYear disposal)
    (mkYearData (yd_year yearData) (yd_config yearData)
                (yd_disposals yearData ++ [disposal])
                (if Qle_bool 0 (d_gain disposal)
                 then yd_totalGains yearData + d_gain disposal
                 else yd_totalGains yearData)
                (if Qle_bool 0 (d_gain disposal)
                 then yd_totalLosses yearData
                 else yd_totalLosses yearData + Qabs (d_gain disposal))).

(** The four running sums of the rate-change split. *)
Record Split := mkSplit {
  preOctGains : Q;
  preOctLosses : Q;
  postOctGains : Q;
  postOctLosses : Q
}.

Definition splitBody (rateChangeDate : Date) (s : Split) (disposal : Disposal) : Split :=
  let disposalDate := parseDateStr (d_date disposal) in
  if dateLt disposalDate rateChangeDate then
    if Qle_bool 0 (d_gain disposal)
    then mkSplit (preOctGains s + d_gain disposal) (preOctLosses s)
                 (postOctGains s) (postOctLosses s)
    else mkSplit (preOctGains s) (preOctLosses s + Qabs (d_gain disposal))
                 (postOctGains s) (postOctLosses s)
  else
    if Qle_bool 0 (d_gain disposal)
    then mkSplit (preOctGains s) (preOctLosses s)
                 (postOctGains s + d_gain disposal) (postOctLosses s)
    else mkSplit (preOctGains s) (preOctLosses s)
                 (postOctGains s) (postOctLosses s + Qabs (d_gain disposal)).

Definition splitOf (config : option TaxYearConfig) (ds : list Disposal) : Split :=
  match obind config cfg_rateChangeDate with
  | Some rateChangeDate => fold_left (splitBody rateChangeDate) ds (mkSplit 0 0 0 0)
  | None => mkSplit 0 0 0 0
  end.

(** [config?.field] for a field every table entry has. *)
Definition cfgField (config : option TaxYearConfig) (f : TaxYearConfig -> Q) : option Q :=
  option_map f config.

(** [config?.field] for a field only the rate-change year has. *)
Definition cfgOptField (config : option TaxYearConfig)
           (f : TaxYearConfig -> option Q) : option Q :=
  obind config f.

Definition isSome {A} (x : option A) : bool :=
  match x with Some _ => true | None => false end.

(** The two estimates, basic rate first. *)
Definition estimatedTax (config : option TaxYearConfig) (s : Split)
           (annualExemption taxableGain : Q) : Q * Q :=
  let rateChangeDate := obind config cfg_rateChangeDate in
  let basicRatePre :=
    orDefault (cfgOptField config cfg_basicRateSharesPre)
              (orDefault (cfgField config cfg_basicRateShares) 0.10) in
  let higherRatePre :=
    orDefault (cfgOptField config cfg_higherRateSharesPre)
              (orDefault (cfgField config cfg_higherRateShares) 0.20) in
  let basicRatePost :=
    orDefault (cfgOptField config cfg_basicRateSharesPost)
              (orDefault (cfgField config cfg_basicRateShares) 0.18) in
  let higherRatePost :=
    orDefault (cfgOptField config cfg_higherRateSharesPost)
              (orDefault (cfgField config cfg_higherRateShares) 0.24) in
  if isSome rateChangeDate && (Qltb 0 (preOctGains s) || Qltb 0 (postOctGains s)) then
    let totalGainsForAllocation := preOctGains s + postOctGains s in
    let preExemption :=
      if Qltb 0 totalGainsForAllocation
      then round2dp ((preOctGains s / totalGainsForAllocation)
                     * mathMin annualExemption totalGainsForAllocation)
      else 0 in
    let postExemption :=
      if Qltb 0 totalGainsForAllocation
      then round2dp ((postOctGains s / totalGainsForAllocation)
                     * mathMin annualExemption totalGainsForAllocation)
      else 0 in
    let taxablePreGain := mathMax 0 (preOctGains s - preOctLosses s - preExemption) in
    let taxablePostGain := mathMax 0 (postOctGains s - postOctLosses s - postExemption) in
    (round2dp (taxablePreGain * basicRatePre + taxablePostGain * basicRatePost),
     round2dp (taxablePreGain * higherRatePre + taxablePostGain * higherRatePost))
  else
    let basicRate := orDefault (cfgField config cfg_basicRateShares) 0.10 in
    let higherRate := orDefault (cfgField config cfg_higherRateShares) 0.20 in
    (round2dp (taxableGain * basicRate), round2dp (taxableGain * higherRate)).

Definition rateChangeOf (config : option TaxYearConfig) (s : Split)
           (ds : list Disposal) : option RateChange :=
  match obind config cfg_rateChangeDate with
  | None => None
  | Some rateChangeDate =>
      let isPre := fun d => dateLt (parseDateStr (d_date d)) rateChangeDate in
      Some (mkRateChange (mkDateStr 2024 10 30)
        (mkRateSide (round2dp (preOctGains s)) (round2dp (preOctLosses s))
                    (round2dp (preOctGains s - preOctLosses s))
                    (orDefault (cfgOptField config cfg_basicRateSharesPre)
                               (orDefault (cfgField config cfg_basicRateShares) 0.10))
                    (orDefault (cfgOptField config cfg_higherRateSharesPre)
                               (orDefault (cfgField config cfg_higherRateShares) 0.20))
                    (List.length (filter isPre ds)))
        (mkRateSide (round2dp (postOctGains s)) (round2dp (postOctLosses s))
                    (round2dp (postOctGains s - postOctLosses s))
                    (orDefault (cfgOptField config cfg_basicRateSharesPost)
                               (orDefault (cfgField config cfg_basicRateShares) 0.18))
                    (orDefault (cfgOptField config cfg_higherRateSharesPost)
                               (orDefault (cfgField config cfg_higherRateShares) 0.24))
                    (List.length (filter (fun d => negb (isPre d)) ds))))
  end.

(** The callback of [map] over the years in [generateReport]. *)
Definition summarize (taxYearSnapshots : JsObject YearSnapshots) (yearData : YearData)
  : TaxYearSummary :=
  let config := yd_config yearData in
  let netGain := round2dp (yd_totalGains yearData - yd_totalLosses yearData) in
  let annualExemption := orDefault (cfgField config cfg_annualExemption) 3000 in
  let taxableGain := mathMax 0 (netGain - annualExemption) in
  let s := splitOf config (yd_disposals yearData) in
  let '(estimatedTaxBasicRate, estimatedTaxHigherRate) :=
    estimatedTax config s annualExemption taxableGain in
  let snaps := objGet taxYearSnapshots (yd_year yearData) in
  mkSummary (yd_year yearData)
            (List.length (yd_disposals yearData))
            (round2dp (fold_left (fun sum d => sum + d_proceeds d) (yd_disposals yearData) 0))
            (round2dp (fold_left (fun sum d => sum + d_cost d) (yd_disposals yearData) 0))
            (round2dp (yd_totalGains yearData))
            (round2dp (yd_totalLosses yearData))
            (round2dp netGain)
            annualExemption
            (round2dp taxableGain)
            estimatedTaxBasicRate
            estimatedTaxHigherRate
            (yd_disposals yearData)
            (match snaps with Some sn => snap_start sn | None => [] end)
            (match snaps with Some sn => snap_end sn | None => [] end)
            (rateChangeOf config s (yd_disposals yearData)).

Section Engine.
Context {host : Host}.

Definition generateReport (now : Z) (calc : Calculator) : Report :=
  let byTaxYear := fold_left groupBody (disposals calc) [] in
  let taxYearSnapshots := calculateSection104Snapshots calc in
  let taxYearSummaries :=
    stableSort (fun a b => localeLe (ty_taxYear b) (ty_taxYear a))
               (map (fun e => summarize taxYearSnapshots (snd e)) byTaxYear) in
  let section104Summary :=
    map (fun e => let '(symbol, pool) := e in
                  mkPoolSummary symbol (round2dp (p_quantity pool))
                                (round2dp (p_cost pool))
                                (round2dp (p_cost pool / p_quantity pool)))
        (filter (fun e => Qltb 0 (p_quantity (snd e))) (section104Pools calc)) in
  mkReport now taxYearSummaries section104Summary
           (disposals calc) (acquisitions calc) (errors calc)
           (mkTotals (List.length (disposals calc))
                     (List.length (uniqueTexts [] (map d_symbol (disposals calc))))
                     (round2dp (fold_left (fun sum d => sum + d_gain d) (disposals calc) 0))).

(** Body of the loop that groups the transactions by symbol. *)
Definition bySymbolBody (bySymbol : JsObject (list Transaction)) (t : Transaction)
  : JsObject (list Transaction) :=
  objSet bySymbol (t_symbol t)
         (match objGet bySymbol (t_symbol t) with
          | Some ts => ts ++ [t]
          | None => [t]
          end).

(** [calculate]: the calculator after the run, and the report. *)
Definition calculate (clock : Clock) (rawTransactions : list RawTransaction)
           (calc : Calculator) : Calculator * Report :=
  let '(transactions, msgs) := normalizeTransactions clock rawTransactions in
  let bySymbol := fold_left bySymbolBody transactions [] in
  let calc0 := mkCalculator (section104Pools calc) (section104History calc)
                            (disposals calc) (acquisitions calc) (errors calc)
                            (console calc ++ msgs) in
  let calc' := fold_left (fun c e => processSymbol (fst e) (snd e) c) bySymbol calc0 in
  (calc', generateReport (reportNow clock) calc').

Definition calculateCGT (clock : Clock) (transactions : list RawTransaction) : Report :=
  snd (calculate clock transactions newCalculator).

End Engine.

(** ** A host and inputs for the worked examples *)

(** A host that rejects every free-form date and every numeric text, and
    compares texts by their characters. *)
Definition plainHost : Host :=
  Build_Host (fun _ => None) (fun _ => None) String.compare.

Definition clock0 : Clock := mkClock (fun _ => 0%Z) 0%Z.
Definition clock1 : Clock := mkClock (fun _ => 1%Z) 1%Z.

(** A raw record with a numeric quantity and price and nothing else. *)
Definition rawTx (date type symbol : string) (qty price : Q) : RawTransaction :=
  mkRaw (RawText date) type symbol None (JsNumber qty) (JsNumber price)
        None JsUndefined None JsUndefined None.

(** A normalized record at a given timestamp. *)
Definition txAt (time : Z) (type : string) (qty price : Q) : Transaction :=
  mkTxn (mkTxnId 0 0) (mkDate time) type "XYZ" "XYZ" qty price None 0 "GBP" 1
        "Unknown" false qty.

Definition hour : Z := (60 * 60 * 1000)%Z.

(** ** The report up to the clock

    The clock enters a run at two places: the stamp inside a transaction
    identifier, which a disposal copies, and [generatedAt]. *)

Definition noId : TxnId := mkTxnId 0 0.

Definition forgetId (t : Transaction) : Transaction :=
  mkTxn noId (t_date t) (t_type t) (t_symbol t) (t_assetName t)
        (t_quantity t) (t_pricePerUnit t) (t_totalAmount t) (t_fees t)
        (t_currency t) (t_exchangeRate t) (t_broker t) (t_used t) (t_remainingQty t).

Definition forgetDisposalId (d : Disposal) : Disposal :=
  mkDisposal noId (d_symbol d) (d_assetName d) (d_date d) (d_quantity d)
             (d_proceeds d) (d_proceedsPerShare d) (d_cost d) (d_costPerShare d)
             (d_gain d) (d_gainPerShare d) (d_taxYear d) (d_matchDetails d)
             (d_broker d).

Definition forgetSummaryIds (s : TaxYearSummary) : TaxYearSummary :=
  mkSummary (ty_taxYear s) (ty_numberOfDisposals s) (ty_totalProceeds s)
            (ty_totalCost s) (ty_totalGains s) (ty_totalLosses s) (ty_netGain s)
            (ty_annualExemption s) (ty_taxableGain s)
            (ty_estimatedTaxBasicRate s) (ty_estimatedTaxHigherRate s)
            (map forgetDisposalId (ty_disposals s))
            (ty_section104Start s) (ty_section104End s) (ty_rateChange s).

(** The report with the generation time and the identifiers blanked. *)
Definition withoutClock (r : Report) : Report :=
  mkReport 0%Z (map forgetSummaryIds (taxYears r)) (rep_section104Pools r)
           (map forgetDisposalId (allDisposals r)) (rep_acquisitions r)
           (rep_errors r) (summary r).

Definition forgetCalculatorIds (calc : Calculator) : Calculator :=
  mkCalculator (section104Pools calc) (section104History calc)
               (map forgetDisposalId (disposals calc)) (acquisitions calc)
               (errors calc) (console calc).

(** [Object.values]-wise image of an object. *)
Definition objMap {V W} (f : V -> W) (o : JsObject V) : JsObject W :=
  map (fun e => (fst e, f (snd e))) o.

(** ** Sums named by the statements *)

Definition isGain (d : Disposal) : bool := Qle_bool 0 (d_gain d).

(** The sum of the non-negative gains of a list of disposals. *)
Definition gainsOf (ds : list Disposal) : Q :=
  sumQ (map d_gain (filter isGain ds)).

(** The sum of the absolute values of the negative gains. *)
Definition lossesOf (ds : list Disposal) : Q :=
  sumQ (map (fun d => Qabs (d_gain d)) (filter (fun d => negb (isGain d)) ds)).

Definition inTaxYear (label : string) (d : Disposal) : bool :=
  String.eqb (d_taxYear d) label.

(** A disposal that [processDisposal] has produced for a sale of positive
    quantity. *)
Definition Produced (d : Disposal) : Prop :=
  exists symbol disposal buys pool,
    0 < t_quantity disposal /\
    d = out_disposal (processDisposal symbol disposal buys pool).

(** Scenario C and D of the specification: two purchases, then a sale in
    2023/24 that nets a gain of 8000. *)
Definition scenarioD : list RawTransaction :=
  [ rawTx "2023-01-01" "buy" "xyz" 100 10;
    rawTx "2023-06-01" "buy" "xyz" 100 20;
    rawTx "2024-01-01" "sell" "xyz" 100 95 ].

(** A summary to stand for "no such element". *)
Definition noSummary : TaxYearSummary := summarize [] (mkYearData "" None [] 0 0).

(** The share of the annual exemption [E] that goes to a side with gains
    [g], when both sides together have gains [total]: proportional to the
    side's share of the gains. *)
Definition proportionalShare (E total g : Q) : Q :=
  if Qltb 0 total then round2dp (g / total * E) else 0.

(** The taxable gain of one side of the rate change. *)
Definition sideTaxable (E total : Q) (side : list Disposal) : Q :=
  mathMax 0 (gainsOf side - lossesOf side - proportionalShare E total (gainsOf side)).

(** Scenario E of the specification, with amounts that leave something to
    tax on both sides of 30 October 2024. *)
Definition scenarioE : list RawTransaction :=
  [ rawTx "2024-04-10" "buy" "xyz" 300 10;
    rawTx "2024-06-01" "sell" "xyz" 100 30;
    rawTx "2024-12-01" "sell" "xyz" 100 50 ].

(** ** The event log and its replay, in the words of the specification *)

(** The pools after the events dated up to [cutoff]. *)
Definition replayUpTo (cutoff : Date) (events : list PoolEvent) : JsObject Pool :=
  fold_left applyEvent (filter (fun e => dateLe (ev_date e) cutoff) events) [].

Definition isPoolSourced (d : Disposal) : bool :=
  existsb (fun m => match md_rule m with SECTION_104 => true | _ => false end)
          (d_matchDetails d).

(** The log in the words of the specification: every acquisition and every
    pool-sourced disposal. *)
Definition statedEventLog (acqs : list Acquisition) (disps : list Disposal)
  : list PoolEvent :=
  stableSort byEventDate
    (map acquisitionEvent acqs ++ map disposalEvent (filter isPoolSourced disps)).

(** A purchase in 2015 and a sale in 2016/17, a year the table does not
    list. *)
Definition scenarioOldYear : list RawTransaction :=
  [ rawTx "2015-01-01" "buy" "xyz" 100 10;
    rawTx "2016-05-01" "sell" "xyz" 50 200 ].

(** ** Pool and store conditions named by the statements *)

(** An acquisition whose amounts cannot make a cost negative. *)
Definition NonNegativeCost (t : Transaction) : Prop :=
  0 < t_quantity t /\
  match t_totalAmount t with
  | Some totalAmount => 0 <= totalAmount
  | None => 0 <= t_pricePerUnit t
  end /\
  0 <= t_fees t /\
  0 < t_exchangeRate t.

(** The [buys] array during matching: acquisitions with non-negative cost,
    none of them over-drawn. *)
Definition StoreOk (buys : list Transaction) : Prop :=
  Forall (fun b => NonNegativeCost b /\ 0 <= t_remainingQty b) buys.

Definition PoolNonNegative (p : Pool) : Prop :=
  0 <= p_quantity p /\ 0 <= p_cost p.

(** A pool that is not negative and whose cost is a sum of rounded costs. *)
Definition PoolOk (p : Pool) : Prop :=
  PoolNonNegative p /\ is2dp (p_cost p).


(** A raw record whose date is a [Date] object. *)
Definition rawAt (date : Date) (type symbol : string) (qty price : Q) : RawTransaction :=
  mkRaw (RawDateObject date) type symbol None (JsNumber qty) (JsNumber price)
        None JsUndefined None JsUndefined None.

(** A time of day on a calendar date (month 1..12). *)
Definition dateTime (y m d hours : Z) : Date :=
  mkDate (getTime (newDate y (m - 1) d) + hours * hour)%Z.

(** A sale late on 1 May 2024 and a repurchase early the next morning. *)
Definition scenarioNextMorning : list RawTransaction :=
  [ rawAt (dateTime 2024 5 1 20) "sell" "xyz" 50 12;
    rawAt (dateTime 2024 5 2 1) "buy" "xyz" 50 9 ].

(** A sale late on 1 May 2024 and a repurchase on the morning of 1 June,
    the thirty-first day after. *)
Definition scenarioDay31 : list RawTransaction :=
  [ rawAt (dateTime 2024 5 1 20) "sell" "xyz" 50 12;
    rawAt (dateTime 2024 6 1 6) "buy" "xyz" 50 9 ].

(** The rules of the match details of each disposal of a report. *)
Definition rulesOf (r : Report) : list (list Rule) :=
  map (fun d => map md_rule (d_matchDetails d)) (allDisposals r).

(** ** Remaining quantities in the [buys] array *)

(** What is left of the acquisition at a position (nothing outside the
    array). *)
Definition remainingAt (buys : list Transaction) (i : nat) : Q :=
  match nth_error buys i with
  | Some b => t_remainingQty b
  | None => 0
  end.

(** Two states of the [buys] array that differ in remaining quantities
    only. *)
Definition sameAcquisitions (buys buys' : list Transaction) : Prop :=
  map (fun b => withRemainingQty b 0) buys = map (fun b => withRemainingQty b 0) buys'.

(** What both matching loops do with the acquisition at a position: take
    the smaller of what the sale still needs and what the acquisition has
    left. *)
Definition consumeAt (i : nat) (needed : Q) (buys : list Transaction)
  : Q * list Transaction :=
  match nth_error buys i with
  | None => (needed, buys)
  | Some b =>
      let m := mathMin needed (t_remainingQty b) in
      (needed - m, setNth buys i (withRemainingQty b (t_remainingQty b - m)))
  end.

(** A loop body whose effect on the array and on the quantity still needed
    is [consumeAt]. *)
Definition Consuming (body : nat -> MatchAcc -> MatchAcc) : Prop :=
  forall i acc,
    (acc_remainingQty (body i acc), acc_buys (body i acc))
    = consumeAt i (acc_remainingQty acc) (acc_buys acc).

(** The acquisition shares the calendar date of the disposal. *)
Definition sharesDay (disposal b : Transaction) : bool :=
  isSameDay (t_date b) (t_date disposal).

(** The acquisition falls in the window of rule 2 as the engine measures
    it: 1 to 30 whole days after the disposal. *)
Definition inWindow (disposal b : Transaction) : bool :=
  let daysDiff := getDaysDifference (t_date disposal) (t_date b) in
  (0 <? daysDiff)%Z && (daysDiff <=? 30)%Z.

(** Position [i] comes before position [j] in ascending date order, ties
    in array order. *)
Definition earlierAt (buys : list Transaction) (i j : nat) : Prop :=
  (timeAt buys i < timeAt buys j)%Z \/ (timeAt buys i = timeAt buys j /\ (i < j)%nat).

(** A detail of rule 1: it carries the calendar date of the disposal. *)
Definition SameDayDetail (disposal : Transaction) (m : MatchDetail) : Prop :=
  md_rule m = SAME_DAY /\
  option_map acquisitionDate (md_acq m) = Some (formatDateLocal (t_date disposal)).

(** A detail of rule 2: its acquisition is 1 to 30 days after. *)
Definition BnbDetail (m : MatchDetail) : Prop :=
  md_rule m = BED_AND_BREAKFAST /\
  exists info, md_bnb m = Some info /\
               (0 < daysDifference info <= 30)%Z.

(** A detail of rule 3. *)
Definition PoolDetail (m : MatchDetail) : Prop := md_rule m = SECTION_104.

(** ** Invariants and views used by the proofs *)

(** What the loops of [processDisposal] maintain for a disposal of
    quantity [q]: nothing is over-matched, the matched quantities and the
    quantity still open add up to [q], and the running cost is the sum of
    the costs of the details. *)
Definition AccInv (q : Q) (acc : MatchAcc) : Prop :=
  0 <= acc_remainingQty acc /\
  acc_remainingQty acc + sumQ (map md_quantity (acc_matchDetails acc)) == q /\
  acc_totalCost acc == sumQ (map md_cost (acc_matchDetails acc)) /\
  is2dp (acc_totalCost acc).

(** The accumulator of [processDisposal] after its three rules. *)
Definition matchedAcc (disposal : Transaction) (buys : list Transaction) (pool : Pool)
  : Pool * MatchAcc :=
  let proceeds := calculateProceeds disposal (t_quantity disposal) in
  let proceedsPerShare := round2dp (proceeds / t_quantity disposal) in
  poolStage pool disposal proceedsPerShare
    (bnbStage pool disposal proceedsPerShare
       (sameDayStage disposal proceedsPerShare buys)).

(** The identifiers blanked in the intermediate states of a run. *)
Definition forgetAccIds (acc : MatchAcc) : MatchAcc :=
  mkAcc (acc_remainingQty acc) (acc_totalCost acc) (acc_matchDetails acc)
        (map forgetId (acc_buys acc)).

Definition forgetOutcomeIds (out : DisposalOutcome) : DisposalOutcome :=
  mkOutcome (out_pool out) (map forgetId (out_buys out)) (out_error out)
            (forgetDisposalId (out_disposal out)) (out_console out).

Definition forgetStateIds (st : SymbolState) : SymbolState :=
  mkSymbolState (ss_pool st) (map forgetId (ss_buys st)) (ss_errors st)
                (map forgetDisposalId (ss_disposals st)) (ss_console st).

Definition forgetYearDataIds (yd : YearData) : YearData :=
  mkYearData (yd_year yd) (yd_config yd) (map forgetDisposalId (yd_disposals yd))
             (yd_totalGains yd) (yd_totalLosses yd).

(** A calculator, and the state of the loop over the sells, without the
    console output. *)
Definition dropConsole (calc : Calculator) : Calculator :=
  mkCalculator (section104Pools calc) (section104History calc) (disposals calc)
               (acquisitions calc) (errors calc) [].

Definition dropStateConsole (st : SymbolState) : SymbolState :=
  mkSymbolState (ss_pool st) (ss_buys st) (ss_errors st) (ss_disposals st) [].

(** [Object.keys]. *)
Definition objKeys {V} (o : JsObject V) : list string := map fst o.

(** What the grouping loop of [generateReport] maintains, [done] being the
    disposals it has seen: keys are distinct, and the entry of a year holds
    the disposals of that year with their running sums. *)
Definition GroupInv (done : list Disposal) (o : JsObject YearData) : Prop :=
  NoDup (objKeys o) /\
  forall k,
    match objGet o k with
    | Some yd =>
        yd_year yd = k /\
        yd_config yd = taxYearConfig k /\
        yd_disposals yd = filter (inTaxYear k) done /\
        yd_totalGains yd = gainsOf (yd_disposals yd) /\
        yd_totalLosses yd = lossesOf (yd_disposals yd)
    | None => filter (inTaxYear k) done = []
    end.

(** ** The text of a date *)

(** [s.padStart(targetLength, c)] for a filler of one character. *)
Definition padStart (targetLength : nat) (padChar : ascii) (s : string) : string :=
  (string_of_list_ascii (repeat padChar (targetLength - String.length s)) ++ s)%string.

(** The text that [formatDateLocal] returns. *)
Definition dateText (s : DateStr) : string :=
  (numberToString (ds_year s) ++ "-"
   ++ padStart 2 "0" (numberToString (ds_month s)) ++ "-"
   ++ padStart 2 "0" (numberToString (ds_day s)))%string.

(** A test on every integer of a range, [count] of them from [start] on. *)
Fixpoint allFrom (f : Z -> bool) (start : Z) (count : nat) : bool :=
  match count with
  | O => true
  | S c => f start && allFrom f (start + 1)%Z c
  end.

(** The text of a number is [n] decimal digits that read back as the
    number. *)
Definition readsBack (n : nat) (text : string) (z : Z) : bool :=
  let cs := list_ascii_of_string text in
  (List.length cs =? n)%nat && forallb isDigit cs && (parseInt cs =? z)%Z.

(** The text does not go on with a digit. *)
Definition noDigitAhead (s : list ascii) : Prop :=
  match s with
  | [] => True
  | c :: _ => isDigit c = false
  end.

(** ** The tax year of a dividend in the calculate route

    [app/api/calculate/route.js] labels the tax year of a dividend by
    itself, from the calendar fields of its date. *)

Definition dividendTaxYear (parsedDate : Date) : string :=
  let year := getFullYear parsedDate in
  let month := getMonth parsedDate in
  let day := getDate parsedDate in
  if ((month <? 3) || ((month =? 3) && (day <? 6)))%Z
  then (numberToString (year - 1) ++ "/" ++ sliceLast2 (numberToString year))%string
  else (numberToString year ++ "/" ++ sliceLast2 (numberToString (year + 1)))%string.

(** ** Rounding of a lot matched in parts *)

(** Two amounts that are equal or a penny apart. *)
Definition withinAPenny (x y : Q) : Prop :=
  x - y == 0 \/ x - y == 1 # 100 \/ x - y == - (1 # 100).

(** ** Records the normalizer and the matcher do not tell apart *)

(** The record with the sign of a numeric quantity reversed. *)
Definition flipQuantity (t : RawTransaction) : RawTransaction :=
  match raw_quantity t with
  | JsNumber q =>
      mkRaw (raw_date t) (raw_type t) (raw_symbol t) (raw_assetName t)
            (JsNumber (- q)) (raw_pricePerUnit t) (raw_totalAmount t) (raw_fees t)
            (raw_currency t) (raw_exchangeRate t) (raw_broker t)
  | _ => t
  end.

(** The types the matcher reads. *)
Definition isBuyOrSell (t : Transaction) : bool := isBuy t || isSell t.

(** ** The shares of a symbol *)

(** The quantity that the match details of a disposal account for. *)
Definition matchedQuantity (d : Disposal) : Q :=
  sumQ (map md_quantity (d_matchDetails d)).

(** What is left of all the acquisitions of the [buys] array together. *)
Definition remainingTotal (buys : list Transaction) : Q :=
  sumQ (map t_remainingQty buys).

(** No acquisition of the array has given more than it had. *)
Definition NotOverdrawn (buys : list Transaction) : Prop :=
  Forall (fun b => 0 <= t_remainingQty b) buys.

(** The shares a matching loop has in hand: what is left in the [buys]
    array and what the details so far have matched. *)
Definition sharesInHand (acc : MatchAcc) : Q :=
  remainingTotal (acc_buys acc) + sumQ (map md_quantity (acc_matchDetails acc)).

Definition disposalsOf (symbol : string) (ds : list Disposal) : list Disposal :=
  filter (fun d => String.eqb (d_symbol d) symbol) ds.

Definition acquisitionsOf (symbol : string) (acqs : list Acquisition) : list Acquisition :=
  filter (fun a => String.eqb (a_symbol a) symbol) acqs.

(** The books of a calculator balance: for every symbol, the shares in its
    pool and the shares its disposals have matched are the shares its
    acquisitions list. *)
Definition SharesBalance (calc : Calculator) : Prop :=
  forall symbol,
    p_quantity (poolOf calc symbol)
    + sumQ (map matchedQuantity (disposalsOf symbol (disposals calc)))
    == sumQ (map a_quantity (acquisitionsOf symbol (acquisitions calc))).

(** ** The groups of [calculate] *)

Definition hasSymbol (symbol : string) (t : Transaction) : bool :=
  String.eqb (t_symbol t) symbol.

(** What the loop of [calculate] that groups by symbol maintains, [done]
    being the transactions it has seen. *)
Definition SymbolInv (done : list Transaction) (o : JsObject (list Transaction)) : Prop :=
  NoDup (objKeys o) /\
  forall k,
    match objGet o k with
    | Some ts => ts = filter (hasSymbol k) done /\ ts <> []
    | None => filter (hasSymbol k) done = []
    end.

(** ** The details a loop writes *)

(** A loop body that, at a position of the array, appends one detail for
    the quantity it takes there. *)
Definition Detailing (body : nat -> MatchAcc -> MatchAcc) : Prop :=
  forall i acc,
    match nth_error (acc_buys acc) i with
    | Some b =>
        exists m,
          acc_matchDetails (body i acc) = acc_matchDetails acc ++ [m] /\
          md_quantity m = mathMin (acc_remainingQty acc) (t_remainingQty b)
    | None => body i acc = acc
    end.

Definition PositiveDetails (details : list MatchDetail) : Prop :=
  Forall (fun m => 0 < md_quantity m) details.

(** ** Errors and short sales *)

(** A disposal whose match details account for less than its quantity. *)
Definition isShort (d : Disposal) : bool := Qltb (matchedQuantity d) (d_quantity d).

(** The errors of a state tally with its disposals: one error for each
    disposal that is short, and no disposal is over-matched. *)
Definition Tallies (errs : list EngineError) (ds : list Disposal) : Prop :=
  List.length errs = List.length (filter isShort ds) /\
  Forall (fun d => matchedQuantity d <= d_quantity d) ds.

(** ** Elements to stand for a missing one *)

(** A disposal and a match detail to stand for "no such element". *)
Definition noDisposal : Disposal :=
  mkDisposal noId "" "" (mkDateStr 0 0 0) 0 0 0 0 0 0 0 "" [] "".

Definition noDetail : MatchDetail :=
  mkDetail SECTION_104 0 0 0 0 0 None None None.

(** ** The same engine with rounded arithmetic

    The engine computes in binary floating point.  Here the matcher and
    its callers are written once more, word for word as above, with every
    sum, difference, product and quotient passed through a rounding [rnd];
    a number is still its exact value.  With no rounding this is the
    engine above ([calculateCost_exact] and the lemmas after it); with
    [Binary64.nearest] it is the arithmetic of the doubles.  Comparisons,
    [Math.abs], [Math.min] and [Math.round] give exact results on doubles
    and are the ones above. *)

Module Rounded.
Section Rounding.
Variable rnd : Q -> Q.

Definition add (x y : Q) : Q := rnd (x + y).
Definition sub (x y : Q) : Q := rnd (x - y).
Definition mul (x y : Q) : Q := rnd (x * y).
Definition div (x y : Q) : Q := rnd (x / y).

Local Notation "x +! y" := (add x y) (at level 50, left associativity).
Local Notation "x -! y" := (sub x y) (at level 50, left associativity).
Local Notation "x *! y" := (mul x y) (at level 40, left associativity).
Local Notation "x /! y" := (div x y) (at level 40, left associativity).

Definition round2dp (num : Q) : Q := inject_Z (mathRound (num *! 100)) /! 100.

Definition getDaysDifference (date1 date2 : Date) : Z :=
  let oneDay := msPerDay in
  mathRound (inject_Z (getTime date2 - getTime date1) /! inject_Z oneDay).

Definition calculateCost (transaction : Transaction) (quantity : Q) : Q :=
  let proportion := quantity /! t_quantity transaction in
  let baseCost := match t_totalAmount transaction with
                  | Some totalAmount => totalAmount *! proportion
                  | None => quantity *! t_pricePerUnit transaction
                  end in
  let fees := t_fees transaction *! proportion in
  round2dp ((baseCost +! fees) /! t_exchangeRate transaction).

Definition calculateProceeds (transaction : Transaction) (quantity : Q) : Q :=
  let proportion := quantity /! t_quantity transaction in
  let baseProceeds := match t_totalAmount transaction with
                      | Some totalAmount => totalAmount *! proportion
                      | None => quantity *! t_pricePerUnit transaction
                      end in
  let fees := t_fees transaction *! proportion in
  round2dp ((baseProceeds -! fees) /! t_exchangeRate transaction).

(** Body of the same-day loop. *)
Definition sameDayBody (proceedsPerShare : Q) (i : nat) (acc : MatchAcc) : MatchAcc :=
  match nth_error (acc_buys acc) i with
  | None => acc
  | Some buy =>
      let matchQty := mathMin (acc_remainingQty acc) (t_remainingQty buy) in
      let matchCost := calculateCost buy matchQty in
      let costPerShare := round2dp (matchCost /! matchQty) in
      mkAcc (acc_remainingQty acc -! matchQty)
            (acc_totalCost acc +! matchCost)
            (acc_matchDetails acc ++
             [mkDetail SAME_DAY matchQty matchCost costPerShare proceedsPerShare
                       (round2dp (proceedsPerShare -! costPerShare))
                       (Some (mkAcqInfo (formatDateLocal (t_date buy)) (t_broker buy)
                                        (isSchwab (t_broker buy))))
                       None None])
            (setNth (acc_buys acc) i
                    (withRemainingQty buy (t_remainingQty buy -! matchQty)))
  end.

(** Body of the bed-and-breakfast loop; the pool is only read. *)
Definition bnbBody (pool : Pool) (disposal : Transaction) (proceedsPerShare : Q)
           (i : nat) (acc : MatchAcc) : MatchAcc :=
  match nth_error (acc_buys acc) i with
  | None => acc
  | Some buy =>
      let matchQty := mathMin (acc_remainingQty acc) (t_remainingQty buy) in
      let matchCost := calculateCost buy matchQty in
      let costPerShare := round2dp (matchCost /! matchQty) in
      let daysDiff := getDaysDifference (t_date disposal) (t_date buy) in
      let s104AvgCost := if Qltb 0 (p_quantity pool)
                         then round2dp (p_cost pool /! p_quantity pool) else 0 in
      let originalCurrency := orText (Some (t_currency buy)) "GBP" in
      let originalCostPerShare := round2dp (t_pricePerUnit buy) in
      let exchangeRate := orNum (t_exchangeRate buy) 1 in
      let increased := Qltb s104AvgCost costPerShare in
      mkAcc (acc_remainingQty acc -! matchQty)
            (acc_totalCost acc +! matchCost)
            (acc_matchDetails acc ++
             [mkDetail BED_AND_BREAKFAST matchQty matchCost costPerShare proceedsPerShare
                       (round2dp (proceedsPerShare -! costPerShare))
                       (Some (mkAcqInfo (formatDateLocal (t_date buy)) (t_broker buy)
                                        (isSchwab (t_broker buy))))
                       (Some (mkBnbInfo daysDiff originalCurrency originalCostPerShare
                                exchangeRate
                                (mkImpact s104AvgCost costPerShare
                                   (round2dp (costPerShare -! s104AvgCost))
                                   increased
                                   (if increased
                                    then round2dp (costPerShare -! s104AvgCost)
                                    else round2dp (s104AvgCost -! costPerShare)))))
                       None])
            (setNth (acc_buys acc) i
                    (withRemainingQty buy (t_remainingQty buy -! matchQty)))
  end.

Definition isBnbCandidate (disposal b : Transaction) : bool :=
  let daysDiff := getDaysDifference (t_date disposal) (t_date b) in
  (0 <? daysDiff)%Z && (daysDiff <=? 30)%Z && Qltb 0 (t_remainingQty b).

(** Body of the loop that rolls the earlier acquisitions into the pool. *)
Definition rollInBody (st : Pool * list Transaction) (i : nat) : Pool * list Transaction :=
  let '(pool, buys) := st in
  match nth_error buys i with
  | None => st
  | Some buy =>
      let cost := calculateCost buy (t_remainingQty buy) in
      (mkPool (p_quantity pool +! t_remainingQty buy) (p_cost pool +! cost),
       setNth buys i (withRemainingQty buy 0))
  end.

(** The draw from the pool, once the earlier acquisitions are in it. *)
Definition drawFromPool (proceedsPerShare : Q) (pool : Pool) (acc : MatchAcc)
  : Pool * MatchAcc :=
  if Qltb 0 (p_quantity pool) then
    let matchQty := mathMin (acc_remainingQty acc) (p_quantity pool) in
    let avgCost := p_cost pool /! p_quantity pool in
    let matchCost := round2dp (matchQty *! avgCost) in
    let costPerShare := round2dp avgCost in
    let pool' := mkPool (p_quantity pool -! matchQty) (p_cost pool -! matchCost) in
    (pool',
     mkAcc (acc_remainingQty acc -! matchQty)
           (acc_totalCost acc +! matchCost)
           (acc_matchDetails acc ++
            [mkDetail SECTION_104 matchQty matchCost costPerShare proceedsPerShare
                      (round2dp (proceedsPerShare -! costPerShare))
                      None None
                      (Some (mkPoolInfo (round2dp avgCost)
                                        (round2dp (p_quantity pool' +! matchQty))
                                        (round2dp (p_quantity pool'))))])
           (acc_buys acc))
  else (pool, acc).

(** Rule 1. *)
Definition sameDayStage (disposal : Transaction) (proceedsPerShare : Q)
           (buys : list Transaction) : MatchAcc :=
  let sameDayBuys := filterIndices (isSameDayCandidate disposal) buys in
  forEachUntilMatched (sameDayBody proceedsPerShare) sameDayBuys
                      (mkAcc (t_quantity disposal) 0 [] buys).

(** Rule 2. *)
Definition bnbStage (pool : Pool) (disposal : Transaction) (proceedsPerShare : Q)
           (acc : MatchAcc) : MatchAcc :=
  if Qltb 0 (acc_remainingQty acc) then
    let bnbBuys := stableSort (byTimeAt (acc_buys acc))
                     (filterIndices (isBnbCandidate disposal) (acc_buys acc)) in
    forEachUntilMatched (bnbBody pool disposal proceedsPerShare) bnbBuys acc
  else acc.

(** Rule 3. *)
Definition poolStage (pool : Pool) (disposal : Transaction) (proceedsPerShare : Q)
           (acc : MatchAcc) : Pool * MatchAcc :=
  if Qltb 0 (acc_remainingQty acc) then
    let earlierBuys := filterIndices (isEarlierBuy disposal) (acc_buys acc) in
    let '(pool1, buys1) := fold_left rollInBody earlierBuys (pool, acc_buys acc) in
    drawFromPool proceedsPerShare pool1
      (mkAcc (acc_remainingQty acc) (acc_totalCost acc) (acc_matchDetails acc) buys1)
  else (pool, acc).

(** [pool] is [this.section104Pools[symbol]], which [processSymbol] has
    created before the first call. *)
Definition processDisposal (symbol : string) (disposal : Transaction)
           (buys : list Transaction) (pool : Pool) : DisposalOutcome :=
  let proceeds := calculateProceeds disposal (t_quantity disposal) in
  let proceedsPerShare := round2dp (proceeds /! t_quantity disposal) in
  let acc1 := sameDayStage disposal proceedsPerShare buys in
  let acc2 := bnbStage pool disposal proceedsPerShare acc1 in
  let '(pool3, acc3) := poolStage pool disposal proceedsPerShare acc2 in
  let remainingQty := acc_remainingQty acc3 in
  let totalCost := acc_totalCost acc3 in
  let error := if Qltb 0 remainingQty
               then Some (mkError UNMATCHED_DISPOSAL symbol
                                  (formatDateLocal (t_date disposal)) remainingQty)
               else None in
  let gain := round2dp (proceeds -! totalCost) in
  let '(taxYear, msgs) := getTaxYear (t_date disposal) in
  let costPerShare := if Qltb 0 (t_quantity disposal)
                      then round2dp (totalCost /! t_quantity disposal) else 0 in
  mkOutcome pool3 (acc_buys acc3) error
    (mkDisposal (t_id disposal) symbol (t_assetName disposal)
                (formatDateLocal (t_date disposal)) (t_quantity disposal)
                (round2dp proceeds) proceedsPerShare (round2dp totalCost)
                costPerShare gain (round2dp (gain /! t_quantity disposal))
                (fst taxYear) (acc_matchDetails acc3) (t_broker disposal))
    msgs.

Definition acquisitionOf (symbol : string) (buy : Transaction) : Acquisition :=
  let cost := calculateCost buy (t_quantity buy) in
  let costPerShare := round2dp (cost /! t_quantity buy) in
  mkAcquisition symbol (formatDateLocal (t_date buy)) (t_quantity buy)
                (round2dp cost) costPerShare (t_broker buy)
                (isSchwab (t_broker buy) && Qltb 0 (t_pricePerUnit buy))
                "csv".

Definition poolView (pool : Pool) : PoolView :=
  mkPoolView (p_quantity pool) (p_cost pool)
             (if Qltb 0 (p_quantity pool)
              then round2dp (p_cost pool /! p_quantity pool) else 0).

Definition sellBody (symbol : string) (st : SymbolState) (disposal : Transaction)
  : SymbolState :=
  let out := processDisposal symbol disposal (ss_buys st) (ss_pool st) in
  mkSymbolState (out_pool out) (out_buys out)
                (ss_errors st ++ optionToList (out_error out))
                (ss_disposals st ++ [out_disposal out])
                (ss_console st ++ out_console out).

(** Body of the last loop of [processSymbol]: what is left of an
    acquisition joins the pool; its [remainingQty] is not reset. *)
Definition finalRollInBody (st : Pool * list HistoryEntry) (buy : Transaction)
  : Pool * list HistoryEntry :=
  let '(pool, history) := st in
  if Qltb 0 (t_remainingQty buy) then
    let cost := calculateCost buy (t_remainingQty buy) in
    let poolBefore := poolView pool in
    let pool' := mkPool (p_quantity pool +! t_remainingQty buy) (p_cost pool +! cost) in
    let poolAfter := mkPoolView (p_quantity pool') (p_cost pool')
                                (round2dp (p_cost pool' /! p_quantity pool')) in
    (pool',
     history ++ [mkHistory (formatDateLocal (t_date buy)) (t_remainingQty buy)
                           (round2dp cost) (round2dp (cost /! t_remainingQty buy))
                           poolBefore poolAfter (isSchwab (t_broker buy))
                           (t_broker buy)])
  else st.

Definition processSymbol (symbol : string) (transactions : list Transaction)
           (calc : Calculator) : Calculator :=
  let buys := filter isBuy transactions in
  let sells := filter isSell transactions in
  let acquisitions' := acquisitions calc ++ map (acquisitionOf symbol) buys in
  let st := fold_left (sellBody symbol) sells
              (mkSymbolState (poolOf calc symbol) buys (errors calc)
                             (disposals calc) (console calc)) in
  let '(pool, history) :=
    fold_left finalRollInBody (ss_buys st) (ss_pool st, historyOf calc symbol) in
  mkCalculator (objSet (section104Pools calc) symbol pool)
               (objSet (section104History calc) symbol history)
               (ss_disposals st) acquisitions' (ss_errors st) (ss_console st).

Section Run.
Context {host : Host}.

(** [calculate] up to its last line: the calculator on which it calls
    [generateReport]. *)
Definition calculate_processed (clock : Clock) (rawTransactions : list RawTransaction)
           (calc : Calculator) : Calculator :=
  let '(transactions, msgs) := normalizeTransactions clock rawTransactions in
  let bySymbol := fold_left bySymbolBody transactions [] in
  let calc0 := mkCalculator (section104Pools calc) (section104History calc)
                            (disposals calc) (acquisitions calc) (errors calc)
                            (console calc ++ msgs) in
  fold_left (fun c e => processSymbol (fst e) (snd e) c) bySymbol calc0.

End Run.

End Rounding.
End Rounded.

(** ** Binary64

    A double is its exact value.  [nearest x] is the double nearest to
    [x], a tie going to the even significand: 53 significant bits, and
    below [2^-1022] the multiples of [2^-1074].  Overflow to an infinity
    (from [2^1024] on) is not represented. *)

Module Binary64.

Definition pow2 (k : Z) : Q :=
  if (0 <=? k)%Z then inject_Z (2 ^ k) else 1 / inject_Z (2 ^ (- k)).

(** For [x > 0], the [k] with [2^k <= x < 2^(k+1)]. *)
Definition log2floor (x : Q) : Z :=
  let k := (Z.log2 (Qnum x) - Z.log2 (Zpos (Qden x)))%Z in
  if Qle_bool (pow2 k) x then k else (k - 1)%Z.

(** The nearest integer, a tie going to the even one. *)
Definition roundHalfEven (x : Q) : Z :=
  let f := Qfloor x in
  match Qcompare (x - inject_Z f) (1 # 2) with
  | Lt => f
  | Gt => (f + 1)%Z
  | Eq => if Z.even f then f else (f + 1)%Z
  end.

Definition nearest (x : Q) : Q :=
  if Qeq_bool x 0 then 0
  else
    let e := Z.max (log2floor (Qabs x) - 52) (-1074) in
    Qred (inject_Z (roundHalfEven (x / pow2 e)) * pow2 e).

(** A decimal literal of the program text, or a number read by
    [parseFloat]. *)
Definition literal (x : Q) : Q := nearest x.

Definition round2dp : Q -> Q := Rounded.round2dp nearest.
Definition rollInBody : Pool * list Transaction -> nat -> Pool * list Transaction :=
  Rounded.rollInBody nearest.
Definition drawFromPool : Q -> Pool -> MatchAcc -> Pool * MatchAcc :=
  Rounded.drawFromPool nearest.
Definition processDisposal
  : string -> Transaction -> list Transaction -> Pool -> DisposalOutcome :=
  Rounded.processDisposal nearest.
Definition sellBody : string -> SymbolState -> Transaction -> SymbolState :=
  Rounded.sellBody nearest.
Definition finalRollInBody
  : Pool * list HistoryEntry -> Transaction -> Pool * list HistoryEntry :=
  Rounded.finalRollInBody nearest.
Definition processSymbol : string -> list Transaction -> Calculator -> Calculator :=
  Rounded.processSymbol nearest.

Definition calculate_processed {host : Host}
  : Clock -> list RawTransaction -> Calculator -> Calculator :=
  Rounded.calculate_processed nearest.

End Binary64.

(** *** A check of [nearest] against the kernel's doubles *)

(** The exact value of one of the kernel's doubles; [None] for an infinity
    and for [NaN]. *)
Definition valueOf (x : PrimFloat.float) : option Q :=
  match FloatOps.Prim2SF x with
  | SpecFloat.S754_zero _ => Some 0
  | SpecFloat.S754_finite s m e =>
      Some (Qred ((if s then - inject_Z (Zpos m) else inject_Z (Zpos m)) * Binary64.pow2 e))
  | _ => None
  end.

(** An operation of the kernel's doubles and the exact operation rounded by
    [nearest] give the same value on two doubles, when the kernel's result
    is finite. *)
Definition sameResult (op : PrimFloat.float -> PrimFloat.float -> PrimFloat.float)
           (exact : Q -> Q -> Q) (x y : PrimFloat.float) : bool :=
  match valueOf x, valueOf y, valueOf (op x y) with
  | Some a, Some b, Some c => Qeq_bool (Binary64.nearest (exact a b)) c
  | _, _, _ => true
  end.

Definition ratio (a b : Z) : PrimFloat.float :=
  PrimFloat.div (PrimFloat.of_uint63 (Uint63.of_Z a)) (PrimFloat.of_uint63 (Uint63.of_Z b)).

Definition sampleDoubles : list PrimFloat.float :=
  let pos := [ratio 1 10; ratio 7 10; ratio 2 10; ratio 3 10; ratio 1005 1000;
              ratio 1115 1000; ratio 100 1; ratio 3 1; ratio 1 100000;
              ratio 123456789123 1000; ratio 1 2; ratio 5 2; ratio 7999 100;
              ratio 9007199254740993 1; ratio 1 3] in
  pos ++ map PrimFloat.opp pos.

(** Doubles at both ends of the range: the least subnormal, another
    subnormal, the least normal and the greatest double
    ([ldshiftexp x (2101 + k)] is [x * 2^k]). *)
Definition edgeDoubles : list PrimFloat.float :=
  [PrimFloat.ldshiftexp (ratio 1 1) (Uint63.of_Z (2101 - 1074));
   PrimFloat.ldshiftexp (ratio 1 3) (Uint63.of_Z (2101 - 1030));
   PrimFloat.ldshiftexp (ratio 1 1) (Uint63.of_Z (2101 - 1022));
   PrimFloat.ldshiftexp (ratio 9007199254740991 1) (Uint63.of_Z (2101 + 971))].

Definition sameResults (l : list PrimFloat.float) : bool :=
  forallb (fun x => forallb (fun y =>
     sameResult PrimFloat.add Qplus x y && sameResult PrimFloat.sub Qminus x y &&
     sameResult PrimFloat.mul Qmult x y && sameResult PrimFloat.div Qdiv x y) l) l.


(** ** The report up to the stamps

    An identifier is a position in the input and a reading of the clock.
    The records of a run with their identifiers passed through [f]. *)

Definition relabel (f : TxnId -> TxnId) (t : Transaction) : Transaction :=
  mkTxn (f (t_id t)) (t_date t) (t_type t) (t_symbol t) (t_assetName t)
        (t_quantity t) (t_pricePerUnit t) (t_totalAmount t) (t_fees t)
        (t_currency t) (t_exchangeRate t) (t_broker t) (t_used t) (t_remainingQty t).

Definition relabelDisposal (f : TxnId -> TxnId) (d : Disposal) : Disposal :=
  mkDisposal (f (d_id d)) (d_symbol d) (d_assetName d) (d_date d) (d_quantity d)
             (d_proceeds d) (d_proceedsPerShare d) (d_cost d) (d_costPerShare d)
             (d_gain d) (d_gainPerShare d) (d_taxYear d) (d_matchDetails d)
             (d_broker d).

Definition relabelSummary (f : TxnId -> TxnId) (s : TaxYearSummary) : TaxYearSummary :=
  mkSummary (ty_taxYear s) (ty_numberOfDisposals s) (ty_totalProceeds s)
            (ty_totalCost s) (ty_totalGains s) (ty_totalLosses s) (ty_netGain s)
            (ty_annualExemption s) (ty_taxableGain s)
            (ty_estimatedTaxBasicRate s) (ty_estimatedTaxHigherRate s)
            (map (relabelDisposal f) (ty_disposals s))
            (ty_section104Start s) (ty_section104End s) (ty_rateChange s).

(** The report with the generation time blanked and the identifiers
    passed through [f]. *)
Definition relabelReport (f : TxnId -> TxnId) (r : Report) : Report :=
  mkReport 0%Z (map (relabelSummary f) (taxYears r)) (rep_section104Pools r)
           (map (relabelDisposal f) (allDisposals r)) (rep_acquisitions r)
           (rep_errors r) (summary r).

Definition relabelCalculator (f : TxnId -> TxnId) (calc : Calculator) : Calculator :=
  mkCalculator (section104Pools calc) (section104History calc)
               (map (relabelDisposal f) (disposals calc)) (acquisitions calc)
               (errors calc) (console calc).

Definition relabelAcc (f : TxnId -> TxnId) (acc : MatchAcc) : MatchAcc :=
  mkAcc (acc_remainingQty acc) (acc_totalCost acc) (acc_matchDetails acc)
        (map (relabel f) (acc_buys acc)).

Definition relabelOutcome (f : TxnId -> TxnId) (out : DisposalOutcome) : DisposalOutcome :=
  mkOutcome (out_pool out) (map (relabel f) (out_buys out)) (out_error out)
            (relabelDisposal f (out_disposal out)) (out_console out).

Definition relabelState (f : TxnId -> TxnId) (st : SymbolState) : SymbolState :=
  mkSymbolState (ss_pool st) (map (relabel f) (ss_buys st)) (ss_errors st)
                (map (relabelDisposal f) (ss_disposals st)) (ss_console st).

Definition relabelYearData (f : TxnId -> TxnId) (yd : YearData) : YearData :=
  mkYearData (yd_year yd) (yd_config yd) (map (relabelDisposal f) (yd_disposals yd))
             (yd_totalGains yd) (yd_totalLosses yd).

(** [txn-<index>-<Date.now()>] without the reading of the clock. *)
Definition dropStamp (id : TxnId) : TxnId := mkTxnId (id_index id) 0.

(** The report with [generatedAt] and the stamps of the identifiers
    blanked; the positions that the identifiers carry stay. *)
Definition withoutStamps (r : Report) : Report := relabelReport dropStamp r.

(** ** A sale matched across the end of a tax year *)

(** A purchase in January 2024, a sale on 1 April and a repurchase on
    10 April, across the end of the tax year 2023/24. *)
Definition scenarioAcrossYearEnd : list RawTransaction :=
  [ rawTx "2024-01-10" "buy" "xyz" 100 10;
    rawTx "2024-04-01" "sell" "xyz" 50 12;
    rawTx "2024-04-10" "buy" "xyz" 50 9 ].

(** Symbol, quantity and total cost of the entries of a pool summary. *)
Definition holdings (summary : list PoolSummary) : list (string * Q * Q) :=
  map (fun p => (ps_symbol p, Qred (ps_quantity p), Qred (ps_totalCost p))) summary.

(** * Properties *)

(** ** Comparisons and rounding *)

Lemma Qltb_lt (x y : Q) : Qltb x y = true <-> x < y.
Proof.
  unfold Qltb. rewrite negb_true_iff. split.
  - intros H. apply Qnot_le_lt. intros Hle.
    apply Qle_bool_iff in Hle. congruence.
  - intros H. destruct (Qle_bool y x) eqn:E; [|reflexivity].
    apply Qle_bool_iff in E. exfalso. apply (Qlt_not_le _ _ H E).
Qed.

Lemma Qltb_ge (x y : Q) : Qltb x y = false <-> y <= x.
Proof.
  unfold Qltb. rewrite negb_false_iff. apply Qle_bool_iff.
Qed.

Lemma Qle_bool_false (x y : Q) : Qle_bool x y = false <-> y < x.
Proof.
  rewrite <- Qltb_lt. unfold Qltb. now rewrite negb_true_iff.
Qed.

Lemma mathMin_le_l (x y : Q) : mathMin x y <= x.
Proof.
  unfold mathMin. destruct (Qle_bool x y) eqn:E.
  - apply Qle_refl.
  - apply Qle_bool_false in E. now apply Qlt_le_weak.
Qed.

Lemma mathMin_le_r (x y : Q) : mathMin x y <= y.
Proof.
  unfold mathMin. destruct (Qle_bool x y) eqn:E.
  - now apply Qle_bool_iff.
  - apply Qle_refl.
Qed.

Lemma mathMin_pos (x y : Q) : 0 < x -> 0 < y -> 0 < mathMin x y.
Proof.
  unfold mathMin. now destruct (Qle_bool x y).
Qed.

Lemma mathMin_cases (x y : Q) :
  (mathMin x y = x /\ x <= y) \/ (mathMin x y = y /\ y < x).
Proof.
  unfold mathMin. destruct (Qle_bool x y) eqn:E.
  - left. split; [reflexivity | now apply Qle_bool_iff].
  - right. split; [reflexivity | now apply Qle_bool_false].
Qed.

Lemma mathMax_cases (x y : Q) :
  (mathMax x y = y /\ x <= y) \/ (mathMax x y = x /\ y < x).
Proof.
  unfold mathMax. destruct (Qle_bool x y) eqn:E.
  - left. split; [reflexivity | now apply Qle_bool_iff].
  - right. split; [reflexivity | now apply Qle_bool_false].
Qed.

#[export] Instance mathRound_Proper : Proper (Qeq ==> eq) mathRound.
Proof.
  intros x y H. unfold mathRound. apply Qfloor_comp. now rewrite H.
Qed.

#[export] Instance round2dp_Proper : Proper (Qeq ==> Qeq) round2dp.
Proof.
  intros x y H. unfold round2dp. now rewrite H.
Qed.

Lemma round2dp_is2dp (x : Q) : is2dp (round2dp x).
Proof.
  exists (mathRound (x * 100)). reflexivity.
Qed.

Lemma round2dp_2dp (x : Q) : is2dp x -> round2dp x == x.
Proof.
  intros [z Hz]. unfold round2dp, mathRound.
  assert (E : Qfloor (x * 100 + (1 # 2)) = z).
  { assert (Hx : x * 100 + (1 # 2) == inject_Z z + (1 # 2)).
    { rewrite Hz. field. }
    rewrite (Qfloor_comp _ _ Hx).
    pose proof (Qfloor_le (inject_Z z + (1 # 2))) as Hlo.
    pose proof (Qlt_floor (inject_Z z + (1 # 2))) as Hhi.
    set (f := Qfloor (inject_Z z + (1 # 2))) in *.
    assert (H1 : inject_Z f < inject_Z (z + 1)).
    { rewrite inject_Z_plus. eapply Qle_lt_trans; [apply Hlo|].
      change (inject_Z 1) with 1. lra. }
    assert (H2 : inject_Z z < inject_Z (f + 1)).
    { eapply Qle_lt_trans; [|apply Hhi]. lra. }
    rewrite <- Zlt_Qlt in H1, H2. lia. }
  rewrite E. now rewrite Hz.
Qed.

Lemma round2dp_le (x y : Q) : x <= y -> round2dp x <= round2dp y.
Proof.
  intros H. unfold round2dp, mathRound.
  assert (Hz : (Qfloor (x * 100 + (1 # 2)) <= Qfloor (y * 100 + (1 # 2)))%Z).
  { apply Qfloor_resp_le. lra. }
  rewrite Zle_Qle in Hz.
  set (a := inject_Z _) in *. set (b := inject_Z _) in *.
  unfold Qdiv. apply Qmult_le_compat_r; [exact Hz | discriminate].
Qed.

Lemma round2dp_0 : round2dp 0 == 0.
Proof. reflexivity. Qed.

Lemma round2dp_nonneg (x : Q) : 0 <= x -> 0 <= round2dp x.
Proof.
  intros H. rewrite <- round2dp_0. now apply round2dp_le.
Qed.

Lemma is2dp_0 : is2dp 0.
Proof. exists 0%Z. reflexivity. Qed.

Lemma is2dp_plus (x y : Q) : is2dp x -> is2dp y -> is2dp (x + y).
Proof.
  intros [a Ha] [b Hb]. exists (a + b)%Z.
  rewrite inject_Z_plus, Ha, Hb. field.
Qed.

Lemma is2dp_minus (x y : Q) : is2dp x -> is2dp y -> is2dp (x - y).
Proof.
  intros [a Ha] [b Hb]. exists (a - b)%Z.
  unfold Zminus. rewrite inject_Z_plus, inject_Z_opp, Ha, Hb. field.
Qed.

Lemma is2dp_Qeq (x y : Q) : x == y -> is2dp x -> is2dp y.
Proof.
  intros H [a Ha]. exists a. now rewrite <- H.
Qed.

Lemma sumQ_snoc (l : list Q) (x : Q) : sumQ (l ++ [x]) = sumQ l + x.
Proof.
  unfold sumQ. now rewrite fold_left_app.
Qed.

(** ** The matching loops keep the books *)

Lemma forEachUntilMatched_inv (P : MatchAcc -> Prop) body cands :
  (forall i acc, P acc -> 0 < acc_remainingQty acc -> P (body i acc)) ->
  forall acc, P acc -> P (forEachUntilMatched body cands acc).
Proof.
  intros Hbody. induction cands as [|i rest IH]; intros acc HP; simpl.
  - exact HP.
  - destruct (Qle_bool (acc_remainingQty acc) 0) eqn:E; [exact HP|].
    apply IH, Hbody; [exact HP | now apply Qle_bool_false].
Qed.

Lemma calculateCost_is2dp t q : is2dp (calculateCost t q).
Proof. apply round2dp_is2dp. Qed.

Lemma AccInv_step q acc matchQty matchCost detail buys' :
  AccInv q acc ->
  matchQty <= acc_remainingQty acc ->
  is2dp matchCost ->
  md_quantity detail = matchQty ->
  md_cost detail = matchCost ->
  AccInv q (mkAcc (acc_remainingQty acc - matchQty) (acc_totalCost acc + matchCost)
                  (acc_matchDetails acc ++ [detail]) buys').
Proof.
  intros (Hpos & Hsum & Hcost & H2) Hle Hdp Hq Hc.
  unfold AccInv; simpl. rewrite !map_app; simpl. rewrite !sumQ_snoc.
  rewrite Hq, Hc. repeat split.
  - lra.
  - rewrite <- Hsum. ring.
  - rewrite Hcost. reflexivity.
  - now apply is2dp_plus.
Qed.

Lemma sameDayBody_inv q pps i acc :
  AccInv q acc -> AccInv q (sameDayBody pps i acc).
Proof.
  intros H. unfold sameDayBody.
  destruct (nth_error (acc_buys acc) i) as [buy|]; [|exact H].
  apply AccInv_step; auto using mathMin_le_l, calculateCost_is2dp.
Qed.

Lemma bnbBody_inv q pool disposal pps i acc :
  AccInv q acc -> AccInv q (bnbBody pool disposal pps i acc).
Proof.
  intros H. unfold bnbBody.
  destruct (nth_error (acc_buys acc) i) as [buy|]; [|exact H].
  apply AccInv_step; auto using mathMin_le_l, calculateCost_is2dp.
Qed.

Lemma sameDayStage_inv disposal pps buys :
  0 < t_quantity disposal ->
  AccInv (t_quantity disposal) (sameDayStage disposal pps buys).
Proof.
  intros Hq. unfold sameDayStage.
  apply forEachUntilMatched_inv.
  - intros i acc H _. now apply sameDayBody_inv.
  - unfold AccInv, sumQ; simpl. repeat split; try lra. apply is2dp_0.
Qed.

Lemma bnbStage_inv q pool disposal pps acc :
  AccInv q acc -> AccInv q (bnbStage pool disposal pps acc).
Proof.
  intros H. unfold bnbStage.
  destruct (Qltb 0 (acc_remainingQty acc)); [|exact H].
  apply forEachUntilMatched_inv; [|exact H].
  intros i a Ha _. now apply bnbBody_inv.
Qed.

Lemma drawFromPool_inv q pps pool acc :
  AccInv q acc -> AccInv q (snd (drawFromPool pps pool acc)).
Proof.
  intros H. unfold drawFromPool.
  destruct (Qltb 0 (p_quantity pool)); [|exact H]. simpl.
  apply AccInv_step; auto using mathMin_le_l, round2dp_is2dp.
Qed.

Lemma poolStage_inv q pool disposal pps acc :
  AccInv q acc -> AccInv q (snd (poolStage pool disposal pps acc)).
Proof.
  intros H. unfold poolStage.
  destruct (Qltb 0 (acc_remainingQty acc)); [|exact H].
  destruct (fold_left rollInBody _ _) as [pool1 buys1].
  apply drawFromPool_inv. exact H.
Qed.

Lemma matchedAcc_inv disposal buys pool :
  0 < t_quantity disposal ->
  AccInv (t_quantity disposal) (snd (matchedAcc disposal buys pool)).
Proof.
  intros Hq. unfold matchedAcc.
  apply poolStage_inv, bnbStage_inv, sameDayStage_inv, Hq.
Qed.

Lemma processDisposal_fields symbol disposal buys pool :
  let out := processDisposal symbol disposal buys pool in
  let acc := snd (matchedAcc disposal buys pool) in
  out_pool out = fst (matchedAcc disposal buys pool) /\
  out_buys out = acc_buys acc /\
  d_matchDetails (out_disposal out) = acc_matchDetails acc /\
  d_cost (out_disposal out) = round2dp (acc_totalCost acc) /\
  d_quantity (out_disposal out) = t_quantity disposal /\
  d_symbol (out_disposal out) = symbol /\
  d_date (out_disposal out) = formatDateLocal (t_date disposal) /\
  d_id (out_disposal out) = t_id disposal /\
  d_taxYear (out_disposal out) = fst (fst (getTaxYear (t_date disposal))) /\
  d_gain (out_disposal out) =
    round2dp (calculateProceeds disposal (t_quantity disposal) - acc_totalCost acc) /\
  out_error out =
    (if Qltb 0 (acc_remainingQty acc)
     then Some (mkError UNMATCHED_DISPOSAL symbol (formatDateLocal (t_date disposal))
                        (acc_remainingQty acc))
     else None) /\
  out_console out = snd (getTaxYear (t_date disposal)).
Proof.
  unfold processDisposal, matchedAcc.
  destruct (poolStage _ _ _ _) as [pool3 acc3].
  destruct (getTaxYear (t_date disposal)) as [taxYear msgs].
  simpl. repeat split; reflexivity.
Qed.

(** C2. Every sale is recorded once; the quantities of its match details add
    up to its quantity, or else they fall short by exactly the quantity that
    one new UNMATCHED_DISPOSAL entry (same symbol, same date) reports; in
    both cases the recorded cost is the sum of the costs of the details, so
    the unmatched part costs nothing. *)
Theorem unmatched_disposal_accounted
        (symbol : string) (st : SymbolState) (disposal : Transaction) :
  0 < t_quantity disposal ->
  exists d : Disposal,
    ss_disposals (sellBody symbol st disposal) = ss_disposals st ++ [d] /\
    d_symbol d = symbol /\
    d_date d = formatDateLocal (t_date disposal) /\
    d_quantity d = t_quantity disposal /\
    d_cost d == sumQ (map md_cost (d_matchDetails d)) /\
    ((sumQ (map md_quantity (d_matchDetails d)) == d_quantity d /\
      ss_errors (sellBody symbol st disposal) = ss_errors st)
     \/
     (exists unmatched : Q,
        0 < unmatched /\
        sumQ (map md_quantity (d_matchDetails d)) + unmatched == d_quantity d /\
        ss_errors (sellBody symbol st disposal) =
          ss_errors st ++ [mkError UNMATCHED_DISPOSAL symbol (d_date d) unmatched])).
Proof.
  intros Hq.
  pose proof (processDisposal_fields symbol disposal (ss_buys st) (ss_pool st)) as F.
  cbv zeta in F.
  destruct F as (_ & _ & Hmd & Hcost & Hqty & Hsym & Hdate & _ & _ & _ & Herr & _).
  pose proof (matchedAcc_inv disposal (ss_buys st) (ss_pool st) Hq) as Hinv.
  destruct Hinv as (Hpos & Hsum & Htot & H2).
  set (out := processDisposal symbol disposal (ss_buys st) (ss_pool st)) in *.
  set (acc := snd (matchedAcc disposal (ss_buys st) (ss_pool st))) in *.
  exists (out_disposal out). unfold sellBody. fold out. simpl.
  repeat split; auto.
  - rewrite Hcost, Hmd, <- Htot. now apply round2dp_2dp.
  - rewrite Herr, Hmd, Hqty, Hdate.
    destruct (Qltb 0 (acc_remainingQty acc)) eqn:E.
    + right. exists (acc_remainingQty acc). apply Qltb_lt in E.
      repeat split; auto. rewrite <- Hsum. ring.
    + left. apply Qltb_ge in E. split.
      * rewrite <- Hsum. assert (acc_remainingQty acc == 0) by lra. lra.
      * simpl. now rewrite app_nil_r.
Qed.

Lemma unmatched_disposal_accounted_witness :
  0 < t_quantity (txAt 0 "SELL" 50 12) /\
  exists d : Disposal,
    ss_disposals (sellBody "XYZ" (mkSymbolState (mkPool 0 0) [] [] [] [])
                           (txAt 0 "SELL" 50 12)) = [d] /\
    d_quantity d = 50.
Proof.
  split; [reflexivity|].
  destruct (unmatched_disposal_accounted
              "XYZ" (mkSymbolState (mkPool 0 0) [] [] [] []) (txAt 0 "SELL" 50 12))
    as (d & Hd & _ & _ & Hq & _).
  - reflexivity.
  - exists d. split; [exact Hd | exact Hq].
Defined.

(** ** Sorting *)

Lemma insertSorted_perm {A} (le : A -> A -> bool) x l :
  Permutation (insertSorted le x l) (x :: l).
Proof.
  induction l as [|y l IH]; simpl.
  - apply Permutation_refl.
  - destruct (le x y).
    + apply Permutation_refl.
    + eapply perm_trans; [apply perm_skip, IH|].
      apply perm_swap.
Qed.

Lemma stableSort_perm {A} (le : A -> A -> bool) l :
  Permutation (stableSort le l) l.
Proof.
  induction l as [|x l IH]; simpl.
  - apply perm_nil.
  - eapply perm_trans; [apply insertSorted_perm|].
    now apply perm_skip.
Qed.

Lemma stableSort_In {A} (le : A -> A -> bool) l x :
  In x (stableSort le l) <-> In x l.
Proof.
  split; apply Permutation_in;
    [|apply Permutation_sym]; apply stableSort_perm.
Qed.

Lemma stableSort_Forall {A} (P : A -> Prop) (le : A -> A -> bool) l :
  Forall P l -> Forall P (stableSort le l).
Proof.
  rewrite !Forall_forall. intros H x Hx. apply H. now apply stableSort_In in Hx.
Qed.

Lemma insertSorted_map {A B} (f : A -> B) (le : A -> A -> bool) (le' : B -> B -> bool) x l :
  (forall a b, le' (f a) (f b) = le a b) ->
  map f (insertSorted le x l) = insertSorted le' (f x) (map f l).
Proof.
  intros H. induction l as [|y l IH]; simpl; [reflexivity|].
  rewrite H. destruct (le x y); simpl; [reflexivity | now rewrite IH].
Qed.

Lemma stableSort_map {A B} (f : A -> B) (le : A -> A -> bool) (le' : B -> B -> bool) l :
  (forall a b, le' (f a) (f b) = le a b) ->
  map f (stableSort le l) = stableSort le' (map f l).
Proof.
  intros H. induction l as [|x l IH]; simpl; [reflexivity|].
  unfold stableSort in *. now rewrite (insertSorted_map f le le'), IH.
Qed.

(** ** The normalizer *)

Section NormalizerFacts.
Context {host : Host}.

Lemma somes_In {A} (l : list (option A)) x : In x (somes l) <-> In (Some x) l.
Proof.
  induction l as [|[y|] l IH]; simpl.
  - tauto.
  - rewrite IH. split; intros [H|H]; auto; left; congruence.
  - rewrite IH. split; [auto | intros [H|H]; [discriminate | exact H]].
Qed.

Lemma mapi_from_In {A B} (f : A -> nat -> B) l k y :
  In y (mapi_from f k l) ->
  exists i x, nth_error l i = Some x /\ y = f x (k + i)%nat.
Proof.
  revert k. induction l as [|x l IH]; simpl; intros k H; [contradiction|].
  destruct H as [H|H].
  - exists 0%nat, x. split; [reflexivity|]. now rewrite Nat.add_0_r.
  - destruct (IH _ H) as (i & x' & Hi & Hy).
    exists (S i), x'. split; [exact Hi|]. now rewrite Nat.add_succ_r.
Qed.

(** Where a record of the matching stream comes from. *)
Lemma normalizeTransactions_origin clock raws t :
  In t (fst (normalizeTransactions clock raws)) ->
  exists i r, nth_error raws i = Some r /\
              fst (normalizeOne clock r i) = Some t /\
              0 < t_quantity t.
Proof.
  unfold normalizeTransactions; simpl. intros H.
  apply stableSort_In, somes_In, filter_In in H. destruct H as [H Hk].
  apply in_map_iff in H. destruct H as (p & Hp & Hin).
  apply mapi_from_In in Hin. destruct Hin as (i & r & Hi & ->).
  exists i, r. simpl in *. repeat split; auto.
  now apply Qltb_lt.
Qed.

Lemma orDefault_nonzero x d : ~ d == 0 -> ~ orDefault x d == 0.
Proof.
  intros Hd. destruct x as [v|]; simpl; [|exact Hd].
  unfold orNum. destruct (Qeq_bool v 0) eqn:E; [exact Hd|].
  now apply Qeq_bool_neq.
Qed.

Lemma normalizeOne_exchangeRate clock r i t :
  fst (normalizeOne clock r i) = Some t ->
  t_exchangeRate t = orDefault (parseFloat (raw_exchangeRate r)) 1.
Proof.
  unfold normalizeOne. destruct (parseDate (raw_date r)) as [[d|] msgs]; simpl.
  - intros [= <-]. reflexivity.
  - discriminate.
Qed.

(** C10. Whatever the raw exchange rate is, the rate of a normalized record
    is 1 when the raw one is missing, not a number or zero, and the raw
    number otherwise; so no record of the matching stream has a zero rate,
    and the division by the rate in [calculateCost] and
    [calculateProceeds] never divides by zero. *)
Theorem exchange_rate_never_zero (clock : Clock) (raws : list RawTransaction) :
  (forall r i,
      match fst (normalizeOne clock r i), parseFloat (raw_exchangeRate r) with
      | Some t, None => t_exchangeRate t = 1
      | Some t, Some q => if Qeq_bool q 0 then t_exchangeRate t = 1
                          else t_exchangeRate t = q
      | None, _ => True
      end) /\
  Forall (fun t => ~ t_exchangeRate t == 0)
         (fst (normalizeTransactions clock raws)).
Proof.
  split.
  - intros r i. destruct (fst (normalizeOne clock r i)) as [t|] eqn:E.
    + apply normalizeOne_exchangeRate in E. rewrite E.
      destruct (parseFloat (raw_exchangeRate r)) as [q|]; simpl; [|reflexivity].
      unfold orNum. now destruct (Qeq_bool q 0).
    + now destruct (parseFloat (raw_exchangeRate r)).
  - apply Forall_forall. intros t Ht.
    apply normalizeTransactions_origin in Ht.
    destruct Ht as (i & r & _ & Hn & _).
    rewrite (normalizeOne_exchangeRate _ _ _ _ Hn).
    apply orDefault_nonzero. discriminate.
Qed.

End NormalizerFacts.

(** ** Identifiers are carried, never read *)

Lemma objGet_objMap {V W} (f : V -> W) (o : JsObject V) k :
  objGet (objMap f o) k = option_map f (objGet o k).
Proof.
  unfold objGet, objMap. induction o as [|[k' v] o IH]; simpl; [reflexivity|].
  destruct (String.eqb k' k); [reflexivity | exact IH].
Qed.

Lemma objHas_objMap {V W} (f : V -> W) (o : JsObject V) k :
  objHas (objMap f o) k = objHas o k.
Proof.
  unfold objHas, objMap. induction o as [|[k' v] o IH]; simpl; [reflexivity|].
  now rewrite IH.
Qed.

Lemma objReplace_objMap {V W} (f : V -> W) (o : JsObject V) k v :
  objReplace (objMap f o) k (f v) = objMap f (objReplace o k v).
Proof.
  unfold objMap. induction o as [|[k' w] o IH]; simpl; [reflexivity|].
  destruct (String.eqb k' k); simpl; [reflexivity | now rewrite IH].
Qed.

Lemma objInsertIndex_objMap {V W} (f : V -> W) (o : JsObject V) n k v :
  objInsertIndex (objMap f o) n k (f v) = objMap f (objInsertIndex o n k v).
Proof.
  unfold objMap. induction o as [|[k' w] o IH]; simpl; [reflexivity|].
  destruct (arrayIndex k') as [m|]; [|reflexivity].
  destruct (m <? n)%Z; simpl; [now rewrite IH | reflexivity].
Qed.

Lemma objSet_objMap {V W} (f : V -> W) (o : JsObject V) k v :
  objSet (objMap f o) k (f v) = objMap f (objSet o k v).
Proof.
  unfold objSet. rewrite objHas_objMap.
  destruct (objHas o k); [apply objReplace_objMap|].
  destruct (arrayIndex k); [apply objInsertIndex_objMap|].
  unfold objMap. now rewrite map_app.
Qed.

Lemma filterIndices_map {A B} (g : A -> B) (f : B -> bool) (f' : A -> bool) l :
  (forall x, f (g x) = f' x) ->
  filterIndices f (map g l) = filterIndices f' l.
Proof.
  intros H. unfold filterIndices. rewrite length_map.
  generalize 0%nat. induction l as [|x l IH]; intros k; simpl; [reflexivity|].
  rewrite H. destruct (f' x); simpl; now rewrite IH.
Qed.

Lemma setNth_map {A B} (g : A -> B) l i v :
  setNth (map g l) i (g v) = map g (setNth l i v).
Proof.
  revert i. induction l as [|x l IH]; intros [|i]; simpl; try reflexivity.
  now rewrite IH.
Qed.

Lemma forEachUntilMatched_forget body cands acc :
  (forall i a, body i (forgetAccIds a) = forgetAccIds (body i a)) ->
  forEachUntilMatched body cands (forgetAccIds acc)
  = forgetAccIds (forEachUntilMatched body cands acc).
Proof.
  intros H. revert acc. induction cands as [|i rest IH]; intros acc; simpl.
  - reflexivity.
  - destruct (Qle_bool (acc_remainingQty acc) 0); [reflexivity|].
    now rewrite H, IH.
Qed.

Lemma sameDayBody_forget pps i acc :
  sameDayBody pps i (forgetAccIds acc) = forgetAccIds (sameDayBody pps i acc).
Proof.
  unfold sameDayBody, forgetAccIds; simpl. rewrite nth_error_map.
  destruct (nth_error (acc_buys acc) i) as [buy|]; simpl; [|reflexivity].
  f_equal. exact (setNth_map forgetId _ _ (withRemainingQty buy _)).
Qed.

Lemma bnbBody_forget pool disposal pps i acc :
  bnbBody pool (forgetId disposal) pps i (forgetAccIds acc)
  = forgetAccIds (bnbBody pool disposal pps i acc).
Proof.
  unfold bnbBody, forgetAccIds; simpl. rewrite nth_error_map.
  destruct (nth_error (acc_buys acc) i) as [buy|]; simpl; [|reflexivity].
  f_equal. exact (setNth_map forgetId _ _ (withRemainingQty buy _)).
Qed.

Lemma timeAt_forget buys i : timeAt (map forgetId buys) i = timeAt buys i.
Proof.
  unfold timeAt. rewrite nth_error_map. now destruct (nth_error buys i).
Qed.

Lemma stableSort_ext {A} (le le' : A -> A -> bool) l :
  (forall a b, le a b = le' a b) -> stableSort le l = stableSort le' l.
Proof.
  intros H. induction l as [|x l IH]; simpl; [reflexivity|].
  unfold stableSort in *. rewrite IH. generalize (fold_right (insertSorted le') [] l).
  intros s. induction s as [|y s IHs]; simpl; [reflexivity|].
  rewrite H. destruct (le' x y); [reflexivity | now rewrite IHs].
Qed.

Lemma sameDayStage_forget disposal pps buys :
  sameDayStage (forgetId disposal) pps (map forgetId buys)
  = forgetAccIds (sameDayStage disposal pps buys).
Proof.
  unfold sameDayStage.
  rewrite (filterIndices_map forgetId _ (isSameDayCandidate disposal))
    by reflexivity.
  change (mkAcc (t_quantity (forgetId disposal)) 0 [] (map forgetId buys))
    with (forgetAccIds (mkAcc (t_quantity disposal) 0 [] buys)).
  apply forEachUntilMatched_forget. intros. apply sameDayBody_forget.
Qed.

Lemma bnbStage_forget pool disposal pps acc :
  bnbStage pool (forgetId disposal) pps (forgetAccIds acc)
  = forgetAccIds (bnbStage pool disposal pps acc).
Proof.
  unfold bnbStage. simpl.
  destruct (Qltb 0 (acc_remainingQty acc)); [|reflexivity].
  rewrite (filterIndices_map forgetId _ (isBnbCandidate disposal)) by reflexivity.
  rewrite (stableSort_ext (byTimeAt (map forgetId (acc_buys acc)))
                          (byTimeAt (acc_buys acc)))
    by (intros; unfold byTimeAt; now rewrite !timeAt_forget).
  apply forEachUntilMatched_forget. intros. apply bnbBody_forget.
Qed.

Lemma rollIn_forget cands pool buys :
  fold_left rollInBody cands (pool, map forgetId buys)
  = (fst (fold_left rollInBody cands (pool, buys)),
     map forgetId (snd (fold_left rollInBody cands (pool, buys)))).
Proof.
  revert pool buys. induction cands as [|i rest IH]; intros pool buys; simpl.
  - reflexivity.
  - rewrite nth_error_map.
    destruct (nth_error buys i) as [buy|]; simpl; [|apply IH].
    rewrite <- IH. f_equal. f_equal.
    exact (setNth_map forgetId _ _ (withRemainingQty buy _)).
Qed.

Lemma poolStage_forget pool disposal pps acc :
  poolStage pool (forgetId disposal) pps (forgetAccIds acc)
  = (fst (poolStage pool disposal pps acc),
     forgetAccIds (snd (poolStage pool disposal pps acc))).
Proof.
  unfold poolStage. simpl.
  destruct (Qltb 0 (acc_remainingQty acc)); [|reflexivity].
  rewrite (filterIndices_map forgetId _ (isEarlierBuy disposal)) by reflexivity.
  rewrite rollIn_forget.
  destruct (fold_left rollInBody _ (pool, acc_buys acc)) as [pool1 buys1]. simpl.
  unfold drawFromPool. simpl.
  now destruct (Qltb 0 (p_quantity pool1)).
Qed.

Lemma processDisposal_forget symbol disposal buys pool :
  processDisposal symbol (forgetId disposal) (map forgetId buys) pool
  = forgetOutcomeIds (processDisposal symbol disposal buys pool).
Proof.
  unfold processDisposal.
  change (calculateProceeds (forgetId disposal) (t_quantity (forgetId disposal)))
    with (calculateProceeds disposal (t_quantity disposal)).
  change (t_quantity (forgetId disposal)) with (t_quantity disposal).
  rewrite sameDayStage_forget, bnbStage_forget, poolStage_forget.
  destruct (poolStage _ _ _ _) as [pool3 acc3]. simpl.
  destruct (getTaxYear (t_date disposal)) as [taxYear msgs].
  reflexivity.
Qed.

Lemma filter_map_swap {A B} (g : A -> B) (f : B -> bool) l :
  filter f (map g l) = map g (filter (fun x => f (g x)) l).
Proof.
  induction l as [|x l IH]; simpl; [reflexivity|].
  destruct (f (g x)); simpl; now rewrite IH.
Qed.

Lemma fold_left_map_list {A B C} (f : A -> B -> A) (g : C -> B) l a :
  fold_left f (map g l) a = fold_left (fun a x => f a (g x)) l a.
Proof.
  revert a. induction l as [|x l IH]; intros a; simpl; [reflexivity | apply IH].
Qed.

Lemma sellBody_forget symbol st disposal :
  sellBody symbol (forgetStateIds st) (forgetId disposal)
  = forgetStateIds (sellBody symbol st disposal).
Proof.
  unfold sellBody. simpl. rewrite processDisposal_forget.
  unfold forgetStateIds; simpl. now rewrite map_app.
Qed.

Lemma sells_forget symbol sells st :
  fold_left (sellBody symbol) (map forgetId sells) (forgetStateIds st)
  = forgetStateIds (fold_left (sellBody symbol) sells st).
Proof.
  revert st. induction sells as [|d sells IH]; intros st; simpl; [reflexivity|].
  now rewrite sellBody_forget, IH.
Qed.

Lemma processSymbol_forget symbol txs calc :
  processSymbol symbol (map forgetId txs) (forgetCalculatorIds calc)
  = forgetCalculatorIds (processSymbol symbol txs calc).
Proof.
  unfold processSymbol.
  rewrite !(filter_map_swap forgetId).
  change (fun x => isBuy (forgetId x)) with isBuy.
  change (fun x => isSell (forgetId x)) with isSell.
  change (mkSymbolState (poolOf (forgetCalculatorIds calc) symbol)
            (map forgetId (filter isBuy txs)) (errors (forgetCalculatorIds calc))
            (disposals (forgetCalculatorIds calc)) (console (forgetCalculatorIds calc)))
    with (forgetStateIds (mkSymbolState (poolOf calc symbol) (filter isBuy txs)
                            (errors calc) (disposals calc) (console calc))).
  rewrite sells_forget.
  set (st := fold_left (sellBody symbol) (filter isSell txs) _).
  simpl. rewrite fold_left_map_list.
  change (fun a x => finalRollInBody a (forgetId x)) with finalRollInBody.
  change (historyOf (forgetCalculatorIds calc) symbol) with (historyOf calc symbol).
  destruct (fold_left finalRollInBody (ss_buys st) _) as [pool history].
  unfold forgetCalculatorIds; simpl. rewrite map_map. reflexivity.
Qed.

Lemma bySymbol_forget txs o :
  fold_left bySymbolBody (map forgetId txs) (objMap (map forgetId) o)
  = objMap (map forgetId) (fold_left bySymbolBody txs o).
Proof.
  revert o. induction txs as [|t txs IH]; intros o; simpl; [reflexivity|].
  rewrite <- IH. f_equal. unfold bySymbolBody.
  change (t_symbol (forgetId t)) with (t_symbol t).
  rewrite objGet_objMap, <- (objSet_objMap (map forgetId)).
  f_equal. destruct (objGet o (t_symbol t)); simpl; [|reflexivity].
  now rewrite map_app.
Qed.

Lemma symbols_forget (o : JsObject (list Transaction)) calc :
  fold_left (fun c e => processSymbol (fst e) (snd e) c)
            (objMap (map forgetId) o) (forgetCalculatorIds calc)
  = forgetCalculatorIds
      (fold_left (fun c e => processSymbol (fst e) (snd e) c) o calc).
Proof.
  revert calc. induction o as [|[k ts] o IH]; intros calc; simpl; [reflexivity|].
  now rewrite processSymbol_forget, IH.
Qed.

Lemma groupBody_forget ds o :
  fold_left groupBody (map forgetDisposalId ds) (objMap forgetYearDataIds o)
  = objMap forgetYearDataIds (fold_left groupBody ds o).
Proof.
  revert o. induction ds as [|d ds IH]; intros o; simpl; [reflexivity|].
  rewrite <- IH. f_equal. unfold groupBody.
  change (d_taxYear (forgetDisposalId d)) with (d_taxYear d).
  change (d_gain (forgetDisposalId d)) with (d_gain d).
  rewrite objGet_objMap, <- (objSet_objMap forgetYearDataIds).
  f_equal. destruct (objGet o (d_taxYear d)) as [yd|]; simpl;
    unfold forgetYearDataIds; simpl; now rewrite ?map_app.
Qed.

Lemma splitOf_forget config ds :
  splitOf config (map forgetDisposalId ds) = splitOf config ds.
Proof.
  unfold splitOf. destruct (obind config cfg_rateChangeDate); [|reflexivity].
  now rewrite fold_left_map_list.
Qed.

Lemma rateChangeOf_forget config s ds :
  rateChangeOf config s (map forgetDisposalId ds) = rateChangeOf config s ds.
Proof.
  unfold rateChangeOf. destruct (obind config cfg_rateChangeDate); [|reflexivity].
  rewrite !(filter_map_swap forgetDisposalId), !length_map. reflexivity.
Qed.

Lemma summarize_forget snaps yd :
  summarize snaps (forgetYearDataIds yd) = forgetSummaryIds (summarize snaps yd).
Proof.
  unfold summarize. simpl.
  rewrite splitOf_forget, rateChangeOf_forget, !fold_left_map_list, length_map.
  destruct (estimatedTax _ _ _ _) as [basic higher]. reflexivity.
Qed.

Section ClockFacts.
Context {host : Host}.

Lemma snapshots_forget calc :
  calculateSection104Snapshots (forgetCalculatorIds calc)
  = calculateSection104Snapshots calc.
Proof.
  unfold calculateSection104Snapshots. simpl. now rewrite !map_map.
Qed.

Lemma generateReport_forget now calc :
  withoutClock (generateReport now calc)
  = generateReport 0%Z (forgetCalculatorIds calc).
Proof.
  unfold generateReport, withoutClock. simpl.
  rewrite snapshots_forget.
  change (@nil (string * YearData)) with (objMap forgetYearDataIds []).
  rewrite groupBody_forget.
  rewrite !map_map, length_map, fold_left_map_list. simpl.
  f_equal.
  rewrite (stableSort_map forgetSummaryIds _
             (fun a b => localeLe (ty_taxYear b) (ty_taxYear a))) by reflexivity.
  f_equal. unfold objMap. rewrite !map_map. apply map_ext.
  intros [k yd]. simpl. symmetry. apply summarize_forget.
Qed.

Lemma normalizeOne_forget clock clock' r i j :
  option_map forgetId (fst (normalizeOne clock r i))
  = option_map forgetId (fst (normalizeOne clock' r j)).
Proof.
  unfold normalizeOne. now destruct (parseDate (raw_date r)) as [[d|] msgs].
Qed.

Lemma keepTransaction_forget t :
  keepTransaction (option_map forgetId t) = keepTransaction t.
Proof. now destruct t. Qed.

Lemma somes_map {A B} (g : A -> B) l :
  somes (map (option_map g) l) = map g (somes l).
Proof.
  induction l as [|[x|] l IH]; simpl; [reflexivity | now rewrite IH | exact IH].
Qed.

(** The matching stream without its identifiers, from the mapped rows. *)
Lemma normalizeTransactions_forget clock raws :
  map forgetId (fst (normalizeTransactions clock raws))
  = stableSort byDate
      (somes (filter keepTransaction
                (map (option_map forgetId)
                     (map fst (mapi (normalizeOne clock) raws))))).
Proof.
  unfold normalizeTransactions. simpl.
  rewrite (stableSort_map forgetId byDate byDate) by reflexivity.
  f_equal. rewrite <- somes_map. f_equal.
  rewrite (filter_map_swap (option_map forgetId)).
  f_equal. apply filter_ext. intros t. symmetry. apply keepTransaction_forget.
Qed.

Lemma mapi_from_forget clock clock' raws i j :
  map (option_map forgetId) (map fst (mapi_from (normalizeOne clock) i raws))
  = map (option_map forgetId) (map fst (mapi_from (normalizeOne clock') j raws)).
Proof.
  revert i j. induction raws as [|r raws IH]; intros i j; simpl; [reflexivity|].
  f_equal; [apply normalizeOne_forget | apply IH].
Qed.

Lemma fold_left_erase {A B} (erase : A -> A) (f : A -> B -> A) l a :
  (forall a, erase (erase a) = erase a) ->
  (forall a x, erase (f a x) = erase (f (erase a) x)) ->
  erase (fold_left f l a) = erase (fold_left f l (erase a)).
Proof.
  intros Hid H. revert a. induction l as [|x l IH]; intros a; simpl.
  - now rewrite Hid.
  - rewrite IH, H, <- IH. reflexivity.
Qed.

Lemma processSymbol_console symbol txs calc :
  dropConsole (processSymbol symbol txs calc)
  = dropConsole (processSymbol symbol txs (dropConsole calc)).
Proof.
  unfold processSymbol.
  change (poolOf (dropConsole calc) symbol) with (poolOf calc symbol).
  change (historyOf (dropConsole calc) symbol) with (historyOf calc symbol).
  simpl.
  set (f := sellBody symbol). set (sells := filter isSell txs).
  set (st := mkSymbolState _ _ _ _ (console calc)).
  set (st' := mkSymbolState _ _ _ _ []).
  assert (E : dropStateConsole (fold_left f sells st)
              = dropStateConsole (fold_left f sells st')).
  { change st' with (dropStateConsole st).
    apply fold_left_erase; reflexivity. }
  assert (Ep : ss_pool (fold_left f sells st) = ss_pool (fold_left f sells st'))
    by exact (f_equal ss_pool E).
  assert (Eb : ss_buys (fold_left f sells st) = ss_buys (fold_left f sells st'))
    by exact (f_equal ss_buys E).
  assert (Ee : ss_errors (fold_left f sells st) = ss_errors (fold_left f sells st'))
    by exact (f_equal ss_errors E).
  assert (Ed : ss_disposals (fold_left f sells st) = ss_disposals (fold_left f sells st'))
    by exact (f_equal ss_disposals E).
  rewrite Ep, Eb, Ee, Ed.
  now destruct (fold_left finalRollInBody _ _) as [pool history].
Qed.

Lemma symbols_console (o : JsObject (list Transaction)) calc :
  dropConsole (fold_left (fun c e => processSymbol (fst e) (snd e) c) o calc)
  = dropConsole (fold_left (fun c e => processSymbol (fst e) (snd e) c) o
                           (dropConsole calc)).
Proof.
  apply fold_left_erase; [reflexivity|].
  intros a x. apply processSymbol_console.
Qed.

(** The report up to the clock is a function of the matching stream up to
    its identifiers. *)
Lemma calculate_forget clock clock' raws raws' :
  map forgetId (fst (normalizeTransactions clock raws))
  = map forgetId (fst (normalizeTransactions clock' raws')) ->
  withoutClock (calculateCGT clock raws) = withoutClock (calculateCGT clock' raws').
Proof.
  intros H. unfold calculateCGT, calculate.
  destruct (normalizeTransactions clock raws) as [txs msgs].
  destruct (normalizeTransactions clock' raws') as [txs' msgs'].
  simpl in *. rewrite !generateReport_forget.
  set (run := fun c e => processSymbol (fst e) (snd e) c).
  assert (G : forall now c, generateReport now c = generateReport now (dropConsole c))
    by reflexivity.
  rewrite (G _ (forgetCalculatorIds (fold_left run (fold_left bySymbolBody txs []) _))).
  rewrite (G _ (forgetCalculatorIds (fold_left run (fold_left bySymbolBody txs' []) _))).
  f_equal.
  assert (K : forall ts ms,
             dropConsole (forgetCalculatorIds
               (fold_left run (fold_left bySymbolBody ts [])
                  (mkCalculator [] [] [] [] [] ms)))
             = dropConsole
                 (fold_left run (fold_left bySymbolBody (map forgetId ts) [])
                            newCalculator)).
  { intros ts ms. unfold run.
    rewrite <- symbols_forget.
    change (@nil (string * list Transaction)) with (objMap (map forgetId) []).
    rewrite <- bySymbol_forget. rewrite symbols_console. reflexivity. }
  rewrite !K, H. reflexivity.
Qed.

End ClockFacts.

Section NormalizerClaims.
Context {host : Host}.

Lemma mapi_from_app {A B} (f : A -> nat -> B) k l1 l2 :
  mapi_from f k (l1 ++ l2) = mapi_from f k l1 ++ mapi_from f (k + List.length l1) l2.
Proof.
  revert k. induction l1 as [|x l1 IH]; intros k; simpl.
  - now rewrite Nat.add_0_r.
  - rewrite IH. do 3 f_equal. lia.
Qed.

Lemma normalizeOne_index clock r i t :
  fst (normalizeOne clock r i) = Some t -> id_index (t_id t) = i.
Proof.
  unfold normalizeOne. destruct (parseDate (raw_date r)) as [[d|] msgs]; simpl.
  - intros [= <-]. reflexivity.
  - discriminate.
Qed.

Lemma normalizeOne_rejects clock r i :
  fst (parseDate (raw_date r)) = None \/
  Qabs (orDefault (parseFloat (raw_quantity r)) 0) <= 0 ->
  keepTransaction (fst (normalizeOne clock r i)) = false.
Proof.
  unfold normalizeOne. destruct (parseDate (raw_date r)) as [[d|] msgs]; simpl.
  - intros [H|H]; [discriminate|]. now apply Qltb_ge.
  - reflexivity.
Qed.

(** C8. A raw record whose date does not parse, or whose normalized
    quantity is not positive, leaves no record in the matching stream; the
    stream of the other records, and the report computed from it, are what
    they would be had the bad record not been in the input (identifiers and
    generation time apart, since those record positions and clock
    readings). *)
Theorem invalid_records_are_dropped
        (clock clock' : Clock) (pre post : list RawTransaction) (r : RawTransaction) :
  fst (parseDate (raw_date r)) = None \/
  Qabs (orDefault (parseFloat (raw_quantity r)) 0) <= 0 ->
  Forall (fun t => id_index (t_id t) <> List.length pre)
         (fst (normalizeTransactions clock (pre ++ r :: post))) /\
  map forgetId (fst (normalizeTransactions clock (pre ++ r :: post)))
  = map forgetId (fst (normalizeTransactions clock' (pre ++ post))) /\
  withoutClock (calculateCGT clock (pre ++ r :: post))
  = withoutClock (calculateCGT clock' (pre ++ post)).
Proof.
  intros Hbad.
  assert (Hstream :
    map forgetId (fst (normalizeTransactions clock (pre ++ r :: post)))
    = map forgetId (fst (normalizeTransactions clock' (pre ++ post)))).
  { rewrite !normalizeTransactions_forget. do 2 f_equal. unfold mapi.
    rewrite !mapi_from_app. simpl. rewrite !map_app, !filter_app. simpl.
    rewrite keepTransaction_forget, (normalizeOne_rejects clock r _ Hbad).
    f_equal; f_equal; apply mapi_from_forget. }
  split; [|split].
  - apply Forall_forall. intros t Ht Hidx.
    apply normalizeTransactions_origin in Ht.
    destruct Ht as (i & r' & Hi & Hn & Hq).
    pose proof (normalizeOne_index _ _ _ _ Hn) as E. rewrite Hidx in E. subst i.
    rewrite nth_error_app2, Nat.sub_diag in Hi by lia.
    injection Hi as <-.
    pose proof (normalizeOne_rejects clock r (List.length pre) Hbad) as K.
    rewrite Hn in K. simpl in K. apply Qltb_ge in K.
    apply (Qlt_not_le _ _ Hq K).
  - exact Hstream.
  - now apply calculate_forget.
Qed.

End NormalizerClaims.

Lemma invalid_records_are_dropped_witness :
  fst (parseDate (host := plainHost) (raw_date (rawTx "garbage" "sell" "xyz" 50 200)))
  = None /\
  withoutClock (calculateCGT (host := plainHost) clock0
                  ([rawTx "2024-05-01" "buy" "xyz" 100 10]
                   ++ rawTx "garbage" "sell" "xyz" 50 200
                   :: [rawTx "2024-05-13" "sell" "xyz" 50 12]))
  = withoutClock (calculateCGT (host := plainHost) clock1
                    ([rawTx "2024-05-01" "buy" "xyz" 100 10]
                     ++ [rawTx "2024-05-13" "sell" "xyz" 50 12])).
Proof.
  split; [reflexivity|].
  apply (invalid_records_are_dropped (host := plainHost) clock0 clock1
           [rawTx "2024-05-01" "buy" "xyz" 100 10]
           [rawTx "2024-05-13" "sell" "xyz" 50 12]
           (rawTx "garbage" "sell" "xyz" 50 200)).
  left. reflexivity.
Defined.

(** C7, as stated, fails: the same input read at two different times gives
    two different reports ([generatedAt] differs, and so do the
    identifiers). *)
Lemma report_depends_on_clock :
  calculateCGT (host := plainHost) clock0
    [rawTx "2024-05-01" "buy" "xyz" 100 10; rawTx "2024-05-01" "sell" "xyz" 100 12]
  <> calculateCGT (host := plainHost) clock1
    [rawTx "2024-05-01" "buy" "xyz" 100 10; rawTx "2024-05-01" "sell" "xyz" 100 12].
Proof.
  intros H. apply (f_equal generatedAt) in H. vm_compute in H. discriminate H.
Qed.

(** ** Objects as finite maps *)

Lemma objHas_In {V} (o : JsObject V) k : objHas o k = true <-> In k (objKeys o).
Proof.
  unfold objHas, objKeys. rewrite existsb_exists. split.
  - intros ([k' v] & Hin & E). simpl in E. apply String.eqb_eq in E. subst.
    now apply (in_map fst) in Hin.
  - intros H. apply in_map_iff in H. destruct H as ([k' v] & E & Hin).
    simpl in E. subst. exists (k, v). split; [exact Hin | apply String.eqb_refl].
Qed.

Lemma objGet_None {V} (o : JsObject V) k : objHas o k = false -> objGet o k = None.
Proof.
  unfold objHas, objGet. induction o as [|[k' v] o IH]; simpl; [reflexivity|].
  destruct (String.eqb k' k); simpl; [discriminate | exact IH].
Qed.

Lemma objGet_Some_has {V} (o : JsObject V) k v : objGet o k = Some v -> objHas o k = true.
Proof.
  intros H. destruct (objHas o k) eqn:E; [reflexivity|].
  rewrite (objGet_None _ _ E) in H. discriminate.
Qed.

Lemma objGet_objReplace {V} (o : JsObject V) k v k' :
  objHas o k = true ->
  objGet (objReplace o k v) k' = if String.eqb k k' then Some v else objGet o k'.
Proof.
  unfold objHas, objGet. induction o as [|[k0 w] o IH]; simpl; [discriminate|].
  destruct (String.eqb k0 k) eqn:E0; simpl.
  - apply String.eqb_eq in E0. subst k0. intros _.
    now destruct (String.eqb k k').
  - intros H. destruct (String.eqb k0 k') eqn:E1.
    + apply String.eqb_eq in E1. subst k0.
      rewrite String.eqb_sym, E0. reflexivity.
    + now apply IH.
Qed.

Lemma objGet_objInsertIndex {V} (o : JsObject V) n k v k' :
  objHas o k = false ->
  objGet (objInsertIndex o n k v) k' = if String.eqb k k' then Some v else objGet o k'.
Proof.
  unfold objHas, objGet. induction o as [|[k0 w] o IH]; simpl;
    [now destruct (String.eqb k k')|].
  destruct (String.eqb k0 k) eqn:E0; simpl; [discriminate|]. intros H.
  assert (G : forall rest : JsObject V,
             option_map snd (find (fun e => String.eqb (fst e) k') ((k, v) :: (k0, w) :: rest))
             = if String.eqb k k' then Some v
               else option_map snd (find (fun e => String.eqb (fst e) k') ((k0, w) :: rest))).
  { intros rest. simpl. now destruct (String.eqb k k'). }
  destruct (arrayIndex k0) as [m|]; [destruct (m <? n)%Z|]; try apply G.
  simpl. destruct (String.eqb k0 k') eqn:E1.
  - apply String.eqb_eq in E1. subst k0. now rewrite String.eqb_sym, E0.
  - now apply IH.
Qed.

Lemma objGet_app {V} (o : JsObject V) k v k' :
  objHas o k = false ->
  objGet (o ++ [(k, v)]) k' = if String.eqb k k' then Some v else objGet o k'.
Proof.
  unfold objHas, objGet. induction o as [|[k0 w] o IH]; simpl.
  - now destruct (String.eqb k k').
  - destruct (String.eqb k0 k) eqn:E0; simpl; [discriminate|]. intros H.
    destruct (String.eqb k0 k') eqn:E1.
    + apply String.eqb_eq in E1. subst k0. now rewrite String.eqb_sym, E0.
    + now apply IH.
Qed.

Lemma objGet_objSet {V} (o : JsObject V) k v k' :
  objGet (objSet o k v) k' = if String.eqb k k' then Some v else objGet o k'.
Proof.
  unfold objSet. destruct (objHas o k) eqn:E.
  - now apply objGet_objReplace.
  - destruct (arrayIndex k); [now apply objGet_objInsertIndex | now apply objGet_app].
Qed.

Lemma objKeys_objReplace {V} (o : JsObject V) k v :
  objKeys (objReplace o k v) = objKeys o.
Proof.
  unfold objKeys. induction o as [|[k0 w] o IH]; simpl; [reflexivity|].
  destruct (String.eqb k0 k); simpl; [reflexivity | now rewrite IH].
Qed.

Lemma objKeys_objInsertIndex {V} (o : JsObject V) n k v :
  Permutation (objKeys (objInsertIndex o n k v)) (k :: objKeys o).
Proof.
  unfold objKeys. induction o as [|[k0 w] o IH]; simpl; [apply Permutation_refl|].
  destruct (arrayIndex k0) as [m|]; [destruct (m <? n)%Z|]; simpl;
    try apply Permutation_refl.
  eapply perm_trans; [apply perm_skip, IH | apply perm_swap].
Qed.

Lemma objKeys_objSet_NoDup {V} (o : JsObject V) k v :
  NoDup (objKeys o) -> NoDup (objKeys (objSet o k v)).
Proof.
  intros H. unfold objSet. destruct (objHas o k) eqn:E.
  - now rewrite objKeys_objReplace.
  - assert (Hk : ~ In k (objKeys o)).
    { intros Hin. apply objHas_In in Hin. congruence. }
    destruct (arrayIndex k).
    + eapply Permutation_NoDup;
        [apply Permutation_sym, objKeys_objInsertIndex | now constructor].
    + unfold objKeys in *. rewrite map_app. simpl.
      eapply Permutation_NoDup; [apply Permutation_cons_append | now constructor].
Qed.

Lemma objGet_In {V} (o : JsObject V) k v :
  NoDup (objKeys o) -> In (k, v) o -> objGet o k = Some v.
Proof.
  unfold objKeys, objGet. induction o as [|[k0 w] o IH]; simpl; [contradiction|].
  intros Hnd [H|H].
  - injection H as -> ->. now rewrite String.eqb_refl.
  - inversion Hnd as [|? ? Hk Hnd']; subst.
    destruct (String.eqb k0 k) eqn:E.
    + apply String.eqb_eq in E. subst k0.
      exfalso. apply Hk. now apply (in_map fst) in H.
    + now apply IH.
Qed.

Lemma objGet_Some_In {V} (o : JsObject V) k v :
  objGet o k = Some v -> In (k, v) o.
Proof.
  unfold objGet. induction o as [|[k0 w] o IH]; simpl; [discriminate|].
  destruct (String.eqb k0 k) eqn:E.
  - apply String.eqb_eq in E. subst k0. intros [= ->]. now left.
  - intros H. right. now apply IH.
Qed.

(** ** Grouping the disposals by tax year *)

Lemma gainsOf_snoc ds d :
  gainsOf (ds ++ [d]) = if isGain d then gainsOf ds + d_gain d else gainsOf ds.
Proof.
  unfold gainsOf. rewrite filter_app. cbn [filter].
  destruct (isGain d).
  - rewrite map_app. cbn [map]. now rewrite sumQ_snoc.
  - now rewrite app_nil_r.
Qed.

Lemma lossesOf_snoc ds d :
  lossesOf (ds ++ [d]) = if isGain d then lossesOf ds else lossesOf ds + Qabs (d_gain d).
Proof.
  unfold lossesOf. rewrite filter_app. cbn [filter].
  destruct (isGain d); cbn [negb].
  - now rewrite app_nil_r.
  - rewrite map_app. cbn [map]. now rewrite sumQ_snoc.
Qed.

Lemma groupBody_inv done o d :
  GroupInv done o -> GroupInv (done ++ [d]) (groupBody o d).
Proof.
  intros [Hnd H]. split; [now apply objKeys_objSet_NoDup|].
  intros k. unfold groupBody. rewrite objGet_objSet, filter_app. cbn [filter].
  change (inTaxYear k d) with (String.eqb (d_taxYear d) k). fold (isGain d).
  destruct (String.eqb (d_taxYear d) k) eqn:E.
  - apply String.eqb_eq in E. subst k. simpl.
    specialize (H (d_taxYear d)).
    destruct (objGet o (d_taxYear d)) as [yd|]; simpl.
    + destruct H as (H1 & H2 & H3 & H4 & H5). repeat split; auto.
      * now rewrite H3.
      * rewrite gainsOf_snoc, H4. now destruct (isGain d).
      * rewrite lossesOf_snoc, H5. now destruct (isGain d).
    + repeat split; auto.
      * now rewrite H.
      * change [d] with ([] ++ [d]). rewrite gainsOf_snoc. now destruct (isGain d).
      * change [d] with ([] ++ [d]). rewrite lossesOf_snoc. now destruct (isGain d).
  - rewrite app_nil_r. exact (H k).
Qed.

Lemma group_inv ds done o :
  GroupInv done o -> GroupInv (done ++ ds) (fold_left groupBody ds o).
Proof.
  revert done o. induction ds as [|d ds IH]; intros done o H; simpl.
  - now rewrite app_nil_r.
  - replace (done ++ d :: ds) with ((done ++ [d]) ++ ds)
      by (now rewrite <- app_assoc).
    apply IH, groupBody_inv, H.
Qed.

Lemma group_spec ds k yd :
  In (k, yd) (fold_left groupBody ds []) ->
  yd_year yd = k /\
  yd_config yd = taxYearConfig k /\
  yd_disposals yd = filter (inTaxYear k) ds /\
  yd_totalGains yd = gainsOf (yd_disposals yd) /\
  yd_totalLosses yd = lossesOf (yd_disposals yd).
Proof.
  intros Hin.
  assert (Hinv : GroupInv ([] ++ ds) (fold_left groupBody ds [])).
  { apply group_inv. split; [constructor | intros k'; reflexivity]. }
  destruct Hinv as [Hnd H]. specialize (H k).
  now rewrite (objGet_In _ _ _ Hnd Hin) in H.
Qed.

(** ** Amounts of the report have two decimals *)

Lemma sumQ_2dp l : Forall is2dp l -> is2dp (sumQ l).
Proof.
  unfold sumQ. generalize is2dp_0. generalize 0.
  induction l as [|x l IH]; intros a Ha H; simpl; [exact Ha|].
  inversion H; subst. apply IH; [now apply is2dp_plus | assumption].
Qed.

Lemma Qabs_2dp x : is2dp x -> is2dp (Qabs x).
Proof.
  intros H. apply Qabs_case; intros _; [exact H|].
  apply (is2dp_Qeq (0 - x)); [ring | apply is2dp_minus; [apply is2dp_0 | exact H]].
Qed.

Lemma gainsOf_2dp ds : Forall (fun d => is2dp (d_gain d)) ds -> is2dp (gainsOf ds).
Proof.
  intros H. apply sumQ_2dp. rewrite Forall_map.
  rewrite Forall_forall in *. intros d Hd. apply H.
  now apply filter_In in Hd.
Qed.

Lemma lossesOf_2dp ds : Forall (fun d => is2dp (d_gain d)) ds -> is2dp (lossesOf ds).
Proof.
  intros H. apply sumQ_2dp. rewrite Forall_map.
  rewrite Forall_forall in *. intros d Hd. apply Qabs_2dp, H.
  now apply filter_In in Hd.
Qed.

Lemma sumQ_from l a : fold_left Qplus l a == a + sumQ l.
Proof.
  unfold sumQ. revert a. induction l as [|x l IH]; intros a; simpl.
  - ring.
  - rewrite IH, (IH (0 + x)). ring.
Qed.

Lemma sumQ_cons x l : sumQ (x :: l) == x + sumQ l.
Proof.
  unfold sumQ at 1. simpl. rewrite sumQ_from. ring.
Qed.

Lemma sumQ_nonneg l : Forall (fun x => 0 <= x) l -> 0 <= sumQ l.
Proof.
  induction 1 as [|x l Hx Hl IH].
  - apply Qle_refl.
  - rewrite sumQ_cons. lra.
Qed.

Lemma gainsOf_nonneg ds : 0 <= gainsOf ds.
Proof.
  apply sumQ_nonneg. rewrite Forall_map, Forall_forall. intros d Hd.
  apply filter_In in Hd. now apply Qle_bool_iff.
Qed.

Lemma lossesOf_nonneg ds : 0 <= lossesOf ds.
Proof.
  apply sumQ_nonneg. rewrite Forall_map, Forall_forall. intros d _.
  apply Qabs_nonneg.
Qed.

Lemma mathMax_2dp x y : is2dp x -> is2dp y -> is2dp (mathMax x y).
Proof.
  intros Hx Hy. unfold mathMax. now destruct (Qle_bool x y).
Qed.

#[export] Instance mathMax_Proper : Proper (Qeq ==> Qeq ==> Qeq) mathMax.
Proof.
  intros x x' Hx y y' Hy. unfold mathMax.
  rewrite (Qleb_comp _ _ Hx _ _ Hy). now destruct (Qle_bool x' y').
Qed.

#[export] Instance mathMin_Proper : Proper (Qeq ==> Qeq ==> Qeq) mathMin.
Proof.
  intros x x' Hx y y' Hy. unfold mathMin.
  rewrite (Qleb_comp _ _ Hx _ _ Hy). now destruct (Qle_bool x' y').
Qed.

#[export] Instance is2dp_Proper : Proper (Qeq ==> iff) is2dp.
Proof.
  intros x y H. split; apply is2dp_Qeq; [exact H | now symmetry].
Qed.

(** ** The table *)

Lemma taxYearConfig_In label cfg :
  taxYearConfig label = Some cfg -> In (label, cfg) TAX_YEARS.
Proof.
  unfold taxYearConfig. intros H.
  destruct (find _ TAX_YEARS) as [[l c]|] eqn:E; [|discriminate].
  apply find_some in E. destruct E as [Hin E]. simpl in *.
  apply String.eqb_eq in E. injection H as <-. now subst.
Qed.

Lemma table_exemptions label cfg :
  taxYearConfig label = Some cfg ->
  orNum (cfg_annualExemption cfg) 3000 = cfg_annualExemption cfg /\
  (exists n, cfg_annualExemption cfg = inject_Z n).
Proof.
  intros H. apply taxYearConfig_In in H.
  assert (F : Forall (fun e => orNum (cfg_annualExemption (snd e)) 3000
                               = cfg_annualExemption (snd e) /\
                               exists n, cfg_annualExemption (snd e) = inject_Z n)
                     TAX_YEARS).
  { repeat constructor; eexists; reflexivity. }
  rewrite Forall_forall in F. exact (F _ H).
Qed.

Lemma is2dp_inject_Z n : is2dp (inject_Z n).
Proof.
  exists (n * 100)%Z. rewrite inject_Z_mult. field.
Qed.

(** ** What a run records *)

Lemma Forall_objSet {V} (Q : string * V -> Prop) (o : JsObject V) k v :
  Q (k, v) -> Forall Q o -> Forall Q (objSet o k v).
Proof.
  intros Hkv Ho. unfold objSet. destruct (objHas o k).
  - induction Ho as [|[k0 w] o Hx Ho IH]; simpl; [constructor|].
    destruct (String.eqb k0 k) eqn:E.
    + apply String.eqb_eq in E. subst k0. now constructor.
    + now constructor.
  - destruct (arrayIndex k) as [n|].
    + induction Ho as [|[k0 w] o Hx Ho IH]; simpl; [now repeat constructor|].
      destruct (arrayIndex k0) as [m|]; [destruct (m <? n)%Z|];
        repeat (constructor; auto).
    + apply Forall_app. split; [exact Ho | now repeat constructor].
Qed.

Lemma bySymbol_Forall (P : Transaction -> Prop) txs o :
  Forall P txs ->
  Forall (fun e => Forall P (snd e)) o ->
  Forall (fun e => Forall P (snd e)) (fold_left bySymbolBody txs o).
Proof.
  intros Htxs. revert o. induction Htxs as [|t txs Ht Htxs IH]; intros o Ho; simpl.
  - exact Ho.
  - apply IH. unfold bySymbolBody. apply Forall_objSet; [|exact Ho]. simpl.
    destruct (objGet o (t_symbol t)) as [ts|] eqn:E.
    + apply objGet_Some_In in E. rewrite Forall_forall in Ho.
      apply Forall_app. split; [exact (Ho _ E) | now repeat constructor].
    + now repeat constructor.
Qed.

Lemma sells_produced symbol sells st :
  Forall (fun t => 0 < t_quantity t) sells ->
  Forall Produced (ss_disposals st) ->
  Forall Produced (ss_disposals (fold_left (sellBody symbol) sells st)).
Proof.
  intros Hs. revert st. induction Hs as [|d sells Hd Hs IH]; intros st Hst; simpl.
  - exact Hst.
  - apply IH. unfold sellBody. simpl. apply Forall_app. split; [exact Hst|].
    repeat constructor. exists symbol, d, (ss_buys st), (ss_pool st). now split.
Qed.

Lemma processSymbol_disposals symbol txs calc :
  disposals (processSymbol symbol txs calc)
  = ss_disposals (fold_left (sellBody symbol) (filter isSell txs)
                    (mkSymbolState (poolOf calc symbol) (filter isBuy txs)
                                   (errors calc) (disposals calc) (console calc))).
Proof.
  unfold processSymbol.
  now destruct (fold_left finalRollInBody _ _) as [pool history].
Qed.

Lemma processSymbol_produced symbol txs calc :
  Forall (fun t => 0 < t_quantity t) txs ->
  Forall Produced (disposals calc) ->
  Forall Produced (disposals (processSymbol symbol txs calc)).
Proof.
  intros Htxs Hc. rewrite processSymbol_disposals.
  apply sells_produced; [|exact Hc].
  rewrite Forall_forall in *. intros t Ht. apply Htxs.
  now apply filter_In in Ht.
Qed.

Lemma symbols_produced (o : JsObject (list Transaction)) calc :
  Forall (fun e => Forall (fun t => 0 < t_quantity t) (snd e)) o ->
  Forall Produced (disposals calc) ->
  Forall Produced
         (disposals (fold_left (fun c e => processSymbol (fst e) (snd e) c) o calc)).
Proof.
  intros Ho. revert calc. induction Ho as [|[k ts] o Hts Ho IH]; intros calc Hc; simpl.
  - exact Hc.
  - apply IH. now apply processSymbol_produced.
Qed.

Lemma Produced_gain_2dp d : Produced d -> is2dp (d_gain d).
Proof.
  intros (symbol & disposal & buys & pool & _ & ->).
  pose proof (processDisposal_fields symbol disposal buys pool) as F.
  cbv zeta in F. destruct F as (_ & _ & _ & _ & _ & _ & _ & _ & _ & Hg & _).
  rewrite Hg. apply round2dp_is2dp.
Qed.

Section RunFacts.
Context {host : Host}.

Lemma normalized_positive clock raws :
  Forall (fun t => 0 < t_quantity t) (fst (normalizeTransactions clock raws)).
Proof.
  apply Forall_forall. intros t Ht.
  apply normalizeTransactions_origin in Ht. now destruct Ht as (i & r & _ & _ & Hq).
Qed.

Lemma calculate_produced clock raws calc :
  Forall Produced (disposals calc) ->
  Forall Produced (disposals (fst (calculate clock raws calc))).
Proof.
  intros Hc. unfold calculate.
  pose proof (normalized_positive clock raws) as Hpos.
  destruct (normalizeTransactions clock raws) as [txs msgs]. simpl in *.
  apply symbols_produced; [|exact Hc].
  apply bySymbol_Forall; [exact Hpos | constructor].
Qed.

Lemma calculateCGT_report clock raws :
  calculateCGT clock raws
  = generateReport (reportNow clock) (fst (calculate clock raws newCalculator)).
Proof.
  unfold calculateCGT, calculate.
  now destruct (normalizeTransactions clock raws) as [txs msgs].
Qed.

Lemma taxYears_In now calc s :
  In s (taxYears (generateReport now calc)) ->
  exists yd,
    In (yd_year yd, yd) (fold_left groupBody (disposals calc) []) /\
    s = summarize (calculateSection104Snapshots calc) yd.
Proof.
  unfold generateReport. simpl. intros H.
  apply stableSort_In, in_map_iff in H. destruct H as ([k yd] & <- & Hin).
  exists yd. simpl. split; [|reflexivity].
  now rewrite (proj1 (group_spec _ _ _ Hin)).
Qed.

End RunFacts.

Lemma summarize_fields snaps yd :
  let s := summarize snaps yd in
  let netGain := round2dp (yd_totalGains yd - yd_totalLosses yd) in
  let annualExemption := orDefault (cfgField (yd_config yd) cfg_annualExemption) 3000 in
  let taxableGain := mathMax 0 (netGain - annualExemption) in
  let split := splitOf (yd_config yd) (yd_disposals yd) in
  ty_taxYear s = yd_year yd /\
  ty_disposals s = yd_disposals yd /\
  ty_numberOfDisposals s = List.length (yd_disposals yd) /\
  ty_totalGains s = round2dp (yd_totalGains yd) /\
  ty_totalLosses s = round2dp (yd_totalLosses yd) /\
  ty_netGain s = round2dp netGain /\
  ty_annualExemption s = annualExemption /\
  ty_taxableGain s = round2dp taxableGain /\
  (ty_estimatedTaxBasicRate s, ty_estimatedTaxHigherRate s)
    = estimatedTax (yd_config yd) split annualExemption taxableGain /\
  ty_rateChange s = rateChangeOf (yd_config yd) split (yd_disposals yd) /\
  ty_section104Start s
    = match objGet snaps (yd_year yd) with Some sn => snap_start sn | None => [] end /\
  ty_section104End s
    = match objGet snaps (yd_year yd) with Some sn => snap_end sn | None => [] end.
Proof.
  unfold summarize. destruct (estimatedTax _ _ _ _) as [basic higher].
  simpl. repeat split; reflexivity.
Qed.

(** ** The yearly summary *)

Section SummaryClaims.
Context {host : Host}.

(** What the summary of a year is made of, for a run from a fresh
    calculator. *)
Lemma summary_origin clock raws s :
  In s (taxYears (calculateCGT clock raws)) ->
  exists yd,
    s = summarize (calculateSection104Snapshots (fst (calculate clock raws newCalculator))) yd /\
    yd_config yd = taxYearConfig (yd_year yd) /\
    yd_disposals yd
      = filter (inTaxYear (yd_year yd)) (allDisposals (calculateCGT clock raws)) /\
    yd_totalGains yd = gainsOf (yd_disposals yd) /\
    yd_totalLosses yd = lossesOf (yd_disposals yd) /\
    Forall (fun d => is2dp (d_gain d)) (yd_disposals yd).
Proof.
  rewrite calculateCGT_report. intros H.
  apply taxYears_In in H. destruct H as (yd & Hin & Hs).
  apply group_spec in Hin. destruct Hin as (_ & Hcfg & Hds & Hg & Hl).
  exists yd. repeat split; auto.
  rewrite Hds. apply Forall_forall. intros d Hd. apply filter_In in Hd.
  apply Produced_gain_2dp.
  pose proof (calculate_produced clock raws newCalculator (Forall_nil _)) as P.
  rewrite Forall_forall in P. now apply P.
Qed.

(** C4. In every yearly summary of the report: the disposals are those of
    the year; total gains is the sum of their non-negative gains; total
    losses the sum of the absolute values of the negative ones; net gain is
    gains minus losses; the exemption is the table's amount for the year
    (3000 for a year the table does not list); taxable gain is the larger of
    zero and net gain minus the exemption.  So a net gain of 8000 in 2023/24
    is taxed on 2000. *)
Theorem tax_year_summary_totals
        (clock : Clock) (raws : list RawTransaction) (s : TaxYearSummary) :
  In s (taxYears (calculateCGT clock raws)) ->
  ty_disposals s
    = filter (inTaxYear (ty_taxYear s)) (allDisposals (calculateCGT clock raws)) /\
  ty_totalGains s == gainsOf (ty_disposals s) /\
  ty_totalLosses s == lossesOf (ty_disposals s) /\
  ty_netGain s == ty_totalGains s - ty_totalLosses s /\
  ty_annualExemption s
    = match taxYearConfig (ty_taxYear s) with
      | Some config => cfg_annualExemption config
      | None => 3000
      end /\
  ty_taxableGain s == mathMax 0 (ty_netGain s - ty_annualExemption s) /\
  (ty_taxYear s = "2023/24"%string -> ty_netGain s == 8000 -> ty_taxableGain s == 2000).
Proof.
  intros H. apply summary_origin in H.
  destruct H as (yd & -> & Hcfg & Hds & Hg & Hl & H2).
  pose proof (summarize_fields
                (calculateSection104Snapshots (fst (calculate clock raws newCalculator)))
                yd) as F.
  cbv zeta in F.
  destruct F as (Fy & Fd & _ & Fg & Fl & Fn & Fe & Ft & _).
  set (s := summarize _ yd) in *.
  assert (Gg : is2dp (yd_totalGains yd)) by (rewrite Hg; now apply gainsOf_2dp).
  assert (Gl : is2dp (yd_totalLosses yd)) by (rewrite Hl; now apply lossesOf_2dp).
  assert (Eg : ty_totalGains s == yd_totalGains yd)
    by (rewrite Fg; now apply round2dp_2dp).
  assert (El : ty_totalLosses s == yd_totalLosses yd)
    by (rewrite Fl; now apply round2dp_2dp).
  assert (En : ty_netGain s == yd_totalGains yd - yd_totalLosses yd).
  { rewrite Fn. rewrite round2dp_2dp by apply round2dp_is2dp.
    apply round2dp_2dp. now apply is2dp_minus. }
  assert (Ee : ty_annualExemption s
               = match taxYearConfig (ty_taxYear s) with
                 | Some config => cfg_annualExemption config
                 | None => 3000
                 end /\ is2dp (ty_annualExemption s)).
  { rewrite Fe, Fy, Hcfg. unfold cfgField.
    destruct (taxYearConfig (yd_year yd)) as [config|] eqn:E; simpl.
    - destruct (table_exemptions _ _ E) as (-> & n & ->).
      split; [reflexivity | apply is2dp_inject_Z].
    - split; [reflexivity | apply (is2dp_inject_Z 3000)]. }
  destruct Ee as [Ee Ee2].
  assert (Et : ty_taxableGain s == mathMax 0 (ty_netGain s - ty_annualExemption s)).
  { rewrite Ft, Fn, <- Fe.
    rewrite (round2dp_2dp (round2dp _)) by apply round2dp_is2dp.
    apply round2dp_2dp. apply mathMax_2dp; [apply is2dp_0|].
    apply is2dp_minus; [apply round2dp_is2dp | exact Ee2]. }
  repeat split.
  - now rewrite Fd, Fy.
  - now rewrite Eg, Fd, Hg.
  - now rewrite El, Fd, Hl.
  - now rewrite En, Eg, El.
  - exact Ee.
  - exact Et.
  - intros Hy Hn. rewrite Et, Ee, Hy, Hn. reflexivity.
Qed.

End SummaryClaims.

Lemma tax_year_summary_totals_witness :
  In (nth 0 (taxYears (calculateCGT (host := plainHost) clock0 scenarioD)) noSummary)
     (taxYears (calculateCGT (host := plainHost) clock0 scenarioD)) /\
  ty_taxableGain
    (nth 0 (taxYears (calculateCGT (host := plainHost) clock0 scenarioD)) noSummary)
  == 2000.
Proof.
  assert (Hin : In (nth 0 (taxYears (calculateCGT (host := plainHost) clock0 scenarioD))
                        noSummary)
                   (taxYears (calculateCGT (host := plainHost) clock0 scenarioD))).
  { apply nth_In. vm_compute. lia. }
  split; [exact Hin|].
  destruct (tax_year_summary_totals (host := plainHost) clock0 scenarioD _ Hin)
    as (_ & _ & _ & _ & _ & _ & H).
  apply H; vm_compute; reflexivity.
Defined.

(** ** The rate-change year *)

Lemma splitBody_fold rateChangeDate ds s0 :
  let isPre := fun d => dateLt (parseDateStr (d_date d)) rateChangeDate in
  let isPost := fun d => negb (isPre d) in
  let isLoss := fun d => negb (isGain d) in
  let loss := fun d => Qabs (d_gain d) in
  let s := fold_left (splitBody rateChangeDate) ds s0 in
  preOctGains s
    = fold_left Qplus (map d_gain (filter isGain (filter isPre ds))) (preOctGains s0) /\
  preOctLosses s
    = fold_left Qplus (map loss (filter isLoss (filter isPre ds))) (preOctLosses s0) /\
  postOctGains s
    = fold_left Qplus (map d_gain (filter isGain (filter isPost ds))) (postOctGains s0) /\
  postOctLosses s
    = fold_left Qplus (map loss (filter isLoss (filter isPost ds))) (postOctLosses s0).
Proof.
  cbv zeta. revert s0. induction ds as [|d ds IH]; intros s0.
  - simpl. repeat split; reflexivity.
  - cbn [fold_left]. destruct (IH (splitBody rateChangeDate s0 d)) as (A & B & C & D).
    rewrite A, B, C, D. clear. cbn [filter]. unfold splitBody, isGain.
    destruct (dateLt (parseDateStr (d_date d)) rateChangeDate);
      cbn [negb filter]; destruct (Qle_bool 0 (d_gain d));
      cbn [negb map fold_left preOctGains preOctLosses postOctGains postOctLosses];
      repeat split; reflexivity.
Qed.

Lemma splitOf_sums config rateChangeDate ds :
  cfg_rateChangeDate config = Some rateChangeDate ->
  let isPre := fun d => dateLt (parseDateStr (d_date d)) rateChangeDate in
  let pre := filter isPre ds in
  let post := filter (fun d => negb (isPre d)) ds in
  let s := splitOf (Some config) ds in
  preOctGains s = gainsOf pre /\ preOctLosses s = lossesOf pre /\
  postOctGains s = gainsOf post /\ postOctLosses s = lossesOf post.
Proof.
  intros H. cbv zeta. unfold splitOf. simpl. rewrite H.
  exact (splitBody_fold rateChangeDate ds (mkSplit 0 0 0 0)).
Qed.

Lemma gainsOf_cons d ds :
  gainsOf (d :: ds) == (if isGain d then d_gain d else 0) + gainsOf ds.
Proof.
  unfold gainsOf. simpl. destruct (isGain d); simpl.
  - apply sumQ_cons.
  - ring.
Qed.

Lemma gainsOf_partition (p : Disposal -> bool) ds :
  gainsOf ds == gainsOf (filter p ds) + gainsOf (filter (fun d => negb (p d)) ds).
Proof.
  induction ds as [|d ds IH].
  - reflexivity.
  - rewrite gainsOf_cons, IH. simpl.
    destruct (p d); simpl; rewrite gainsOf_cons; ring.
Qed.

Lemma mathMax_0_nonpos y : y <= 0 -> mathMax 0 y == 0.
Proof.
  intros H. destruct (mathMax_cases 0 y) as [[-> K]|[-> _]]; [lra | reflexivity].
Qed.

Lemma mathMax_0_nonneg y : 0 <= y -> mathMax 0 y == y.
Proof.
  intros H. destruct (mathMax_cases 0 y) as [[-> _]|[-> K]]; [reflexivity | lra].
Qed.

(** The exemption share of one side as the engine computes it (capped by
    the total gains) taxes the same amount as the uncapped proportional
    share. *)
Lemma capped_share_same_taxable g l total E :
  0 <= g -> g <= total -> 0 < total -> 0 <= l -> is2dp g ->
  mathMax 0 (g - l - round2dp (g / total * mathMin E total))
  == mathMax 0 (g - l - round2dp (g / total * E)).
Proof.
  intros Hg Hgt Ht Hl H2.
  destruct (mathMin_cases E total) as [[-> _]|[-> Hlt]]; [reflexivity|].
  assert (E1 : g / total * total == g) by (field; lra).
  assert (R1 : round2dp (g / total * total) == g)
    by (rewrite E1; now apply round2dp_2dp).
  assert (R2 : g <= round2dp (g / total * E)).
  { rewrite <- (round2dp_2dp g H2) at 1. apply round2dp_le.
    rewrite <- E1 at 1.
    assert (Hq : 0 <= g / total) by (apply Qle_shift_div_l; [exact Ht | lra]).
    set (q := g / total) in *. nra. }
  rewrite R1. rewrite !mathMax_0_nonpos by lra. reflexivity.
Qed.

Lemma config_2024_25 :
  exists config,
    taxYearConfig "2024/25" = Some config /\
    cfg_rateChangeDate config = Some (isoDate 2024 10 30) /\
    cfg_basicRateSharesPre config = Some 0.10 /\
    cfg_higherRateSharesPre config = Some 0.20 /\
    cfg_basicRateSharesPost config = Some 0.18 /\
    cfg_higherRateSharesPost config = Some 0.24.
Proof.
  eexists. repeat split; reflexivity.
Qed.

Lemma estimatedTax_two_sides config rcd gpre lpre gpost lpost E tg :
  cfg_rateChangeDate config = Some rcd ->
  cfg_basicRateSharesPre config = Some 0.10 ->
  cfg_higherRateSharesPre config = Some 0.20 ->
  cfg_basicRateSharesPost config = Some 0.18 ->
  cfg_higherRateSharesPost config = Some 0.24 ->
  0 <= gpre -> 0 <= gpost -> 0 <= lpre -> 0 <= lpost ->
  is2dp gpre -> is2dp gpost ->
  (gpre + gpost <= 0 -> tg == 0) ->
  let total := gpre + gpost in
  let tax := fun g l => mathMax 0 (g - l - proportionalShare E total g) in
  let r := estimatedTax (Some config) (mkSplit gpre lpre gpost lpost) E tg in
  fst r == round2dp (tax gpre lpre * 0.10 + tax gpost lpost * 0.18) /\
  snd r == round2dp (tax gpre lpre * 0.20 + tax gpost lpost * 0.24).
Proof.
  intros Hr B1 H1 B2 H2 Gp Gq Lp Lq Dp Dq Htg. cbv zeta.
  unfold estimatedTax, cfgOptField, cfgField, proportionalShare.
  cbn [obind option_map isSome preOctGains preOctLosses postOctGains postOctLosses].
  rewrite Hr, B1, H1, B2, H2. cbn [isSome andb].
  change (orDefault (Some 0.10) _) with 0.10.
  change (orDefault (Some 0.20) _) with 0.20.
  change (orDefault (Some 0.18) _) with 0.18.
  change (orDefault (Some 0.24) _) with 0.24.
  destruct (Qltb 0 gpre || Qltb 0 gpost) eqn:Eany.
  - assert (Ht : 0 < gpre + gpost).
    { apply orb_true_iff in Eany. destruct Eany as [K|K]; apply Qltb_lt in K; lra. }
    rewrite (proj2 (Qltb_lt 0 (gpre + gpost)) Ht). cbn [fst snd].
    rewrite (capped_share_same_taxable gpre lpre (gpre + gpost) E) by (auto; lra).
    rewrite (capped_share_same_taxable gpost lpost (gpre + gpost) E) by (auto; lra).
    split; reflexivity.
  - apply orb_false_iff in Eany. destruct Eany as [Kp Kq].
    apply Qltb_ge in Kp, Kq.
    assert (Ht : gpre + gpost <= 0) by lra.
    rewrite (proj2 (Qltb_ge 0 (gpre + gpost)) Ht). cbn [fst snd].
    rewrite (Htg Ht).
    rewrite !mathMax_0_nonpos by lra.
    split; apply round2dp_Proper; ring.
Qed.

Section RateChangeClaim.
Context {host : Host}.

(** C5. In the summary of 2024/25 the disposals are split at 30 October
    2024 by their date; gains, losses, net gain and the number of disposals
    are reported per side; each side carries its own rates (10% and 20%
    before, 18% and 24% from the change date on); and each of the two tax
    estimates is the sum over the sides of the side's taxable gain times the
    side's rate, rounded to pence, where a side's taxable gain is its gains
    minus its losses minus its share of the annual exemption, the exemption
    being divided in proportion to the gains (not the losses) of the two
    sides. *)
Theorem rate_change_split
        (clock : Clock) (raws : list RawTransaction) (s : TaxYearSummary) :
  In s (taxYears (calculateCGT clock raws)) ->
  ty_taxYear s = "2024/25"%string ->
  let isPre := fun d => dateLt (parseDateStr (d_date d)) (isoDate 2024 10 30) in
  let pre := filter isPre (ty_disposals s) in
  let post := filter (fun d => negb (isPre d)) (ty_disposals s) in
  let total := gainsOf pre + gainsOf post in
  let E := ty_annualExemption s in
  exists rc,
    ty_rateChange s = Some rc /\
    (rs_gains (rc_preOctober rc) == gainsOf pre /\
     rs_losses (rc_preOctober rc) == lossesOf pre /\
     rs_netGain (rc_preOctober rc) == gainsOf pre - lossesOf pre /\
     rs_disposalCount (rc_preOctober rc) = List.length pre) /\
    (rs_gains (rc_postOctober rc) == gainsOf post /\
     rs_losses (rc_postOctober rc) == lossesOf post /\
     rs_netGain (rc_postOctober rc) == gainsOf post - lossesOf post /\
     rs_disposalCount (rc_postOctober rc) = List.length post) /\
    (rs_basicRate (rc_preOctober rc) = 0.10 /\
     rs_higherRate (rc_preOctober rc) = 0.20 /\
     rs_basicRate (rc_postOctober rc) = 0.18 /\
     rs_higherRate (rc_postOctober rc) = 0.24) /\
    ty_estimatedTaxBasicRate s
    == round2dp (sideTaxable E total pre * 0.10 + sideTaxable E total post * 0.18) /\
    ty_estimatedTaxHigherRate s
    == round2dp (sideTaxable E total pre * 0.20 + sideTaxable E total post * 0.24).
Proof.
  intros H Hy. cbv zeta. apply summary_origin in H.
  destruct H as (yd & -> & Hcfg & _ & Hg & Hl & H2).
  pose proof (summarize_fields
                (calculateSection104Snapshots (fst (calculate clock raws newCalculator)))
                yd) as F.
  cbv zeta in F.
  destruct F as (Fy & Fd & _ & _ & _ & _ & Fe & _ & Ftax & Frc & _).
  set (s := summarize _ yd) in *.
  rewrite Fy in Hy. rewrite Hy in Hcfg.
  destruct config_2024_25 as (config & Ec & Hr & B1 & H1 & B2 & H2').
  rewrite Ec in Hcfg. rewrite Hcfg in *. rewrite Fd, Fe. clear Fd Fy.
  pose proof (splitOf_sums config _ (yd_disposals yd) Hr) as S. cbv zeta in S.
  set (isPre := fun d => dateLt (parseDateStr (d_date d)) (isoDate 2024 10 30)) in *.
  set (pre := filter isPre (yd_disposals yd)) in *.
  set (post := filter (fun d => negb (isPre d)) (yd_disposals yd)) in *.
  assert (P2 : Forall (fun d => is2dp (d_gain d)) pre).
  { apply Forall_forall. intros d Hd. apply filter_In in Hd.
    rewrite Forall_forall in H2. now apply H2. }
  assert (Q2 : Forall (fun d => is2dp (d_gain d)) post).
  { apply Forall_forall. intros d Hd. apply filter_In in Hd.
    rewrite Forall_forall in H2. now apply H2. }
  destruct (splitOf (Some config) (yd_disposals yd)) as [gp lp gq lq] eqn:Es.
  simpl in S. destruct S as (-> & -> & -> & ->).
  exists (mkRateChange (mkDateStr 2024 10 30)
    (mkRateSide (round2dp (gainsOf pre)) (round2dp (lossesOf pre))
                (round2dp (gainsOf pre - lossesOf pre)) 0.10 0.20 (List.length pre))
    (mkRateSide (round2dp (gainsOf post)) (round2dp (lossesOf post))
                (round2dp (gainsOf post - lossesOf post)) 0.18 0.24 (List.length post))).
  split.
  { rewrite Frc. unfold rateChangeOf, cfgOptField, cfgField.
    cbn [obind option_map]. rewrite Hr, B1, H1, B2, H2'.
    cbn [preOctGains preOctLosses postOctGains postOctLosses]. reflexivity. }
  cbn [rc_preOctober rc_postOctober rs_gains rs_losses rs_netGain rs_disposalCount
       rs_basicRate rs_higherRate].
  pose proof (gainsOf_2dp _ P2) as Dp. pose proof (gainsOf_2dp _ Q2) as Dq.
  pose proof (lossesOf_2dp _ P2) as Dlp. pose proof (lossesOf_2dp _ Q2) as Dlq.
  split; [|split; [|split]].
  - repeat split; try (apply round2dp_2dp; auto using is2dp_minus).
  - repeat split; try (apply round2dp_2dp; auto using is2dp_minus).
  - repeat split.
  - assert (T := estimatedTax_two_sides config _ (gainsOf pre) (lossesOf pre)
                   (gainsOf post) (lossesOf post)
                   (orDefault (option_map cfg_annualExemption (Some config)) 3000)
                   (mathMax 0 (round2dp (yd_totalGains yd - yd_totalLosses yd)
                               - orDefault (option_map cfg_annualExemption (Some config)) 3000))
                   Hr B1 H1 B2 H2'
                   (gainsOf_nonneg pre) (gainsOf_nonneg post)
                   (lossesOf_nonneg pre) (lossesOf_nonneg post) Dp Dq).
    cbv zeta in T. unfold cfgField in Ftax. rewrite <- Ftax in T.
    cbn [fst snd] in T. unfold sideTaxable. apply T.
    intros Hz.
    apply mathMax_0_nonpos.
    destruct (table_exemptions _ _ Ec) as (Ex & _).
    cbn [option_map orDefault]. rewrite Ex.
    assert (Eex : 0 <= cfg_annualExemption config).
    { pose proof Ec as Ec'. unfold taxYearConfig in Ec'. simpl in Ec'.
      injection Ec' as <-. discriminate. }
    assert (Eg : yd_totalGains yd == 0).
    { rewrite Hg, (gainsOf_partition isPre). fold pre post.
      pose proof (gainsOf_nonneg pre). pose proof (gainsOf_nonneg post). lra. }
    assert (En : round2dp (yd_totalGains yd - yd_totalLosses yd) <= 0).
    { rewrite <- round2dp_0. apply round2dp_le. rewrite Eg, Hl.
      pose proof (lossesOf_nonneg (yd_disposals yd)). lra. }
    lra.
Qed.

End RateChangeClaim.

Lemma rate_change_split_witness :
  let s := nth 0 (taxYears (calculateCGT (host := plainHost) clock0 scenarioE)) noSummary in
  In s (taxYears (calculateCGT (host := plainHost) clock0 scenarioE)) /\
  ty_taxYear s = "2024/25"%string /\
  ty_estimatedTaxBasicRate s == 460 /\
  ty_estimatedTaxHigherRate s == 680.
Proof.
  cbv zeta.
  assert (Hin : In (nth 0 (taxYears (calculateCGT (host := plainHost) clock0 scenarioE))
                        noSummary)
                   (taxYears (calculateCGT (host := plainHost) clock0 scenarioE))).
  { apply nth_In. vm_compute. lia. }
  assert (Hy : ty_taxYear (nth 0 (taxYears (calculateCGT (host := plainHost) clock0
                                              scenarioE)) noSummary)
               = "2024/25"%string) by (vm_compute; reflexivity).
  split; [exact Hin | split; [exact Hy|]].
  destruct (rate_change_split (host := plainHost) clock0 scenarioE _ Hin Hy)
    as (rc & _ & _ & _ & _ & Hb & Hh).
  split; [rewrite Hb | rewrite Hh]; vm_compute; reflexivity.
Defined.

(** ** A stable sort sorts *)

Lemma insertSorted_sorted {A} (le : A -> A -> bool) x l :
  (forall a b, le a b = false -> le b a = true) ->
  (forall a b c, le a b = true -> le b c = true -> le a c = true) ->
  StronglySorted (fun a b => le a b = true) l ->
  StronglySorted (fun a b => le a b = true) (insertSorted le x l).
Proof.
  intros Htot Htr. induction 1 as [|y l Hs IH Hy]; simpl.
  - repeat constructor.
  - destruct (le x y) eqn:E.
    + constructor; [now constructor|]. constructor; [exact E|].
      rewrite Forall_forall in *. intros z Hz. eapply Htr; [exact E | now apply Hy].
    + constructor; [exact IH|].
      apply Forall_forall. intros z Hz.
      apply (Permutation_in _ (insertSorted_perm le x l)) in Hz.
      destruct Hz as [<-|Hz]; [now apply Htot|].
      rewrite Forall_forall in Hy. now apply Hy.
Qed.

Lemma stableSort_sorted {A} (le : A -> A -> bool) l :
  (forall a b, le a b = false -> le b a = true) ->
  (forall a b c, le a b = true -> le b c = true -> le a c = true) ->
  StronglySorted (fun a b => le a b = true) (stableSort le l).
Proof.
  intros Htot Htr. induction l as [|x l IH]; simpl; [constructor|].
  now apply insertSorted_sorted.
Qed.

(** ** The pool never goes negative *)

Lemma Qdiv_nonneg a b : 0 <= a -> 0 < b -> 0 <= a / b.
Proof.
  intros Ha Hb. apply Qle_shift_div_l; [exact Hb | lra].
Qed.

Lemma calculateCost_nonneg t q :
  NonNegativeCost t -> 0 <= q -> 0 <= calculateCost t q.
Proof.
  intros (Hq & Ha & Hf & Hx) Hq0. unfold calculateCost.
  apply round2dp_nonneg, Qdiv_nonneg; [|exact Hx].
  pose proof (Qdiv_nonneg q (t_quantity t) Hq0 Hq) as Hp.
  set (p := q / t_quantity t) in *.
  destruct (t_totalAmount t) as [a|]; nra.
Qed.

Lemma nth_error_setNth {A} (l : list A) i v j :
  nth_error (setNth l i v) j
  = if (i =? j)%nat then option_map (fun _ => v) (nth_error l i) else nth_error l j.
Proof.
  revert i j. induction l as [|x l IH]; intros i j.
  - destruct i, j; simpl; try reflexivity. all: now destruct (i =? j)%nat.
  - destruct i, j; simpl; try reflexivity. apply IH.
Qed.

Lemma Forall_setNth {A} (P : A -> Prop) (l : list A) i v :
  Forall P l -> P v -> Forall P (setNth l i v).
Proof.
  intros Hl Hv. revert i. induction Hl as [|x l Hx Hl IH]; intros [|i]; simpl;
    constructor; auto.
Qed.

Lemma StoreOk_nth buys i b :
  StoreOk buys -> nth_error buys i = Some b ->
  NonNegativeCost b /\ 0 <= t_remainingQty b.
Proof.
  intros H Hi. unfold StoreOk in H. rewrite Forall_forall in H.
  apply H. eapply nth_error_In, Hi.
Qed.

Lemma StoreOk_setNth buys i b q :
  StoreOk buys -> nth_error buys i = Some b -> 0 <= q ->
  StoreOk (setNth buys i (withRemainingQty b q)).
Proof.
  intros H Hi Hq. apply Forall_setNth; [exact H|].
  destruct (StoreOk_nth _ _ _ H Hi) as [Hc _]. split; [exact Hc | exact Hq].
Qed.

Lemma sameDayBody_store pps i acc :
  StoreOk (acc_buys acc) -> StoreOk (acc_buys (sameDayBody pps i acc)).
Proof.
  intros H. unfold sameDayBody.
  destruct (nth_error (acc_buys acc) i) as [buy|] eqn:E; [|exact H]. simpl.
  apply StoreOk_setNth; auto.
  pose proof (mathMin_le_r (acc_remainingQty acc) (t_remainingQty buy)). lra.
Qed.

Lemma bnbBody_store pool disposal pps i acc :
  StoreOk (acc_buys acc) -> StoreOk (acc_buys (bnbBody pool disposal pps i acc)).
Proof.
  intros H. unfold bnbBody.
  destruct (nth_error (acc_buys acc) i) as [buy|] eqn:E; [|exact H]. simpl.
  apply StoreOk_setNth; auto.
  pose proof (mathMin_le_r (acc_remainingQty acc) (t_remainingQty buy)). lra.
Qed.

Lemma rollInBody_ok pool buys i :
  PoolOk pool -> StoreOk buys ->
  PoolOk (fst (rollInBody (pool, buys) i)) /\ StoreOk (snd (rollInBody (pool, buys) i)).
Proof.
  intros [[Hq Hc] H2] Hs. unfold rollInBody.
  destruct (nth_error buys i) as [buy|] eqn:E; simpl; [|now repeat split].
  destruct (StoreOk_nth _ _ _ Hs E) as [Hn Hr].
  pose proof (calculateCost_nonneg buy (t_remainingQty buy) Hn Hr) as Hcost.
  repeat split; simpl; try lra.
  - apply is2dp_plus; [exact H2 | apply calculateCost_is2dp].
  - apply StoreOk_setNth; auto. apply Qle_refl.
Qed.

Lemma rollIn_ok cands pool buys :
  PoolOk pool -> StoreOk buys ->
  PoolOk (fst (fold_left rollInBody cands (pool, buys))) /\
  StoreOk (snd (fold_left rollInBody cands (pool, buys))).
Proof.
  revert pool buys. induction cands as [|i cands IH]; intros pool buys Hp Hs;
    [now split|].
  cbn [fold_left]. destruct (rollInBody_ok pool buys i Hp Hs) as [Hp' Hs'].
  destruct (rollInBody (pool, buys) i) as [pool' buys']. now apply IH.
Qed.

Lemma drawFromPool_ok pps pool acc :
  PoolOk pool -> PoolOk (fst (drawFromPool pps pool acc)).
Proof.
  intros [[Hq Hc] H2]. unfold drawFromPool.
  destruct (Qltb 0 (p_quantity pool)) eqn:E; [|now repeat split].
  apply Qltb_lt in E. cbn [fst p_quantity p_cost].
  set (m := mathMin (acc_remainingQty acc) (p_quantity pool)).
  assert (Hm : m <= p_quantity pool) by apply mathMin_le_r.
  assert (Hle : round2dp (m * (p_cost pool / p_quantity pool)) <= p_cost pool).
  { rewrite <- (round2dp_2dp (p_cost pool) H2) at 2. apply round2dp_le.
    pose proof (Qdiv_nonneg _ _ Hc E) as Ha.
    assert (Ec : p_cost pool == p_quantity pool * (p_cost pool / p_quantity pool))
      by (field; lra).
    rewrite Ec at 2. set (a := p_cost pool / p_quantity pool) in *. nra. }
  repeat split; simpl; try lra.
  apply is2dp_minus; [exact H2 | apply round2dp_is2dp].
Qed.

Lemma forEachUntilMatched_store body cands acc :
  (forall i a, StoreOk (acc_buys a) -> StoreOk (acc_buys (body i a))) ->
  StoreOk (acc_buys acc) -> StoreOk (acc_buys (forEachUntilMatched body cands acc)).
Proof.
  intros Hb. apply (forEachUntilMatched_inv (fun a => StoreOk (acc_buys a))).
  intros i a Ha _. now apply Hb.
Qed.

Lemma processDisposal_ok symbol disposal buys pool :
  PoolOk pool -> StoreOk buys ->
  PoolOk (out_pool (processDisposal symbol disposal buys pool)) /\
  StoreOk (out_buys (processDisposal symbol disposal buys pool)).
Proof.
  intros Hp Hs.
  pose proof (processDisposal_fields symbol disposal buys pool) as F.
  cbv zeta in F. destruct F as (-> & -> & _).
  unfold matchedAcc.
  set (pps := round2dp _).
  assert (H1 : StoreOk (acc_buys (sameDayStage disposal pps buys))).
  { unfold sameDayStage. apply forEachUntilMatched_store; [|exact Hs].
    intros. now apply sameDayBody_store. }
  set (acc1 := sameDayStage disposal pps buys) in *.
  assert (H2 : StoreOk (acc_buys (bnbStage pool disposal pps acc1))).
  { unfold bnbStage. destruct (Qltb 0 (acc_remainingQty acc1)); [|exact H1].
    apply forEachUntilMatched_store; [|exact H1].
    intros. now apply bnbBody_store. }
  set (acc2 := bnbStage pool disposal pps acc1) in *.
  unfold poolStage. destruct (Qltb 0 (acc_remainingQty acc2)); [|now split].
  destruct (rollIn_ok (filterIndices (isEarlierBuy disposal) (acc_buys acc2))
                      pool (acc_buys acc2) Hp H2) as [Hp' Hs'].
  destruct (fold_left rollInBody _ _) as [pool1 buys1]. simpl in Hp', Hs'.
  split; [now apply drawFromPool_ok|].
  unfold drawFromPool. now destruct (Qltb 0 (p_quantity pool1)).
Qed.

Lemma sells_ok symbol sells st :
  PoolOk (ss_pool st) -> StoreOk (ss_buys st) ->
  PoolOk (ss_pool (fold_left (sellBody symbol) sells st)) /\
  StoreOk (ss_buys (fold_left (sellBody symbol) sells st)).
Proof.
  revert st. induction sells as [|d sells IH]; intros st Hp Hs; [now split|].
  cbn [fold_left]. apply IH; unfold sellBody; simpl;
    now apply processDisposal_ok.
Qed.


Lemma finalRollIn_ok bs pool history buys :
  PoolOk pool -> StoreOk buys -> incl bs buys ->
  PoolOk (fst (fold_left finalRollInBody bs (pool, history))).
Proof.
  revert pool history. induction bs as [|b bs IH]; intros pool history Hp Hs Hi;
    [exact Hp|].
  cbn [fold_left]. unfold finalRollInBody at 2.
  assert (Hb : NonNegativeCost b /\ 0 <= t_remainingQty b).
  { unfold StoreOk in Hs. rewrite Forall_forall in Hs. apply Hs, Hi. now left. }
  assert (Hi' : incl bs buys) by (intros x Hx; apply Hi; now right).
  destruct (Qltb 0 (t_remainingQty b)); [|now apply IH].
  apply IH; auto. destruct Hp as [[Hq Hc] H2]. destruct Hb as [Hn Hr].
  pose proof (calculateCost_nonneg b (t_remainingQty b) Hn Hr).
  repeat split; simpl; try lra.
  apply is2dp_plus; [exact H2 | apply calculateCost_is2dp].
Qed.

(** A whole run from a fresh calculator keeps every pool not negative, when
    every purchase of the matching stream has non-negative amounts. *)
Lemma processSymbol_pools symbol txs calc :
  exists pool,
    section104Pools (processSymbol symbol txs calc)
    = objSet (section104Pools calc) symbol pool /\
    forall history,
      let st := fold_left (sellBody symbol) (filter isSell txs)
                  (mkSymbolState (poolOf calc symbol) (filter isBuy txs)
                                 (errors calc) (disposals calc) (console calc)) in
      pool = fst (fold_left finalRollInBody (ss_buys st) (ss_pool st, history)).
Proof.
  unfold processSymbol.
  set (st := fold_left (sellBody symbol) (filter isSell txs) _).
  destruct (fold_left finalRollInBody (ss_buys st) (ss_pool st, historyOf calc symbol))
    as [pool history] eqn:E.
  exists pool. split; [reflexivity|]. intros h. cbv zeta.
  assert (G : forall bs p h1 h2,
             fst (fold_left finalRollInBody bs (p, h1))
             = fst (fold_left finalRollInBody bs (p, h2))).
  { induction bs as [|b bs IH]; intros p h1 h2; [reflexivity|].
    cbn [fold_left]. unfold finalRollInBody at 2 4.
    destruct (Qltb 0 (t_remainingQty b)); apply IH. }
  rewrite (G _ _ h (historyOf calc symbol)), E. reflexivity.
Qed.

Lemma processSymbol_pools_ok symbol txs calc :
  Forall (fun e => PoolOk (snd e)) (section104Pools calc) ->
  Forall (fun t => NonNegativeCost t /\ 0 <= t_remainingQty t) (filter isBuy txs) ->
  Forall (fun e => PoolOk (snd e)) (section104Pools (processSymbol symbol txs calc)).
Proof.
  intros Hc Hb.
  destruct (processSymbol_pools symbol txs calc) as (pool & -> & Hpool).
  apply Forall_objSet; [|exact Hc]. simpl.
  rewrite (Hpool []). cbv zeta.
  assert (Hp : PoolOk (poolOf calc symbol)).
  { unfold poolOf. destruct (objGet (section104Pools calc) symbol) as [p|] eqn:E.
    - apply objGet_Some_In in E. rewrite Forall_forall in Hc. exact (Hc _ E).
    - repeat split; try (simpl; apply Qle_refl). apply is2dp_0. }
  set (st0 := mkSymbolState _ _ _ _ _).
  destruct (sells_ok symbol (filter isSell txs) st0 Hp Hb) as [Hp' Hs'].
  eapply finalRollIn_ok; eauto. apply incl_refl.
Qed.

Section PoolRun.
Context {host : Host}.

Lemma normalized_remaining clock raws :
  Forall (fun t => t_remainingQty t = t_quantity t)
         (fst (normalizeTransactions clock raws)).
Proof.
  apply Forall_forall. intros t Ht.
  apply normalizeTransactions_origin in Ht. destruct Ht as (i & r & _ & Hn & _).
  unfold normalizeOne in Hn. destruct (parseDate (raw_date r)) as [[d|] msgs];
    simpl in Hn; [|discriminate].
  injection Hn as <-. reflexivity.
Qed.

End PoolRun.

(** ** A year the table does not list *)

(** The branch of [getTaxYear] for a date outside the table: the label
    follows the 6 April boundary, the configuration it returns carries the
    exemption 11300 and the rates 10% and 20%, and the console gets a
    warning. *)
Lemma getTaxYear_outside date :
  find (fun e => dateLe (cfg_start (snd e)) date && dateLe date (cfg_end (snd e)))
       TAX_YEARS = None ->
  let label := taxYearLabel (dynamicTaxYearStart date) in
  fst (fst (getTaxYear date)) = label /\
  cfg_annualExemption (snd (fst (getTaxYear date))) = 11300 /\
  cfg_basicRateShares (snd (fst (getTaxYear date))) = 0.10 /\
  cfg_higherRateShares (snd (fst (getTaxYear date))) = 0.20 /\
  snd (getTaxYear date) = [WarnOutsideTaxYears (formatDateLocal date) label].
Proof.
  intros H. unfold getTaxYear. rewrite H. simpl. repeat split; reflexivity.
Qed.

(** The label of a date is the one the 6 April boundary gives: before
    6 April the tax year started the year before. *)
Lemma dynamicTaxYearStart_boundary date :
  dynamicTaxYearStart date
  = if ((getMonth date <? 3) || ((getMonth date =? 3) && (getDate date <? 6)))%Z
    then (getFullYear date - 1)%Z
    else getFullYear date.
Proof. reflexivity. Qed.

(** What the report applies to a year the table does not list: the
    exemption 3000 and the rates 10% and 20%. *)
Lemma summarize_unlisted snaps yd :
  yd_config yd = None ->
  let s := summarize snaps yd in
  let netGain := round2dp (yd_totalGains yd - yd_totalLosses yd) in
  ty_annualExemption s = 3000 /\
  ty_taxableGain s = round2dp (mathMax 0 (netGain - 3000)) /\
  ty_estimatedTaxBasicRate s = round2dp (mathMax 0 (netGain - 3000) * 0.10) /\
  ty_estimatedTaxHigherRate s = round2dp (mathMax 0 (netGain - 3000) * 0.20) /\
  ty_rateChange s = None.
Proof.
  intros H. unfold summarize. rewrite H. simpl. repeat split; reflexivity.
Qed.

(** C9 on the code: a sale on 1 May 2016 is labelled 2016/17 with a
    warning, and the fallback of [getTaxYear] carries the exemption 11300;
    but the report, which looks the label up in the table again, applies
    3000, so a net gain of 9500 is reported as taxable for 6500 where the
    fallback exemption would leave nothing to tax. *)
Theorem unlisted_year_reports_3000 :
  let run := calculate (host := plainHost) clock0 scenarioOldYear newCalculator in
  let s := nth 0 (taxYears (snd run)) noSummary in
  ty_taxYear s = "2016/17"%string /\
  In (WarnOutsideTaxYears (mkDateStr 2016 5 1) "2016/17") (console (fst run)) /\
  cfg_annualExemption (snd (fst (getTaxYear (newDate 2016 4 1)))) = 11300 /\
  ty_netGain s == 9500 /\
  ty_annualExemption s = 3000 /\
  ty_taxableGain s == 6500 /\
  mathMax 0 (ty_netGain s - 11300) == 0 /\
  ty_estimatedTaxBasicRate s == 650 /\
  ty_estimatedTaxHigherRate s == 1300.
Proof.
  vm_compute. repeat split; try reflexivity. left. reflexivity.
Qed.

(** ** Rule precedence *)

Lemma remainingAt_nth buys i b :
  nth_error buys i = Some b -> remainingAt buys i = t_remainingQty b.
Proof. intros H. unfold remainingAt. now rewrite H. Qed.

Lemma remainingAt_pos buys i :
  0 < remainingAt buys i ->
  exists b, nth_error buys i = Some b /\ 0 < t_remainingQty b.
Proof.
  unfold remainingAt. destruct (nth_error buys i) as [b|]; intros H.
  - now exists b.
  - exfalso. apply (Qlt_irrefl 0 H).
Qed.

Lemma setNth_same {A} (l : list A) i x : nth_error l i = Some x -> setNth l i x = l.
Proof.
  revert i. induction l as [|y l IH]; intros [|i]; simpl; try discriminate.
  - now intros [= ->].
  - intros H. now rewrite IH.
Qed.

Lemma sameAcquisitions_refl buys : sameAcquisitions buys buys.
Proof. reflexivity. Qed.

Lemma sameAcquisitions_trans a b c :
  sameAcquisitions a b -> sameAcquisitions b c -> sameAcquisitions a c.
Proof. unfold sameAcquisitions. congruence. Qed.

Lemma sameAcquisitions_setNth buys i b q :
  nth_error buys i = Some b ->
  sameAcquisitions buys (setNth buys i (withRemainingQty b q)).
Proof.
  intros H. unfold sameAcquisitions.
  rewrite <- (setNth_map (fun b => withRemainingQty b 0)).
  symmetry. apply setNth_same. rewrite nth_error_map, H. reflexivity.
Qed.

Lemma sameAcquisitions_nth buys buys' i b :
  sameAcquisitions buys buys' -> nth_error buys i = Some b ->
  exists b', nth_error buys' i = Some b' /\ t_date b' = t_date b.
Proof.
  intros H Hi. apply (f_equal (fun l => nth_error l i)) in H.
  rewrite !nth_error_map, Hi in H. simpl in H.
  destruct (nth_error buys' i) as [b'|]; [|discriminate].
  exists b'. split; [reflexivity|]. injection H. intros. congruence.
Qed.

Lemma sameAcquisitions_timeAt buys buys' i :
  sameAcquisitions buys buys' -> timeAt buys' i = timeAt buys i.
Proof.
  intros H. apply (f_equal (fun l => nth_error l i)) in H.
  rewrite !nth_error_map in H. unfold timeAt.
  destruct (nth_error buys i) as [b|], (nth_error buys' i) as [b'|];
    try discriminate; [|reflexivity].
  injection H. intros. congruence.
Qed.

Lemma remainingAt_setNth buys i b q j :
  nth_error buys i = Some b ->
  remainingAt (setNth buys i (withRemainingQty b q)) j
  = if (i =? j)%nat then q else remainingAt buys j.
Proof.
  intros H. unfold remainingAt. rewrite nth_error_setNth, H.
  destruct (i =? j)%nat; reflexivity.
Qed.

Lemma sameDayBody_consuming pps : Consuming (sameDayBody pps).
Proof.
  intros i acc. unfold sameDayBody, consumeAt.
  now destruct (nth_error (acc_buys acc) i).
Qed.

Lemma bnbBody_consuming pool disposal pps : Consuming (bnbBody pool disposal pps).
Proof.
  intros i acc. unfold bnbBody, consumeAt.
  now destruct (nth_error (acc_buys acc) i).
Qed.

(** One step at a position that has something left, for a sale that still
    needs something. *)
Lemma consumeAt_step i needed buys :
  0 < needed -> 0 < remainingAt buys i ->
  let needed' := fst (consumeAt i needed buys) in
  let buys' := snd (consumeAt i needed buys) in
  sameAcquisitions buys buys' /\
  (forall j, j <> i -> remainingAt buys' j = remainingAt buys j) /\
  0 <= remainingAt buys' i /\
  remainingAt buys' i < remainingAt buys i /\
  0 <= needed' /\ needed' < needed /\
  (0 < needed' -> remainingAt buys' i <= 0).
Proof.
  intros Hn Hr. cbv zeta. destruct (remainingAt_pos _ _ Hr) as (b & Hb & Hbpos).
  unfold consumeAt. rewrite Hb. cbn [fst snd].
  rewrite (remainingAt_nth _ _ _ Hb).
  set (m := mathMin needed (t_remainingQty b)).
  assert (Hm : 0 < m) by now apply mathMin_pos.
  assert (Hm1 : m <= needed) by apply mathMin_le_l.
  assert (Hm2 : m <= t_remainingQty b) by apply mathMin_le_r.
  repeat split.
  - now apply sameAcquisitions_setNth.
  - intros j Hj. rewrite (remainingAt_setNth _ _ _ _ _ Hb).
    destruct (Nat.eqb_spec i j); [congruence | reflexivity].
  - rewrite (remainingAt_setNth _ _ _ _ _ Hb), Nat.eqb_refl. lra.
  - rewrite (remainingAt_setNth _ _ _ _ _ Hb), Nat.eqb_refl. lra.
  - lra.
  - lra.
  - intros Hpos. rewrite (remainingAt_setNth _ _ _ _ _ Hb), Nat.eqb_refl.
    destruct (mathMin_cases needed (t_remainingQty b)) as [[E _]|[E _]];
      fold m in E; rewrite E in *; lra.
Qed.

Lemma forEachUntilMatched_done body cands acc :
  acc_remainingQty acc <= 0 -> forEachUntilMatched body cands acc = acc.
Proof.
  intros H. destruct cands as [|i rest]; [reflexivity|]. simpl.
  now rewrite (proj2 (Qle_bool_iff _ _) H).
Qed.

(** What a matching loop does to the array and to the quantity the sale
    still needs, when its candidates are distinct positions that all have
    something left. *)
Lemma loop_consumes body cands acc :
  Consuming body -> NoDup cands ->
  (forall i, In i cands -> 0 < remainingAt (acc_buys acc) i) ->
  let acc' := forEachUntilMatched body cands acc in
  sameAcquisitions (acc_buys acc) (acc_buys acc') /\
  (forall j, remainingAt (acc_buys acc') j <= remainingAt (acc_buys acc) j) /\
  (forall j, ~ In j cands -> remainingAt (acc_buys acc') j = remainingAt (acc_buys acc) j) /\
  acc_remainingQty acc' <= acc_remainingQty acc /\
  (0 < acc_remainingQty acc' -> 0 < acc_remainingQty acc) /\
  (0 < acc_remainingQty acc' ->
   forall i, In i cands -> remainingAt (acc_buys acc') i <= 0) /\
  (forall l1 j l2, cands = l1 ++ j :: l2 ->
     remainingAt (acc_buys acc') j < remainingAt (acc_buys acc) j ->
     forall i, In i l1 -> remainingAt (acc_buys acc') i <= 0).
Proof.
  intros Hbody. revert acc. induction cands as [|i rest IH]; intros acc Hnd Hpos;
    cbv zeta.
  - simpl. repeat split; try (intros; apply Qle_refl); auto.
    + intros _ i [].
    + intros [|? ?] j l2 E; discriminate E.
  - cbn [forEachUntilMatched].
    destruct (Qle_bool (acc_remainingQty acc) 0) eqn:Eq.
    + apply Qle_bool_iff in Eq.
      repeat split; try (intros; apply Qle_refl); auto.
      * intros K. lra.
      * intros l1 j l2 _ K. exfalso. apply (Qlt_irrefl _ K).
    + apply Qle_bool_false in Eq.
      inversion Hnd as [|? ? Hi Hnd']; subst.
      pose proof (Hbody i acc) as Hb.
      pose proof (consumeAt_step i (acc_remainingQty acc) (acc_buys acc) Eq
                    (Hpos i (or_introl eq_refl))) as S.
      cbv zeta in S. rewrite <- Hb in S. cbn [fst snd] in S.
      destruct S as (S1 & S2 & S3 & S4 & S5 & S6 & S7).
      set (acc1 := body i acc) in *.
      assert (Hpos1 : forall k, In k rest -> 0 < remainingAt (acc_buys acc1) k).
      { intros k Hk. rewrite S2; [apply Hpos; now right|].
        intros ->. contradiction. }
      specialize (IH acc1 Hnd' Hpos1). cbv zeta in IH.
      destruct IH as (I1 & I2 & I3 & I4 & I5 & I6 & I7).
      set (acc' := forEachUntilMatched body rest acc1) in *.
      repeat split.
      * eapply sameAcquisitions_trans; eassumption.
      * intros j. destruct (Nat.eq_dec j i) as [->|Hj].
        -- specialize (I2 i). lra.
        -- specialize (I2 j). rewrite (S2 j Hj) in I2. exact I2.
      * intros j Hj. rewrite I3 by (intros K; apply Hj; now right).
        apply S2. intros ->. apply Hj. now left.
      * lra.
      * intros _. exact Eq.
      * intros K k [<-|Hk].
        -- specialize (I2 i). specialize (S7 (I5 K)). lra.
        -- now apply I6.
      * intros l1 j l2 E K k Hk.
        destruct l1 as [|x l1]; [destruct Hk|].
        injection E as <- E.
        assert (Hji : j <> i).
        { intros ->. apply Hi. rewrite E. apply in_elt. }
        rewrite <- (S2 j Hji) in K.
        destruct Hk as [<-|Hk]; [|now apply (I7 l1 j l2 E K)].
        destruct (Qlt_le_dec 0 (acc_remainingQty acc1)) as [P|P].
        -- specialize (I2 i). specialize (S7 P). lra.
        -- exfalso. unfold acc' in K.
           rewrite (forEachUntilMatched_done body rest acc1 P) in K.
           apply (Qlt_irrefl _ K).
Qed.

Lemma filterIndices_from_In {A} (f : A -> bool) (l : list A) k i :
  In i (map fst (filter (fun p => f (snd p)) (combine (seq k (List.length l)) l)))
  <-> exists x, (k <= i)%nat /\ nth_error l (i - k) = Some x /\ f x = true.
Proof.
  revert k. induction l as [|y l IH]; intros k; simpl.
  - split; [intros [] | intros (x & _ & H & _)].
    destruct (i - k)%nat; discriminate.
  - assert (R : In i (map fst (filter (fun p => f (snd p))
                                 (combine (seq (S k) (List.length l)) l)))
                <-> exists x, (S k <= i)%nat /\ nth_error l (i - S k) = Some x /\ f x = true)
      by apply IH.
    destruct (f y) eqn:E; simpl; rewrite ?R; split.
    + intros [<-|(x & Hk & Hx & Hf)].
      * exists y. rewrite Nat.sub_diag. auto.
      * exists x. replace (i - k)%nat with (S (i - S k)) by lia.
        repeat split; auto. lia.
    + intros (x & Hk & Hx & Hf).
      destruct (Nat.eq_dec k i) as [->|Hne]; [now left|]. right.
      exists x. replace (i - k)%nat with (S (i - S k)) in Hx by lia.
      repeat split; auto. lia.
    + intros (x & Hk & Hx & Hf). exists x.
      replace (i - k)%nat with (S (i - S k)) by lia. repeat split; auto. lia.
    + intros (x & Hk & Hx & Hf).
      destruct (Nat.eq_dec k i) as [->|Hne].
      * rewrite Nat.sub_diag in Hx. simpl in Hx. congruence.
      * exists x. replace (i - k)%nat with (S (i - S k)) in Hx by lia.
        repeat split; auto. lia.
Qed.

Lemma filterIndices_In {A} (f : A -> bool) (l : list A) i :
  In i (filterIndices f l) <-> exists x, nth_error l i = Some x /\ f x = true.
Proof.
  unfold filterIndices. rewrite filterIndices_from_In. rewrite Nat.sub_0_r.
  split; intros (x & H); exists x; intuition lia.
Qed.

Lemma filterIndices_from_sorted {A} (f : A -> bool) (l : list A) k :
  StronglySorted lt
    (map fst (filter (fun p => f (snd p)) (combine (seq k (List.length l)) l))).
Proof.
  revert k. induction l as [|y l IH]; intros k; simpl; [constructor|].
  destruct (f y); simpl; [|apply IH].
  constructor; [apply IH|].
  apply Forall_forall. intros i Hi. apply filterIndices_from_In in Hi.
  destruct Hi as (x & Hk & _). lia.
Qed.

Lemma filterIndices_sorted {A} (f : A -> bool) (l : list A) :
  StronglySorted lt (filterIndices f l).
Proof. apply filterIndices_from_sorted. Qed.

Lemma sorted_NoDup {A} (R : A -> A -> Prop) l :
  (forall x, ~ R x x) -> StronglySorted R l -> NoDup l.
Proof.
  intros Hirr. induction 1 as [|x l Hs IH Hx]; constructor; [|exact IH].
  intros Hin. rewrite Forall_forall in Hx. exact (Hirr x (Hx x Hin)).
Qed.

(** In a list sorted by a strict order, what is smaller comes before. *)
Lemma sorted_before {A} (R : A -> A -> Prop) l l1 j l2 i :
  (forall x, ~ R x x) -> (forall x y, R x y -> ~ R y x) ->
  StronglySorted R l -> l = l1 ++ j :: l2 -> In i l -> R i j -> In i l1.
Proof.
  intros Hirr Hasym Hs -> Hi Hij.
  apply in_app_or in Hi. destruct Hi as [Hi|[<-|Hi]]; [exact Hi| |].
  - exfalso. exact (Hirr _ Hij).
  - exfalso. clear Hirr. induction l1 as [|y l1 IH]; simpl in Hs.
    + inversion Hs as [|? ? _ Hall]; subst. rewrite Forall_forall in Hall.
      exact (Hasym _ _ Hij (Hall _ Hi)).
    + inversion Hs; subst. now apply IH.
Qed.

Lemma forEachUntilMatched_inv_in (P : MatchAcc -> Prop) body cands :
  (forall i acc, In i cands -> P acc -> 0 < acc_remainingQty acc -> P (body i acc)) ->
  forall acc, P acc -> P (forEachUntilMatched body cands acc).
Proof.
  induction cands as [|i rest IH]; intros Hbody acc HP; simpl; [exact HP|].
  destruct (Qle_bool (acc_remainingQty acc) 0) eqn:E; [exact HP|].
  apply IH.
  - intros k a Hk. apply Hbody. now right.
  - apply Hbody; [now left | exact HP | now apply Qle_bool_false].
Qed.

Lemma isSameDay_format a b :
  isSameDay a b = true -> formatDateLocal a = formatDateLocal b.
Proof.
  unfold isSameDay, formatDateLocal. rewrite !andb_true_iff, !Z.eqb_eq.
  intros [[-> ->] ->]. reflexivity.
Qed.

(** Rule 1: what the same-day loop leaves behind. *)
Lemma sameDayStage_facts disposal pps buys :
  let acc1 := sameDayStage disposal pps buys in
  sameAcquisitions buys (acc_buys acc1) /\
  (forall j, remainingAt (acc_buys acc1) j <= remainingAt buys j) /\
  (forall j, remainingAt (acc_buys acc1) j < remainingAt buys j ->
     exists b, nth_error buys j = Some b /\ sharesDay disposal b = true) /\
  (0 < acc_remainingQty acc1 ->
   forall i b, nth_error buys i = Some b -> sharesDay disposal b = true ->
               remainingAt (acc_buys acc1) i <= 0) /\
  (forall i j b, (i < j)%nat ->
     nth_error buys i = Some b -> sharesDay disposal b = true ->
     remainingAt (acc_buys acc1) j < remainingAt buys j ->
     remainingAt (acc_buys acc1) i <= 0) /\
  acc_remainingQty acc1 <= t_quantity disposal.
Proof.
  cbv zeta. unfold sameDayStage.
  set (cands := filterIndices (isSameDayCandidate disposal) buys).
  set (acc0 := mkAcc (t_quantity disposal) 0 [] buys).
  assert (Hc : forall i, In i cands <->
                 exists b, nth_error buys i = Some b /\
                           sharesDay disposal b = true /\ 0 < t_remainingQty b).
  { intros i. unfold cands. rewrite filterIndices_In.
    unfold isSameDayCandidate, sharesDay.
    split; intros (b & Hb & H); exists b; split; auto.
    - apply andb_true_iff in H. now rewrite <- Qltb_lt.
    - apply andb_true_iff. now rewrite Qltb_lt. }
  assert (Hs : StronglySorted lt cands) by apply filterIndices_sorted.
  assert (Hnd : NoDup cands) by (apply (sorted_NoDup lt); [lia | exact Hs]).
  assert (Hpos : forall i, In i cands -> 0 < remainingAt (acc_buys acc0) i).
  { intros i Hi. apply Hc in Hi. destruct Hi as (b & Hb & _ & Hr).
    simpl. now rewrite (remainingAt_nth _ _ _ Hb). }
  pose proof (loop_consumes _ cands acc0 (sameDayBody_consuming pps) Hnd Hpos) as L.
  cbv zeta in L. destruct L as (L1 & L2 & L3 & L4 & L5 & L6 & L7).
  set (acc1 := forEachUntilMatched (sameDayBody pps) cands acc0) in *.
  simpl in L1, L2, L3, L4, L6, L7.
  assert (Hnot : forall i b, nth_error buys i = Some b -> sharesDay disposal b = true ->
                             ~ In i cands -> remainingAt (acc_buys acc1) i <= 0).
  { intros i b Hb Hd Hn. rewrite (L3 i Hn), (remainingAt_nth _ _ _ Hb).
    destruct (Qlt_le_dec 0 (t_remainingQty b)) as [K|K]; [|exact K].
    exfalso. apply Hn, Hc. now exists b. }
  repeat split; auto.
  - intros j Hj. destruct (in_dec Nat.eq_dec j cands) as [Hin|Hn].
    + apply Hc in Hin. destruct Hin as (b & Hb & Hd & _). now exists b.
    + rewrite (L3 j Hn) in Hj. exfalso. apply (Qlt_irrefl _ Hj).
  - intros K i b Hb Hd. destruct (in_dec Nat.eq_dec i cands) as [Hin|Hn].
    + now apply L6.
    + now apply (Hnot i b).
  - intros i j b Hij Hb Hd Hj.
    destruct (in_dec Nat.eq_dec i cands) as [Hin|Hn]; [|now apply (Hnot i b)].
    assert (Hjin : In j cands).
    { destruct (in_dec Nat.eq_dec j cands) as [H|H]; [exact H|].
      rewrite (L3 j H) in Hj. exfalso. apply (Qlt_irrefl _ Hj). }
    destruct (in_split _ _ Hjin) as (l1 & l2 & E).
    apply (L7 l1 j l2 E Hj).
    apply (sorted_before lt cands l1 j l2 i); auto; lia.
Qed.

Lemma insertSorted_earlier buys x s :
  StronglySorted (earlierAt buys) s ->
  (forall z, In z s -> (x < z)%nat) ->
  StronglySorted (earlierAt buys) (insertSorted (byTimeAt buys) x s).
Proof.
  induction 1 as [|y s Hs IH Hy]; intros Hx; simpl.
  - repeat constructor.
  - unfold byTimeAt at 1. destruct (timeAt buys x <=? timeAt buys y)%Z eqn:E.
    + apply Z.leb_le in E. constructor; [now constructor|].
      constructor.
      * unfold earlierAt. specialize (Hx y (or_introl eq_refl)). lia.
      * rewrite Forall_forall in *. intros z Hz.
        specialize (Hy z Hz). specialize (Hx z (or_intror Hz)).
        unfold earlierAt in *. lia.
    + apply Z.leb_gt in E. constructor.
      * apply IH. intros z Hz. apply Hx. now right.
      * apply Forall_forall. intros z Hz.
        apply (Permutation_in _ (insertSorted_perm _ x s)) in Hz.
        destruct Hz as [<-|Hz]; [left; exact E|].
        rewrite Forall_forall in Hy. now apply Hy.
Qed.

Lemma stableSort_earlier buys l :
  StronglySorted lt l ->
  StronglySorted (earlierAt buys) (stableSort (byTimeAt buys) l).
Proof.
  induction 1 as [|x l Hs IH Hx]; simpl; [constructor|].
  apply insertSorted_earlier; [exact IH|].
  intros z Hz. apply stableSort_In in Hz. rewrite Forall_forall in Hx. now apply Hx.
Qed.

Lemma earlierAt_irrefl buys x : ~ earlierAt buys x x.
Proof. unfold earlierAt. lia. Qed.

Lemma earlierAt_asym buys x y : earlierAt buys x y -> ~ earlierAt buys y x.
Proof. unfold earlierAt. lia. Qed.

(** Rule 2: what the bed-and-breakfast loop leaves behind. *)
Lemma bnbStage_facts pool disposal pps acc1 :
  let acc2 := bnbStage pool disposal pps acc1 in
  sameAcquisitions (acc_buys acc1) (acc_buys acc2) /\
  (forall j, remainingAt (acc_buys acc2) j <= remainingAt (acc_buys acc1) j) /\
  (forall j, remainingAt (acc_buys acc2) j < remainingAt (acc_buys acc1) j ->
     0 < acc_remainingQty acc1 /\
     exists b, nth_error (acc_buys acc1) j = Some b /\ inWindow disposal b = true) /\
  (0 < acc_remainingQty acc2 ->
   forall i b, nth_error (acc_buys acc1) i = Some b -> inWindow disposal b = true ->
               remainingAt (acc_buys acc2) i <= 0) /\
  (forall i j b, earlierAt (acc_buys acc1) i j ->
     nth_error (acc_buys acc1) i = Some b -> inWindow disposal b = true ->
     remainingAt (acc_buys acc2) j < remainingAt (acc_buys acc1) j ->
     remainingAt (acc_buys acc2) i <= 0) /\
  acc_remainingQty acc2 <= acc_remainingQty acc1 /\
  (0 < acc_remainingQty acc2 -> 0 < acc_remainingQty acc1).
Proof.
  cbv zeta. unfold bnbStage.
  destruct (Qltb 0 (acc_remainingQty acc1)) eqn:Eentered.
  2:{ apply Qltb_ge in Eentered.
      split; [reflexivity|]. split; [intros; apply Qle_refl|].
      split; [intros j K; exfalso; apply (Qlt_irrefl _ K)|].
      split; [intros K; exfalso; lra|].
      split; [intros i j b _ _ _ K; exfalso; apply (Qlt_irrefl _ K)|].
      split; [apply Qle_refl | intros K; exact K]. }
  apply Qltb_lt in Eentered.
  set (buys1 := acc_buys acc1).
  set (cands0 := filterIndices (isBnbCandidate disposal) buys1).
  set (cands := stableSort (byTimeAt buys1) cands0).
  assert (Hc : forall i, In i cands <->
                 exists b, nth_error buys1 i = Some b /\
                           inWindow disposal b = true /\ 0 < t_remainingQty b).
  { intros i. unfold cands. rewrite stableSort_In. unfold cands0.
    rewrite filterIndices_In. unfold isBnbCandidate, inWindow.
    split; intros (b & Hb & H); exists b; split; auto.
    - apply andb_true_iff in H. now rewrite <- Qltb_lt.
    - apply andb_true_iff. now rewrite Qltb_lt. }
  assert (Hs : StronglySorted (earlierAt buys1) cands)
    by apply stableSort_earlier, filterIndices_sorted.
  assert (Hnd : NoDup cands)
    by (apply (sorted_NoDup (earlierAt buys1)); [apply earlierAt_irrefl | exact Hs]).
  assert (Hpos : forall i, In i cands -> 0 < remainingAt (acc_buys acc1) i).
  { intros i Hi. apply Hc in Hi. destruct Hi as (b & Hb & _ & Hr).
    fold buys1. now rewrite (remainingAt_nth _ _ _ Hb). }
  pose proof (loop_consumes _ cands acc1 (bnbBody_consuming pool disposal pps) Hnd Hpos)
    as L.
  cbv zeta in L. destruct L as (L1 & L2 & L3 & L4 & L5 & L6 & L7).
  set (acc2 := forEachUntilMatched (bnbBody pool disposal pps) cands acc1) in *.
  fold buys1 in L1, L2, L3, L7 |- *.
  assert (Hnot : forall i b, nth_error buys1 i = Some b -> inWindow disposal b = true ->
                             ~ In i cands -> remainingAt (acc_buys acc2) i <= 0).
  { intros i b Hb Hd Hn. rewrite (L3 i Hn), (remainingAt_nth _ _ _ Hb).
    destruct (Qlt_le_dec 0 (t_remainingQty b)) as [K|K]; [|exact K].
    exfalso. apply Hn, Hc. now exists b. }
  assert (Hdrawn : forall j, remainingAt (acc_buys acc2) j < remainingAt buys1 j ->
                             In j cands).
  { intros j Hj. destruct (in_dec Nat.eq_dec j cands) as [H|H]; [exact H|].
    rewrite (L3 j H) in Hj. exfalso. apply (Qlt_irrefl _ Hj). }
  split; [exact L1|]. split; [exact L2|]. split; [|split; [|split; [|split]]].
  - intros j Hj. split; [exact Eentered|].
    apply Hdrawn, Hc in Hj. destruct Hj as (b & Hb & Hd & _). now exists b.
  - intros K i b Hb Hd. destruct (in_dec Nat.eq_dec i cands) as [Hin|Hn].
    + now apply L6.
    + now apply (Hnot i b).
  - intros i j b Hij Hb Hd Hj.
    destruct (in_dec Nat.eq_dec i cands) as [Hin|Hn]; [|now apply (Hnot i b)].
    destruct (in_split _ _ (Hdrawn j Hj)) as (l1 & l2 & E).
    apply (L7 l1 j l2 E Hj).
    apply (sorted_before (earlierAt buys1) cands l1 j l2 i); auto.
    + apply earlierAt_irrefl.
    + apply earlierAt_asym.
  - exact L4.
  - exact L5.
Qed.

Lemma rollInBody_eq pool buys i :
  rollInBody (pool, buys) i
  = match nth_error buys i with
    | None => (pool, buys)
    | Some buy =>
        (mkPool (p_quantity pool + t_remainingQty buy)
                (p_cost pool + calculateCost buy (t_remainingQty buy)),
         setNth buys i (withRemainingQty buy 0))
    end.
Proof. reflexivity. Qed.

(** The roll-in of rule 3 only empties acquisitions. *)
Lemma rollIn_remaining cands pool buys :
  (forall i, In i cands -> 0 <= remainingAt buys i) ->
  let buys' := snd (fold_left rollInBody cands (pool, buys)) in
  sameAcquisitions buys buys' /\
  forall j, remainingAt buys' j <= remainingAt buys j.
Proof.
  revert pool buys. induction cands as [|i cands IH]; intros pool buys H; cbv zeta.
  - split; [reflexivity | intros; apply Qle_refl].
  - cbn [fold_left]. rewrite rollInBody_eq.
    destruct (nth_error buys i) as [b|] eqn:E.
    + assert (Hi : 0 <= t_remainingQty b).
      { specialize (H i (or_introl eq_refl)). now rewrite (remainingAt_nth _ _ _ E) in H. }
      assert (Hstep : forall j, remainingAt (setNth buys i (withRemainingQty b 0)) j
                                <= remainingAt buys j).
      { intros j. rewrite (remainingAt_setNth _ _ _ _ _ E).
        destruct (Nat.eqb_spec i j) as [<-|_]; [|apply Qle_refl].
        now rewrite (remainingAt_nth _ _ _ E). }
      destruct (IH (mkPool (p_quantity pool + t_remainingQty b)
                           (p_cost pool + calculateCost b (t_remainingQty b)))
                   (setNth buys i (withRemainingQty b 0))) as [I1 I2].
      { intros k Hk. rewrite (remainingAt_setNth _ _ _ _ _ E).
        destruct (i =? k)%nat; [apply Qle_refl | apply H; now right]. }
      split.
      * apply (sameAcquisitions_trans _ (setNth buys i (withRemainingQty b 0)));
          [apply sameAcquisitions_setNth, E | exact I1].
      * intros j. eapply Qle_trans; [apply I2 | apply Hstep].
    + apply IH. intros k Hk. apply H. now right.
Qed.

(** Rule 3: the pool is touched only for a sale that rules 1 and 2 left
    short, and it adds at most one detail. *)
Lemma poolStage_facts pool disposal pps acc2 :
  let pool3 := fst (poolStage pool disposal pps acc2) in
  let acc3 := snd (poolStage pool disposal pps acc2) in
  sameAcquisitions (acc_buys acc2) (acc_buys acc3) /\
  (forall j, remainingAt (acc_buys acc3) j <= remainingAt (acc_buys acc2) j) /\
  (exists s104,
      acc_matchDetails acc3 = acc_matchDetails acc2 ++ s104 /\
      Forall PoolDetail s104 /\ (List.length s104 <= 1)%nat /\
      (s104 <> [] -> 0 < acc_remainingQty acc2)) /\
  (pool3 <> pool -> 0 < acc_remainingQty acc2).
Proof.
  cbv zeta. unfold poolStage.
  destruct (Qltb 0 (acc_remainingQty acc2)) eqn:Eentered.
  2:{ cbn [fst snd]. split; [reflexivity|]. split; [intros; apply Qle_refl|]. split.
      - exists []. rewrite app_nil_r.
        split; [reflexivity|]. split; [constructor|]. split; [simpl; lia|].
        intros K. now elim K.
      - intros K. now elim K. }
  apply Qltb_lt in Eentered.
  set (cands := filterIndices (isEarlierBuy disposal) (acc_buys acc2)).
  assert (Hc : forall i, In i cands -> 0 <= remainingAt (acc_buys acc2) i).
  { intros i Hi. unfold cands in Hi. apply filterIndices_In in Hi.
    destruct Hi as (b & Hb & H). rewrite (remainingAt_nth _ _ _ Hb).
    unfold isEarlierBuy in H. apply andb_true_iff in H.
    apply Qlt_le_weak, Qltb_lt, H. }
  pose proof (rollIn_remaining cands pool (acc_buys acc2) Hc) as R. cbv zeta in R.
  destruct (fold_left rollInBody cands (pool, acc_buys acc2)) as [pool1 buys1].
  cbn [snd] in R. destruct R as [R1 R2].
  unfold drawFromPool. destruct (Qltb 0 (p_quantity pool1)); cbn [fst snd acc_buys acc_matchDetails].
  - split; [exact R1|]. split; [exact R2|]. split; [|intros _; exact Eentered].
    eexists [_]. split; [reflexivity|]. split; [repeat constructor|].
    split; [simpl; lia | intros _; exact Eentered].
  - split; [exact R1|]. split; [exact R2|]. split; [|intros _; exact Eentered].
    exists []. rewrite app_nil_r.
    split; [reflexivity|]. split; [constructor|]. split; [simpl; lia|].
    intros _; exact Eentered.
Qed.

(** The details that rule 1 writes. *)
Lemma sameDayStage_details disposal pps buys :
  Forall (SameDayDetail disposal) (acc_matchDetails (sameDayStage disposal pps buys)).
Proof.
  unfold sameDayStage.
  set (cands := filterIndices (isSameDayCandidate disposal) buys).
  apply (forEachUntilMatched_inv_in
           (fun acc => sameAcquisitions buys (acc_buys acc) /\
                       Forall (SameDayDetail disposal) (acc_matchDetails acc))).
  - intros i acc Hi [Hsame Hd] _. unfold cands in Hi. apply filterIndices_In in Hi.
    destruct Hi as (b0 & Hb0 & Hc). unfold isSameDayCandidate in Hc.
    apply andb_true_iff in Hc. destruct Hc as [Hday _].
    destruct (sameAcquisitions_nth _ _ _ _ Hsame Hb0) as (b & Hb & Hdate).
    unfold sameDayBody. rewrite Hb. cbn [acc_buys acc_matchDetails]. split.
    + eapply sameAcquisitions_trans; [exact Hsame | now apply sameAcquisitions_setNth].
    + apply Forall_app. split; [exact Hd|]. repeat constructor. simpl.
      rewrite Hdate. f_equal. now apply isSameDay_format.
  - simpl. split; [reflexivity | constructor].
Qed.

(** The details that rule 2 adds. *)
Lemma bnbStage_details pool disposal pps acc1 :
  exists bnb,
    acc_matchDetails (bnbStage pool disposal pps acc1) = acc_matchDetails acc1 ++ bnb /\
    Forall BnbDetail bnb /\
    (bnb <> [] -> 0 < acc_remainingQty acc1).
Proof.
  unfold bnbStage. destruct (Qltb 0 (acc_remainingQty acc1)) eqn:Eentered.
  2:{ exists []. rewrite app_nil_r.
      split; [reflexivity|]. split; [constructor|]. intros K. now elim K. }
  apply Qltb_lt in Eentered.
  set (cands := stableSort _ _).
  assert (G : sameAcquisitions (acc_buys acc1)
                (acc_buys (forEachUntilMatched (bnbBody pool disposal pps) cands acc1)) /\
              exists bnb,
                acc_matchDetails (forEachUntilMatched (bnbBody pool disposal pps) cands acc1)
                = acc_matchDetails acc1 ++ bnb /\ Forall BnbDetail bnb).
  { apply (forEachUntilMatched_inv_in
             (fun acc => sameAcquisitions (acc_buys acc1) (acc_buys acc) /\
                         exists bnb, acc_matchDetails acc = acc_matchDetails acc1 ++ bnb /\
                                     Forall BnbDetail bnb)).
    - intros i acc Hi [Hsame (bnb & Hd & Hall)] _.
      unfold cands in Hi. apply stableSort_In, filterIndices_In in Hi.
      destruct Hi as (b0 & Hb0 & Hc). unfold isBnbCandidate in Hc.
      apply andb_true_iff in Hc. destruct Hc as [Hwin _].
      apply andb_true_iff in Hwin. destruct Hwin as [Hlo Hhi].
      destruct (sameAcquisitions_nth _ _ _ _ Hsame Hb0) as (b & Hb & Hdate).
      unfold bnbBody. rewrite Hb. cbn [acc_buys acc_matchDetails]. split.
      + eapply sameAcquisitions_trans; [exact Hsame | now apply sameAcquisitions_setNth].
      + eexists (bnb ++ [_]). rewrite Hd, <- app_assoc. split; [reflexivity|].
        apply Forall_app. split; [exact Hall|]. repeat constructor.
        eexists. split; [reflexivity|]. cbn [daysDifference]. rewrite Hdate.
        apply Z.ltb_lt in Hlo. apply Z.leb_le in Hhi. lia.
    - split; [reflexivity|]. exists []. now rewrite app_nil_r. }
  destruct G as [_ (bnb & Hd & Hall)]. exists bnb.
  split; [exact Hd|]. split; [exact Hall | intros _; exact Eentered].
Qed.

Lemma inWindow_date disposal b b' :
  t_date b' = t_date b -> inWindow disposal b' = inWindow disposal b.
Proof. unfold inWindow. now intros ->. Qed.

Lemma earlierAt_same buys buys' i j :
  sameAcquisitions buys buys' -> earlierAt buys' i j <-> earlierAt buys i j.
Proof.
  intros H. unfold earlierAt. now rewrite !(sameAcquisitions_timeAt _ _ _ H).
Qed.

(** X16. The three rules in order.  The details of a disposal are those of
    rule 1, then those of rule 2, then at most one of rule 3.  Rule 1 draws
    only on acquisitions that share the calendar date of the disposal, in
    array order (which the normalizer makes the chronological order), each
    one emptied before the next is touched.  Rule 2 runs only for a
    quantity that rule 1 left unmatched, draws only on acquisitions 1 to 30
    days after the disposal, in ascending date order, each one emptied
    before the next is touched.  The pool is touched only for a quantity
    that rules 1 and 2 left unmatched, and then every acquisition of the
    first two rules has nothing left. *)
Theorem three_rule_precedence
        (symbol : string) (disposal : Transaction) (buys : list Transaction) (pool : Pool) :
  let out := processDisposal symbol disposal buys pool in
  let pps := round2dp (calculateProceeds disposal (t_quantity disposal)
                       / t_quantity disposal) in
  let afterRule1 := sameDayStage disposal pps buys in
  let afterRule2 := bnbStage pool disposal pps afterRule1 in
  (exists same bnb s104,
      d_matchDetails (out_disposal out) = same ++ bnb ++ s104 /\
      Forall (SameDayDetail disposal) same /\
      Forall BnbDetail bnb /\
      Forall PoolDetail s104 /\ (List.length s104 <= 1)%nat /\
      (bnb <> [] -> 0 < acc_remainingQty afterRule1) /\
      (s104 <> [] -> 0 < acc_remainingQty afterRule2)) /\
  (out_pool out <> pool -> 0 < acc_remainingQty afterRule2) /\
  (forall j, remainingAt (acc_buys afterRule1) j < remainingAt buys j ->
     exists b, nth_error buys j = Some b /\ sharesDay disposal b = true) /\
  (forall i j b, (i < j)%nat ->
     nth_error buys i = Some b -> sharesDay disposal b = true ->
     remainingAt (acc_buys afterRule1) j < remainingAt buys j ->
     remainingAt (out_buys out) i <= 0) /\
  (0 < acc_remainingQty afterRule1 ->
   forall i b, nth_error buys i = Some b -> sharesDay disposal b = true ->
               remainingAt (out_buys out) i <= 0) /\
  (forall j, remainingAt (acc_buys afterRule2) j < remainingAt (acc_buys afterRule1) j ->
     0 < acc_remainingQty afterRule1 /\
     exists b, nth_error buys j = Some b /\ inWindow disposal b = true) /\
  (forall i j b, earlierAt buys i j ->
     nth_error buys i = Some b -> inWindow disposal b = true ->
     remainingAt (acc_buys afterRule2) j < remainingAt (acc_buys afterRule1) j ->
     remainingAt (out_buys out) i <= 0) /\
  (0 < acc_remainingQty afterRule2 ->
   forall i b, nth_error buys i = Some b -> inWindow disposal b = true ->
               remainingAt (out_buys out) i <= 0).
Proof.
  cbv zeta.
  pose proof (processDisposal_fields symbol disposal buys pool) as F.
  cbv zeta in F. destruct F as (-> & -> & -> & _).
  unfold matchedAcc.
  set (pps := round2dp _).
  pose proof (sameDayStage_facts disposal pps buys) as S1. cbv zeta in S1.
  pose proof (sameDayStage_details disposal pps buys) as D1.
  set (acc1 := sameDayStage disposal pps buys) in *.
  pose proof (bnbStage_facts pool disposal pps acc1) as S2. cbv zeta in S2.
  pose proof (bnbStage_details pool disposal pps acc1) as D2.
  set (acc2 := bnbStage pool disposal pps acc1) in *.
  pose proof (poolStage_facts pool disposal pps acc2) as S3. cbv zeta in S3.
  set (acc3 := snd (poolStage pool disposal pps acc2)) in *.
  destruct S1 as (A1 & A2 & A3 & A4 & A5 & A6).
  destruct S2 as (B1 & B2 & B3 & B4 & B5 & B6 & B7).
  destruct S3 as (C1 & C2 & (s104 & C3 & C4 & C5 & C6) & C7).
  destruct D2 as (bnb & D2 & D3 & D4).
  assert (M23 : forall i, remainingAt (acc_buys acc3) i <= remainingAt (acc_buys acc2) i)
    by exact C2.
  assert (M13 : forall i, remainingAt (acc_buys acc3) i <= remainingAt (acc_buys acc1) i).
  { intros i. eapply Qle_trans; [apply C2 | apply B2]. }
  assert (W : forall i b, nth_error buys i = Some b -> inWindow disposal b = true ->
                exists b1, nth_error (acc_buys acc1) i = Some b1 /\
                           inWindow disposal b1 = true).
  { intros i b Hb Hw. destruct (sameAcquisitions_nth _ _ _ _ A1 Hb) as (b1 & Hb1 & Hd).
    exists b1. split; [exact Hb1|]. now rewrite (inWindow_date _ _ _ Hd). }
  split; [|split; [|split; [|split; [|split; [|split; [|split]]]]]].
  - exists (acc_matchDetails acc1), bnb, s104.
    split; [now rewrite C3, D2, app_assoc|].
    split; [exact D1|]. split; [exact D3|]. split; [exact C4|]. split; [exact C5|].
    split; [exact D4 | exact C6].
  - exact C7.
  - exact A3.
  - intros i j b Hij Hb Hd Hj. eapply Qle_trans; [apply M13|].
    now apply (A5 i j b).
  - intros K i b Hb Hd. eapply Qle_trans; [apply M13|]. now apply (A4 K i b).
  - intros j Hj. destruct (B3 j Hj) as (K & b1 & Hb1 & Hw). split; [exact K|].
    assert (A1' : sameAcquisitions (acc_buys acc1) buys) by (symmetry; exact A1).
    destruct (sameAcquisitions_nth _ _ _ _ A1' Hb1) as (b & Hb & Hd).
    exists b. split; [exact Hb|]. now rewrite (inWindow_date _ _ _ Hd).
  - intros i j b Hij Hb Hw Hj. destruct (W i b Hb Hw) as (b1 & Hb1 & Hw1).
    eapply Qle_trans; [apply M23|].
    apply (B5 i j b1); auto. now apply (earlierAt_same _ _ _ _ A1).
  - intros K i b Hb Hw. destruct (W i b Hb Hw) as (b1 & Hb1 & Hw1).
    eapply Qle_trans; [apply M23|]. now apply (B4 K i b1).
Qed.

(** ** The window on dates without a time of day *)

Lemma mathRound_inject_Z k : mathRound (inject_Z k) = k.
Proof.
  unfold mathRound.
  pose proof (Qfloor_le (inject_Z k + (1 # 2))) as Hlo.
  pose proof (Qlt_floor (inject_Z k + (1 # 2))) as Hhi.
  set (f := Qfloor (inject_Z k + (1 # 2))) in *.
  assert (H1 : inject_Z f < inject_Z (k + 1)).
  { rewrite inject_Z_plus. eapply Qle_lt_trans; [apply Hlo|].
    change (inject_Z 1) with 1. lra. }
  assert (H2 : inject_Z k < inject_Z (f + 1)).
  { eapply Qle_lt_trans; [|apply Hhi]. lra. }
  rewrite <- Zlt_Qlt in H1, H2. lia.
Qed.

(** Between two midnights the engine's day difference is the difference
    of the calendar days. *)
Lemma getDaysDifference_midnight a b :
  (getTime a mod msPerDay = 0)%Z -> (getTime b mod msPerDay = 0)%Z ->
  getDaysDifference a b = (dayNumber b - dayNumber a)%Z.
Proof.
  intros Ha Hb. unfold getDaysDifference, dayNumber.
  assert (Ea : getTime a = (msPerDay * (getTime a / msPerDay))%Z).
  { rewrite (Z.div_mod (getTime a) msPerDay) at 1 by discriminate. lia. }
  assert (Eb : getTime b = (msPerDay * (getTime b / msPerDay))%Z).
  { rewrite (Z.div_mod (getTime b) msPerDay) at 1 by discriminate. lia. }
  set (da := (getTime a / msPerDay)%Z) in *. set (db := (getTime b / msPerDay)%Z) in *.
  rewrite <- (mathRound_inject_Z (db - da)). apply mathRound_Proper.
  rewrite Eb, Ea.
  replace (msPerDay * db - msPerDay * da)%Z with ((db - da) * msPerDay)%Z by lia.
  rewrite inject_Z_mult. field. discriminate.
Qed.

(** So for dates without a time of day the window of rule 2 is: dated
    strictly after the disposal, at most 30 calendar days after. *)
Lemma inWindow_midnight disposal b :
  (getTime (t_date disposal) mod msPerDay = 0)%Z ->
  (getTime (t_date b) mod msPerDay = 0)%Z ->
  inWindow disposal b = true
  <-> (0 < dayNumber (t_date b) - dayNumber (t_date disposal) <= 30)%Z.
Proof.
  intros Hd Hb. unfold inWindow. rewrite (getDaysDifference_midnight _ _ Hd Hb).
  rewrite andb_true_iff, Z.ltb_lt, Z.leb_le. reflexivity.
Qed.

(** ** What the normalizer guarantees to the matcher *)

Lemma newDate_midnight y m d : (getTime (newDate y m d) mod msPerDay = 0)%Z.
Proof.
  unfold newDate. cbn [getTime]. apply Z.mod_mul. discriminate.
Qed.

Lemma filter_sorted {A} (R : A -> A -> Prop) (f : A -> bool) l :
  StronglySorted R l -> StronglySorted R (filter f l).
Proof.
  induction 1 as [|x l Hs IH Hx]; simpl; [constructor|].
  destruct (f x); [|exact IH]. constructor; [exact IH|].
  rewrite Forall_forall in *. intros y Hy. apply Hx. now apply filter_In in Hy.
Qed.

Lemma sorted_snoc {A} (R : A -> A -> Prop) l x :
  StronglySorted R l -> Forall (fun y => R y x) l -> StronglySorted R (l ++ [x]).
Proof.
  induction 1 as [|y l Hs IH Hy]; intros Hx; simpl.
  - repeat constructor.
  - inversion Hx; subst. constructor; [now apply IH|].
    apply Forall_app. split; [exact Hy | now repeat constructor].
Qed.

Lemma sorted_app_inv {A} (R : A -> A -> Prop) l1 x l2 :
  StronglySorted R (l1 ++ x :: l2) ->
  Forall (fun y => R y x) l1 /\ StronglySorted R (l1 ++ [x] ++ l2).
Proof.
  intros H. split; [|exact H].
  induction l1 as [|y l1 IH]; simpl in *; [constructor|].
  inversion H as [|? ? Hs Hall]; subst. constructor; [|now apply IH].
  rewrite Forall_forall in Hall. apply Hall, in_elt.
Qed.

(** Grouping by symbol keeps the order of the stream within each group. *)
Lemma bySymbol_sorted (R : Transaction -> Transaction -> Prop) txs done :
  StronglySorted R (done ++ txs) ->
  forall o,
    Forall (fun e => StronglySorted R (snd e) /\ incl (snd e) done) o ->
    Forall (fun e => StronglySorted R (snd e))
           (fold_left bySymbolBody txs o).
Proof.
  revert done. induction txs as [|t txs IH]; intros done Hs o Ho; simpl.
  - eapply Forall_impl; [|exact Ho]. intros e He. apply He.
  - apply (IH (done ++ [t])).
    + now rewrite <- app_assoc.
    + destruct (sorted_app_inv R done t txs Hs) as [Hbefore _].
      unfold bySymbolBody. apply Forall_objSet.
      * simpl. destruct (objGet o (t_symbol t)) as [ts|] eqn:E.
        -- apply objGet_Some_In in E. rewrite Forall_forall in Ho.
           destruct (Ho _ E) as [Hts Hin]. simpl in Hts, Hin. split.
           ++ apply sorted_snoc; [exact Hts|].
              rewrite Forall_forall in *. intros y Hy. apply Hbefore, Hin, Hy.
           ++ intros y Hy. apply in_app_or in Hy. apply in_or_app.
              destruct Hy as [Hy|Hy]; [left; now apply Hin | now right].
        -- split; [repeat constructor|].
           intros y [<-|[]]. apply in_or_app. right. now left.
      * eapply Forall_impl; [|exact Ho]. intros e [He1 He2]. split; [exact He1|].
        intros y Hy. apply in_or_app. left. now apply He2.
Qed.

Section StreamFacts.
Context {host : Host}.

(** X6. A date that one of the engine's own patterns recognises has no
    time of day; a time of day can only come from a [Date] object or from the
    host's reading of a free-form text. *)
Lemma parseDate_midnight raw d :
  fst (parseDate raw) = Some d ->
  raw = RawDateObject d \/
  (exists text, raw = RawText text /\
                dateParseFallback (string_of_list_ascii
                                     (trimChars (list_ascii_of_string text))) = Some d) \/
  (getTime d mod msPerDay = 0)%Z.
Proof.
  destruct raw as [d0| |text]; simpl.
  - intros [= ->]. now left.
  - discriminate.
  - destruct (String.eqb text ""); [discriminate|].
    set (str := trimChars (list_ascii_of_string text)).
    destruct (atEnd str); [discriminate|].
    destruct (matchIso str) as [[[y m] dd]|] eqn:E1.
    { simpl. intros [= <-]. right. right. apply newDate_midnight. }
    destruct (matchSlash str) as [[[a b] y]|].
    { destruct (12 <? parseInt a)%Z; [|destruct (12 <? parseInt b)%Z];
        simpl; intros [= <-]; right; right; apply newDate_midnight. }
    destruct (matchDash str) as [[[dd m] y]|].
    { simpl. intros [= <-]. right. right. apply newDate_midnight. }
    replace (if includesSpace str
             then obind None (fun _ => matchIso (untilSpace str)) else None)
      with (@None (list ascii * list ascii * list ascii))
      by (now destruct (includesSpace str)).
    destruct (dateParseFallback (string_of_list_ascii str)) as [parsed|] eqn:E4;
      simpl; [|discriminate].
    intros [= <-]. right. left. exists text. now split.
Qed.

(** The matching stream is in date order. *)
Lemma normalizeTransactions_sorted clock raws :
  StronglySorted (fun a b => byDate a b = true)
                 (fst (normalizeTransactions clock raws)).
Proof.
  unfold normalizeTransactions. simpl.
  apply stableSort_sorted; unfold byDate, dateLe; intros; lia.
Qed.

(** X12. The [buys] array of every symbol is in date order: array order
    is chronological order. *)
Lemma buys_chronological clock raws symbol ts :
  In (symbol, ts) (fold_left bySymbolBody (fst (normalizeTransactions clock raws)) []) ->
  StronglySorted (fun a b => byDate a b = true) (filter isBuy ts).
Proof.
  intros H. apply filter_sorted.
  pose proof (bySymbol_sorted (fun a b => byDate a b = true) _ []
                (normalizeTransactions_sorted clock raws) [] (Forall_nil _)) as G.
  rewrite Forall_forall in G. exact (G _ H).
Qed.

End StreamFacts.

(** ** The thirty-day window on timestamps with a time of day *)

(** C1 on the code.  The window of rule 2 is measured on elapsed time
    rounded to whole days, not on calendar dates.  A repurchase on the
    calendar day after the sale, five hours later, counts as zero days after
    and is not matched at all: the sale is reported unmatched.  A repurchase
    on the thirty-first calendar day after the sale, thirty days and ten
    hours later, counts as thirty days after and is matched by rule 2. *)
Theorem bnb_window_counts_rounded_days :
  (formatDateLocal (dateTime 2024 5 1 20) = mkDateStr 2024 5 1 /\
   formatDateLocal (dateTime 2024 5 2 1) = mkDateStr 2024 5 2 /\
   getDaysDifference (dateTime 2024 5 1 20) (dateTime 2024 5 2 1) = 0%Z /\
   rulesOf (calculateCGT (host := plainHost) clock0 scenarioNextMorning) = [[]] /\
   map err_unmatchedQuantity
       (rep_errors (calculateCGT (host := plainHost) clock0 scenarioNextMorning))
   = [50]) /\
  (formatDateLocal (dateTime 2024 6 1 6) = mkDateStr 2024 6 1 /\
   (dayNumber (dateTime 2024 6 1 6) - dayNumber (dateTime 2024 5 1 20) = 31)%Z /\
   getDaysDifference (dateTime 2024 5 1 20) (dateTime 2024 6 1 6) = 30%Z /\
   rulesOf (calculateCGT (host := plainHost) clock0 scenarioDay31)
   = [[BED_AND_BREAKFAST]]).
Proof.
  vm_compute. repeat split; reflexivity.
Qed.

(** ** Rounding to pence, and the window of rule 2 in elapsed time *)

Lemma mathRound_spec (x : Q) (n : Z) :
  mathRound x = n <-> inject_Z n - (1 # 2) <= x /\ x < inject_Z n + (1 # 2).
Proof.
  unfold mathRound.
  pose proof (Qfloor_le (x + (1 # 2))) as Hlo.
  pose proof (Qlt_floor (x + (1 # 2))) as Hhi.
  set (f := Qfloor (x + (1 # 2))) in *.
  rewrite inject_Z_plus in Hhi. change (inject_Z 1) with 1 in Hhi.
  split.
  - intros <-. split; lra.
  - intros [H1 H2].
    assert (A : inject_Z f < inject_Z (n + 1)).
    { rewrite inject_Z_plus. change (inject_Z 1) with 1. lra. }
    assert (B : inject_Z n < inject_Z (f + 1)).
    { rewrite inject_Z_plus. change (inject_Z 1) with 1. lra. }
    rewrite <- Zlt_Qlt in A, B. lia.
Qed.

Lemma round2dp_bounds (x : Q) :
  x - (1 # 200) < round2dp x /\ round2dp x <= x + (1 # 200).
Proof.
  unfold round2dp.
  destruct (proj1 (mathRound_spec (x * 100) _) eq_refl) as [H1 H2].
  set (f := inject_Z (mathRound (x * 100))) in *.
  split.
  - apply Qlt_shift_div_l; lra.
  - apply Qle_shift_div_r; lra.
Qed.

Lemma getDaysDifference_spec (a b : Date) (n : Z) :
  getDaysDifference a b = n <->
  ((2 * n - 1) * msPerDay <= 2 * (getTime b - getTime a) < (2 * n + 1) * msPerDay)%Z.
Proof.
  unfold getDaysDifference. cbv zeta. rewrite mathRound_spec.
  set (k := (getTime b - getTime a)%Z).
  assert (D : inject_Z msPerDay == 86400000) by reflexivity.
  assert (E : inject_Z k / inject_Z msPerDay * 86400000 == inject_Z k).
  { rewrite D. field. }
  set (x := inject_Z k / inject_Z msPerDay) in *.
  change msPerDay with 86400000%Z.
  rewrite (Zle_Qle ((2 * n - 1) * 86400000)), (Zlt_Qlt (2 * k)).
  unfold Z.sub.
  rewrite !inject_Z_mult, !inject_Z_plus, !inject_Z_mult.
  change (inject_Z 2) with 2. change (inject_Z 1) with 1.
  change (inject_Z (- (1))) with (-1).
  change (inject_Z 86400000) with 86400000.
  split; intros [H1 H2]; split; lra.
Qed.

Lemma isBnbCandidate_elapsed (disposal b : Transaction) :
  isBnbCandidate disposal b = true <->
  (12 * hour <= getTime (t_date b) - getTime (t_date disposal)
   < 30 * msPerDay + 12 * hour)%Z /\
  0 < t_remainingQty b.
Proof.
  unfold isBnbCandidate. cbv zeta.
  rewrite !andb_true_iff, Z.ltb_lt, Z.leb_le, Qltb_lt.
  pose proof (proj1 (getDaysDifference_spec (t_date disposal) (t_date b) _) eq_refl) as H.
  set (n := getDaysDifference (t_date disposal) (t_date b)) in *.
  change msPerDay with 86400000%Z in *. change hour with 3600000%Z.
  split; intros [A B]; (split; [lia | exact B]).
Qed.

(** X9. The window of rule 2 in elapsed time: an acquisition is a
    candidate exactly when something is left of it and it comes at least
    12 hours and less than 30 days and 12 hours after the disposal,
    whatever the calendar dates are.  Between two dates without a time of
    day this is: 1 to 30 calendar days after. *)
Theorem bnb_window_in_elapsed_time (disposal b : Transaction) :
  (isBnbCandidate disposal b = true <->
   (12 * hour <= getTime (t_date b) - getTime (t_date disposal)
    < 30 * msPerDay + 12 * hour)%Z /\
   0 < t_remainingQty b) /\
  ((getTime (t_date disposal) mod msPerDay = 0)%Z ->
   (getTime (t_date b) mod msPerDay = 0)%Z ->
   (isBnbCandidate disposal b = true <->
    (0 < dayNumber (t_date b) - dayNumber (t_date disposal) <= 30)%Z /\
    0 < t_remainingQty b)).
Proof.
  split; [apply isBnbCandidate_elapsed|].
  intros Hd Hb. unfold isBnbCandidate. cbv zeta.
  rewrite (getDaysDifference_midnight _ _ Hd Hb).
  rewrite !andb_true_iff, Z.ltb_lt, Z.leb_le, Qltb_lt. tauto.
Qed.

(** ** A lot matched in parts *)

Lemma round2dp_split (a b : Q) :
  withinAPenny (round2dp a + round2dp b) (round2dp (a + b)).
Proof.
  destruct (round2dp_bounds a) as [A1 A2].
  destruct (round2dp_bounds b) as [B1 B2].
  destruct (round2dp_bounds (a + b)) as [C1 C2].
  destruct (round2dp_is2dp a) as [za Ha].
  destruct (round2dp_is2dp b) as [zb Hb].
  destruct (round2dp_is2dp (a + b)) as [zc Hc].
  unfold withinAPenny.
  set (ra := round2dp a) in *. set (rb := round2dp b) in *.
  set (rc := round2dp (a + b)) in *.
  set (k := (za + zb - zc)%Z).
  assert (E : ra + rb - rc == inject_Z k / 100).
  { rewrite Ha, Hb, Hc. subst k. unfold Z.sub.
    rewrite !inject_Z_plus, inject_Z_opp. field. }
  assert (F : inject_Z k / 100 * 100 == inject_Z k) by field.
  assert (K1 : inject_Z (-2) < inject_Z k).
  { change (inject_Z (-2)) with (-2). lra. }
  assert (K2 : inject_Z k < inject_Z 2).
  { change (inject_Z 2) with 2. lra. }
  rewrite E.
  rewrite <- Zlt_Qlt in K1, K2.
  assert (Hk : k = 0%Z \/ k = 1%Z \/ k = (-1)%Z) by lia.
  destruct Hk as [-> | [-> | ->]]; [left | right; left | right; right]; reflexivity.
Qed.

(** X10. Matching a lot in two parts costs what matching it at once costs, up
    to one penny of rounding; likewise for the proceeds of a sale. *)
Theorem split_lot_within_a_penny (t : Transaction) (q1 q2 : Q) :
  0 < t_quantity t -> ~ t_exchangeRate t == 0 ->
  withinAPenny (calculateCost t q1 + calculateCost t q2) (calculateCost t (q1 + q2)) /\
  withinAPenny (calculateProceeds t q1 + calculateProceeds t q2)
               (calculateProceeds t (q1 + q2)).
Proof.
  intros Hq Hr. unfold calculateCost, calculateProceeds. cbv zeta.
  split.
  - match goal with
    | |- withinAPenny (round2dp ?a + round2dp ?b) (round2dp ?c) =>
        assert (E : c == a + b) by (destruct (t_totalAmount t); field; split; lra);
        pose proof (round2dp_split a b) as S; unfold withinAPenny in *;
        now rewrite E
    end.
  - match goal with
    | |- withinAPenny (round2dp ?a + round2dp ?b) (round2dp ?c) =>
        assert (E : c == a + b) by (destruct (t_totalAmount t); field; split; lra);
        pose proof (round2dp_split a b) as S; unfold withinAPenny in *;
        now rewrite E
    end.
Qed.

Lemma split_lot_within_a_penny_witness :
  0 < t_quantity (txAt 0 "BUY" 2 (1 # 200)) /\
  ~ t_exchangeRate (txAt 0 "BUY" 2 (1 # 200)) == 0 /\
  calculateCost (txAt 0 "BUY" 2 (1 # 200)) 1 + calculateCost (txAt 0 "BUY" 2 (1 # 200)) 1
  == 2 # 100 /\
  calculateCost (txAt 0 "BUY" 2 (1 # 200)) (1 + 1) == 1 # 100 /\
  withinAPenny
    (calculateCost (txAt 0 "BUY" 2 (1 # 200)) 1 + calculateCost (txAt 0 "BUY" 2 (1 # 200)) 1)
    (calculateCost (txAt 0 "BUY" 2 (1 # 200)) (1 + 1)).
Proof.
  assert (H1 : 0 < t_quantity (txAt 0 "BUY" 2 (1 # 200))) by reflexivity.
  assert (H2 : ~ t_exchangeRate (txAt 0 "BUY" 2 (1 # 200)) == 0) by discriminate.
  split; [exact H1|]. split; [exact H2|]. split; [reflexivity|]. split; [reflexivity|].
  exact (proj1 (split_lot_within_a_penny (txAt 0 "BUY" 2 (1 # 200)) 1 1 H1 H2)).
Defined.

(** ** What the normalizer and the matcher ignore *)

Lemma Qabs_orNum_opp q : Qabs (orNum (- q) 0) = Qabs (orNum q 0).
Proof.
  unfold orNum. destruct q as [n d]. unfold Qeq_bool, Qopp. cbn [Qnum Qden].
  rewrite !Z.mul_1_r. change (0 * Z.pos d)%Z with 0%Z.
  destruct n; reflexivity.
Qed.

Section QuantitySign.
Context {host : Host}.

Lemma normalizeOne_flip clock t i :
  normalizeOne clock (flipQuantity t) i = normalizeOne clock t i.
Proof.
  unfold flipQuantity. destruct (raw_quantity t) as [| |q|s] eqn:E; try reflexivity.
  unfold normalizeOne. cbn [raw_date raw_type raw_symbol raw_assetName raw_quantity
                            raw_pricePerUnit raw_totalAmount raw_fees raw_currency
                            raw_exchangeRate raw_broker].
  rewrite E. cbn [parseFloat orDefault]. now rewrite Qabs_orNum_opp.
Qed.

Lemma mapi_from_flip clock raws i :
  mapi_from (normalizeOne clock) i (map flipQuantity raws)
  = mapi_from (normalizeOne clock) i raws.
Proof.
  revert i. induction raws as [|r raws IH]; intros i; [reflexivity|].
  cbn [map mapi_from]. now rewrite normalizeOne_flip, IH.
Qed.

(** X11. The sign of a quantity is ignored: records that enter a holding as a
    negative number give the same run, report and calculator, as the same
    records with positive quantities. *)
Theorem quantity_sign_is_ignored (clock : Clock) (raws : list RawTransaction)
        (calc : Calculator) :
  calculate clock (map flipQuantity raws) calc = calculate clock raws calc.
Proof.
  unfold calculate, normalizeTransactions, mapi. now rewrite mapi_from_flip.
Qed.

End QuantitySign.

Lemma filter_filter_keep {A} (p q : A -> bool) l :
  (forall x, p x = true -> q x = true) ->
  filter p (filter q l) = filter p l.
Proof.
  intros H. induction l as [|x l IH]; [reflexivity|]. simpl.
  destruct (q x) eqn:Eq; simpl.
  - destruct (p x); now rewrite IH.
  - destruct (p x) eqn:Ep; [|exact IH].
    apply H in Ep. congruence.
Qed.

(** X14. The matcher reads purchases and sales only: transactions of any other
    type (a type that is not exactly BUY or SELL once in upper case) change
    nothing in what [processSymbol] does, and raise no error. *)
Theorem other_types_are_ignored (symbol : string) (txs : list Transaction)
        (calc : Calculator) :
  processSymbol symbol txs calc = processSymbol symbol (filter isBuyOrSell txs) calc.
Proof.
  unfold processSymbol.
  rewrite !filter_filter_keep; [reflexivity| |];
    intros t Ht; unfold isBuyOrSell; rewrite Ht; auto using orb_true_r.
Qed.

(** ** Conservation of shares *)

Lemma sumQ_app l1 l2 : sumQ (l1 ++ l2) == sumQ l1 + sumQ l2.
Proof.
  unfold sumQ. rewrite fold_left_app. rewrite (sumQ_from l2 (fold_left Qplus l1 0)).
  reflexivity.
Qed.

Lemma remainingTotal_setNth buys i b q :
  nth_error buys i = Some b ->
  remainingTotal (setNth buys i (withRemainingQty b q))
  == remainingTotal buys - t_remainingQty b + q.
Proof.
  unfold remainingTotal. revert i. induction buys as [|x buys IH]; intros [|i] H;
    simpl in H; try discriminate.
  - injection H as ->. simpl. rewrite !sumQ_cons. simpl. ring.
  - simpl. rewrite !sumQ_cons, (IH _ H). ring.
Qed.

Lemma NotOverdrawn_setNth buys i b q :
  NotOverdrawn buys -> 0 <= q -> NotOverdrawn (setNth buys i (withRemainingQty b q)).
Proof. intros H Hq. now apply Forall_setNth. Qed.

Lemma NotOverdrawn_nth buys i b :
  NotOverdrawn buys -> nth_error buys i = Some b -> 0 <= t_remainingQty b.
Proof.
  intros H Hi. unfold NotOverdrawn in H. rewrite Forall_forall in H.
  apply H. eapply nth_error_In, Hi.
Qed.

(** A step of either matching loop moves shares from the array to the
    details. *)
Lemma sameDayBody_shares pps i acc :
  NotOverdrawn (acc_buys acc) ->
  sharesInHand (sameDayBody pps i acc) == sharesInHand acc /\
  NotOverdrawn (acc_buys (sameDayBody pps i acc)).
Proof.
  intros Hn. unfold sameDayBody.
  destruct (nth_error (acc_buys acc) i) as [buy|] eqn:E; [|now split].
  unfold sharesInHand. cbn [acc_buys acc_matchDetails].
  pose proof (mathMin_le_r (acc_remainingQty acc) (t_remainingQty buy)) as Hm.
  split.
  - rewrite (remainingTotal_setNth _ _ _ _ E), map_app, sumQ_app. cbn [map md_quantity].
    rewrite sumQ_cons. change (sumQ []) with 0. cbn [md_quantity]. ring.
  - apply NotOverdrawn_setNth; [exact Hn | lra].
Qed.

Lemma bnbBody_shares pool disposal pps i acc :
  NotOverdrawn (acc_buys acc) ->
  sharesInHand (bnbBody pool disposal pps i acc) == sharesInHand acc /\
  NotOverdrawn (acc_buys (bnbBody pool disposal pps i acc)).
Proof.
  intros Hn. unfold bnbBody.
  destruct (nth_error (acc_buys acc) i) as [buy|] eqn:E; [|now split].
  unfold sharesInHand. cbn [acc_buys acc_matchDetails].
  pose proof (mathMin_le_r (acc_remainingQty acc) (t_remainingQty buy)) as Hm.
  split.
  - rewrite (remainingTotal_setNth _ _ _ _ E), map_app, sumQ_app. cbn [map md_quantity].
    rewrite sumQ_cons. change (sumQ []) with 0. cbn [md_quantity]. ring.
  - apply NotOverdrawn_setNth; [exact Hn | lra].
Qed.

Lemma loop_shares body cands acc :
  (forall i a, NotOverdrawn (acc_buys a) ->
               sharesInHand (body i a) == sharesInHand a /\
               NotOverdrawn (acc_buys (body i a))) ->
  NotOverdrawn (acc_buys acc) ->
  sharesInHand (forEachUntilMatched body cands acc) == sharesInHand acc /\
  NotOverdrawn (acc_buys (forEachUntilMatched body cands acc)).
Proof.
  intros Hbody Hn.
  apply (forEachUntilMatched_inv
           (fun a => sharesInHand a == sharesInHand acc /\ NotOverdrawn (acc_buys a))).
  - intros i a [Ha Hna] _. destruct (Hbody i a Hna) as [H1 H2].
    split; [now rewrite H1 | exact H2].
  - split; [reflexivity | exact Hn].
Qed.

Lemma rollIn_shares cands pool buys :
  NotOverdrawn buys ->
  let st := fold_left rollInBody cands (pool, buys) in
  p_quantity (fst st) + remainingTotal (snd st) == p_quantity pool + remainingTotal buys /\
  NotOverdrawn (snd st).
Proof.
  revert pool buys. induction cands as [|i cands IH]; intros pool buys Hn;
    [now split|].
  cbn [fold_left]. cbv zeta.
  assert (S1 : p_quantity (fst (rollInBody (pool, buys) i))
               + remainingTotal (snd (rollInBody (pool, buys) i))
               == p_quantity pool + remainingTotal buys /\
               NotOverdrawn (snd (rollInBody (pool, buys) i))).
  { unfold rollInBody. destruct (nth_error buys i) as [buy|] eqn:E; [|now split].
    cbn [fst snd p_quantity]. split.
    - rewrite (remainingTotal_setNth _ _ _ _ E). ring.
    - apply NotOverdrawn_setNth; [exact Hn | apply Qle_refl]. }
  destruct (rollInBody (pool, buys) i) as [pool' buys']. cbn [fst snd] in S1.
  destruct S1 as [S1 S2]. destruct (IH pool' buys' S2) as [I1 I2]. cbv zeta in I1, I2.
  split; [now rewrite I1, S1 | exact I2].
Qed.

Lemma drawFromPool_shares pps pool acc :
  let r := drawFromPool pps pool acc in
  p_quantity (fst r) + sharesInHand (snd r) == p_quantity pool + sharesInHand acc /\
  acc_buys (snd r) = acc_buys acc.
Proof.
  cbv zeta. unfold drawFromPool.
  destruct (Qltb 0 (p_quantity pool)); [|now split].
  cbn [fst snd]. unfold sharesInHand. cbn [acc_buys acc_matchDetails p_quantity].
  split; [|reflexivity].
  rewrite map_app, sumQ_app. cbn [map md_quantity]. rewrite sumQ_cons.
  change (sumQ []) with 0. ring.
Qed.

(** One disposal: the shares of the pool and of the array that are gone
    are the shares its details match. *)
Lemma processDisposal_shares symbol disposal buys pool :
  NotOverdrawn buys ->
  let out := processDisposal symbol disposal buys pool in
  p_quantity (out_pool out) + remainingTotal (out_buys out)
  + matchedQuantity (out_disposal out)
  == p_quantity pool + remainingTotal buys /\
  NotOverdrawn (out_buys out).
Proof.
  intros Hn. cbv zeta.
  pose proof (processDisposal_fields symbol disposal buys pool) as F.
  cbv zeta in F. destruct F as (-> & -> & Hmd & _).
  unfold matchedQuantity. rewrite Hmd. unfold matchedAcc.
  set (pps := round2dp _).
  assert (S1 : sharesInHand (sameDayStage disposal pps buys) == remainingTotal buys /\
               NotOverdrawn (acc_buys (sameDayStage disposal pps buys))).
  { unfold sameDayStage.
    destruct (loop_shares (sameDayBody pps)
                (filterIndices (isSameDayCandidate disposal) buys)
                (mkAcc (t_quantity disposal) 0 [] buys)) as [H1 H2].
    - intros. now apply sameDayBody_shares.
    - exact Hn.
    - split; [|exact H2]. rewrite H1. unfold sharesInHand, sumQ. simpl. ring. }
  set (acc1 := sameDayStage disposal pps buys) in *.
  assert (S2 : sharesInHand (bnbStage pool disposal pps acc1) == remainingTotal buys /\
               NotOverdrawn (acc_buys (bnbStage pool disposal pps acc1))).
  { unfold bnbStage. destruct (Qltb 0 (acc_remainingQty acc1)); [|exact S1].
    destruct (loop_shares (bnbBody pool disposal pps)
                (stableSort (byTimeAt (acc_buys acc1))
                   (filterIndices (isBnbCandidate disposal) (acc_buys acc1)))
                acc1) as [H1 H2].
    - intros. now apply bnbBody_shares.
    - apply S1.
    - split; [|exact H2]. rewrite H1. apply S1. }
  set (acc2 := bnbStage pool disposal pps acc1) in *.
  destruct S2 as [S2 N2].
  unfold poolStage. destruct (Qltb 0 (acc_remainingQty acc2)).
  - destruct (rollIn_shares (filterIndices (isEarlierBuy disposal) (acc_buys acc2))
                pool (acc_buys acc2) N2) as [R1 R2]. cbv zeta in R1, R2.
    destruct (fold_left rollInBody _ _) as [pool1 buys1]. cbn [fst snd] in R1, R2.
    set (acc2' := mkAcc (acc_remainingQty acc2) (acc_totalCost acc2)
                        (acc_matchDetails acc2) buys1).
    destruct (drawFromPool_shares pps pool1 acc2') as [D1 D2]. cbv zeta in D1, D2.
    split.
    + unfold sharesInHand in D1, S2. subst acc2'.
      cbn [acc_buys acc_matchDetails] in D1. lra.
    + now rewrite D2.
  - cbn [fst snd]. split; [|exact N2]. unfold sharesInHand in S2. rewrite <- S2. ring.
Qed.

Lemma sells_shares symbol sells st :
  NotOverdrawn (ss_buys st) ->
  let st' := fold_left (sellBody symbol) sells st in
  exists ds,
    ss_disposals st' = ss_disposals st ++ ds /\
    Forall (fun d => d_symbol d = symbol) ds /\
    p_quantity (ss_pool st') + remainingTotal (ss_buys st') + sumQ (map matchedQuantity ds)
    == p_quantity (ss_pool st) + remainingTotal (ss_buys st) /\
    NotOverdrawn (ss_buys st').
Proof.
  revert st. induction sells as [|d sells IH]; intros st Hn; cbv zeta.
  - exists []. cbn [fold_left map]. rewrite app_nil_r. repeat split; auto.
    change (sumQ []) with 0. ring.
  - cbn [fold_left].
    destruct (processDisposal_shares symbol d (ss_buys st) (ss_pool st) Hn) as [P1 P2].
    cbv zeta in P1, P2.
    destruct (IH (sellBody symbol st d)) as (ds & E & Hs & B & N); [exact P2|].
    cbv zeta in E, B, N.
    exists (out_disposal (processDisposal symbol d (ss_buys st) (ss_pool st)) :: ds).
    repeat split.
    + rewrite E. unfold sellBody. cbn [ss_disposals]. now rewrite <- app_assoc.
    + constructor; [|exact Hs].
      pose proof (processDisposal_fields symbol d (ss_buys st) (ss_pool st)) as F.
      cbv zeta in F. now destruct F as (_ & _ & _ & _ & _ & F & _).
    + cbn [map]. rewrite sumQ_cons.
      change (ss_pool (sellBody symbol st d))
        with (out_pool (processDisposal symbol d (ss_buys st) (ss_pool st))) in B.
      change (ss_buys (sellBody symbol st d))
        with (out_buys (processDisposal symbol d (ss_buys st) (ss_pool st))) in B.
      lra.
    + exact N.
Qed.

(** The last loop of [processSymbol] puts what is left of the array into
    the pool. *)
Lemma finalRollIn_shares bs pool history :
  NotOverdrawn bs ->
  p_quantity (fst (fold_left finalRollInBody bs (pool, history)))
  == p_quantity pool + remainingTotal bs.
Proof.
  intros Hn. revert pool history. induction Hn as [|b bs Hb Hn IH]; intros pool history.
  - simpl. unfold remainingTotal, sumQ. simpl. ring.
  - cbn [fold_left]. unfold finalRollInBody at 2. unfold remainingTotal. cbn [map].
    rewrite sumQ_cons. fold (remainingTotal bs).
    destruct (Qltb 0 (t_remainingQty b)) eqn:E.
    + rewrite IH. cbn [p_quantity]. ring.
    + apply Qltb_ge in E. rewrite IH. assert (t_remainingQty b == 0) by lra. lra.
Qed.

Lemma poolOf_processSymbol_same symbol txs calc :
  forall history,
    poolOf (processSymbol symbol txs calc) symbol
    = fst (fold_left finalRollInBody
             (ss_buys (fold_left (sellBody symbol) (filter isSell txs)
                         (mkSymbolState (poolOf calc symbol) (filter isBuy txs)
                                        (errors calc) (disposals calc) (console calc))))
             (ss_pool (fold_left (sellBody symbol) (filter isSell txs)
                         (mkSymbolState (poolOf calc symbol) (filter isBuy txs)
                                        (errors calc) (disposals calc) (console calc))),
              history)).
Proof.
  intros history.
  destruct (processSymbol_pools symbol txs calc) as (pool & E & Hp).
  unfold poolOf at 1. rewrite E, objGet_objSet, String.eqb_refl.
  exact (Hp history).
Qed.

Lemma poolOf_processSymbol_other symbol txs calc k :
  k <> symbol -> poolOf (processSymbol symbol txs calc) k = poolOf calc k.
Proof.
  intros Hk.
  destruct (processSymbol_pools symbol txs calc) as (pool & E & _).
  unfold poolOf. rewrite E, objGet_objSet.
  replace (String.eqb symbol k) with false; [reflexivity|].
  symmetry. apply String.eqb_neq. congruence.
Qed.

Lemma processSymbol_acquisitions symbol txs calc :
  acquisitions (processSymbol symbol txs calc)
  = acquisitions calc ++ map (acquisitionOf symbol) (filter isBuy txs).
Proof.
  unfold processSymbol.
  now destruct (fold_left finalRollInBody _ _) as [pool history].
Qed.

(** One symbol: the shares of its pool afterwards, plus the shares its new
    disposals match, are the shares of its pool before plus what its
    acquisitions brought. *)
Lemma processSymbol_shares symbol txs calc :
  NotOverdrawn (filter isBuy txs) ->
  exists ds,
    disposals (processSymbol symbol txs calc) = disposals calc ++ ds /\
    Forall (fun d => d_symbol d = symbol) ds /\
    p_quantity (poolOf (processSymbol symbol txs calc) symbol)
    + sumQ (map matchedQuantity ds)
    == p_quantity (poolOf calc symbol) + remainingTotal (filter isBuy txs).
Proof.
  intros Hn.
  set (st0 := mkSymbolState (poolOf calc symbol) (filter isBuy txs)
                            (errors calc) (disposals calc) (console calc)).
  destruct (sells_shares symbol (filter isSell txs) st0 Hn) as (ds & E & Hs & B & N).
  cbv zeta in E, B, N. exists ds. split; [|split; [exact Hs|]].
  - rewrite processSymbol_disposals. exact E.
  - rewrite (poolOf_processSymbol_same symbol txs calc []). fold st0.
    rewrite (finalRollIn_shares _ _ _ N). subst st0. cbn [ss_pool ss_buys] in B. lra.
Qed.

Lemma filter_all {A} (f : A -> bool) l :
  Forall (fun x => f x = true) l -> filter f l = l.
Proof.
  induction 1 as [|x l Hx Hl IH]; simpl; [reflexivity|]. now rewrite Hx, IH.
Qed.

Lemma filter_none {A} (f : A -> bool) l :
  Forall (fun x => f x = false) l -> filter f l = [].
Proof.
  induction 1 as [|x l Hx Hl IH]; simpl; [reflexivity|]. now rewrite Hx.
Qed.

Lemma acquired_quantity symbol l :
  Forall (fun t => t_remainingQty t = t_quantity t) l ->
  remainingTotal l == sumQ (map a_quantity (map (acquisitionOf symbol) l)).
Proof.
  unfold remainingTotal. induction 1 as [|t l Ht Hl IH]; [reflexivity|].
  cbn [map]. rewrite !sumQ_cons, IH, Ht. reflexivity.
Qed.

Lemma processSymbol_balance symbol txs calc :
  Forall (fun t => t_remainingQty t = t_quantity t /\ 0 < t_quantity t) txs ->
  SharesBalance calc -> SharesBalance (processSymbol symbol txs calc).
Proof.
  intros Htxs Hc s.
  assert (Hb : Forall (fun t => t_remainingQty t = t_quantity t /\ 0 < t_quantity t)
                      (filter isBuy txs)).
  { rewrite Forall_forall in *. intros t Ht. apply Htxs. now apply filter_In in Ht. }
  assert (Hn : NotOverdrawn (filter isBuy txs)).
  { unfold NotOverdrawn. eapply Forall_impl; [|exact Hb]. cbv beta.
    intros t [Ht Hq]. rewrite Ht. now apply Qlt_le_weak. }
  destruct (processSymbol_shares symbol txs calc Hn) as (ds & E & Hs & B).
  rewrite E, processSymbol_acquisitions.
  unfold disposalsOf, acquisitionsOf. rewrite !filter_app, !map_app, !sumQ_app.
  specialize (Hc s). unfold disposalsOf, acquisitionsOf in Hc.
  assert (Hq : remainingTotal (filter isBuy txs)
               == sumQ (map a_quantity (map (acquisitionOf symbol) (filter isBuy txs)))).
  { apply acquired_quantity. eapply Forall_impl; [|exact Hb]. now intros t [Ht _]. }
  destruct (String.eqb symbol s) eqn:Es.
  - apply String.eqb_eq in Es. subst s.
    rewrite (filter_all _ ds), (filter_all _ (map _ _)).
    + rewrite <- Hq. lra.
    + apply Forall_forall. intros a Ha. apply in_map_iff in Ha.
      destruct Ha as (t & <- & _). apply String.eqb_refl.
    + eapply Forall_impl; [|exact Hs]. intros d ->. apply String.eqb_refl.
  - assert (Hne : s <> symbol) by (apply String.eqb_neq in Es; congruence).
    rewrite (poolOf_processSymbol_other _ _ _ _ Hne).
    rewrite (filter_none _ ds), (filter_none _ (map _ _)).
    + change (sumQ (map matchedQuantity [])) with 0.
      change (sumQ (map a_quantity [])) with 0. lra.
    + apply Forall_forall. intros a Ha. apply in_map_iff in Ha.
      destruct Ha as (t & <- & _). exact Es.
    + eapply Forall_impl; [|exact Hs]. intros d ->. exact Es.
Qed.

Section SharesRun.
Context {host : Host}.

(** X20. Shares are conserved by a run.  For every symbol, the quantities of the
    acquisitions that the report lists are the quantities that the match
    details of its disposals account for, plus what the run leaves in the
    symbol's pool: matching and pooling neither lose a share nor invent
    one, and no share is matched twice. *)
Theorem shares_are_conserved (clock : Clock) (raws : list RawTransaction)
        (symbol : string) :
  let run := calculate clock raws newCalculator in
  sumQ (map a_quantity (acquisitionsOf symbol (rep_acquisitions (snd run))))
  == sumQ (map matchedQuantity (disposalsOf symbol (allDisposals (snd run))))
     + p_quantity (poolOf (fst run) symbol).
Proof.
  cbv zeta. unfold calculate.
  pose proof (normalized_remaining clock raws) as Hrem.
  pose proof (normalized_positive clock raws) as Hpos.
  destruct (normalizeTransactions clock raws) as [txs msgs]. cbn [fst snd] in *.
  set (P := fun t => t_remainingQty t = t_quantity t /\ 0 < t_quantity t).
  assert (HP : Forall P txs).
  { rewrite Forall_forall in *. intros t Ht. split; [now apply Hrem | now apply Hpos]. }
  pose proof (bySymbol_Forall P txs [] HP (Forall_nil _)) as Hgroups.
  set (c0 := mkCalculator _ _ _ _ _ _).
  assert (H0 : SharesBalance c0).
  { intros s. unfold poolOf, c0, sumQ. simpl. reflexivity. }
  clearbody c0.
  assert (G : SharesBalance
                (fold_left (fun c e => processSymbol (fst e) (snd e) c)
                           (fold_left bySymbolBody txs []) c0)).
  { revert c0 H0. induction Hgroups as [|[k ts] o Hts Ho IH]; intros c0 H0;
      [exact H0|].
    cbn [fold_left]. apply IH. now apply processSymbol_balance. }
  unfold generateReport. cbn [rep_acquisitions allDisposals].
  specialize (G symbol). rewrite <- G. ring.
Qed.

End SharesRun.

(** ** The yearly summaries deal the disposals out *)

Lemma sumQ_perm l l' : Permutation l l' -> sumQ l == sumQ l'.
Proof.
  induction 1 as [|x l l' H IH|x y l|l1 l2 l3 H1 IH1 H2 IH2].
  - reflexivity.
  - now rewrite !sumQ_cons, IH.
  - rewrite !sumQ_cons. ring.
  - now rewrite IH1.
Qed.

Lemma sumQ_concat ls : sumQ (List.concat ls) == sumQ (map sumQ ls).
Proof.
  induction ls as [|l ls IH]; [reflexivity|].
  cbn [List.concat map]. now rewrite sumQ_app, sumQ_cons, IH.
Qed.

Lemma concat_perm {A} (l l' : list (list A)) :
  Permutation l l' -> Permutation (List.concat l) (List.concat l').
Proof.
  induction 1 as [|x l l' H IH|x y l|l1 l2 l3 H1 IH1 H2 IH2]; cbn [List.concat].
  - apply perm_nil.
  - now apply Permutation_app_head.
  - rewrite !app_assoc. apply Permutation_app_tail, Permutation_app_comm.
  - now apply perm_trans with (List.concat l2).
Qed.

Lemma concat_nils {A B} (ks : list A) : List.concat (map (fun _ => @nil B) ks) = [].
Proof. induction ks; simpl; auto. Qed.

(** Filtering a list by each of a set of distinct labels that covers it
    deals every element out once. *)
Lemma filters_partition {A} (label : A -> string) (ks : list string) (l : list A) :
  NoDup ks -> Forall (fun x => In (label x) ks) l ->
  Permutation (List.concat (map (fun k => filter (fun x => String.eqb (label x) k) l) ks)) l.
Proof.
  intros Hnd Hl. induction Hl as [|x l Hx Hl IH].
  - simpl. now rewrite concat_nils.
  - apply in_split in Hx. destruct Hx as (ks1 & ks2 & E).
    assert (H1 : ~ In (label x) ks1 /\ ~ In (label x) ks2).
    { rewrite E in Hnd. apply NoDup_remove_2 in Hnd. rewrite in_app_iff in Hnd. tauto. }
    destruct H1 as [H1 H2].
    assert (G : forall ks', ~ In (label x) ks' ->
                  map (fun k => filter (fun y => String.eqb (label y) k) (x :: l)) ks'
                  = map (fun k => filter (fun y => String.eqb (label y) k) l) ks').
    { intros ks' Hn. apply map_ext_in. intros k Hk. simpl.
      destruct (String.eqb (label x) k) eqn:Ek; [|reflexivity].
      apply String.eqb_eq in Ek. subst k. contradiction. }
    rewrite E in IH |- *. rewrite map_app in IH |- *. cbn [map] in IH |- *.
    rewrite concat_app in IH |- *. cbn [List.concat] in IH |- *.
    rewrite (G ks1 H1), (G ks2 H2). cbn [filter]. rewrite String.eqb_refl.
    rewrite <- app_comm_cons.
    eapply perm_trans; [apply Permutation_sym, Permutation_middle|].
    now apply perm_skip.
Qed.

Lemma lossesOf_cons d ds :
  lossesOf (d :: ds) == (if isGain d then 0 else Qabs (d_gain d)) + lossesOf ds.
Proof.
  unfold lossesOf. simpl. destruct (isGain d); simpl.
  - ring.
  - apply sumQ_cons.
Qed.

Lemma net_of_list ds : gainsOf ds - lossesOf ds == sumQ (map d_gain ds).
Proof.
  induction ds as [|d ds IH]; [reflexivity|].
  cbn [map]. rewrite gainsOf_cons, lossesOf_cons, sumQ_cons, <- IH.
  unfold isGain. destruct (Qle_bool 0 (d_gain d)) eqn:E; [ring|].
  apply Qle_bool_false in E. rewrite Qabs_neg by lra. ring.
Qed.

Lemma sumQ_map_ext_in {A} (f g : A -> Q) l :
  (forall x, In x l -> f x == g x) -> sumQ (map f l) == sumQ (map g l).
Proof.
  induction l as [|x l IH]; intros H; [reflexivity|].
  cbn [map]. rewrite !sumQ_cons, IH, (H x) by (now left || (intros; apply H; now right)).
  reflexivity.
Qed.

Lemma fold_sum {A} (f : A -> Q) l a :
  fold_left (fun sum d => sum + f d) l a == a + sumQ (map f l).
Proof.
  revert a. induction l as [|x l IH]; intros a; simpl.
  - change (sumQ []) with 0. ring.
  - rewrite IH, sumQ_cons. ring.
Qed.

(** The groups of [generateReport] deal the disposals out by tax year. *)
Lemma groups_partition ds :
  let o := fold_left groupBody ds [] in
  NoDup (objKeys o) /\
  Permutation (List.concat (map (fun e => yd_disposals (snd e)) o)) ds.
Proof.
  cbv zeta.
  assert (Hinv : GroupInv ([] ++ ds) (fold_left groupBody ds [])).
  { apply group_inv. split; [constructor | intros k'; reflexivity]. }
  cbn [app] in Hinv. destruct Hinv as [Hnd H]. split; [exact Hnd|].
  set (o := fold_left groupBody ds []) in *.
  assert (E : map (fun e => yd_disposals (snd e)) o
              = map (fun k => filter (fun d => String.eqb (d_taxYear d) k) ds) (objKeys o)).
  { unfold objKeys. rewrite map_map. apply map_ext_in. intros [k yd] Hin. cbn [fst snd].
    now destruct (group_spec ds k yd Hin) as (_ & _ & -> & _). }
  rewrite E. apply filters_partition; [exact Hnd|].
  apply Forall_forall. intros d Hd.
  specialize (H (d_taxYear d)).
  destruct (objGet o (d_taxYear d)) as [yd|] eqn:Eg.
  - apply objGet_Some_In in Eg. now apply (in_map fst) in Eg.
  - exfalso. assert (Hin : In d (filter (inTaxYear (d_taxYear d)) ds)).
    { apply filter_In. split; [exact Hd | apply String.eqb_refl]. }
    now rewrite H in Hin.
Qed.

Section ReportTotals.
Context {host : Host}.

(** X23. The yearly summaries of a report deal its disposals out: the labels
    of the summaries are distinct, every disposal is in the list of one
    summary and of one only, the counts of the summaries add up to
    [totalDisposals], and their net gains add up to [overallGain]. *)
Theorem yearly_summaries_partition (clock : Clock) (raws : list RawTransaction) :
  let r := calculateCGT clock raws in
  NoDup (map ty_taxYear (taxYears r)) /\
  Permutation (List.concat (map ty_disposals (taxYears r))) (allDisposals r) /\
  list_sum (map ty_numberOfDisposals (taxYears r)) = totalDisposals (summary r) /\
  sumQ (map ty_netGain (taxYears r)) == overallGain (summary r).
Proof.
  cbv zeta. rewrite calculateCGT_report.
  pose proof (calculate_produced clock raws newCalculator (Forall_nil _)) as HP.
  set (calc := fst (calculate clock raws newCalculator)) in *.
  unfold generateReport. cbn [taxYears allDisposals summary totalDisposals overallGain].
  set (snaps := calculateSection104Snapshots calc).
  set (o := fold_left groupBody (disposals calc) []).
  destruct (groups_partition (disposals calc)) as [Hnd Hperm]. fold o in Hnd, Hperm.
  set (le := fun a b => localeLe (ty_taxYear b) (ty_taxYear a)).
  pose proof (stableSort_perm le (map (fun e => summarize snaps (snd e)) o)) as Hs.
  assert (Hy : map ty_taxYear (map (fun e => summarize snaps (snd e)) o) = objKeys o).
  { unfold objKeys. rewrite map_map. apply map_ext_in. intros [k yd] Hin. cbn [fst snd].
    destruct (summarize_fields snaps yd) as (-> & _).
    now destruct (group_spec _ _ _ Hin) as (-> & _). }
  assert (Hd : map ty_disposals (map (fun e => summarize snaps (snd e)) o)
               = map (fun e => yd_disposals (snd e)) o).
  { rewrite map_map. apply map_ext. intros [k yd]. cbn [snd].
    now destruct (summarize_fields snaps yd) as (_ & -> & _). }
  assert (Hn : map ty_numberOfDisposals (map (fun e => summarize snaps (snd e)) o)
               = map (@List.length Disposal) (map (fun e => yd_disposals (snd e)) o)).
  { rewrite !map_map. apply map_ext. intros [k yd]. cbn [snd].
    now destruct (summarize_fields snaps yd) as (_ & _ & -> & _). }
  assert (H2 : Forall (fun d => is2dp (d_gain d)) (disposals calc)).
  { eapply Forall_impl; [|exact HP]. apply Produced_gain_2dp. }
  repeat split.
  - eapply Permutation_NoDup; [apply Permutation_sym, Permutation_map, Hs|].
    now rewrite Hy.
  - eapply perm_trans; [|exact Hperm]. rewrite <- Hd.
    apply concat_perm, Permutation_map, Hs.   
  - rewrite (Permutation_list_sum (Permutation_map ty_numberOfDisposals Hs)), Hn.
    rewrite <- (Permutation_length Hperm). rewrite length_concat. reflexivity.
  - rewrite (sumQ_perm _ _ (Permutation_map ty_netGain Hs)).
    rewrite fold_sum. rewrite Qplus_0_l.
    rewrite (round2dp_2dp (sumQ (map d_gain (disposals calc))))
      by (apply sumQ_2dp; now rewrite Forall_map).
    rewrite <- (sumQ_perm _ _ (Permutation_map d_gain Hperm)).
    rewrite concat_map, sumQ_concat, !map_map.
    apply sumQ_map_ext_in. intros [k yd] Hin. cbn [snd].
    destruct (summarize_fields snaps yd) as (_ & _ & _ & _ & _ & -> & _).
    destruct (group_spec _ _ _ Hin) as (_ & _ & Hds & -> & ->).
    assert (H2' : Forall (fun d => is2dp (d_gain d)) (yd_disposals yd)).
    { rewrite Hds. apply Forall_forall. intros d Hdin. apply filter_In in Hdin.
      rewrite Forall_forall in H2. now apply H2. }
    rewrite (round2dp_2dp (round2dp _)) by apply round2dp_is2dp.
    rewrite round2dp_2dp
      by (apply is2dp_minus; [now apply gainsOf_2dp | now apply lossesOf_2dp]).
    apply net_of_list.
Qed.

End ReportTotals.

(** ** Grouping by symbol *)

Lemma bySymbolBody_inv done o t :
  SymbolInv done o -> SymbolInv (done ++ [t]) (bySymbolBody o t).
Proof.
  intros [Hnd H]. split; [now apply objKeys_objSet_NoDup|].
  intros k. unfold bySymbolBody. rewrite objGet_objSet, filter_app. cbn [filter].
  change (hasSymbol k t) with (String.eqb (t_symbol t) k).
  destruct (String.eqb (t_symbol t) k) eqn:E.
  - apply String.eqb_eq in E. subst k. specialize (H (t_symbol t)).
    destruct (objGet o (t_symbol t)) as [ts|].
    + destruct H as [-> _]. split; [reflexivity|].
      intros K. now apply app_eq_nil in K.
    + rewrite H. split; [reflexivity | discriminate].
  - rewrite app_nil_r. exact (H k).
Qed.

Lemma bySymbol_inv txs done o :
  SymbolInv done o -> SymbolInv (done ++ txs) (fold_left bySymbolBody txs o).
Proof.
  revert done o. induction txs as [|t txs IH]; intros done o H; simpl.
  - now rewrite app_nil_r.
  - replace (done ++ t :: txs) with ((done ++ [t]) ++ txs)
      by (now rewrite <- app_assoc).
    apply IH, bySymbolBody_inv, H.
Qed.

Section Grouping.
Context {host : Host}.

(** X13. [calculate] hands every transaction of the stream to [processSymbol]
    once: the groups have distinct symbols, the group of a symbol is the
    transactions of the stream with that symbol, in stream order and not
    empty, and the groups together are the stream. *)
Theorem transactions_grouped_by_symbol (clock : Clock) (raws : list RawTransaction) :
  let stream := fst (normalizeTransactions clock raws) in
  let bySymbol := fold_left bySymbolBody stream [] in
  NoDup (objKeys bySymbol) /\
  (forall symbol ts, In (symbol, ts) bySymbol ->
                     ts = filter (hasSymbol symbol) stream /\ ts <> []) /\
  Permutation (List.concat (map snd bySymbol)) stream.
Proof.
  cbv zeta. set (stream := fst (normalizeTransactions clock raws)).
  assert (Hinv : SymbolInv ([] ++ stream) (fold_left bySymbolBody stream [])).
  { apply bySymbol_inv. split; [constructor | intros k; reflexivity]. }
  cbn [app] in Hinv. destruct Hinv as [Hnd H].
  set (o := fold_left bySymbolBody stream []) in *.
  assert (Hg : forall symbol ts, In (symbol, ts) o ->
                 ts = filter (hasSymbol symbol) stream /\ ts <> []).
  { intros k ts Hin. specialize (H k). now rewrite (objGet_In _ _ _ Hnd Hin) in H. }
  split; [exact Hnd|]. split; [exact Hg|].
  assert (E : map snd o = map (fun k => filter (fun t => String.eqb (t_symbol t) k) stream)
                              (objKeys o)).
  { unfold objKeys. rewrite map_map. apply map_ext_in. intros [k ts] Hin.
    cbn [fst snd]. now destruct (Hg k ts Hin) as [-> _]. }
  rewrite E. apply filters_partition; [exact Hnd|].
  apply Forall_forall. intros t Ht. specialize (H (t_symbol t)).
  destruct (objGet o (t_symbol t)) as [ts|] eqn:Eg.
  - apply objGet_Some_In in Eg. now apply (in_map fst) in Eg.
  - exfalso. assert (Hin : In t (filter (hasSymbol (t_symbol t)) stream)).
    { apply filter_In. split; [exact Ht | apply String.eqb_refl]. }
    now rewrite H in Hin.
Qed.

End Grouping.

(** ** No empty match detail *)

Lemma sameDayBody_detailing pps : Detailing (sameDayBody pps).
Proof.
  intros i acc. unfold sameDayBody.
  destruct (nth_error (acc_buys acc) i) as [b|]; [|reflexivity].
  eexists. split; reflexivity.
Qed.

Lemma bnbBody_detailing pool disposal pps : Detailing (bnbBody pool disposal pps).
Proof.
  intros i acc. unfold bnbBody.
  destruct (nth_error (acc_buys acc) i) as [b|]; [|reflexivity].
  eexists. split; reflexivity.
Qed.

(** A matching loop over distinct positions that all have something left
    writes details of positive quantity only. *)
Lemma loop_details_positive body cands acc :
  Consuming body -> Detailing body -> NoDup cands ->
  (forall i, In i cands -> 0 < remainingAt (acc_buys acc) i) ->
  PositiveDetails (acc_matchDetails acc) ->
  PositiveDetails (acc_matchDetails (forEachUntilMatched body cands acc)).
Proof.
  intros Hc Hd. revert acc. induction cands as [|i rest IH]; intros acc Hnd Hpos HP.
  - exact HP.
  - cbn [forEachUntilMatched].
    destruct (Qle_bool (acc_remainingQty acc) 0) eqn:Eq; [exact HP|].
    apply Qle_bool_false in Eq.
    inversion Hnd as [|? ? Hi Hnd']; subst.
    pose proof (consumeAt_step i (acc_remainingQty acc) (acc_buys acc) Eq
                  (Hpos i (or_introl eq_refl))) as S.
    cbv zeta in S. rewrite <- (Hc i acc) in S. cbn [fst snd] in S.
    destruct S as (_ & S2 & _).
    apply IH; [exact Hnd'| |].
    + intros k Hk. rewrite S2; [apply Hpos; now right|].
      intros ->. contradiction.
    + destruct (remainingAt_pos _ _ (Hpos i (or_introl eq_refl))) as (b & Hb & Hbpos).
      pose proof (Hd i acc) as D. rewrite Hb in D. destruct D as (m & -> & Hm).
      apply Forall_app. split; [exact HP|]. repeat constructor.
      rewrite Hm. now apply mathMin_pos.
Qed.

Lemma sameDayStage_positive disposal pps buys :
  PositiveDetails (acc_matchDetails (sameDayStage disposal pps buys)).
Proof.
  unfold sameDayStage. apply loop_details_positive.
  - apply sameDayBody_consuming.
  - apply sameDayBody_detailing.
  - apply (sorted_NoDup lt); [lia | apply filterIndices_sorted].
  - intros i Hi. apply filterIndices_In in Hi. destruct Hi as (b & Hb & H).
    cbn [acc_buys]. rewrite (remainingAt_nth _ _ _ Hb).
    unfold isSameDayCandidate in H. apply andb_true_iff in H. now apply Qltb_lt.
  - constructor.
Qed.

Lemma bnbStage_positive pool disposal pps acc :
  PositiveDetails (acc_matchDetails acc) ->
  PositiveDetails (acc_matchDetails (bnbStage pool disposal pps acc)).
Proof.
  intros HP. unfold bnbStage. destruct (Qltb 0 (acc_remainingQty acc)); [|exact HP].
  apply loop_details_positive.
  - apply bnbBody_consuming.
  - apply bnbBody_detailing.
  - eapply Permutation_NoDup; [apply Permutation_sym, stableSort_perm|].
    apply (sorted_NoDup lt); [lia | apply filterIndices_sorted].
  - intros i Hi. apply stableSort_In, filterIndices_In in Hi.
    destruct Hi as (b & Hb & H). rewrite (remainingAt_nth _ _ _ Hb).
    unfold isBnbCandidate in H. cbv zeta in H.
    apply andb_true_iff in H. now apply Qltb_lt.
  - exact HP.
Qed.

Lemma poolStage_positive pool disposal pps acc :
  PositiveDetails (acc_matchDetails acc) ->
  PositiveDetails (acc_matchDetails (snd (poolStage pool disposal pps acc))).
Proof.
  intros HP. unfold poolStage.
  destruct (Qltb 0 (acc_remainingQty acc)) eqn:Er; [|exact HP].
  apply Qltb_lt in Er.
  destruct (fold_left rollInBody _ _) as [pool1 buys1].
  unfold drawFromPool. cbn [acc_remainingQty].
  destruct (Qltb 0 (p_quantity pool1)) eqn:Ep; [|exact HP].
  apply Qltb_lt in Ep. cbn [snd acc_matchDetails].
  apply Forall_app. split; [exact HP|]. repeat constructor.
  cbn [md_quantity]. now apply mathMin_pos.
Qed.

Lemma Produced_positive d : Produced d -> PositiveDetails (d_matchDetails d).
Proof.
  intros (symbol & disposal & buys & pool & _ & ->).
  pose proof (processDisposal_fields symbol disposal buys pool) as F.
  cbv zeta in F. destruct F as (_ & _ & -> & _).
  unfold matchedAcc.
  apply poolStage_positive, bnbStage_positive, sameDayStage_positive.
Qed.

Section Details.
Context {host : Host}.

(** X17. Every match detail of a report stands for a positive number of
    shares: no rule writes an empty detail, and the cost per share of a
    detail is never a division by zero. *)
Theorem match_details_are_positive (clock : Clock) (raws : list RawTransaction)
        (d : Disposal) (m : MatchDetail) :
  In d (allDisposals (calculateCGT clock raws)) -> In m (d_matchDetails d) ->
  0 < md_quantity m.
Proof.
  rewrite calculateCGT_report. unfold generateReport. cbn [allDisposals].
  intros Hd Hm.
  pose proof (calculate_produced clock raws newCalculator (Forall_nil _)) as P.
  rewrite Forall_forall in P.
  pose proof (Produced_positive d (P d Hd)) as Q.
  unfold PositiveDetails in Q. rewrite Forall_forall in Q. now apply Q.
Qed.

End Details.

Lemma match_details_are_positive_witness :
  let r := calculateCGT (host := plainHost) clock0 scenarioD in
  In (nth 0 (allDisposals r) noDisposal) (allDisposals r) /\
  In (nth 0 (d_matchDetails (nth 0 (allDisposals r) noDisposal)) noDetail)
     (d_matchDetails (nth 0 (allDisposals r) noDisposal)) /\
  0 < md_quantity (nth 0 (d_matchDetails (nth 0 (allDisposals r) noDisposal)) noDetail).
Proof.
  cbv zeta. set (r := calculateCGT (host := plainHost) clock0 scenarioD).
  assert (H1 : In (nth 0 (allDisposals r) noDisposal) (allDisposals r))
    by (apply nth_In; vm_compute; lia).
  assert (H2 : In (nth 0 (d_matchDetails (nth 0 (allDisposals r) noDisposal)) noDetail)
                  (d_matchDetails (nth 0 (allDisposals r) noDisposal)))
    by (apply nth_In; vm_compute; lia).
  split; [exact H1|]. split; [exact H2|].
  exact (match_details_are_positive (host := plainHost) clock0 scenarioD _ _ H1 H2).
Defined.

(** ** What one symbol leaves alone, and a sale with nothing to match *)

(** What the loop over the sells appends to the lists of the calculator. *)
Lemma sells_append symbol sells st :
  let st' := fold_left (sellBody symbol) sells st in
  (exists ds, ss_disposals st' = ss_disposals st ++ ds /\
              Forall (fun d => d_symbol d = symbol) ds /\
              List.length ds = List.length sells) /\
  (exists errs, ss_errors st' = ss_errors st ++ errs /\
                Forall (fun e => err_symbol e = symbol) errs /\
                (List.length errs <= List.length sells)%nat).
Proof.
  revert st. induction sells as [|d sells IH]; intros st; cbv zeta.
  - split; exists []; cbn [fold_left]; rewrite app_nil_r; repeat split; auto.
  - cbn [fold_left].
    destruct (IH (sellBody symbol st d)) as ((ds & E1 & F1 & L1) & (errs & E2 & F2 & L2)).
    cbv zeta in E1, E2.
    pose proof (processDisposal_fields symbol d (ss_buys st) (ss_pool st)) as F.
    cbv zeta in F. destruct F as (_ & _ & _ & _ & _ & Fs & _ & _ & _ & _ & Fe & _).
    split.
    + exists (out_disposal (processDisposal symbol d (ss_buys st) (ss_pool st)) :: ds).
      split; [|split].
      * rewrite E1. unfold sellBody. cbn [ss_disposals]. now rewrite <- app_assoc.
      * now constructor.
      * simpl. now rewrite L1.
    + exists (optionToList (out_error (processDisposal symbol d (ss_buys st) (ss_pool st)))
              ++ errs).
      split; [|split].
      * rewrite E2. unfold sellBody. cbn [ss_errors]. now rewrite <- app_assoc.
      * apply Forall_app. split; [|exact F2]. rewrite Fe.
        destruct (Qltb 0 _); repeat constructor.
      * rewrite length_app, Fe. destruct (Qltb 0 _); simpl; lia.
Qed.

Lemma processSymbol_errors symbol txs calc :
  errors (processSymbol symbol txs calc)
  = ss_errors (fold_left (sellBody symbol) (filter isSell txs)
                 (mkSymbolState (poolOf calc symbol) (filter isBuy txs)
                                (errors calc) (disposals calc) (console calc))).
Proof.
  unfold processSymbol.
  now destruct (fold_left finalRollInBody _ _) as [pool history].
Qed.

Lemma processSymbol_history symbol txs calc :
  exists history,
    section104History (processSymbol symbol txs calc)
    = objSet (section104History calc) symbol history.
Proof.
  unfold processSymbol.
  destruct (fold_left finalRollInBody _ _) as [pool history]. now exists history.
Qed.

(** X15. Processing one symbol leaves alone what the calculator holds for the
    other symbols, and rewrites nothing that is already recorded: it adds
    one disposal per sale and one acquisition per purchase, all under its
    own symbol, and at most one error per sale. *)
Theorem processSymbol_keeps_the_rest (symbol : string) (txs : list Transaction)
        (calc : Calculator) :
  let calc' := processSymbol symbol txs calc in
  (forall k, k <> symbol ->
     objGet (section104Pools calc') k = objGet (section104Pools calc) k /\
     objGet (section104History calc') k = objGet (section104History calc) k) /\
  (exists ds, disposals calc' = disposals calc ++ ds /\
              Forall (fun d => d_symbol d = symbol) ds /\
              List.length ds = List.length (filter isSell txs)) /\
  (exists acqs, acquisitions calc' = acquisitions calc ++ acqs /\
                Forall (fun a => a_symbol a = symbol) acqs /\
                List.length acqs = List.length (filter isBuy txs)) /\
  (exists errs, errors calc' = errors calc ++ errs /\
                Forall (fun e => err_symbol e = symbol) errs /\
                (List.length errs <= List.length (filter isSell txs))%nat).
Proof.
  cbv zeta.
  set (st0 := mkSymbolState (poolOf calc symbol) (filter isBuy txs)
                            (errors calc) (disposals calc) (console calc)).
  destruct (sells_append symbol (filter isSell txs) st0) as (D & E). cbv zeta in D, E.
  split; [|split; [|split]].
  - intros k Hk.
    destruct (processSymbol_pools symbol txs calc) as (pool & -> & _).
    destruct (processSymbol_history symbol txs calc) as (history & ->).
    rewrite !objGet_objSet.
    replace (String.eqb symbol k) with false
      by (symmetry; apply String.eqb_neq; congruence).
    now split.
  - rewrite processSymbol_disposals. exact D.
  - exists (map (acquisitionOf symbol) (filter isBuy txs)). split; [|split].
    + unfold processSymbol. now destruct (fold_left finalRollInBody _ _).
    + apply Forall_forall. intros a Ha. apply in_map_iff in Ha.
      now destruct Ha as (t & <- & _).
    + apply length_map.
  - rewrite processSymbol_errors. exact E.
Qed.

(** X18. A sale with no acquisition to draw on and an empty pool is not
    refused: it is recorded with no match detail and no cost, so that its
    whole proceeds count as gain, the pool is left alone, and the whole
    quantity is reported as unmatched. *)
Theorem sale_without_acquisitions (symbol : string) (disposal : Transaction)
        (pool : Pool) :
  0 < t_quantity disposal -> p_quantity pool <= 0 ->
  let out := processDisposal symbol disposal [] pool in
  d_matchDetails (out_disposal out) = [] /\
  d_cost (out_disposal out) == 0 /\
  d_gain (out_disposal out) == d_proceeds (out_disposal out) /\
  out_pool out = pool /\
  out_error out = Some (mkError UNMATCHED_DISPOSAL symbol
                                (formatDateLocal (t_date disposal))
                                (t_quantity disposal)).
Proof.
  intros Hq Hp. cbv zeta. unfold processDisposal.
  set (proceeds := calculateProceeds disposal (t_quantity disposal)).
  set (pps := round2dp (proceeds / t_quantity disposal)).
  assert (E1 : sameDayStage disposal pps [] = mkAcc (t_quantity disposal) 0 [] [])
    by reflexivity.
  rewrite E1.
  assert (E2 : bnbStage pool disposal pps (mkAcc (t_quantity disposal) 0 [] [])
               = mkAcc (t_quantity disposal) 0 [] []).
  { unfold bnbStage. cbn [acc_remainingQty acc_buys].
    now destruct (Qltb 0 (t_quantity disposal)). }
  rewrite E2.
  assert (E3 : poolStage pool disposal pps (mkAcc (t_quantity disposal) 0 [] [])
               = (pool, mkAcc (t_quantity disposal) 0 [] [])).
  { unfold poolStage. cbn [acc_remainingQty acc_buys acc_totalCost acc_matchDetails].
    destruct (Qltb 0 (t_quantity disposal)); [|reflexivity].
    cbn [filterIndices List.length seq combine filter map fold_left].
    unfold drawFromPool.
    now rewrite (proj2 (Qltb_ge 0 (p_quantity pool)) Hp). }
  rewrite E3. cbn [acc_remainingQty acc_totalCost acc_matchDetails acc_buys].
  destruct (getTaxYear (t_date disposal)) as [taxYear msgs].
  rewrite (proj2 (Qltb_lt 0 (t_quantity disposal)) Hq).
  cbn [out_disposal out_pool out_error d_matchDetails d_cost d_gain d_proceeds].
  split; [reflexivity|]. split; [reflexivity|]. split; [|split; reflexivity].
  apply round2dp_Proper. ring.
Qed.

Lemma sale_without_acquisitions_witness :
  0 < t_quantity (txAt 0 "SELL" 50 12) /\
  p_quantity (mkPool 0 0) <= 0 /\
  d_cost (out_disposal (processDisposal "XYZ" (txAt 0 "SELL" 50 12) [] (mkPool 0 0))) == 0 /\
  d_gain (out_disposal (processDisposal "XYZ" (txAt 0 "SELL" 50 12) [] (mkPool 0 0)))
  == d_proceeds (out_disposal (processDisposal "XYZ" (txAt 0 "SELL" 50 12) [] (mkPool 0 0))).
Proof.
  assert (H1 : 0 < t_quantity (txAt 0 "SELL" 50 12)) by reflexivity.
  assert (H2 : p_quantity (mkPool 0 0) <= 0) by discriminate.
  split; [exact H1|]. split; [exact H2|].
  destruct (sale_without_acquisitions "XYZ" (txAt 0 "SELL" 50 12) (mkPool 0 0) H1 H2)
    as (_ & Hc & Hg & _).
  split; [exact Hc | exact Hg].
Defined.

(** ** Errors count the short sales *)

Lemma sellBody_tallies symbol st d :
  0 < t_quantity d ->
  Tallies (ss_errors st) (ss_disposals st) ->
  Tallies (ss_errors (sellBody symbol st d)) (ss_disposals (sellBody symbol st d)).
Proof.
  intros Hq [T1 T2].
  pose proof (processDisposal_fields symbol d (ss_buys st) (ss_pool st)) as F.
  cbv zeta in F.
  destruct F as (_ & _ & Hmd & _ & Hqty & _ & _ & _ & _ & _ & Herr & _).
  pose proof (matchedAcc_inv d (ss_buys st) (ss_pool st) Hq) as (Hpos & Hsum & _).
  set (out := processDisposal symbol d (ss_buys st) (ss_pool st)) in *.
  set (acc := snd (matchedAcc d (ss_buys st) (ss_pool st))) in *.
  assert (Hm : matchedQuantity (out_disposal out) + acc_remainingQty acc
               == d_quantity (out_disposal out)).
  { unfold matchedQuantity. rewrite Hmd, Hqty, <- Hsum. ring. }
  unfold sellBody. fold out. cbn [ss_errors ss_disposals]. split.
  - rewrite filter_app, !length_app, T1. f_equal. rewrite Herr. cbn [filter].
    unfold isShort.
    destruct (Qltb 0 (acc_remainingQty acc)) eqn:E.
    + apply Qltb_lt in E.
      now replace (Qltb (matchedQuantity (out_disposal out)) (d_quantity (out_disposal out)))
        with true by (symmetry; apply Qltb_lt; lra).
    + apply Qltb_ge in E.
      now replace (Qltb (matchedQuantity (out_disposal out)) (d_quantity (out_disposal out)))
        with false by (symmetry; apply Qltb_ge; lra).
  - apply Forall_app. split; [exact T2|]. repeat constructor. lra.
Qed.

Lemma sells_tallies symbol sells st :
  Forall (fun t => 0 < t_quantity t) sells ->
  Tallies (ss_errors st) (ss_disposals st) ->
  Tallies (ss_errors (fold_left (sellBody symbol) sells st))
          (ss_disposals (fold_left (sellBody symbol) sells st)).
Proof.
  intros Hs. revert st. induction Hs as [|d sells Hd Hs IH]; intros st H; [exact H|].
  cbn [fold_left]. apply IH. now apply sellBody_tallies.
Qed.

Lemma processSymbol_tallies symbol txs calc :
  Forall (fun t => 0 < t_quantity t) txs ->
  Tallies (errors calc) (disposals calc) ->
  Tallies (errors (processSymbol symbol txs calc))
          (disposals (processSymbol symbol txs calc)).
Proof.
  intros Htxs H. rewrite processSymbol_errors, processSymbol_disposals.
  apply sells_tallies; [|exact H].
  rewrite Forall_forall in *. intros t Ht. apply Htxs. now apply filter_In in Ht.
Qed.

Lemma length_zero_nil {A} (l : list A) : List.length l = 0%nat <-> l = [].
Proof. destruct l; split; intros H; (reflexivity || discriminate). Qed.

Lemma filter_nil_iff {A} (p : A -> bool) l :
  filter p l = [] <-> Forall (fun x => p x = false) l.
Proof.
  induction l as [|x l IH]; simpl.
  - split; intros; constructor.
  - destruct (p x) eqn:E; split; intros H.
    + discriminate.
    + inversion H; subst. congruence.
    + constructor; [exact E | now apply IH].
    + inversion H; subst. now apply IH.
Qed.

Section Errors.
Context {host : Host}.

(** X22. The errors of a report count the sales that could not be matched in
    full: there is one error for each disposal whose match details fall
    short of its quantity, no disposal is matched for more than its
    quantity, and so the list of errors is empty exactly when every
    disposal is matched in full. *)
Theorem errors_count_the_short_sales (clock : Clock) (raws : list RawTransaction) :
  let r := calculateCGT clock raws in
  List.length (rep_errors r) = List.length (filter isShort (allDisposals r)) /\
  Forall (fun d => matchedQuantity d <= d_quantity d) (allDisposals r) /\
  (rep_errors r = [] <->
   Forall (fun d => matchedQuantity d == d_quantity d) (allDisposals r)).
Proof.
  cbv zeta. rewrite calculateCGT_report. unfold generateReport.
  cbn [rep_errors allDisposals].
  assert (T : Tallies (errors (fst (calculate clock raws newCalculator)))
                      (disposals (fst (calculate clock raws newCalculator)))).
  { unfold calculate.
    pose proof (normalized_positive clock raws) as Hpos.
    destruct (normalizeTransactions clock raws) as [txs msgs]. cbn [fst] in *.
    pose proof (bySymbol_Forall (fun t => 0 < t_quantity t) txs [] Hpos (Forall_nil _))
      as Hgroups.
    set (c0 := mkCalculator _ _ _ _ _ _).
    assert (H0 : Tallies (errors c0) (disposals c0)) by (split; [reflexivity | constructor]).
    clearbody c0. revert c0 H0.
    induction Hgroups as [|[k ts] o Hts Ho IH]; intros c0 H0; [exact H0|].
    cbn [fold_left]. apply IH. now apply processSymbol_tallies. }
  set (calc := fst (calculate clock raws newCalculator)) in *.
  destruct T as [T1 T2]. split; [exact T1|]. split; [exact T2|].
  rewrite <- length_zero_nil, T1, length_zero_nil, filter_nil_iff.
  rewrite !Forall_forall in *. split; intros H d Hd.
  - specialize (H d Hd). specialize (T2 d Hd). unfold isShort in H.
    apply Qltb_ge in H. lra.
  - unfold isShort. apply Qltb_ge. rewrite (H d Hd). apply Qle_refl.
Qed.

End Errors.

(** ** A draw from the pool *)

(** X19. A draw leaves the pool at its average cost, up to the rounding of the
    cost it takes: the draw takes the smaller of what is asked and what the
    pool holds, and what stays in the pool is worth the old average cost
    per share, to within half a penny in all. *)
Theorem pool_draw_keeps_average (proceedsPerShare : Q) (pool : Pool) (acc : MatchAcc) :
  0 < p_quantity pool ->
  let pool' := fst (drawFromPool proceedsPerShare pool acc) in
  let averageCost := p_cost pool / p_quantity pool in
  p_quantity pool'
  == p_quantity pool - mathMin (acc_remainingQty acc) (p_quantity pool) /\
  - (1 # 200) <= p_cost pool' - averageCost * p_quantity pool' /\
  p_cost pool' - averageCost * p_quantity pool' < 1 # 200.
Proof.
  intros Hq. cbv zeta. unfold drawFromPool.
  rewrite (proj2 (Qltb_lt 0 (p_quantity pool)) Hq). cbn [fst p_quantity p_cost].
  set (m := mathMin (acc_remainingQty acc) (p_quantity pool)).
  set (a := p_cost pool / p_quantity pool).
  destruct (round2dp_bounds (m * a)) as [B1 B2].
  assert (Ea : a * p_quantity pool == p_cost pool) by (subst a; field; lra).
  split; [reflexivity|]. split; nra.
Qed.

Lemma pool_draw_keeps_average_witness :
  0 < p_quantity (mkPool 200 3000) /\
  - (1 # 200)
  <= p_cost (fst (drawFromPool 95 (mkPool 200 3000) (mkAcc 100 0 [] [])))
     - p_cost (mkPool 200 3000) / p_quantity (mkPool 200 3000)
       * p_quantity (fst (drawFromPool 95 (mkPool 200 3000) (mkAcc 100 0 [] []))).
Proof.
  assert (H : 0 < p_quantity (mkPool 200 3000)) by reflexivity.
  split; [exact H|].
  exact (proj1 (proj2 (pool_draw_keeps_average 95 (mkPool 200 3000)
                         (mkAcc 100 0 [] []) H))).
Defined.

(** ** The figures of a disposal *)



Section DisposalFigures.
Context {host : Host}.


End DisposalFigures.


(** ** The two estimates of the tax *)

Lemma mathMax_0_ge y : 0 <= mathMax 0 y.
Proof.
  destruct (mathMax_cases 0 y) as [[-> H]|[-> _]]; [exact H | apply Qle_refl].
Qed.

(** The rates [estimatedTax] reads for a year of the table, or for a year
    the table does not list: each basic rate is at most the higher rate
    that goes with it, and none is negative. *)
Lemma rates_ordered label :
  let config := taxYearConfig label in
  let basicPre := orDefault (cfgOptField config cfg_basicRateSharesPre)
                            (orDefault (cfgField config cfg_basicRateShares) 0.10) in
  let higherPre := orDefault (cfgOptField config cfg_higherRateSharesPre)
                             (orDefault (cfgField config cfg_higherRateShares) 0.20) in
  let basicPost := orDefault (cfgOptField config cfg_basicRateSharesPost)
                             (orDefault (cfgField config cfg_basicRateShares) 0.18) in
  let higherPost := orDefault (cfgOptField config cfg_higherRateSharesPost)
                              (orDefault (cfgField config cfg_higherRateShares) 0.24) in
  let basic := orDefault (cfgField config cfg_basicRateShares) 0.10 in
  let higher := orDefault (cfgField config cfg_higherRateShares) 0.20 in
  (0 <= basicPre /\ basicPre <= higherPre) /\
  (0 <= basicPost /\ basicPost <= higherPost) /\
  (0 <= basic /\ basic <= higher).
Proof.
  cbv zeta. destruct (taxYearConfig label) as [config|] eqn:E.
  - apply taxYearConfig_In in E.
    repeat (destruct E as [E|E];
            [injection E as <- <-; repeat split; apply Qle_bool_imp_le; reflexivity|]).
    destruct E.
  - repeat split; apply Qle_bool_imp_le; reflexivity.
Qed.

Lemma estimatedTax_ordered label s E tg :
  0 <= tg ->
  let r := estimatedTax (taxYearConfig label) s E tg in
  0 <= fst r /\ fst r <= snd r.
Proof.
  intros Htg. cbv zeta.
  destruct (rates_ordered label) as ((P1 & P2) & (Q1 & Q2) & (R1 & R2)).
  cbv zeta in *. unfold estimatedTax.
  set (config := taxYearConfig label) in *.
  set (basicPre := orDefault (cfgOptField config cfg_basicRateSharesPre) _) in *.
  set (higherPre := orDefault (cfgOptField config cfg_higherRateSharesPre) _) in *.
  set (basicPost := orDefault (cfgOptField config cfg_basicRateSharesPost) _) in *.
  set (higherPost := orDefault (cfgOptField config cfg_higherRateSharesPost) _) in *.
  set (basic := orDefault (cfgField config cfg_basicRateShares) 0.10) in *.
  set (higher := orDefault (cfgField config cfg_higherRateShares) 0.20) in *.
  destruct (isSome (obind config cfg_rateChangeDate)
            && (Qltb 0 (preOctGains s) || Qltb 0 (postOctGains s))).
  - cbn [fst snd].
    set (tpre := mathMax 0 _). set (tpost := mathMax 0 _).
    assert (Hpre : 0 <= tpre) by apply mathMax_0_ge.
    assert (Hpost : 0 <= tpost) by apply mathMax_0_ge.
    split; [apply round2dp_nonneg | apply round2dp_le]; nra.
  - cbn [fst snd]. split; [apply round2dp_nonneg | apply round2dp_le]; nra.
Qed.

Section Estimates.
Context {host : Host}.

(** X24. In every yearly summary of a report the taxable gain is not negative,
    and neither estimate of the tax is; the estimate at the basic rate is
    never above the estimate at the higher rate. *)
Theorem tax_estimates_ordered (clock : Clock) (raws : list RawTransaction)
        (s : TaxYearSummary) :
  In s (taxYears (calculateCGT clock raws)) ->
  0 <= ty_taxableGain s /\
  0 <= ty_estimatedTaxBasicRate s /\
  ty_estimatedTaxBasicRate s <= ty_estimatedTaxHigherRate s.
Proof.
  intros H. apply summary_origin in H.
  destruct H as (yd & -> & Hcfg & _).
  pose proof (summarize_fields
                (calculateSection104Snapshots (fst (calculate clock raws newCalculator)))
                yd) as F.
  cbv zeta in F. destruct F as (_ & _ & _ & _ & _ & _ & _ & Ft & Fe & _).
  set (s := summarize _ yd) in *.
  rewrite Ft. split; [apply round2dp_nonneg, mathMax_0_ge|].
  rewrite Hcfg in Fe.
  pose proof (estimatedTax_ordered (yd_year yd)
                (splitOf (taxYearConfig (yd_year yd)) (yd_disposals yd))
                (orDefault (cfgField (taxYearConfig (yd_year yd)) cfg_annualExemption) 3000)
                _ (mathMax_0_ge
                     (round2dp (yd_totalGains yd - yd_totalLosses yd)
                      - orDefault (cfgField (taxYearConfig (yd_year yd))
                                            cfg_annualExemption) 3000))) as O.
  cbv zeta in O. rewrite <- Fe in O. exact O.
Qed.

End Estimates.

Lemma tax_estimates_ordered_witness :
  let r := calculateCGT (host := plainHost) clock0 scenarioD in
  In (nth 0 (taxYears r) noSummary) (taxYears r) /\
  ty_estimatedTaxBasicRate (nth 0 (taxYears r) noSummary)
  <= ty_estimatedTaxHigherRate (nth 0 (taxYears r) noSummary).
Proof.
  cbv zeta. set (r := calculateCGT (host := plainHost) clock0 scenarioD).
  assert (H : In (nth 0 (taxYears r) noSummary) (taxYears r))
    by (apply nth_In; vm_compute; lia).
  split; [exact H|].
  exact (proj2 (proj2 (tax_estimates_ordered (host := plainHost) clock0 scenarioD _ H))).
Defined.

(** ** The pools the report lists *)

Lemma processSymbol_keys symbol txs calc :
  NoDup (objKeys (section104Pools calc)) ->
  NoDup (objKeys (section104Pools (processSymbol symbol txs calc))).
Proof.
  intros H. destruct (processSymbol_pools symbol txs calc) as (pool & -> & _).
  now apply objKeys_objSet_NoDup.
Qed.

Lemma symbols_keys (o : JsObject (list Transaction)) calc :
  NoDup (objKeys (section104Pools calc)) ->
  NoDup (objKeys (section104Pools
                    (fold_left (fun c e => processSymbol (fst e) (snd e) c) o calc))).
Proof.
  revert calc. induction o as [|[k ts] o IH]; intros calc H; [exact H|].
  cbn [fold_left]. apply IH. now apply processSymbol_keys.
Qed.

Lemma NoDup_map_filter {A B} (f : A -> B) (p : A -> bool) l :
  NoDup (map f l) -> NoDup (map f (filter p l)).
Proof.
  induction l as [|x l IH]; simpl; intros H; [constructor|].
  inversion H as [|? ? Hx Hl]; subst.
  destruct (p x); [|now apply IH]. simpl. constructor; [|now apply IH].
  intros K. apply Hx. apply in_map_iff in K. destruct K as (y & E & Hy).
  apply filter_In in Hy. apply in_map_iff. exists y. now split.
Qed.

Section PoolSummary.
Context {host : Host}.

(** X25. The pools the report lists are the pools that hold something: a
    symbol is listed when, and only when, the run leaves a positive
    quantity in its pool, it is listed once, and its line carries the
    pool's quantity, cost and average cost, each rounded to two
    decimals. *)
Theorem report_lists_the_pools_that_hold_shares
        (clock : Clock) (raws : list RawTransaction) :
  let run := calculate clock raws newCalculator in
  let listed := rep_section104Pools (snd run) in
  NoDup (map ps_symbol listed) /\
  (forall symbol, In symbol (map ps_symbol listed)
                  <-> 0 < p_quantity (poolOf (fst run) symbol)) /\
  (forall line, In line listed ->
     let pool := poolOf (fst run) (ps_symbol line) in
     ps_quantity line = round2dp (p_quantity pool) /\
     ps_totalCost line = round2dp (p_cost pool) /\
     ps_averageCost line = round2dp (p_cost pool / p_quantity pool)).
Proof.
  cbv zeta.
  assert (Hnd : NoDup (objKeys (section104Pools (fst (calculate clock raws newCalculator))))).
  { unfold calculate. destruct (normalizeTransactions clock raws) as [txs msgs].
    cbn [fst]. apply symbols_keys. constructor. }
  assert (R : rep_section104Pools (snd (calculate clock raws newCalculator))
              = map (fun e : string * Pool =>
                       let '(symbol, pool) := e in
                       mkPoolSummary symbol (round2dp (p_quantity pool))
                                     (round2dp (p_cost pool))
                                     (round2dp (p_cost pool / p_quantity pool)))
                    (filter (fun e => Qltb 0 (p_quantity (snd e)))
                            (section104Pools (fst (calculate clock raws newCalculator))))).
  { unfold calculate. destruct (normalizeTransactions clock raws) as [txs msgs].
    reflexivity. }
  rewrite R. set (calc := fst (calculate clock raws newCalculator)) in *.
  set (pools := section104Pools calc) in *.
  assert (Hsym : map ps_symbol
                     (map (fun e : string * Pool =>
                             let '(symbol, pool) := e in
                             mkPoolSummary symbol (round2dp (p_quantity pool))
                                           (round2dp (p_cost pool))
                                           (round2dp (p_cost pool / p_quantity pool)))
                          (filter (fun e => Qltb 0 (p_quantity (snd e))) pools))
                 = map fst (filter (fun e => Qltb 0 (p_quantity (snd e))) pools)).
  { rewrite map_map. apply map_ext. now intros [k p]. }
  assert (Hpool : forall k p, In (k, p) pools -> poolOf calc k = p).
  { intros k p Hin. unfold poolOf. fold pools. now rewrite (objGet_In _ _ _ Hnd Hin). }
  split; [|split].
  - rewrite Hsym. now apply NoDup_map_filter.
  - intros symbol. rewrite Hsym. split.
    + intros H. apply in_map_iff in H. destruct H as ([k p] & <- & Hin).
      apply filter_In in Hin. destruct Hin as [Hin Hq]. cbn [fst snd] in *.
      rewrite (Hpool _ _ Hin). now apply Qltb_lt.
    + intros H. unfold poolOf in H. fold pools in H.
      destruct (objGet pools symbol) as [p|] eqn:E.
      * apply objGet_Some_In in E. apply in_map_iff. exists (symbol, p).
        split; [reflexivity|]. apply filter_In. split; [exact E|].
        now apply Qltb_lt.
      * exfalso. apply (Qlt_irrefl 0 H).
  - intros line H. apply in_map_iff in H. destruct H as ([k p] & <- & Hin).
    apply filter_In in Hin. destruct Hin as [Hin _]. cbn [ps_symbol].
    rewrite (Hpool _ _ Hin). repeat split.
Qed.

End PoolSummary.

(** ** Instances of the facts about the stream and the pools *)

Lemma parseDate_midnight_witness :
  fst (parseDate (host := plainHost) (RawText "2024-05-01")) = Some (newDate 2024 4 1) /\
  (getTime (newDate 2024 4 1) mod msPerDay = 0)%Z.
Proof.
  assert (H : fst (parseDate (host := plainHost) (RawText "2024-05-01"))
              = Some (newDate 2024 4 1)) by reflexivity.
  split; [exact H|].
  destruct (parseDate_midnight (host := plainHost) _ _ H) as [K|[(text & _ & K)|K]].
  - discriminate K.
  - discriminate K.
  - exact K.
Defined.

Lemma buys_chronological_witness :
  let groups := fold_left bySymbolBody
                  (fst (normalizeTransactions (host := plainHost) clock0 scenarioD)) [] in
  In (nth 0 groups (""%string, [])) groups /\
  StronglySorted (fun a b => byDate a b = true)
                 (filter isBuy (snd (nth 0 groups (""%string, [])))).
Proof.
  cbv zeta.
  set (groups := fold_left bySymbolBody
                   (fst (normalizeTransactions (host := plainHost) clock0 scenarioD)) []).
  assert (H : In (nth 0 groups (""%string, [])) groups)
    by (apply nth_In; vm_compute; lia).
  split; [exact H|].
  apply (buys_chronological (host := plainHost) clock0 scenarioD
           (fst (nth 0 groups (""%string, [])))).
  now rewrite <- surjective_pairing.
Defined.

(** ** The rounded engine without rounding is the engine *)

Section Exact.
Let unrounded := fun x : Q => x.

Lemma round2dp_exact : Rounded.round2dp unrounded = round2dp.
Proof. reflexivity. Qed.

Lemma getDaysDifference_exact : Rounded.getDaysDifference unrounded = getDaysDifference.
Proof. reflexivity. Qed.

Lemma calculateCost_exact : Rounded.calculateCost unrounded = calculateCost.
Proof. unfold Rounded.calculateCost. rewrite round2dp_exact. reflexivity. Qed.

Lemma calculateProceeds_exact : Rounded.calculateProceeds unrounded = calculateProceeds.
Proof. unfold Rounded.calculateProceeds. rewrite round2dp_exact. reflexivity. Qed.

Lemma sameDayBody_exact : Rounded.sameDayBody unrounded = sameDayBody.
Proof.
  unfold Rounded.sameDayBody. rewrite round2dp_exact, calculateCost_exact. reflexivity.
Qed.

Lemma isBnbCandidate_exact : Rounded.isBnbCandidate unrounded = isBnbCandidate.
Proof. reflexivity. Qed.

Lemma bnbBody_exact : Rounded.bnbBody unrounded = bnbBody.
Proof.
  unfold Rounded.bnbBody.
  rewrite round2dp_exact, calculateCost_exact, getDaysDifference_exact. reflexivity.
Qed.

Lemma rollInBody_exact : Rounded.rollInBody unrounded = rollInBody.
Proof. unfold Rounded.rollInBody. rewrite calculateCost_exact. reflexivity. Qed.

Lemma drawFromPool_exact : Rounded.drawFromPool unrounded = drawFromPool.
Proof. unfold Rounded.drawFromPool. rewrite round2dp_exact. reflexivity. Qed.

Lemma sameDayStage_exact : Rounded.sameDayStage unrounded = sameDayStage.
Proof. unfold Rounded.sameDayStage. rewrite sameDayBody_exact. reflexivity. Qed.

Lemma bnbStage_exact : Rounded.bnbStage unrounded = bnbStage.
Proof.
  unfold Rounded.bnbStage. rewrite bnbBody_exact, isBnbCandidate_exact. reflexivity.
Qed.

Lemma poolStage_exact : Rounded.poolStage unrounded = poolStage.
Proof.
  unfold Rounded.poolStage. rewrite rollInBody_exact, drawFromPool_exact. reflexivity.
Qed.

Lemma processDisposal_exact : Rounded.processDisposal unrounded = processDisposal.
Proof.
  unfold Rounded.processDisposal.
  rewrite round2dp_exact, calculateProceeds_exact, sameDayStage_exact, bnbStage_exact,
    poolStage_exact.
  reflexivity.
Qed.

Lemma sellBody_exact : Rounded.sellBody unrounded = sellBody.
Proof. unfold Rounded.sellBody. rewrite processDisposal_exact. reflexivity. Qed.

Lemma finalRollInBody_exact : Rounded.finalRollInBody unrounded = finalRollInBody.
Proof.
  unfold Rounded.finalRollInBody, Rounded.poolView.
  rewrite round2dp_exact, calculateCost_exact. reflexivity.
Qed.

Lemma acquisitionOf_exact : Rounded.acquisitionOf unrounded = acquisitionOf.
Proof.
  unfold Rounded.acquisitionOf. rewrite round2dp_exact, calculateCost_exact. reflexivity.
Qed.

(** With no rounding, [Rounded.processSymbol] is [processSymbol]. *)
Lemma processSymbol_exact : Rounded.processSymbol unrounded = processSymbol.
Proof.
  unfold Rounded.processSymbol.
  rewrite sellBody_exact, finalRollInBody_exact, acquisitionOf_exact. reflexivity.
Qed.

(** And [Rounded.calculate_processed] gives the calculator of [calculate]. *)
Lemma calculate_exact {host : Host} clock raws calc :
  Rounded.calculate_processed unrounded clock raws calc = fst (calculate clock raws calc).
Proof.
  unfold Rounded.calculate_processed, calculate. rewrite processSymbol_exact.
  now destruct (normalizeTransactions clock raws).
Qed.

End Exact.

(** ** Rounding to the nearest double

    On the doubles of the two lists, two by two, [nearest] of the exact
    sum, difference, product and quotient is the result of the kernel's
    binary64 operation. *)

Lemma nearest_agrees_with_the_kernel :
  sameResults sampleDoubles = true /\ sameResults edgeDoubles = true.
Proof. split; vm_compute; reflexivity. Qed.

(** [round2dp] on the doubles is not [round2dp] on the decimals they stand
    for: the double nearest to 1.005 lies below it, and so does its product
    with 100, which rounds down to 100; the double nearest to 1.115 lies
    below it as well, but its product with 100 is rounded to 111.5 and goes
    up. *)
Lemma round2dp_on_doubles :
  (Binary64.literal 1.005 < 1.005 /\
   Binary64.round2dp (Binary64.literal 1.005) == 1 /\
   round2dp 1.005 == 1.01) /\
  (Binary64.literal 1.115 < 1.115 /\
   Binary64.round2dp (Binary64.literal 1.115) == Binary64.literal 1.12 /\
   round2dp 1.115 == 1.12).
Proof. vm_compute. repeat split; reflexivity. Qed.

(** ** Signs under rounding *)

Lemma pow2_pos k : 0 < Binary64.pow2 k.
Proof.
  assert (P : forall n, (0 <= n)%Z -> 0 < inject_Z (2 ^ n)).
  { intros n Hn. change 0 with (inject_Z 0). rewrite <- Zlt_Qlt.
    apply Z.pow_pos_nonneg; lia. }
  unfold Binary64.pow2. destruct (Z.leb_spec 0 k); [now apply P|].
  apply Qlt_shift_div_l; [apply P; lia | lra].
Qed.

Lemma roundHalfEven_nonneg x : 0 <= x -> (0 <= Binary64.roundHalfEven x)%Z.
Proof.
  intros H. unfold Binary64.roundHalfEven. cbv zeta.
  assert (F : (0 <= Qfloor x)%Z) by (change 0%Z with (Qfloor 0); now apply Qfloor_resp_le).
  destruct (Qcompare _ _); [destruct (Z.even _)| |]; lia.
Qed.

(** Rounding to the nearest double keeps the sign. *)
Lemma nearest_nonneg x : 0 <= x -> 0 <= Binary64.nearest x.
Proof.
  intros H. unfold Binary64.nearest. destruct (Qeq_bool x 0); [apply Qle_refl|].
  cbv zeta. set (e := Z.max _ _). rewrite Qred_correct.
  pose proof (pow2_pos e) as Hp.
  assert (Hq : 0 <= x / Binary64.pow2 e) by (apply Qle_shift_div_l; [exact Hp | lra]).
  apply roundHalfEven_nonneg in Hq.
  rewrite Zle_Qle in Hq. change (inject_Z 0) with 0 in Hq.
  set (n := inject_Z _) in *. nra.
Qed.

Section SignsUnderRounding.
Variable rnd : Q -> Q.
Hypothesis rnd_nonneg : forall x, 0 <= x -> 0 <= rnd x.

Lemma add_nonneg x y : 0 <= x -> 0 <= y -> 0 <= Rounded.add rnd x y.
Proof. intros. apply rnd_nonneg. lra. Qed.

Lemma sub_nonneg x y : y <= x -> 0 <= Rounded.sub rnd x y.
Proof. intros. apply rnd_nonneg. lra. Qed.

Lemma mul_nonneg x y : 0 <= x -> 0 <= y -> 0 <= Rounded.mul rnd x y.
Proof. intros. apply rnd_nonneg. nra. Qed.

Lemma div_nonneg x y : 0 <= x -> 0 < y -> 0 <= Rounded.div rnd x y.
Proof. intros. apply rnd_nonneg. now apply Qdiv_nonneg. Qed.

Lemma rounded_round2dp_nonneg x : 0 <= x -> 0 <= Rounded.round2dp rnd x.
Proof.
  intros H. unfold Rounded.round2dp. apply div_nonneg; [|reflexivity].
  change 0 with (inject_Z 0). rewrite <- Zle_Qle.
  unfold mathRound. change 0%Z with (Qfloor 0). apply Qfloor_resp_le.
  pose proof (mul_nonneg x 100 H ltac:(discriminate)). lra.
Qed.

Lemma rounded_calculateCost_nonneg t q :
  NonNegativeCost t -> 0 <= q -> 0 <= Rounded.calculateCost rnd t q.
Proof.
  intros (Hq & Ha & Hf & Hx) Hq0. unfold Rounded.calculateCost.
  assert (Hp : 0 <= Rounded.div rnd q (t_quantity t)) by now apply div_nonneg.
  apply rounded_round2dp_nonneg, div_nonneg; [|exact Hx].
  apply add_nonneg.
  - destruct (t_totalAmount t); now apply mul_nonneg.
  - now apply mul_nonneg.
Qed.

Lemma rounded_sameDayBody_store pps i acc :
  NotOverdrawn (acc_buys acc) ->
  NotOverdrawn (acc_buys (Rounded.sameDayBody rnd pps i acc)).
Proof.
  intros H. unfold Rounded.sameDayBody.
  destruct (nth_error (acc_buys acc) i) as [buy|] eqn:E; [|exact H]. simpl.
  apply NotOverdrawn_setNth; [exact H|]. apply sub_nonneg, mathMin_le_r.
Qed.

Lemma rounded_bnbBody_store pool disposal pps i acc :
  NotOverdrawn (acc_buys acc) ->
  NotOverdrawn (acc_buys (Rounded.bnbBody rnd pool disposal pps i acc)).
Proof.
  intros H. unfold Rounded.bnbBody.
  destruct (nth_error (acc_buys acc) i) as [buy|] eqn:E; [|exact H]. simpl.
  apply NotOverdrawn_setNth; [exact H|]. apply sub_nonneg, mathMin_le_r.
Qed.

(** A roll-in of earlier acquisitions keeps the quantity of the pool and
    the store not negative; it keeps the cost not negative when the
    amounts of the acquisitions are not. *)
Lemma rounded_rollIn_ok cands pool buys :
  0 <= p_quantity pool -> NotOverdrawn buys ->
  0 <= p_quantity (fst (fold_left (Rounded.rollInBody rnd) cands (pool, buys))) /\
  NotOverdrawn (snd (fold_left (Rounded.rollInBody rnd) cands (pool, buys))) /\
  (Forall NonNegativeCost buys -> 0 <= p_cost pool ->
   0 <= p_cost (fst (fold_left (Rounded.rollInBody rnd) cands (pool, buys)))).
Proof.
  revert pool buys. induction cands as [|i cands IH]; intros pool buys Hq Hs;
    [now repeat split|].
  cbn [fold_left]. unfold Rounded.rollInBody at 2 4 6.
  destruct (nth_error buys i) as [buy|] eqn:E; [|now apply IH].
  pose proof (NotOverdrawn_nth _ _ _ Hs E) as Hr.
  destruct (IH (mkPool (Rounded.add rnd (p_quantity pool) (t_remainingQty buy))
                       (Rounded.add rnd (p_cost pool)
                          (Rounded.calculateCost rnd buy (t_remainingQty buy))))
               (setNth buys i (withRemainingQty buy 0)))
    as (A & B & C).
  - simpl. now apply add_nonneg.
  - apply NotOverdrawn_setNth; [exact Hs | apply Qle_refl].
  - split; [exact A | split; [exact B|]]. intros Hn Hc. apply C.
    + apply Forall_setNth; [exact Hn|].
      rewrite Forall_forall in Hn. exact (Hn _ (nth_error_In _ _ E)).
    + simpl. apply add_nonneg; [exact Hc|].
      apply rounded_calculateCost_nonneg; [|exact Hr].
      rewrite Forall_forall in Hn. exact (Hn _ (nth_error_In _ _ E)).
Qed.

Lemma rounded_drawFromPool_ok pps pool acc :
  0 <= p_quantity pool ->
  0 <= p_quantity (fst (Rounded.drawFromPool rnd pps pool acc)).
Proof.
  intros Hq. unfold Rounded.drawFromPool.
  destruct (Qltb 0 (p_quantity pool)); [|exact Hq]. simpl.
  apply sub_nonneg, mathMin_le_r.
Qed.

Lemma rounded_drawFromPool_buys pps pool acc :
  acc_buys (snd (Rounded.drawFromPool rnd pps pool acc)) = acc_buys acc.
Proof.
  unfold Rounded.drawFromPool. now destruct (Qltb 0 (p_quantity pool)).
Qed.

Lemma rounded_poolStage_ok pool disposal pps acc :
  0 <= p_quantity pool -> NotOverdrawn (acc_buys acc) ->
  0 <= p_quantity (fst (Rounded.poolStage rnd pool disposal pps acc)) /\
  NotOverdrawn (acc_buys (snd (Rounded.poolStage rnd pool disposal pps acc))).
Proof.
  intros Hq Hs. unfold Rounded.poolStage.
  destruct (Qltb 0 (acc_remainingQty acc)); [|now split].
  destruct (rounded_rollIn_ok (filterIndices (isEarlierBuy disposal) (acc_buys acc))
              pool (acc_buys acc) Hq Hs) as (A & B & _).
  destruct (fold_left (Rounded.rollInBody rnd) _ _) as [pool1 buys1]. simpl in A, B.
  split; [now apply rounded_drawFromPool_ok|].
  now rewrite rounded_drawFromPool_buys.
Qed.

Lemma rounded_processDisposal_ok symbol disposal buys pool :
  0 <= p_quantity pool -> NotOverdrawn buys ->
  0 <= p_quantity (out_pool (Rounded.processDisposal rnd symbol disposal buys pool)) /\
  NotOverdrawn (out_buys (Rounded.processDisposal rnd symbol disposal buys pool)).
Proof.
  intros Hq Hs. unfold Rounded.processDisposal.
  set (pps := Rounded.round2dp rnd _).
  assert (H1 : NotOverdrawn (acc_buys (Rounded.sameDayStage rnd disposal pps buys))).
  { unfold Rounded.sameDayStage.
    apply (forEachUntilMatched_inv (fun a => NotOverdrawn (acc_buys a))); [|exact Hs].
    intros i a Ha _. now apply rounded_sameDayBody_store. }
  set (acc1 := Rounded.sameDayStage rnd disposal pps buys) in *.
  assert (H2 : NotOverdrawn (acc_buys (Rounded.bnbStage rnd pool disposal pps acc1))).
  { unfold Rounded.bnbStage. destruct (Qltb 0 (acc_remainingQty acc1)); [|exact H1].
    apply (forEachUntilMatched_inv (fun a => NotOverdrawn (acc_buys a))); [|exact H1].
    intros i a Ha _. now apply rounded_bnbBody_store. }
  set (acc2 := Rounded.bnbStage rnd pool disposal pps acc1) in *.
  pose proof (rounded_poolStage_ok pool disposal pps acc2 Hq H2) as H3.
  destruct (Rounded.poolStage rnd pool disposal pps acc2) as [pool3 acc3].
  destruct (getTaxYear (t_date disposal)) as [taxYear msgs]. exact H3.
Qed.

Lemma rounded_sells_ok symbol sells st :
  0 <= p_quantity (ss_pool st) -> NotOverdrawn (ss_buys st) ->
  0 <= p_quantity (ss_pool (fold_left (Rounded.sellBody rnd symbol) sells st)) /\
  NotOverdrawn (ss_buys (fold_left (Rounded.sellBody rnd symbol) sells st)).
Proof.
  revert st. induction sells as [|d sells IH]; intros st Hq Hs; [now split|].
  cbn [fold_left]. apply IH; unfold Rounded.sellBody; simpl;
    now apply rounded_processDisposal_ok.
Qed.

Lemma rounded_finalRollIn_ok bs pool history :
  0 <= p_quantity pool -> NotOverdrawn bs ->
  0 <= p_quantity (fst (fold_left (Rounded.finalRollInBody rnd) bs (pool, history))) /\
  (Forall NonNegativeCost bs -> 0 <= p_cost pool ->
   0 <= p_cost (fst (fold_left (Rounded.finalRollInBody rnd) bs (pool, history)))).
Proof.
  intros Hq Hs. revert pool history Hq.
  induction Hs as [|b bs Hb Hs IH]; intros pool history Hq; [now split|].
  cbn [fold_left]. unfold Rounded.finalRollInBody at 2 4.
  destruct (Qltb 0 (t_remainingQty b)).
  - destruct (IH (mkPool (Rounded.add rnd (p_quantity pool) (t_remainingQty b))
                         (Rounded.add rnd (p_cost pool)
                            (Rounded.calculateCost rnd b (t_remainingQty b))))
                 (history ++ [mkHistory (formatDateLocal (t_date b)) (t_remainingQty b)
                    (Rounded.round2dp rnd (Rounded.calculateCost rnd b (t_remainingQty b)))
                    (Rounded.round2dp rnd
                       (Rounded.div rnd (Rounded.calculateCost rnd b (t_remainingQty b))
                                    (t_remainingQty b)))
                    (Rounded.poolView rnd pool)
                    (mkPoolView
                       (Rounded.add rnd (p_quantity pool) (t_remainingQty b))
                       (Rounded.add rnd (p_cost pool)
                          (Rounded.calculateCost rnd b (t_remainingQty b)))
                       (Rounded.round2dp rnd
                          (Rounded.div rnd
                             (Rounded.add rnd (p_cost pool)
                                (Rounded.calculateCost rnd b (t_remainingQty b)))
                             (Rounded.add rnd (p_quantity pool) (t_remainingQty b)))))
                    (isSchwab (t_broker b)) (t_broker b)]))
      as (A & C).
    + simpl. now apply add_nonneg.
    + split; [exact A|]. intros Hn Hc. apply C.
      * now inversion Hn.
      * simpl. apply add_nonneg; [exact Hc|].
        apply rounded_calculateCost_nonneg; [now inversion Hn | exact Hb].
  - destruct (IH pool history Hq) as (A & C). split; [exact A|].
    intros Hn Hc. apply C; [now inversion Hn | exact Hc].
Qed.


Lemma rounded_processSymbol_pools symbol txs calc :
  Forall (fun e => 0 <= p_quantity (snd e)) (section104Pools calc) ->
  NotOverdrawn (filter isBuy txs) ->
  Forall (fun e => 0 <= p_quantity (snd e))
         (section104Pools (Rounded.processSymbol rnd symbol txs calc)).
Proof.
  intros Hc Hb. unfold Rounded.processSymbol.
  set (st0 := mkSymbolState _ _ _ _ _).
  assert (Hp : 0 <= p_quantity (poolOf calc symbol)).
  { unfold poolOf. destruct (objGet (section104Pools calc) symbol) as [p|] eqn:E.
    - apply objGet_Some_In in E. rewrite Forall_forall in Hc. exact (Hc _ E).
    - apply Qle_refl. }
  destruct (rounded_sells_ok symbol (filter isSell txs) st0 Hp Hb) as [Hq Hs].
  set (st := fold_left (Rounded.sellBody rnd symbol) (filter isSell txs) st0) in *.
  destruct (rounded_finalRollIn_ok (ss_buys st) (ss_pool st) (historyOf calc symbol)
              Hq Hs) as [A _].
  destruct (fold_left (Rounded.finalRollInBody rnd) _ _) as [pool history].
  simpl. apply Forall_objSet; [exact A | exact Hc].
Qed.

End SignsUnderRounding.




Section WholeRun.
Context {host : Host}.

(** X26. On the doubles, a whole run from a fresh calculator leaves no pool
    with a negative quantity, whatever the input. *)
Theorem calculate_pool_quantities_ok clock raws :
  Forall (fun e => 0 <= p_quantity (snd e))
         (section104Pools (Binary64.calculate_processed clock raws newCalculator)).
Proof.
  unfold Binary64.calculate_processed, Rounded.calculate_processed.
  pose proof (normalized_remaining clock raws) as Hrem.
  pose proof (normalized_positive clock raws) as Hpos.
  destruct (normalizeTransactions clock raws) as [txs msgs]. simpl in *.
  assert (HP : Forall (fun t => 0 <= t_remainingQty t) txs).
  { apply Forall_forall. intros t Ht. rewrite Forall_forall in Hrem, Hpos.
    rewrite (Hrem _ Ht). apply Qlt_le_weak. now apply Hpos. }
  pose proof (bySymbol_Forall _ txs [] HP (Forall_nil _)) as Hgroups.
  set (c0 := mkCalculator _ _ _ _ _ _).
  assert (H0 : Forall (fun e : string * Pool => 0 <= p_quantity (snd e))
                      (section104Pools c0)) by constructor.
  clearbody c0. revert c0 H0.
  induction Hgroups as [|[k ts] o Hts Ho IH]; intros c0 H0; [exact H0|].
  cbn [fold_left]. apply IH.
  apply (rounded_processSymbol_pools _ nearest_nonneg); [exact H0|].
  simpl in Hts. unfold NotOverdrawn. rewrite Forall_forall in *.
  intros t Ht. apply filter_In in Ht. now apply Hts.
Qed.

End WholeRun.

(** ** The error of a rounding to the nearest double *)

Lemma pow2_Qpower k : Binary64.pow2 k == 2 ^ k.
Proof.
  unfold Binary64.pow2. destruct (Z.leb_spec 0 k).
  - rewrite Zpower_Qpower by lia. reflexivity.
  - rewrite Zpower_Qpower by lia. change (inject_Z 2) with 2.
    replace (2 ^ k) with (2 ^ (- - k)) by (f_equal; lia).
    rewrite (Qpower_opp 2 (- k)). unfold Qdiv. apply Qmult_1_l.
Qed.

Lemma pow2_of_nat_exponent k : (0 <= k)%Z -> Binary64.pow2 k = inject_Z (2 ^ k).
Proof.
  intros H. unfold Binary64.pow2. now rewrite (proj2 (Z.leb_le 0 k) H).
Qed.

Lemma pow2_add i j : Binary64.pow2 (i + j) == Binary64.pow2 i * Binary64.pow2 j.
Proof. rewrite !pow2_Qpower. apply Qpower_plus. discriminate. Qed.

Lemma roundHalfEven_error y :
  y - (1 # 2) <= inject_Z (Binary64.roundHalfEven y) /\
  inject_Z (Binary64.roundHalfEven y) <= y + (1 # 2).
Proof.
  unfold Binary64.roundHalfEven. cbv zeta.
  pose proof (Qfloor_le y) as Hlo. pose proof (Qlt_floor y) as Hhi.
  set (f := Qfloor y) in *.
  rewrite inject_Z_plus in Hhi. change (inject_Z 1) with 1 in Hhi.
  destruct (Qcompare (y - inject_Z f) (1 # 2)) eqn:E.
  - apply Qeq_alt in E. destruct (Z.even f);
      rewrite ?inject_Z_plus; change (inject_Z 1) with 1; split; lra.
  - apply Qlt_alt in E. split; lra.
  - apply Qgt_alt in E. rewrite inject_Z_plus. change (inject_Z 1) with 1. split; lra.
Qed.

(** [log2floor] does not overshoot. *)
Lemma log2floor_le x : 0 < x -> Binary64.pow2 (Binary64.log2floor x) <= x.
Proof.
  intros Hx. unfold Binary64.log2floor. cbv zeta.
  set (a := Z.log2 (Qnum x)). set (b := Z.log2 (Zpos (Qden x))).
  destruct (Qle_bool (Binary64.pow2 (a - b)) x) eqn:E; [now apply Qle_bool_iff|].
  assert (Hn : (0 < Qnum x)%Z).
  { unfold Qlt in Hx. simpl in Hx. lia. }
  destruct (Z.log2_spec (Qnum x) Hn) as [A1 A2].
  destruct (Z.log2_spec (Zpos (Qden x)) ltac:(lia)) as [B1 B2].
  fold a in A1, A2. fold b in B1, B2.
  assert (Ha : (0 <= a)%Z) by apply Z.log2_nonneg.
  assert (Hb : (0 <= b)%Z) by apply Z.log2_nonneg.
  (* 2^(a-b-1) * den <= num *)
  assert (K : Binary64.pow2 (a - b - 1) * inject_Z (Zpos (Qden x)) <= inject_Z (Qnum x)).
  { apply Qle_trans with (Binary64.pow2 (a - b - 1) * Binary64.pow2 (b + 1)).
    - apply Qmult_le_l; [apply pow2_pos|].
      rewrite pow2_of_nat_exponent by lia. rewrite <- Zle_Qle. lia.
    - rewrite <- pow2_add. replace (a - b - 1 + (b + 1))%Z with a by lia.
      rewrite pow2_of_nat_exponent by lia. now rewrite <- Zle_Qle. }
  assert (Ex : x == inject_Z (Qnum x) / inject_Z (Zpos (Qden x))).
  { rewrite <- Qmake_Qdiv. now destruct x. }
  apply Qle_trans with (inject_Z (Qnum x) / inject_Z (Zpos (Qden x))).
  - apply Qle_shift_div_l; [reflexivity | exact K].
  - rewrite <- Ex. apply Qle_refl.
Qed.

(** Nor does it undershoot. *)
Lemma log2floor_lt x : 0 < x -> x < Binary64.pow2 (Binary64.log2floor x + 1).
Proof.
  intros Hx. unfold Binary64.log2floor. cbv zeta.
  set (a := Z.log2 (Qnum x)). set (b := Z.log2 (Zpos (Qden x))).
  destruct (Qle_bool (Binary64.pow2 (a - b)) x) eqn:E.
  - assert (Hn : (0 < Qnum x)%Z).
    { unfold Qlt in Hx. simpl in Hx. lia. }
    destruct (Z.log2_spec (Qnum x) Hn) as [A1 A2].
    destruct (Z.log2_spec (Zpos (Qden x)) ltac:(lia)) as [B1 B2].
    fold a in A1, A2. fold b in B1, B2.
    assert (Ha : (0 <= a)%Z) by apply Z.log2_nonneg.
    assert (Hb : (0 <= b)%Z) by apply Z.log2_nonneg.
    assert (K : inject_Z (Qnum x) < Binary64.pow2 (a - b + 1) * inject_Z (Zpos (Qden x))).
    { apply Qlt_le_trans with (Binary64.pow2 (a - b + 1) * Binary64.pow2 b).
      - rewrite <- pow2_add. replace (a - b + 1 + b)%Z with (a + 1)%Z by lia.
        rewrite pow2_of_nat_exponent by lia. rewrite <- Zlt_Qlt. lia.
      - apply Qmult_le_l; [apply pow2_pos|].
        rewrite pow2_of_nat_exponent by lia. rewrite <- Zle_Qle. lia. }
    assert (Ex : x == inject_Z (Qnum x) / inject_Z (Zpos (Qden x))).
    { rewrite <- Qmake_Qdiv. now destruct x. }
    apply Qle_lt_trans with (inject_Z (Qnum x) / inject_Z (Zpos (Qden x))).
    + rewrite <- Ex. apply Qle_refl.
    + apply Qlt_shift_div_r; [reflexivity | exact K].
  - replace (a - b - 1 + 1)%Z with (a - b)%Z by lia.
    apply Qnot_le_lt. intros H. apply Qle_bool_iff in H. congruence.
Qed.

Lemma pow2_half e : Binary64.pow2 e * (1 # 2) == Binary64.pow2 (e - 1).
Proof.
  replace (e - 1)%Z with (e + -1)%Z by lia. rewrite pow2_add. reflexivity.
Qed.

(** Half a unit in the last place of the doubles around [x]: a relative
    error of [2^-53], or [2^-1075] among the subnormals. *)
Lemma nearest_error x :
  Qabs (Binary64.nearest x - x)
  <= Qabs x * Binary64.pow2 (-53) + Binary64.pow2 (-1075).
Proof.
  pose proof (Qabs_nonneg x) as Ha.
  pose proof (pow2_pos (-53)) as Hu. pose proof (pow2_pos (-1075)) as Ht.
  unfold Binary64.nearest. destruct (Qeq_bool x 0) eqn:E.
  - apply Qeq_bool_eq in E.
    apply Qabs_Qle_condition.
    set (u := Binary64.pow2 (-53)) in *. set (t := Binary64.pow2 (-1075)) in *.
    set (a := Qabs x) in *. split; nra.
  - cbv zeta. set (L := Binary64.log2floor (Qabs x)).
    set (e := Z.max (L - 52) (-1074)). rewrite Qred_correct.
    assert (Hx : 0 < Qabs x).
    { apply Qeq_bool_neq in E. destruct (Qlt_le_dec 0 (Qabs x)) as [H|H]; [exact H|].
      exfalso. apply E. revert H. apply Qabs_case; intros; lra. }
    pose proof (pow2_pos e) as Hp.
    destruct (roundHalfEven_error (x / Binary64.pow2 e)) as [R1 R2].
    set (r := inject_Z (Binary64.roundHalfEven (x / Binary64.pow2 e))) in *.
    assert (Ey : x / Binary64.pow2 e * Binary64.pow2 e == x) by (field; lra).
    assert (Hhalf : Binary64.pow2 e * (1 # 2)
                    <= Qabs x * Binary64.pow2 (-53) + Binary64.pow2 (-1075)).
    { rewrite pow2_half. unfold e. destruct (Z.max_spec (L - 52) (-1074)) as [[_ ->]|[_ ->]].
      - change (-1074 - 1)%Z with (-1075)%Z.
        set (u := Binary64.pow2 (-53)) in *. set (t := Binary64.pow2 (-1075)) in *. nra.
      - replace (L - 52 - 1)%Z with (L + -53)%Z by lia. rewrite pow2_add.
        pose proof (log2floor_le (Qabs x) Hx) as HL. fold L in HL.
        pose proof (pow2_pos L).
        set (u := Binary64.pow2 (-53)) in *. set (t := Binary64.pow2 (-1075)) in *.
        set (pL := Binary64.pow2 L) in *. nra. }
    set (p := Binary64.pow2 e) in *. set (y := x / p) in *.
    set (bound := Qabs x * Binary64.pow2 (-53) + Binary64.pow2 (-1075)) in *.
    apply Qabs_Qle_condition. split; nra.
Qed.

(** What [nearest] returns is a double: a significand of at most 53 bits
    times a power of two that is [2^-1074] at least; and it is within half
    a unit of the last place of what it rounds. *)
Lemma nearest_is_a_double x :
  exists (m e : Z),
    Binary64.nearest x == inject_Z m * Binary64.pow2 e /\
    (- 2 ^ 53 <= m <= 2 ^ 53)%Z /\ (-1074 <= e)%Z /\
    Qabs (Binary64.nearest x - x) <= Binary64.pow2 (e - 1).
Proof.
  unfold Binary64.nearest. destruct (Qeq_bool x 0) eqn:E.
  - exists 0%Z, (-1074)%Z. apply Qeq_bool_eq in E.
    split; [reflexivity|]. split; [lia|]. split; [lia|].
    pose proof (pow2_pos (-1074 - 1)). apply Qabs_Qle_condition. split; lra.
  - cbv zeta. set (L := Binary64.log2floor (Qabs x)).
    set (e := Z.max (L - 52) (-1074)).
    exists (Binary64.roundHalfEven (x / Binary64.pow2 e)), e.
    rewrite Qred_correct.
    assert (Hx : 0 < Qabs x).
    { apply Qeq_bool_neq in E. destruct (Qlt_le_dec 0 (Qabs x)) as [H|H]; [exact H|].
      exfalso. apply E. revert H. apply Qabs_case; intros; lra. }
    pose proof (pow2_pos e) as Hp.
    destruct (roundHalfEven_error (x / Binary64.pow2 e)) as [R1 R2].
    assert (Ey : x / Binary64.pow2 e * Binary64.pow2 e == x) by (field; lra).
    split; [reflexivity|]. split; [|split; [lia|]].
    + (* the significand *)
      pose proof (log2floor_lt (Qabs x) Hx) as HL. fold L in HL.
      assert (Hle : Binary64.pow2 (L + 1) <= Binary64.pow2 53 * Binary64.pow2 e).
      { rewrite <- pow2_add. rewrite !pow2_Qpower.
        apply Qpower_le_compat_l; [lia | discriminate]. }
      assert (Xa : x <= Qabs x) by apply Qle_Qabs.
      assert (Xb : - x <= Qabs x) by (rewrite <- Qabs_opp; apply Qle_Qabs).
      assert (P53 : Binary64.pow2 53 == inject_Z (2 ^ 53)) by reflexivity.
      set (y := x / Binary64.pow2 e) in *. set (p := Binary64.pow2 e) in *.
      set (q := Binary64.pow2 53) in *.
      assert (Y1 : y < q) by nra.
      assert (Y2 : - q < y) by nra.
      set (r := Binary64.roundHalfEven y) in *.
      assert (Z1 : inject_Z r < inject_Z (2 ^ 53 + 1)).
      { rewrite inject_Z_plus, <- P53. change (inject_Z 1) with 1. lra. }
      assert (Z2 : inject_Z (- 2 ^ 53 - 1) < inject_Z r).
      { unfold Z.sub. rewrite inject_Z_plus, inject_Z_opp, <- P53.
        change (inject_Z (- (1))) with (-1). lra. }
      rewrite <- Zlt_Qlt in Z1, Z2. lia.
    + rewrite <- pow2_half.
      set (y := x / Binary64.pow2 e) in *. set (p := Binary64.pow2 e) in *.
      set (r := inject_Z (Binary64.roundHalfEven y)) in *.
      apply Qabs_Qle_condition. split; nra.
Qed.

(** ** [round2dp] on the doubles *)

Lemma two_sided (x b : Q) : Qabs x <= b -> - b <= x /\ x <= b.
Proof. intros H. now apply Qabs_Qle_condition. Qed.

(** X1. On the doubles, [round2dp x] is the double nearest to a whole
    number of hundredths, and that number is within half a hundredth of
    [x] up to the rounding of the product and of the quotient: the result
    differs from [x] by at most half a penny and [(|x| + 1) * 2^-51]. *)
Theorem round2dp_half_a_penny_on_doubles (x : Q) :
  (exists n : Z, Binary64.round2dp x = Binary64.nearest (inject_Z n / 100)) /\
  Qabs (Binary64.round2dp x - x)
  <= (1 # 200) + (Qabs x + 1) * Binary64.pow2 (-51).
Proof.
  unfold Binary64.round2dp, Rounded.round2dp, Rounded.div, Rounded.mul.
  set (h := Binary64.nearest (x * 100)).
  set (n := mathRound h).
  split; [now exists n|].
  set (m := inject_Z n / 100).
  pose proof (Qabs_nonneg x) as Ha.
  assert (U1 : Binary64.pow2 (-51) == 4 * Binary64.pow2 (-53)) by reflexivity.
  assert (U2 : Binary64.pow2 (-53) <= 1) by (vm_compute; discriminate).
  assert (U3 : Binary64.pow2 (-1075) <= Binary64.pow2 (-53)) by (vm_compute; discriminate).
  pose proof (pow2_pos (-53)) as Hu. pose proof (pow2_pos (-1075)) as Ht.
  (* the product *)
  pose proof (nearest_error (x * 100)) as Eh. fold h in Eh.
  rewrite Qabs_Qmult in Eh. change (Qabs 100) with 100 in Eh.
  apply two_sided in Eh. destruct Eh as [H1 H2].
  (* Math.round *)
  destruct (proj1 (mathRound_spec h n) eq_refl) as [N1 N2].
  assert (Em : m * 100 == inject_Z n) by (unfold m; field).
  (* the quotient *)
  pose proof (nearest_error m) as Er.
  assert (Hm : Qabs m <= Qabs x * (1 + Binary64.pow2 (-53))
                         + Binary64.pow2 (-1075) / 100 + (1 # 200)).
  { apply Qabs_Qle_condition.
    set (u := Binary64.pow2 (-53)) in *. set (t := Binary64.pow2 (-1075)) in *.
    set (a := Qabs x) in *.
    assert (Xa : x <= a) by apply Qle_Qabs.
    assert (Xb : - x <= a) by (unfold a; rewrite <- Qabs_opp; apply Qle_Qabs).
    assert (T : t / 100 * 100 == t) by field.
    set (t' := t / 100) in *.
    split; nra. }
  apply two_sided in Er. destruct Er as [R1 R2].
  apply Qabs_Qle_condition.
  rewrite U1.
  set (u := Binary64.pow2 (-53)) in *. set (t := Binary64.pow2 (-1075)) in *.
  set (a := Qabs x) in *. set (r := Binary64.nearest m) in *.
  set (am := Qabs m) in *.
  assert (Am : 0 <= am) by apply Qabs_nonneg.
  assert (T : t / 100 * 100 == t) by field.
  set (t' := t / 100) in *.
  assert (P1 : am * u <= (a * (1 + u) + t' + (1 # 200)) * u)
    by (apply Qmult_le_compat_r; [exact Hm | lra]).
  assert (Q1 : 0 <= a * u) by (apply Qmult_le_0_compat; lra).
  assert (P2 : a * u * u <= a * u).
  { set (w := a * u) in *. rewrite <- (Qmult_1_r w) at 2.
    destruct (Qle_lt_or_eq _ _ Q1) as [Q2|Q2];
      [apply Qmult_le_l; [exact Q2 | exact U2] | rewrite <- Q2; lra]. }
  split; nra.
Qed.

(** ** Identifiers are carried whole

    The engine copies an identifier from a sale to its disposal and never
    looks inside: whatever is done to the identifiers of the matching
    stream before a run is done to those of the report. *)

Section Relabel.
Variable f : TxnId -> TxnId.

Lemma forEachUntilMatched_relabel body cands acc :
  (forall i a, body i (relabelAcc f a) = relabelAcc f (body i a)) ->
  forEachUntilMatched body cands (relabelAcc f acc)
  = relabelAcc f (forEachUntilMatched body cands acc).
Proof.
  intros H. revert acc. induction cands as [|i rest IH]; intros acc; simpl.
  - reflexivity.
  - destruct (Qle_bool (acc_remainingQty acc) 0); [reflexivity|].
    now rewrite H, IH.
Qed.

Lemma sameDayBody_relabel pps i acc :
  sameDayBody pps i (relabelAcc f acc) = relabelAcc f (sameDayBody pps i acc).
Proof.
  unfold sameDayBody, relabelAcc; simpl. rewrite nth_error_map.
  destruct (nth_error (acc_buys acc) i) as [buy|]; simpl; [|reflexivity].
  f_equal. exact (setNth_map (relabel f) _ _ (withRemainingQty buy _)).
Qed.

Lemma bnbBody_relabel pool disposal pps i acc :
  bnbBody pool (relabel f disposal) pps i (relabelAcc f acc)
  = relabelAcc f (bnbBody pool disposal pps i acc).
Proof.
  unfold bnbBody, relabelAcc; simpl. rewrite nth_error_map.
  destruct (nth_error (acc_buys acc) i) as [buy|]; simpl; [|reflexivity].
  f_equal. exact (setNth_map (relabel f) _ _ (withRemainingQty buy _)).
Qed.

Lemma timeAt_relabel buys i : timeAt (map (relabel f) buys) i = timeAt buys i.
Proof.
  unfold timeAt. rewrite nth_error_map. now destruct (nth_error buys i).
Qed.

Lemma sameDayStage_relabel disposal pps buys :
  sameDayStage (relabel f disposal) pps (map (relabel f) buys)
  = relabelAcc f (sameDayStage disposal pps buys).
Proof.
  unfold sameDayStage.
  rewrite (filterIndices_map (relabel f) _ (isSameDayCandidate disposal))
    by reflexivity.
  change (mkAcc (t_quantity (relabel f disposal)) 0 [] (map (relabel f) buys))
    with (relabelAcc f (mkAcc (t_quantity disposal) 0 [] buys)).
  apply forEachUntilMatched_relabel. intros. apply sameDayBody_relabel.
Qed.

Lemma bnbStage_relabel pool disposal pps acc :
  bnbStage pool (relabel f disposal) pps (relabelAcc f acc)
  = relabelAcc f (bnbStage pool disposal pps acc).
Proof.
  unfold bnbStage. simpl.
  destruct (Qltb 0 (acc_remainingQty acc)); [|reflexivity].
  rewrite (filterIndices_map (relabel f) _ (isBnbCandidate disposal)) by reflexivity.
  rewrite (stableSort_ext (byTimeAt (map (relabel f) (acc_buys acc)))
                          (byTimeAt (acc_buys acc)))
    by (intros; unfold byTimeAt; now rewrite !timeAt_relabel).
  apply forEachUntilMatched_relabel. intros. apply bnbBody_relabel.
Qed.

Lemma rollIn_relabel cands pool buys :
  fold_left rollInBody cands (pool, map (relabel f) buys)
  = (fst (fold_left rollInBody cands (pool, buys)),
     map (relabel f) (snd (fold_left rollInBody cands (pool, buys)))).
Proof.
  revert pool buys. induction cands as [|i rest IH]; intros pool buys; simpl.
  - reflexivity.
  - rewrite nth_error_map.
    destruct (nth_error buys i) as [buy|]; simpl; [|apply IH].
    rewrite <- IH. f_equal. f_equal.
    exact (setNth_map (relabel f) _ _ (withRemainingQty buy _)).
Qed.

Lemma poolStage_relabel pool disposal pps acc :
  poolStage pool (relabel f disposal) pps (relabelAcc f acc)
  = (fst (poolStage pool disposal pps acc),
     relabelAcc f (snd (poolStage pool disposal pps acc))).
Proof.
  unfold poolStage. simpl.
  destruct (Qltb 0 (acc_remainingQty acc)); [|reflexivity].
  rewrite (filterIndices_map (relabel f) _ (isEarlierBuy disposal)) by reflexivity.
  rewrite rollIn_relabel.
  destruct (fold_left rollInBody _ (pool, acc_buys acc)) as [pool1 buys1]. simpl.
  unfold drawFromPool. simpl.
  now destruct (Qltb 0 (p_quantity pool1)).
Qed.

Lemma processDisposal_relabel symbol disposal buys pool :
  processDisposal symbol (relabel f disposal) (map (relabel f) buys) pool
  = relabelOutcome f (processDisposal symbol disposal buys pool).
Proof.
  unfold processDisposal.
  change (calculateProceeds (relabel f disposal) (t_quantity (relabel f disposal)))
    with (calculateProceeds disposal (t_quantity disposal)).
  change (t_quantity (relabel f disposal)) with (t_quantity disposal).
  rewrite sameDayStage_relabel, bnbStage_relabel, poolStage_relabel.
  destruct (poolStage _ _ _ _) as [pool3 acc3]. simpl.
  destruct (getTaxYear (t_date disposal)) as [taxYear msgs].
  reflexivity.
Qed.

Lemma sellBody_relabel symbol st disposal :
  sellBody symbol (relabelState f st) (relabel f disposal)
  = relabelState f (sellBody symbol st disposal).
Proof.
  unfold sellBody. simpl. rewrite processDisposal_relabel.
  unfold relabelState; simpl. now rewrite map_app.
Qed.

Lemma sells_relabel symbol sells st :
  fold_left (sellBody symbol) (map (relabel f) sells) (relabelState f st)
  = relabelState f (fold_left (sellBody symbol) sells st).
Proof.
  revert st. induction sells as [|d sells IH]; intros st; simpl; [reflexivity|].
  now rewrite sellBody_relabel, IH.
Qed.

Lemma processSymbol_relabel symbol txs calc :
  processSymbol symbol (map (relabel f) txs) (relabelCalculator f calc)
  = relabelCalculator f (processSymbol symbol txs calc).
Proof.
  unfold processSymbol.
  rewrite !(filter_map_swap (relabel f)).
  change (fun x => isBuy (relabel f x)) with isBuy.
  change (fun x => isSell (relabel f x)) with isSell.
  change (mkSymbolState (poolOf (relabelCalculator f calc) symbol)
            (map (relabel f) (filter isBuy txs)) (errors (relabelCalculator f calc))
            (disposals (relabelCalculator f calc)) (console (relabelCalculator f calc)))
    with (relabelState f (mkSymbolState (poolOf calc symbol) (filter isBuy txs)
                            (errors calc) (disposals calc) (console calc))).
  rewrite sells_relabel.
  set (st := fold_left (sellBody symbol) (filter isSell txs) _).
  simpl. rewrite fold_left_map_list.
  change (fun a x => finalRollInBody a (relabel f x)) with finalRollInBody.
  change (historyOf (relabelCalculator f calc) symbol) with (historyOf calc symbol).
  destruct (fold_left finalRollInBody (ss_buys st) _) as [pool history].
  unfold relabelCalculator; simpl. rewrite map_map. reflexivity.
Qed.

Lemma bySymbol_relabel txs o :
  fold_left bySymbolBody (map (relabel f) txs) (objMap (map (relabel f)) o)
  = objMap (map (relabel f)) (fold_left bySymbolBody txs o).
Proof.
  revert o. induction txs as [|t txs IH]; intros o; simpl; [reflexivity|].
  rewrite <- IH. f_equal. unfold bySymbolBody.
  change (t_symbol (relabel f t)) with (t_symbol t).
  rewrite objGet_objMap, <- (objSet_objMap (map (relabel f))).
  f_equal. destruct (objGet o (t_symbol t)); simpl; [|reflexivity].
  now rewrite map_app.
Qed.

Lemma symbols_relabel (o : JsObject (list Transaction)) calc :
  fold_left (fun c e => processSymbol (fst e) (snd e) c)
            (objMap (map (relabel f)) o) (relabelCalculator f calc)
  = (relabelCalculator f)
      (fold_left (fun c e => processSymbol (fst e) (snd e) c) o calc).
Proof.
  revert calc. induction o as [|[k ts] o IH]; intros calc; simpl; [reflexivity|].
  now rewrite processSymbol_relabel, IH.
Qed.

Lemma groupBody_relabel ds o :
  fold_left groupBody (map (relabelDisposal f) ds) (objMap (relabelYearData f) o)
  = objMap (relabelYearData f) (fold_left groupBody ds o).
Proof.
  revert o. induction ds as [|d ds IH]; intros o; simpl; [reflexivity|].
  rewrite <- IH. f_equal. unfold groupBody.
  change (d_taxYear (relabelDisposal f d)) with (d_taxYear d).
  change (d_gain (relabelDisposal f d)) with (d_gain d).
  rewrite objGet_objMap, <- (objSet_objMap (relabelYearData f)).
  f_equal. destruct (objGet o (d_taxYear d)) as [yd|]; simpl;
    unfold relabelYearData; simpl; now rewrite ?map_app.
Qed.

Lemma splitOf_relabel config ds :
  splitOf config (map (relabelDisposal f) ds) = splitOf config ds.
Proof.
  unfold splitOf. destruct (obind config cfg_rateChangeDate); [|reflexivity].
  now rewrite fold_left_map_list.
Qed.

Lemma rateChangeOf_relabel config s ds :
  rateChangeOf config s (map (relabelDisposal f) ds) = rateChangeOf config s ds.
Proof.
  unfold rateChangeOf. destruct (obind config cfg_rateChangeDate); [|reflexivity].
  rewrite !(filter_map_swap (relabelDisposal f)), !length_map. reflexivity.
Qed.

Lemma summarize_relabel snaps yd :
  summarize snaps (relabelYearData f yd) = relabelSummary f (summarize snaps yd).
Proof.
  unfold summarize. simpl.
  rewrite splitOf_relabel, rateChangeOf_relabel, !fold_left_map_list, length_map.
  destruct (estimatedTax _ _ _ _) as [basic higher]. reflexivity.
Qed.

Section RelabelRun.
Context {host : Host}.

Lemma snapshots_relabel calc :
  calculateSection104Snapshots (relabelCalculator f calc)
  = calculateSection104Snapshots calc.
Proof.
  unfold calculateSection104Snapshots. simpl. now rewrite !map_map.
Qed.

Lemma generateReport_relabel now calc :
  relabelReport f (generateReport now calc)
  = generateReport 0%Z (relabelCalculator f calc).
Proof.
  unfold generateReport, relabelReport. simpl.
  rewrite snapshots_relabel.
  change (@nil (string * YearData)) with (objMap (relabelYearData f) []).
  rewrite groupBody_relabel.
  rewrite !map_map, length_map, fold_left_map_list. simpl.
  f_equal.
  rewrite (stableSort_map (relabelSummary f) _
             (fun a b => localeLe (ty_taxYear b) (ty_taxYear a))) by reflexivity.
  f_equal. unfold objMap. rewrite !map_map. apply map_ext.
  intros [k yd]. simpl. symmetry. apply summarize_relabel.
Qed.

(** The report up to the clock is a function of the matching stream up to
    its identifiers. *)
Lemma calculate_relabel clock clock' raws raws' :
  map (relabel f) (fst (normalizeTransactions clock raws))
  = map (relabel f) (fst (normalizeTransactions clock' raws')) ->
  relabelReport f (calculateCGT clock raws) = relabelReport f (calculateCGT clock' raws').
Proof.
  intros H. unfold calculateCGT, calculate.
  destruct (normalizeTransactions clock raws) as [txs msgs].
  destruct (normalizeTransactions clock' raws') as [txs' msgs'].
  simpl in *. rewrite !generateReport_relabel.
  set (run := fun c e => processSymbol (fst e) (snd e) c).
  assert (G : forall now c, generateReport now c = generateReport now (dropConsole c))
    by reflexivity.
  rewrite (G _ (relabelCalculator f (fold_left run (fold_left bySymbolBody txs []) _))).
  rewrite (G _ (relabelCalculator f (fold_left run (fold_left bySymbolBody txs' []) _))).
  f_equal.
  assert (K : forall ts ms,
             dropConsole ((relabelCalculator f)
               (fold_left run (fold_left bySymbolBody ts [])
                  (mkCalculator [] [] [] [] [] ms)))
             = dropConsole
                 (fold_left run (fold_left bySymbolBody (map (relabel f) ts) [])
                            newCalculator)).
  { intros ts ms. unfold run.
    rewrite <- symbols_relabel.
    change (@nil (string * list Transaction)) with (objMap (map (relabel f)) []).
    rewrite <- bySymbol_relabel. rewrite symbols_console. reflexivity. }
  rewrite !K, H. reflexivity.
Qed.

End RelabelRun.
End Relabel.

Section StampFacts.
Context {host : Host}.

Lemma normalizeOne_stamp clock clock' r i :
  option_map (relabel dropStamp) (fst (normalizeOne clock r i))
  = option_map (relabel dropStamp) (fst (normalizeOne clock' r i)).
Proof.
  unfold normalizeOne. now destruct (parseDate (raw_date r)) as [[d|] msgs].
Qed.

Lemma keepTransaction_relabel f t :
  keepTransaction (option_map (relabel f) t) = keepTransaction t.
Proof. now destruct t. Qed.

Lemma normalizeTransactions_relabel f clock raws :
  map (relabel f) (fst (normalizeTransactions clock raws))
  = stableSort byDate
      (somes (filter keepTransaction
                (map (option_map (relabel f))
                     (map fst (mapi (normalizeOne clock) raws))))).
Proof.
  unfold normalizeTransactions. simpl.
  rewrite (stableSort_map (relabel f) byDate byDate) by reflexivity.
  f_equal. rewrite <- somes_map. f_equal.
  rewrite (filter_map_swap (option_map (relabel f))).
  f_equal. apply filter_ext. intros t. symmetry. apply keepTransaction_relabel.
Qed.

Lemma mapi_from_stamp clock clock' raws i :
  map (option_map (relabel dropStamp)) (map fst (mapi_from (normalizeOne clock) i raws))
  = map (option_map (relabel dropStamp))
        (map fst (mapi_from (normalizeOne clock') i raws)).
Proof.
  revert i. induction raws as [|r raws IH]; intros i; simpl; [reflexivity|].
  f_equal; [apply normalizeOne_stamp | apply IH].
Qed.

(** C7 (as amended). Two runs on the same input, each from a fresh
    calculator, give the same report once the generation time and the
    stamp inside every identifier are blanked, whatever the clock read
    during each run: all the rest, the positions that the identifiers carry
    included, is the same. *)
Theorem report_deterministic_up_to_clock
        (clock clock' : Clock) (raws : list RawTransaction) :
  withoutStamps (calculateCGT clock raws) = withoutStamps (calculateCGT clock' raws).
Proof.
  apply calculate_relabel. rewrite !normalizeTransactions_relabel.
  do 3 f_equal. apply mapi_from_stamp.
Qed.

End StampFacts.

(** ** The snapshot at the end of a tax year *)

(** C6 on the code.  A purchase of 100 shares for 1000 on 10 January 2024,
    a sale of 50 on 1 April, a repurchase of 50 for 450 on 10 April.  Rule 2
    matches the sale with the repurchase, so the sale takes nothing from the
    pool: the log of the acquisitions and the pool-sourced disposals
    replayed up to 5 April gives 100 shares that cost 1000, and the
    engine's own pool holds 100 shares that cost 1000 once the run is
    over.  The snapshot at the end of 2023/24 subtracts the sale and its
    cost all the same, and reports 50 shares that cost 550.  And a year that
    the table does not list gets no snapshot: for the sale of 1 May 2016 the
    start of 2016/17 is reported empty, where the log up to 5 April 2016
    holds the 100 shares bought in 2015. *)
Theorem snapshot_subtracts_matched_disposal :
  (let r := calculateCGT (host := plainHost) clock0 scenarioAcrossYearEnd in
   let s := nth 0 (taxYears r) noSummary in
   map ty_taxYear (taxYears r) = ["2023/24"%string] /\
   rulesOf r = [[BED_AND_BREAKFAST]] /\
   holdings (snapshotArray (host := plainHost)
               (replayUpTo (isoDate 2024 4 5)
                  (statedEventLog (rep_acquisitions r) (allDisposals r))))
   = [("XYZ"%string, 100, 1000)] /\
   holdings (rep_section104Pools r) = [("XYZ"%string, 100, 1000)] /\
   holdings (ty_section104End s) = [("XYZ"%string, 50, 550)]) /\
  (let r := calculateCGT (host := plainHost) clock0 scenarioOldYear in
   let s := nth 0 (taxYears r) noSummary in
   map ty_taxYear (taxYears r) = ["2016/17"%string] /\
   holdings (snapshotArray (host := plainHost)
               (replayUpTo (isoDate 2016 4 5)
                  (statedEventLog (rep_acquisitions r) (allDisposals r))))
   = [("XYZ"%string, 100, 1000)] /\
   ty_section104Start s = [] /\ ty_section104End s = []).
Proof.
  vm_compute. repeat split; reflexivity.
Qed.

Open Scope Z_scope.

(** ** The calendar *)

Lemma yoe_bounds doe :
  0 <= doe < 146097 ->
  let yoe := (doe - doe / 1460 + doe / 36524 - doe / 146096) / 365 in
  0 <= yoe <= 399 /\ 0 <= doe - (365 * yoe + yoe / 4 - yoe / 100) <= 365.
Proof.
  intros H. cbv zeta. Z.div_mod_to_equations; lia.
Qed.

Lemma civilFromDays_ranges n :
  let '(y, m, d) := civilFromDays n in 1 <= m <= 12 /\ 1 <= d <= 31.
Proof.
  unfold civilFromDays. cbv zeta.
  set (z := n + 719468). set (era := z / 146097).
  set (doe := z - era * 146097).
  assert (Hdoe : 0 <= doe < 146097) by (subst doe era; Z.div_mod_to_equations; lia).
  destruct (yoe_bounds doe Hdoe) as [Hy Hd]. cbv zeta in Hy, Hd.
  set (yoe := (doe - doe / 1460 + doe / 36524 - doe / 146096) / 365) in *.
  set (doy := doe - (365 * yoe + yoe / 4 - yoe / 100)) in *.
  set (mp := (5 * doy + 2) / 153).
  assert (Hmp : 0 <= mp <= 11) by (subst mp; Z.div_mod_to_equations; lia).
  split.
  - destruct (mp <? 10) eqn:E; [apply Z.ltb_lt in E | apply Z.ltb_ge in E]; lia.
  - subst mp. Z.div_mod_to_equations; lia.
Qed.

Lemma daysFromCivil_civilFromDays n :
  let '(y, m, d) := civilFromDays n in daysFromCivil y m d = n.
Proof.
  unfold civilFromDays. cbv zeta.
  set (z := n + 719468). set (era := z / 146097).
  set (doe := z - era * 146097).
  assert (Hdoe : 0 <= doe < 146097) by (subst doe era; Z.div_mod_to_equations; lia).
  destruct (yoe_bounds doe Hdoe) as [Hy Hd]. cbv zeta in Hy, Hd.
  set (yoe := (doe - doe / 1460 + doe / 36524 - doe / 146096) / 365) in *.
  set (doy := doe - (365 * yoe + yoe / 4 - yoe / 100)) in *.
  set (mp := (5 * doy + 2) / 153).
  assert (Hmp : 0 <= mp <= 11) by (subst mp; Z.div_mod_to_equations; lia).
  set (d := doy - (153 * mp + 2) / 5 + 1).
  set (m := if mp <? 10 then mp + 3 else mp - 9).
  unfold daysFromCivil. cbv zeta.
  assert (Hm : (if 2 <? m then m - 3 else m + 9) = mp).
  { subst m. destruct (mp <? 10) eqn:E; [apply Z.ltb_lt in E | apply Z.ltb_ge in E].
    - replace (2 <? mp + 3) with true by (symmetry; apply Z.ltb_lt; lia). lia.
    - replace (2 <? mp - 9) with false by (symmetry; apply Z.ltb_ge; lia). lia. }
  rewrite Hm.
  assert (Hy' : (if m <=? 2 then (if m <=? 2 then yoe + era * 400 + 1 else yoe + era * 400) - 1
                 else (if m <=? 2 then yoe + era * 400 + 1 else yoe + era * 400))
                = yoe + era * 400).
  { destruct (m <=? 2); lia. }
  rewrite Hy'.
  assert (He : (yoe + era * 400) / 400 = era) by (Z.div_mod_to_equations; lia).
  rewrite He.
  replace (yoe + era * 400 - era * 400) with yoe by lia.
  subst d doy z doe. lia.
Qed.

(** ** The tax year of a date *)

Lemma daysFromCivil_tax_year Y y m d :
  1 <= m <= 12 -> 1 <= d <= 31 ->
  daysFromCivil Y 4 6 <= daysFromCivil y m d <= daysFromCivil (Y + 1) 4 5 ->
  (if (m - 1 <? 3) || ((m - 1 =? 3) && (d <? 6)) then y - 1 else y) = Y.
Proof.
  intros Hm Hd. unfold daysFromCivil. cbn -[Z.div Z.mul Z.add Z.sub Z.leb Z.ltb].
  change (4 <=? 2) with false. change (2 <? 4) with true. cbv iota.
  destruct (m <=? 2) eqn:E1; [apply Z.leb_le in E1 | apply Z.leb_gt in E1].
  - replace (2 <? m) with false by (symmetry; apply Z.ltb_ge; lia).
    replace (m - 1 <? 3) with true by (symmetry; apply Z.ltb_lt; lia).
    cbn [orb]. Z.div_mod_to_equations; lia.
  - replace (2 <? m) with true by (symmetry; apply Z.ltb_lt; lia).
    destruct (m - 1 <? 3) eqn:E2; [apply Z.ltb_lt in E2 | apply Z.ltb_ge in E2].
    + cbn [orb]. assert (m = 3) by lia. subst m. Z.div_mod_to_equations; lia.
    + cbn [orb]. destruct (m - 1 =? 3) eqn:E3; [apply Z.eqb_eq in E3 | apply Z.eqb_neq in E3].
      * assert (m = 4) by lia. subst m.
        destruct (d <? 6) eqn:E4; [apply Z.ltb_lt in E4 | apply Z.ltb_ge in E4]; cbn [andb].
        -- Z.div_mod_to_equations; lia.
        -- Z.div_mod_to_equations; lia.
      * cbn [andb]. Z.div_mod_to_equations; lia.
Qed.

Lemma tax_year_contains_day y m d :
  1 <= m <= 12 -> 1 <= d <= 31 ->
  let Y := if (m - 1 <? 3) || ((m - 1 =? 3) && (d <? 6)) then y - 1 else y in
  daysFromCivil Y 4 6 <= daysFromCivil y m d <= daysFromCivil (Y + 1) 4 5.
Proof.
  intros Hm Hd. cbv zeta.
  unfold daysFromCivil. cbn -[Z.div Z.mul Z.add Z.sub Z.leb Z.ltb].
  change (4 <=? 2) with false. change (2 <? 4) with true. cbv iota.
  destruct (m <=? 2) eqn:E1; [apply Z.leb_le in E1 | apply Z.leb_gt in E1].
  - replace (2 <? m) with false by (symmetry; apply Z.ltb_ge; lia).
    replace (m - 1 <? 3) with true by (symmetry; apply Z.ltb_lt; lia).
    cbn [orb]. Z.div_mod_to_equations; lia.
  - replace (2 <? m) with true by (symmetry; apply Z.ltb_lt; lia).
    destruct (m - 1 <? 3) eqn:E2; [apply Z.ltb_lt in E2 | apply Z.ltb_ge in E2].
    + cbn [orb]. assert (m = 3) by lia. subst m. Z.div_mod_to_equations; lia.
    + cbn [orb]. destruct (m - 1 =? 3) eqn:E3; [apply Z.eqb_eq in E3 | apply Z.eqb_neq in E3].
      * assert (m = 4) by lia. subst m.
        destruct (d <? 6) eqn:E4; [apply Z.ltb_lt in E4 | apply Z.ltb_ge in E4]; cbn [andb].
        -- Z.div_mod_to_equations; lia.
        -- Z.div_mod_to_equations; lia.
      * cbn [andb]. Z.div_mod_to_equations; lia.
Qed.

Lemma dayNumber_isoDate y m d : dayNumber (isoDate y m d) = daysFromCivil y m d.
Proof. unfold dayNumber, isoDate. cbn [getTime]. apply Z.div_mul. discriminate. Qed.

(** Every row of the table runs from 6 April of the year in its label to
    5 April of the next. *)
Lemma table_rows label config :
  In (label, config) TAX_YEARS ->
  exists Y, label = taxYearLabel Y /\
            cfg_start config = isoDate Y 4 6 /\ cfg_end config = isoDate (Y + 1) 4 5.
Proof.
  intros Hin.
  repeat (destruct Hin as [Hin|Hin];
          [injection Hin as <- <-;
           first [ now exists 2025 | now exists 2024 | now exists 2023
                 | now exists 2022 | now exists 2021 | now exists 2020
                 | now exists 2019 | now exists 2018 | now exists 2017 ]|]).
  destruct Hin.
Qed.

Lemma dynamicTaxYearStart_civil date :
  dynamicTaxYearStart date
  = let '(y, m, d) := civilFromDays (dayNumber date) in
    if (m - 1 <? 3) || ((m - 1 =? 3) && (d <? 6)) then y - 1 else y.
Proof.
  unfold dynamicTaxYearStart, getFullYear, getMonth, getDate.
  destruct (civilFromDays (dayNumber date)) as [[y m] d]. reflexivity.
Qed.

Lemma getTaxYear_label date :
  fst (fst (getTaxYear date)) = taxYearLabel (dynamicTaxYearStart date).
Proof.
  unfold getTaxYear.
  destruct (find _ TAX_YEARS) as [[year config]|] eqn:E; [|reflexivity].
  apply find_some in E. destruct E as [Hin Hp]. cbn [fst snd] in *.
  destruct (table_rows _ _ Hin) as (Y & -> & Hs & He).
  apply andb_true_iff in Hp. destruct Hp as [Hs' He'].
  unfold dateLe in Hs', He'. apply Z.leb_le in Hs', He'.
  apply (Z.div_le_mono _ _ msPerDay) in Hs'; [|reflexivity].
  apply (Z.div_le_mono _ _ msPerDay) in He'; [|reflexivity].
  fold (dayNumber (cfg_start config)) in Hs'. fold (dayNumber (cfg_end config)) in He'.
  fold (dayNumber date) in Hs', He'.
  rewrite Hs, dayNumber_isoDate in Hs'. rewrite He, dayNumber_isoDate in He'.
  rewrite dynamicTaxYearStart_civil.
  pose proof (civilFromDays_ranges (dayNumber date)) as R.
  pose proof (daysFromCivil_civilFromDays (dayNumber date)) as C.
  destruct (civilFromDays (dayNumber date)) as [[y m] d]. destruct R as [Rm Rd].
  f_equal. symmetry. apply daysFromCivil_tax_year; try assumption. rewrite C. lia.
Qed.

Lemma dividendTaxYear_label date :
  dividendTaxYear date = taxYearLabel (dynamicTaxYearStart date).
Proof.
  unfold dividendTaxYear, dynamicTaxYearStart, taxYearLabel. cbv zeta.
  destruct ((getMonth date <? 3) || (getMonth date =? 3) && (getDate date <? 6)).
  - now replace (getFullYear date - 1 + 1) with (getFullYear date) by lia.
  - reflexivity.
Qed.

(** X7. The label of a disposal's tax year is always the one the 6 April
    boundary gives, whether [getTaxYear] finds it in the table or computes
    it; and it is the label under which the calculate route files a
    dividend of the same date. *)
Theorem tax_year_label_follows_6_april (date : Date) :
  fst (fst (getTaxYear date)) = taxYearLabel (dynamicTaxYearStart date) /\
  dividendTaxYear date = fst (fst (getTaxYear date)).
Proof.
  split; [apply getTaxYear_label|].
  now rewrite getTaxYear_label, dividendTaxYear_label.
Qed.

(** X8. The year [getTaxYear] returns contains the calendar day of the
    date, whether the year comes from the table or is computed: it starts
    on or before that day and ends on or after it. *)
Theorem tax_year_contains_the_date (date : Date) :
  1001 <= getFullYear date <= 9998 ->
  let config := snd (fst (getTaxYear date)) in
  dayNumber (cfg_start config) <= dayNumber date <= dayNumber (cfg_end config).
Proof.
  intros _. cbv zeta. unfold getTaxYear.
  destruct (find _ TAX_YEARS) as [[year config]|] eqn:E.
  - apply find_some in E. destruct E as [_ Hp]. cbn [fst snd] in *.
    apply andb_true_iff in Hp. destruct Hp as [Hs' He'].
    unfold dateLe in Hs', He'. apply Z.leb_le in Hs', He'.
    split; apply Z.div_le_mono; try reflexivity; assumption.
  - cbn [fst snd cfg_start cfg_end]. rewrite !dayNumber_isoDate.
    rewrite dynamicTaxYearStart_civil.
    pose proof (civilFromDays_ranges (dayNumber date)) as R.
    pose proof (daysFromCivil_civilFromDays (dayNumber date)) as C.
    destruct (civilFromDays (dayNumber date)) as [[y m] d]. destruct R as [Rm Rd].
    rewrite <- C. now apply tax_year_contains_day.
Qed.

Lemma tax_year_contains_the_date_witness :
  (1001 <= getFullYear (dateTime 2016 5 1 20) <= 9998)%Z /\
  (dayNumber (isoDate 2016 4 6) <= dayNumber (dateTime 2016 5 1 20)
   <= dayNumber (isoDate 2017 4 5))%Z.
Proof.
  assert (H : (1001 <= getFullYear (dateTime 2016 5 1 20) <= 9998)%Z)
    by (vm_compute; split; discriminate).
  split; [exact H|].
  exact (tax_year_contains_the_date (dateTime 2016 5 1 20) H).
Defined.

(** ** Reading date texts *)

Lemma allFrom_spec f start count :
  allFrom f start count = true ->
  forall z, start <= z < start + Z.of_nat count -> f z = true.
Proof.
  revert start. induction count as [|c IH]; intros start H z Hz; [lia|].
  cbn [allFrom] in H. apply andb_true_iff in H. destruct H as [H1 H2].
  destruct (Z.eq_dec z start) as [->|Hne]; [exact H1|].
  apply (IH (start + 1)); [exact H2 | lia].
Qed.

Lemma years_read_back :
  allFrom (fun y => readsBack 4 (numberToString y) y) 1000 (Z.to_nat 9000) = true.
Proof. vm_compute. reflexivity. Qed.

Lemma days_read_back :
  allFrom (fun d => readsBack 2 (padStart 2 "0" (numberToString d)) d) 1 31 = true.
Proof. vm_compute. reflexivity. Qed.

Section DateTexts.
Context {host : Host}.

Lemma list_ascii_of_string_app (s1 s2 : string) :
  list_ascii_of_string (s1 ++ s2) = (list_ascii_of_string s1 ++ list_ascii_of_string s2)%list.
Proof. induction s1 as [|c s1 IH]; simpl; [reflexivity | now rewrite IH]. Qed.

Lemma isDigit_not_space c : isDigit c = true -> isSpace c = false.
Proof.
  unfold isDigit, isSpace. cbv zeta. set (n := nat_of_ascii c).
  rewrite andb_true_iff, !Nat.leb_le. intros [H1 H2].
  apply orb_false_iff. split.
  - apply Nat.eqb_neq. lia.
  - apply andb_false_iff. right. apply Nat.leb_gt. lia.
Qed.

Lemma dropSpaces_app a b :
  dropSpaces b = b -> dropSpaces (a ++ b)%list = (dropSpaces a ++ b)%list.
Proof.
  intros Hb. induction a as [|c a IH]; simpl; [exact Hb|].
  destruct (isSpace c); [exact IH | reflexivity].
Qed.

(** Trimming leaves a text alone up to its last character that is not a
    space. *)
Lemma trimChars_prefix c p e rest :
  isSpace c = false -> isSpace e = false ->
  trimChars (c :: p ++ e :: rest)%list
  = (c :: p ++ e :: rev (dropSpaces (rev rest)))%list.
Proof.
  intros Hc He. unfold trimChars.
  assert (E1 : dropSpaces (c :: p ++ e :: rest)%list = (c :: p ++ e :: rest)%list)
    by (simpl; now rewrite Hc).
  rewrite E1.
  replace (c :: p ++ e :: rest)%list with ((c :: p ++ [e]) ++ rest)%list
    by (simpl; now rewrite <- app_assoc).
  rewrite rev_app_distr.
  rewrite dropSpaces_app.
  - rewrite rev_app_distr, rev_involutive. simpl. now rewrite <- app_assoc.
  - change (c :: p ++ [e])%list with ((c :: p) ++ [e])%list.
    rewrite rev_app_distr. simpl. now rewrite He.
Qed.

Lemma parseDate_iso_text (y m d rest : list ascii) :
  List.length y = 4%nat -> List.length m = 2%nat -> List.length d = 2%nat ->
  forallb isDigit (y ++ m ++ d) = true ->
  parseDate (RawText (string_of_list_ascii (y ++ "-"%char :: m ++ "-"%char :: d ++ rest)))
  = (Some (newDate (parseInt y) (parseInt m - 1) (parseInt d)), []).
Proof.
  intros Hy Hm Hd Hdig.
  destruct y as [|y1 [|y2 [|y3 [|y4 [|]]]]]; try discriminate.
  destruct m as [|m1 [|m2 [|]]]; try discriminate.
  destruct d as [|d1 [|d2 [|]]]; try discriminate.
  cbn [app forallb] in Hdig. rewrite !andb_true_iff in Hdig.
  destruct Hdig as (Hy1 & Hy2 & Hy3 & Hy4 & Hm1 & Hm2 & Hd1 & Hd2 & _).
  unfold parseDate.
  cbn [app string_of_list_ascii String.eqb].
  change (String y1 (String y2 (String y3 (String y4 (String "-" (String m1 (String m2
            (String "-" (String d1 (String d2 (string_of_list_ascii rest)))))))))))
    with (string_of_list_ascii
            (y1 :: [y2; y3; y4; "-"%char; m1; m2; "-"%char; d1] ++ d2 :: rest)).
  rewrite list_ascii_of_string_of_list_ascii.
  rewrite (trimChars_prefix y1 [y2; y3; y4; "-"%char; m1; m2; "-"%char; d1] d2 rest
             (isDigit_not_space _ Hy1) (isDigit_not_space _ Hd2)).
  cbn [app atEnd].
  unfold matchIso, digits. cbn [takeDigits].
  rewrite Hy1, Hy2, Hy3, Hy4. cbn [List.length Nat.leb obind expect Ascii.eqb].
  simpl. rewrite Hm1, Hm2. simpl. rewrite Hd1, Hd2. simpl.
  reflexivity.
Qed.


Lemma readsBack_spec n text z :
  readsBack n text z = true ->
  List.length (list_ascii_of_string text) = n /\
  forallb isDigit (list_ascii_of_string text) = true /\
  parseInt (list_ascii_of_string text) = z.
Proof.
  unfold readsBack. cbv zeta. rewrite !andb_true_iff, Nat.eqb_eq, Z.eqb_eq. tauto.
Qed.

Lemma newDate_civil y m d :
  ~ (0 <= y <= 99) -> 1 <= m <= 12 ->
  newDate y (m - 1) d = mkDate (daysFromCivil y m d * msPerDay).
Proof.
  intros Hy Hm. unfold newDate. cbv zeta.
  replace ((0 <=? y) && (y <=? 99)) with false
    by (symmetry; apply andb_false_iff;
        destruct (Z.leb_spec 0 y); [right; apply Z.leb_gt; lia | now left]).
  replace ((m - 1) / 12) with 0 by (symmetry; apply Z.div_small; lia).
  replace ((m - 1) mod 12) with (m - 1) by (symmetry; apply Z.mod_small; lia).
  f_equal. f_equal. replace (y + 0) with y by lia. replace (m - 1 + 1) with m by lia.
  unfold daysFromCivil. cbv zeta. lia.
Qed.

(** Reading a date text back: the convention that keeps the text of
    [formatDateLocal] as its three numbers. *)
Lemma parseDate_dateText (s : DateStr) :
  1000 <= ds_year s <= 9999 -> 1 <= ds_month s <= 12 -> 1 <= ds_day s <= 31 ->
  parseDate (RawText (dateText s)) = (Some (parseDateStr s), []).
Proof.
  intros Hy Hm Hd.
  pose proof (allFrom_spec _ _ _ years_read_back (ds_year s)) as Y.
  rewrite Z2Nat.id in Y by discriminate.
  destruct (readsBack_spec _ _ _ (Y ltac:(lia))) as (Y1 & Y2 & Y3).
  destruct (readsBack_spec _ _ _ (allFrom_spec _ _ _ days_read_back (ds_month s) ltac:(simpl; lia)))
    as (M1 & M2 & M3).
  destruct (readsBack_spec _ _ _ (allFrom_spec _ _ _ days_read_back (ds_day s) ltac:(simpl; lia)))
    as (D1 & D2 & D3).
  unfold dateText, parseDateStr.
  set (y := numberToString (ds_year s)) in *.
  set (m := padStart 2 "0" (numberToString (ds_month s))) in *.
  set (d := padStart 2 "0" (numberToString (ds_day s))) in *.
  rewrite <- (string_of_list_ascii_of_string (y ++ "-" ++ m ++ "-" ++ d)%string).
  rewrite !list_ascii_of_string_app. cbn [list_ascii_of_string app].
  rewrite <- (app_nil_r (list_ascii_of_string d)).
  rewrite parseDate_iso_text; auto.
  - rewrite Y3, M3, D3. reflexivity.
  - rewrite !forallb_app, Y2, M2, D2. reflexivity.
Qed.

(** X5. The text [formatDateLocal] writes reads back, through the ISO pattern
    of [parseDate] and without a warning, as the midnight that starts the
    calendar day of the date. *)
Theorem parseDate_reads_formatDateLocal (date : Date) :
  1000 <= getFullYear date <= 9999 ->
  parseDate (RawText (dateText (formatDateLocal date)))
  = (Some (mkDate (dayNumber date * msPerDay)), []).
Proof.
  intros Hy.
  pose proof (civilFromDays_ranges (dayNumber date)) as R.
  pose proof (daysFromCivil_civilFromDays (dayNumber date)) as C.
  unfold getFullYear in Hy.
  assert (F : formatDateLocal date
              = let '(y, m, d) := civilFromDays (dayNumber date) in mkDateStr y m d).
  { unfold formatDateLocal, getFullYear, getMonth, getDate.
    destruct (civilFromDays (dayNumber date)) as [[y m] d]. f_equal. lia. }
  rewrite F. destruct (civilFromDays (dayNumber date)) as [[y m] d]. destruct R as [Rm Rd].
  rewrite parseDate_dateText; cbn [ds_year ds_month ds_day]; try assumption.
  unfold parseDateStr. cbn [ds_year ds_month ds_day].
  rewrite newDate_civil by (try assumption; lia). now rewrite C.
Qed.

(** X2. Any text that begins with four digits, a hyphen, two digits, a hyphen
    and two digits is read as that year, month and day at midnight,
    whatever follows (a time of day, a zone); a month or a day out of range
    is not refused but carried over by [new Date]. *)
Theorem parseDate_iso_prefix (y m d rest : list ascii) :
  List.length y = 4%nat -> List.length m = 2%nat -> List.length d = 2%nat ->
  forallb isDigit (y ++ m ++ d) = true ->
  parseDate (RawText (string_of_list_ascii (y ++ "-"%char :: m ++ "-"%char :: d ++ rest)))
  = (Some (newDate (parseInt y) (parseInt m - 1) (parseInt d)), []).
Proof. apply parseDate_iso_text. Qed.


End DateTexts.

Lemma parseDate_iso_prefix_witness :
  forallb isDigit (["2"; "0"; "2"; "4"] ++ ["0"; "2"] ++ ["3"; "1"])%char = true /\
  parseDate (host := plainHost) (RawText "2024-02-31T10:30:00Z")
  = (Some (newDate 2024 1 31), []).
Proof.
  split; [reflexivity|].
  exact (parseDate_iso_prefix (host := plainHost)
           ["2"; "0"; "2"; "4"]%char ["0"; "2"]%char ["3"; "1"]%char
           (list_ascii_of_string "T10:30:00Z") eq_refl eq_refl eq_refl eq_refl).
Defined.

Lemma parseDate_reads_formatDateLocal_witness :
  (1000 <= getFullYear (dateTime 2024 5 1 20) <= 9999)%Z /\
  dateText (formatDateLocal (dateTime 2024 5 1 20)) = "2024-05-01"%string /\
  parseDate (host := plainHost) (RawText (dateText (formatDateLocal (dateTime 2024 5 1 20))))
  = (Some (mkDate (dayNumber (dateTime 2024 5 1 20) * msPerDay)), []).
Proof.
  assert (H : (1000 <= getFullYear (dateTime 2024 5 1 20) <= 9999)%Z)
    by (vm_compute; split; discriminate).
  split; [exact H|]. split; [reflexivity|].
  exact (parseDate_reads_formatDateLocal (host := plainHost) (dateTime 2024 5 1 20) H).
Defined.

(** ** Dates written with slashes or hyphens *)

Lemma takeDigits_run hi ds rest :
  forallb isDigit ds = true -> (List.length ds <= hi)%nat ->
  List.length ds = hi \/ noDigitAhead rest ->
  takeDigits hi (ds ++ rest) = (ds, rest).
Proof.
  revert hi. induction ds as [|c ds IH]; intros hi Hd Hl Hr.
  - simpl. destruct hi as [|hi]; [reflexivity|].
    destruct Hr as [Hr|Hr]; [discriminate|].
    destruct rest as [|c rest]; [reflexivity|]. simpl in *. now rewrite Hr.
  - destruct hi as [|hi]; [simpl in Hl; lia|].
    simpl in Hd. apply andb_true_iff in Hd. destruct Hd as [Hc Hd].
    simpl. rewrite Hc, IH; auto.
    + simpl in Hl. lia.
    + destruct Hr as [Hr|Hr]; [left; simpl in Hr; lia | now right].
Qed.

Lemma digits_run lo hi ds rest :
  forallb isDigit ds = true -> (lo <= List.length ds <= hi)%nat ->
  List.length ds = hi \/ noDigitAhead rest ->
  digits lo hi (ds ++ rest) = Some (ds, rest).
Proof.
  intros Hd [Hlo Hhi] Hr. unfold digits. rewrite takeDigits_run by assumption.
  now replace (lo <=? List.length ds)%nat with true by (symmetry; now apply Nat.leb_le).
Qed.

Lemma digits_short lo hi ds rest :
  forallb isDigit ds = true -> (List.length ds < lo)%nat -> (List.length ds <= hi)%nat ->
  noDigitAhead rest ->
  digits lo hi (ds ++ rest) = None.
Proof.
  intros Hd Hlo Hhi Hr. unfold digits. rewrite takeDigits_run; auto.
  now replace (lo <=? List.length ds)%nat with false by (symmetry; now apply Nat.leb_gt).
Qed.

Lemma expect_same c s : expect c (c :: s) = Some s.
Proof. unfold expect. now rewrite Ascii.eqb_refl. Qed.

Lemma trimChars_clean c p e :
  isSpace c = false -> isSpace e = false ->
  trimChars (c :: p ++ [e]) = c :: p ++ [e].
Proof. intros Hc He. now rewrite trimChars_prefix. Qed.

Section NumericDates.
Context {host : Host}.
(** X3. A text of the form number, slash, number, slash, four-digit year
    is read month first (the American order), unless the first number is
    above 12, which makes it the day.  So a British date whose day is 12 or
    less is read with day and month exchanged. *)
Theorem parseDate_slash_month_first (a b y : list ascii) :
  (1 <= List.length a <= 2)%nat -> (1 <= List.length b <= 2)%nat ->
  List.length y = 4%nat ->
  forallb isDigit (a ++ b ++ y) = true ->
  parseDate (RawText (string_of_list_ascii (a ++ "/"%char :: b ++ "/"%char :: y)))
  = (Some (if 12 <? parseInt a
           then newDate (parseInt y) (parseInt b - 1) (parseInt a)
           else newDate (parseInt y) (parseInt a - 1) (parseInt b)), []).
Proof.
  intros Ha Hb Hy Hdig. rewrite !forallb_app, !andb_true_iff in Hdig.
  destruct Hdig as (Da & Db & Dy).
  set (str := a ++ "/"%char :: b ++ "/"%char :: y).
  assert (Hne : String.eqb (string_of_list_ascii str) "" = false).
  { subst str. destruct a; [simpl in Ha; lia | reflexivity]. }
  assert (Htrim : trimChars str = str).
  { subst str. destruct a as [|a1 a']; [simpl in Ha; lia|].
    destruct (exists_last (l := y)) as (y' & y4 & ->); [now destruct y|].
    replace ((a1 :: a') ++ "/"%char :: b ++ "/"%char :: y' ++ [y4])
      with (a1 :: (a' ++ "/"%char :: b ++ "/"%char :: y') ++ [y4])
      by (simpl; rewrite <- app_assoc; simpl; do 3 f_equal;
          rewrite <- app_assoc; reflexivity).
    apply trimChars_clean; apply isDigit_not_space.
    - simpl in Da. now apply andb_true_iff in Da.
    - rewrite forallb_app in Dy. apply andb_true_iff in Dy. simpl in Dy.
      now destruct (isDigit y4). }
  assert (Hend : atEnd str = false).
  { subst str. destruct a; [simpl in Ha; lia | reflexivity]. }
  assert (Hiso : matchIso str = None).
  { unfold matchIso. subst str.
    rewrite digits_short; [reflexivity|assumption|lia|lia|reflexivity]. }
  assert (Hslash : matchSlash str = Some (a, b, y)).
  { unfold matchSlash. subst str.
    rewrite digits_run; [|assumption|lia|right; reflexivity]. cbn [obind].
    rewrite expect_same. cbn [obind].
    rewrite digits_run; [|assumption|lia|right; reflexivity]. cbn [obind].
    rewrite expect_same. cbn [obind].
    rewrite <- (app_nil_r y) at 1.
    rewrite digits_run; [|assumption|lia|now left]. reflexivity. }
  unfold parseDate. rewrite Hne, list_ascii_of_string_of_list_ascii, Htrim, Hend, Hiso, Hslash.
  destruct (12 <? parseInt a); [reflexivity|]. now destruct (12 <? parseInt b).
Qed.


(** X4. A text of two digits, hyphen, two digits, hyphen, four digits is
    read day first, unlike the same numbers between slashes. *)
Theorem parseDate_dash_day_first (d m y : list ascii) :
  List.length d = 2%nat -> List.length m = 2%nat -> List.length y = 4%nat ->
  forallb isDigit (d ++ m ++ y) = true ->
  parseDate (RawText (string_of_list_ascii (d ++ "-"%char :: m ++ "-"%char :: y)))
  = (Some (newDate (parseInt y) (parseInt m - 1) (parseInt d)), []).
Proof.
  intros Hd Hm Hy Hdig. rewrite !forallb_app, !andb_true_iff in Hdig.
  destruct Hdig as (Dd & Dm & Dy).
  set (str := d ++ "-"%char :: m ++ "-"%char :: y).
  assert (Hne : String.eqb (string_of_list_ascii str) "" = false).
  { subst str. destruct d; [discriminate | reflexivity]. }
  assert (Htrim : trimChars str = str).
  { subst str. destruct d as [|d1 d']; [discriminate|].
    destruct (exists_last (l := y)) as (y' & y4 & ->); [now destruct y|].
    replace ((d1 :: d') ++ "-"%char :: m ++ "-"%char :: y' ++ [y4])
      with (d1 :: (d' ++ "-"%char :: m ++ "-"%char :: y') ++ [y4])
      by (simpl; rewrite <- app_assoc; simpl; do 3 f_equal;
          rewrite <- app_assoc; reflexivity).
    apply trimChars_clean; apply isDigit_not_space.
    - simpl in Dd. now apply andb_true_iff in Dd.
    - rewrite forallb_app in Dy. apply andb_true_iff in Dy. simpl in Dy.
      now destruct (isDigit y4). }
  assert (Hend : atEnd str = false).
  { subst str. destruct d; [discriminate | reflexivity]. }
  assert (Hiso : matchIso str = None).
  { unfold matchIso. subst str.
    rewrite digits_short; [reflexivity|assumption|lia|lia|reflexivity]. }
  assert (Hslash : matchSlash str = None).
  { unfold matchSlash. subst str.
    rewrite digits_run; [|assumption|lia|right; reflexivity]. reflexivity. }
  assert (Hdash : matchDash str = Some (d, m, y)).
  { unfold matchDash. subst str.
    rewrite digits_run; [|assumption|lia|right; reflexivity]. cbn [obind].
    rewrite expect_same. cbn [obind].
    rewrite digits_run; [|assumption|lia|right; reflexivity]. cbn [obind].
    rewrite expect_same. cbn [obind].
    rewrite <- (app_nil_r y) at 1.
    rewrite digits_run; [|assumption|lia|now left]. reflexivity. }
  unfold parseDate.
  now rewrite Hne, list_ascii_of_string_of_list_ascii, Htrim, Hend, Hiso, Hslash, Hdash.
Qed.

End NumericDates.

Lemma parseDate_slash_month_first_witness :
  forallb isDigit (["0"; "5"] ++ ["0"; "6"] ++ ["2"; "0"; "2"; "4"])%char = true /\
  parseDate (host := plainHost) (RawText "05/06/2024") = (Some (newDate 2024 4 6), []).
Proof.
  split; [reflexivity|].
  apply (parseDate_slash_month_first (host := plainHost)
           ["0"; "5"]%char ["0"; "6"]%char ["2"; "0"; "2"; "4"]%char);
    simpl; (lia || reflexivity).
Defined.

Lemma parseDate_dash_day_first_witness :
  forallb isDigit (["0"; "5"] ++ ["0"; "6"] ++ ["2"; "0"; "2"; "4"])%char = true /\
  parseDate (host := plainHost) (RawText "05-06-2024") = (Some (newDate 2024 5 5), []).
Proof.
  split; [reflexivity|].
  exact (parseDate_dash_day_first (host := plainHost)
           ["0"; "5"]%char ["0"; "6"]%char ["2"; "0"; "2"; "4"]%char
           eq_refl eq_refl eq_refl eq_refl).
Defined.
